(** * Focus Framework: layer tree, event bus, state builder and state stack engine

    A shallow embedding of [UILayerManager.ts], [utils/FocusEventBus.ts],
    [FocusState.ts], [FocusManager.ts] and the [PrefabUtil] of
    [utils/FocusLogger.ts].

    Conventions of the embedding.
    - A JavaScript object that is shared and mutated (a layer, the manager) is a
      record threaded through the functions that mutate it; a [Map] whose
      iteration order is observed is an association list in insertion order,
      a [Map] that is only looked up is a [gmap].
    - A closure written by the user (hook, handler, cleanup task) is opaque: it
      is a number (its identity, what [===] compares) and, where the code
      guards the call with [try], a flag telling whether this call throws.
      Calling it appends an event to the trace; it does not call back into the
      framework.
    - A closure written by the framework and stored in data (the combined hooks
      of [build], the chained hooks of [mergeConfigs], the cleanup task of
      [onContainer]) is a constructor, and a function of the embedding gives
      its behaviour.
    - [FMLog.log] and [console.error] append to the trace.
    - The promise of [switch], [push] or [pop] is an outcome: it resolves or
      it rejects, and either way the manager is in the state the call has
      left it in. An asynchronous hook of a builder is a computation that is
      suspended at its [await]s, so that other code can run in between. *)

From Stdlib Require Import ZArith Lia Bool.
From stdpp Require Import gmap strings list fin_maps pretty.

Local Open Scope string_scope.
Local Open Scope list_scope.

(** ** Shared data *)

Definition Payload := option string.

Record UserFn := { fn_id : nat; fn_throws : bool }.

Inductive Event :=
| EvLog (category title : string)
| EvConsoleError (message : string)
| EvCleanupTask (task : nat)
| EvBusHandler (handler : nat) (payload : Payload)
| EvStateEvent (callback : nat) (payload : Payload)
| EvKeyCallback (callback : nat) (key : string)
| EvSwitchListener (listener : nat) (newState : string) (oldState : option string)
| EvNextFrame
| EvFxExit (effect : nat) (fromState : option string) (toState : string) (durationMs : nat)
| EvFxEnter (effect : nat) (currentState : string) (previousState : option string) (durationMs : nat)
| EvEnterHook (owner : string) (payload : Payload)
| EvExitHook (owner : string) (nextState : string)
| EvUserEnter (hook : nat) (payload : Payload)
| EvUserExit (hook : nat) (nextState : string)
| EvInstantiate (instance : nat) (prefab : string)
| EvDestroy (instance : nat)
| EvAttachDelegated (layerName eventType selector : string) (callback : nat)
| EvAttachContainer (layerName eventType : string) (callback : nat)
| EvEnsureLayer (layerName : string).

(** A [Map<string, V>] in insertion order. *)
Fixpoint alist_get {V} (k : string) (m : list (string * V)) : option V :=
  match m with
  | [] => None
  | (k', v) :: tl => if String.eqb k k' then Some v else alist_get k tl
  end.

Definition alist_has {V} (k : string) (m : list (string * V)) : bool :=
  match alist_get k m with Some _ => true | None => false end.

Fixpoint alist_set {V} (k : string) (v : V) (m : list (string * V)) : list (string * V) :=
  match m with
  | [] => [(k, v)]
  | (k', v') :: tl =>
      if String.eqb k k' then (k, v) :: tl else (k', v') :: alist_set k v tl
  end.

Fixpoint alist_delete {V} (k : string) (m : list (string * V)) : list (string * V) :=
  match m with
  | [] => []
  | (k', v') :: tl =>
      if String.eqb k k' then tl else (k', v') :: alist_delete k tl
  end.

(** [{...a, ...b}] on objects used as dictionaries. *)
Definition obj_spread {V} (a b : list (string * V)) : list (string * V) :=
  fold_left (fun acc kv => alist_set (fst kv) (snd kv) acc) b a.

Definition str_mem (x : string) (xs : list string) : bool :=
  existsb (String.eqb x) xs.

(** [[...new Set(xs)]]: the first occurrence of each element, in order. *)
Fixpoint set_add_all (acc xs : list string) : list string :=
  match xs with
  | [] => acc
  | x :: tl => set_add_all (if str_mem x acc then acc else acc ++ [x]) tl
  end.

Definition array_of_set (xs : list string) : list string := set_add_all [] xs.

(** The double quote character, for the messages that quote a name with it. *)
Definition dquote : string := String (Ascii.ascii_of_nat 34) EmptyString.

(** ** UILayer *)

Module UILayer.

Record DelegatedListener := {
  eventType : string;
  selector : string;
  callback : nat
}.

(** What [this.element] holds as child nodes. *)
Inductive Node :=
| HtmlContent (html : string)
| TextContent (text : string)
| UserNode (node : nat)
| LayerContainer (layerName : string).

(** A cleanup task: the user's, or the closure [onContainer] registers. *)
Inductive Task :=
| UserTask (f : UserFn)
| ContainerCleanup (eventType : string) (callback : nat).

(** What a layer's methods touch outside the layer: the engine's DOM container
    ([RE.Runtime.rogueDOMContainer], [None] while it is not available) with
    the listeners on it, and the log. *)
Record Host := {
  rogueDOMContainer : option (list (string * nat));
  trace : list Event
}.

Record t := {
  name : string;
  parent : option string;
  children : list string;
  shown : bool;
  zIndex : option Z;
  childNodes : list Node;
  delegatedListeners : list DelegatedListener;
  masterHandlers : list (string * nat);
  elementListeners : list (string * nat);
  cleanupTasks : list Task;
  handlerSeq : nat
}.

Definition emit_event (e : Event) (h : Host) : Host :=
  {| rogueDOMContainer := rogueDOMContainer h; trace := trace h ++ [e] |}.

Definition with_container (c : option (list (string * nat))) (h : Host) : Host :=
  {| rogueDOMContainer := c; trace := trace h |}.

Definition with_shown (b : bool) (l : t) : t :=
  {| name := name l; parent := parent l; children := children l; shown := b;
     zIndex := zIndex l; childNodes := childNodes l;
     delegatedListeners := delegatedListeners l; masterHandlers := masterHandlers l;
     elementListeners := elementListeners l; cleanupTasks := cleanupTasks l;
     handlerSeq := handlerSeq l |}.

Definition with_childNodes (ns : list Node) (l : t) : t :=
  {| name := name l; parent := parent l; children := children l; shown := shown l;
     zIndex := zIndex l; childNodes := ns;
     delegatedListeners := delegatedListeners l; masterHandlers := masterHandlers l;
     elementListeners := elementListeners l; cleanupTasks := cleanupTasks l;
     handlerSeq := handlerSeq l |}.

Definition with_children (cs : list string) (l : t) : t :=
  {| name := name l; parent := parent l; children := cs; shown := shown l;
     zIndex := zIndex l; childNodes := childNodes l;
     delegatedListeners := delegatedListeners l; masterHandlers := masterHandlers l;
     elementListeners := elementListeners l; cleanupTasks := cleanupTasks l;
     handlerSeq := handlerSeq l |}.

Definition with_zIndex (z : option Z) (l : t) : t :=
  {| name := name l; parent := parent l; children := children l; shown := shown l;
     zIndex := z; childNodes := childNodes l;
     delegatedListeners := delegatedListeners l; masterHandlers := masterHandlers l;
     elementListeners := elementListeners l; cleanupTasks := cleanupTasks l;
     handlerSeq := handlerSeq l |}.

Definition with_cleanupTasks (ts : list Task) (l : t) : t :=
  {| name := name l; parent := parent l; children := children l; shown := shown l;
     zIndex := zIndex l; childNodes := childNodes l;
     delegatedListeners := delegatedListeners l; masterHandlers := masterHandlers l;
     elementListeners := elementListeners l; cleanupTasks := ts;
     handlerSeq := handlerSeq l |}.

Definition with_listeners (ds : list DelegatedListener) (ms es : list (string * nat))
    (seq : nat) (l : t) : t :=
  {| name := name l; parent := parent l; children := children l; shown := shown l;
     zIndex := zIndex l; childNodes := childNodes l;
     delegatedListeners := ds; masterHandlers := ms;
     elementListeners := es; cleanupTasks := cleanupTasks l;
     handlerSeq := seq |}.

(** [new UILayer(name, element, manager)] on the [div] of [createContainer]:
    [z] is its [style.zIndex], [None] when [createContainer] sets none. *)
Definition make (nm : string) (par : option string) (z : option Z) : t :=
  {| name := nm; parent := par; children := []; shown := true; zIndex := z;
     childNodes := []; delegatedListeners := []; masterHandlers := [];
     elementListeners := []; cleanupTasks := []; handlerSeq := 0 |}.

Definition show (l : t) : t := with_shown true l.
Definition hide (l : t) : t := with_shown false l.
Definition setZIndex (z : Z) (l : t) : t := with_zIndex (Some z) l.

Definition node_eqb (a b : Node) : bool :=
  match a, b with
  | HtmlContent x, HtmlContent y => String.eqb x y
  | TextContent x, TextContent y => String.eqb x y
  | UserNode x, UserNode y => Nat.eqb x y
  | LayerContainer x, LayerContainer y => String.eqb x y
  | _, _ => false
  end.

(** [appendChild] moves a node that is already a child. *)
Definition append (child : Node) (l : t) : t :=
  with_childNodes
    (List.filter (fun n => negb (node_eqb n child)) (childNodes l) ++ [child]) l.

Definition prepend (child : Node) (l : t) : t :=
  with_childNodes
    (child :: List.filter (fun n => negb (node_eqb n child)) (childNodes l)) l.

Definition listener_eqb (a b : string * nat) : bool :=
  String.eqb (fst a) (fst b) && Nat.eqb (snd a) (snd b).

(** [target.removeEventListener(type, handler)]. *)
Fixpoint removeEventListener (ty : string) (h : nat) (ls : list (string * nat))
    : list (string * nat) :=
  match ls with
  | [] => []
  | x :: tl =>
      if listener_eqb x (ty, h) then tl else x :: removeEventListener ty h tl
  end.

(** [target.addEventListener(type, handler)]: a listener already registered
    for the type is not added twice. *)
Definition addEventListener (ty : string) (h : nat) (ls : list (string * nat))
    : list (string * nat) :=
  if existsb (fun x => listener_eqb x (ty, h)) ls then ls else ls ++ [(ty, h)].

Definition run_task (task : Task) (h : Host) : Host :=
  match task with
  | UserTask f =>
      let h1 := emit_event (EvCleanupTask (fn_id f)) h in
      if fn_throws f
      then emit_event (EvLog "error" "Error during UILayer cleanup task") h1
      else h1
  | ContainerCleanup ty cb =>
      match rogueDOMContainer h with
      | Some ls => with_container (Some (removeEventListener ty cb ls)) h
      | None => h
      end
  end.

Definition clearListeners (l : t) (h : Host) : t * Host :=
  let h1 := fold_left (fun acc task => run_task task acc) (cleanupTasks l) h in
  let l1 := with_cleanupTasks [] l in
  let es := fold_left (fun acc kv => removeEventListener (fst kv) (snd kv) acc)
              (masterHandlers l1) (elementListeners l1) in
  (with_listeners [] [] es (handlerSeq l1) l1, h1).

Definition innerHTML (s : string) : list Node :=
  if String.eqb s "" then [] else [HtmlContent s].

Definition textContent (s : string) : list Node :=
  if String.eqb s "" then [] else [TextContent s].

Definition html (htmlString : string) (l : t) (h : Host) : t * Host :=
  let '(l1, h1) := clearListeners l h in
  (with_childNodes (innerHTML htmlString) l1, h1).

Definition text (s : string) (l : t) (h : Host) : t * Host :=
  let '(l1, h1) := clearListeners l h in
  (with_childNodes (textContent s) l1, h1).

Definition addCleanupTask (task : Task) (l : t) : t :=
  with_cleanupTasks (cleanupTasks l ++ [task]) l.

Definition onContainer (ty : string) (cb : nat) (l : t) (h : Host) : t * Host :=
  match rogueDOMContainer h with
  | None =>
      (l, emit_event
            (EvLog "error"
               ("RE.Runtime.rogueDOMContainer is not available to attach '"
                  +:+ ty +:+ "' listener.")) h)
  | Some ls =>
      (addCleanupTask (ContainerCleanup ty cb) l,
       with_container (Some (addEventListener ty cb ls)) h)
  end.

Definition on (ty sel : string) (cb : nat) (l : t) : t :=
  let l1 :=
    if alist_has ty (masterHandlers l) then l
    else
      let handler := handlerSeq l in
      with_listeners (delegatedListeners l)
        (alist_set ty handler (masterHandlers l))
        (elementListeners l ++ [(ty, handler)])
        (S handler) l in
  with_listeners
    (delegatedListeners l1 ++ [{| eventType := ty; selector := sel; callback := cb |}])
    (masterHandlers l1) (elementListeners l1) (handlerSeq l1) l1.

Definition same_listener (ty sel : string) (cb : nat) (dl : DelegatedListener) : bool :=
  String.eqb (eventType dl) ty && String.eqb (selector dl) sel && Nat.eqb (callback dl) cb.

Definition off (ty sel : string) (cb : nat) (l : t) : t :=
  let ds := List.filter (fun dl => negb (same_listener ty sel cb dl)) (delegatedListeners l) in
  let hasMoreForType := existsb (fun dl => String.eqb (eventType dl) ty) ds in
  if hasMoreForType
  then with_listeners ds (masterHandlers l) (elementListeners l) (handlerSeq l) l
  else
    match alist_get ty (masterHandlers l) with
    | Some handler =>
        with_listeners ds (alist_delete ty (masterHandlers l))
          (removeEventListener ty handler (elementListeners l)) (handlerSeq l) l
    | None => with_listeners ds (masterHandlers l) (elementListeners l) (handlerSeq l) l
    end.

(** A DOM event as the master handler sees it: its type and, when it has a
    target, the answer of [target.closest(selector)] for every selector,
    paired with whether [this.element] contains that answer. *)
Record DomEvent := {
  ev_type : string;
  ev_target : option (string -> option (nat * bool))
}.

(** The handler closure of [on]: the delegated callbacks it calls, in order,
    each with the element it is given. *)
Definition master_handler (l : t) (ev : DomEvent) : list (DelegatedListener * nat) :=
  match ev_target ev with
  | None => []
  | Some closest =>
      flat_map
        (fun delegation =>
           if String.eqb (eventType delegation) (ev_type ev)
           then match closest (selector delegation) with
                | Some (matchingTarget, true) => [(delegation, matchingTarget)]
                | _ => []
                end
           else [])
        (delegatedListeners l)
  end.

(** The event reaches every listener the element holds for its type. *)
Definition dispatch (l : t) (ev : DomEvent) : list (DelegatedListener * nat) :=
  flat_map
    (fun reg => if String.eqb (fst reg) (ev_type ev) then master_handler l ev else [])
    (elementListeners l).

(** The calls a program makes on one layer. *)
Inductive Call :=
| COn (ty sel : string) (cb : nat)
| COff (ty sel : string) (cb : nat)
| CHtml (s : string)
| CText (s : string)
| CClearListeners
| CAddCleanupTask (f : UserFn)
| COnContainer (ty : string) (cb : nat)
| CAppend (n : Node)
| CPrepend (n : Node)
| CShow
| CHide.

Definition call (c : Call) (st : t * Host) : t * Host :=
  let '(l, h) := st in
  match c with
  | COn ty sel cb => (on ty sel cb l, h)
  | COff ty sel cb => (off ty sel cb l, h)
  | CHtml s => html s l h
  | CText s => text s l h
  | CClearListeners => clearListeners l h
  | CAddCleanupTask f => (addCleanupTask (UserTask f) l, h)
  | COnContainer ty cb => onContainer ty cb l h
  | CAppend n => (append n l, h)
  | CPrepend n => (prepend n l, h)
  | CShow => (show l, h)
  | CHide => (hide l, h)
  end.

Definition calls (cs : list Call) (st : t * Host) : t * Host :=
  fold_left (fun acc c => call c acc) cs st.

Definition listeners_for (ty : string) (ls : list (string * nat)) : nat :=
  length (List.filter (fun reg => String.eqb (fst reg) ty) ls).

Definition has_pair_for (ty : string) (l : t) : bool :=
  existsb (fun dl => String.eqb (eventType dl) ty) (delegatedListeners l).

(** What running a list of cleanup tasks to the end leaves in the trace:
    every user task is called, and a call that throws is followed by its
    error entry. *)
Definition task_events (tasks : list Task) : list Event :=
  flat_map
    (fun task =>
       match task with
       | UserTask f =>
           EvCleanupTask (fn_id f)
           :: (if fn_throws f
               then [EvLog "error" "Error during UILayer cleanup task"]
               else [])
       | ContainerCleanup _ _ => []
       end)
    tasks.

End UILayer.

(** ** FocusEventBus *)

Module FocusEventBus.
Section Bus.

(** The bus is used with two kinds of handler: the user's own functions and
    the scoped callbacks the manager registers for the active state. [same]
    is [===] on handlers; [invoke h payload] is what calling [h] appends to
    the trace and whether the call throws. *)
Context {H : Type}.
Variable same : H -> H -> bool.
Variable invoke : H -> Payload -> list Event * bool.

Fixpoint remove_first (cb : H) (hs : list H) : list H :=
  match hs with
  | [] => []
  | h :: tl => if same h cb then tl else h :: remove_first cb tl
  end.

Definition on (eventName : string) (cb : H) (listeners : gmap string (list H))
    : gmap string (list H) :=
  let listeners1 :=
    match listeners !! eventName with
    | Some _ => listeners
    | None => <[eventName := []]> listeners
    end in
  match listeners1 !! eventName with
  | Some hs => <[eventName := hs ++ [cb]]> listeners1
  | None => listeners1
  end.

Definition off (eventName : string) (cb : H) (listeners : gmap string (list H))
    : gmap string (list H) :=
  match listeners !! eventName with
  | Some eventListeners => <[eventName := remove_first cb eventListeners]> listeners
  | None => listeners
  end.

(** One iteration of the [forEach] of [emit]: the call inside [try], and the
    [console.error] of the [catch]. *)
Definition call_guarded (eventName : string) (payload : Payload) (tr : list Event)
    (listener : H) : list Event :=
  let '(evs, threw) := invoke listener payload in
  tr ++ evs
     ++ (if threw
         then [EvConsoleError ("Error in event handler for '" +:+ eventName +:+ "':")]
         else []).

Definition emit (eventName : string) (payload : Payload)
    (listeners : gmap string (list H)) (tr : list Event) : list Event :=
  match listeners !! eventName with
  | Some eventListeners => fold_left (call_guarded eventName payload) eventListeners tr
  | None => tr
  end.

End Bus.

(** A handler the user registers on the bus directly. *)
Definition invoke_user (f : UserFn) (payload : Payload) : list Event * bool :=
  ([EvBusHandler (fn_id f) payload], fn_throws f).

End FocusEventBus.

(** ** UILayerManager *)

Module UILayerManager.

(** The registry [layers] and what the layers share. A layer object is
    identified with the name it is registered under; [parent] and [children]
    hold names. Attaching a top-level container to [RE.Runtime.uiContainer]
    is left to the host. *)
Record t := {
  layers : gmap string UILayer.t;
  host : UILayer.Host
}.

Definition empty : t :=
  {| layers := ∅;
     host := {| UILayer.rogueDOMContainer := Some []; UILayer.trace := [] |} |}.

Definition has (nm : string) (m : t) : bool :=
  match layers m !! nm with Some _ => true | None => false end.

Definition get (nm : string) (m : t) : option UILayer.t := layers m !! nm.

Definition log (category title : string) (m : t) : t :=
  {| layers := layers m; host := UILayer.emit_event (EvLog category title) (host m) |}.

Definition update (nm : string) (f : UILayer.t -> UILayer.t) (m : t) : t :=
  match layers m !! nm with
  | Some l => {| layers := <[nm := f l]> (layers m); host := host m |}
  | None => m
  end.

(** [options.parent]: a layer name or a layer. *)
Inductive ParentRef :=
| ParentName (nm : string)
| ParentLayer (nm : string).

Definition resolveParent (parent : option ParentRef) (m : t) : option string * t :=
  match parent with
  | None => (None, m)
  | Some (ParentName nm) =>
      if String.eqb nm "" then (None, m)
      else
        match get nm m with
        | Some _ => (Some nm, m)
        | None =>
            (None,
             log "warn"
               ("Parent layer " +:+ dquote +:+ nm +:+ dquote
                  +:+ " not found. Creating as a top-level layer.") m)
        end
  | Some (ParentLayer nm) => (Some nm, m)
  end.

(** [createContainer(id, zIndex, isChild)], as far as the z-index goes: the
    container of a child layer is positioned in its parent and gets none. *)
Definition createContainer (zIndex : Z) (isChild : bool) : option Z :=
  if isChild then None else Some zIndex.

(** [create(name, { zIndex, parent })]; [None] is the [Error] it throws for a
    name that exists. *)
Definition create (nm : string) (zIndex : option Z) (parent : option ParentRef)
    (m : t) : option t :=
  if has nm m then None
  else
    let z := match zIndex with Some z => z | None => 0%Z end in
    let '(parentLayer, m1) := resolveParent parent m in
    let isChild := match parentLayer with Some _ => true | None => false end in
    let layer := UILayer.make nm parentLayer (createContainer z isChild) in
    let m2 := {| layers := <[nm := layer]> (layers m1); host := host m1 |} in
    match parentLayer with
    | Some p =>
        Some (update p
                (fun pl =>
                   UILayer.with_childNodes
                     (UILayer.childNodes pl ++ [UILayer.LayerContainer nm])
                     (UILayer.with_children (UILayer.children pl ++ [nm]) pl))
                m2)
    | None => Some m2
    end.

Fixpoint remove_first (x : string) (xs : list string) : list string :=
  match xs with
  | [] => []
  | y :: tl => if String.eqb y x then tl else y :: remove_first x tl
  end.

Definition detach_child (nm : string) (pl : UILayer.t) : UILayer.t :=
  UILayer.with_childNodes
    (List.filter
       (fun n => negb (UILayer.node_eqb n (UILayer.LayerContainer nm)))
       (UILayer.childNodes pl))
    (UILayer.with_children (remove_first nm (UILayer.children pl)) pl).

(** The end of [destroy(name)], once the children are gone: the layer's
    listeners are cleared, its element leaves the document and its parent's
    list, and the name leaves the registry. *)
Definition destroy_self (nm : string) (layer : UILayer.t) (m1 : t) : t :=
  let layer1 := match layers m1 !! nm with Some l => l | None => layer end in
  let '(layer2, h2) := UILayer.clearListeners layer1 (host m1) in
  let m2 := {| layers := <[nm := layer2]> (layers m1); host := h2 |} in
  let m3 :=
    match UILayer.parent layer2 with
    | Some p => update p (detach_child nm) m2
    | None => m2
    end in
  {| layers := delete nm (layers m3); host := host m3 |}.

(** [destroy(name)]. The recursion follows [children]; [fuel] bounds its
    depth, and a tree of registered layers is never deeper than the registry
    is large. *)
Fixpoint destroy_go (fuel : nat) (nm : string) (m : t) : t * bool :=
  match layers m !! nm with
  | None => (m, false)
  | Some layer =>
      let m1 :=
        match fuel with
        | 0 => m
        | S f =>
            fold_left (fun acc child => fst (destroy_go f child acc))
              (UILayer.children layer) m
        end in
      (destroy_self nm layer m1, true)
  end.

Definition destroy (nm : string) (m : t) : t * bool :=
  destroy_go (size (layers m)) nm m.

(** [UILayer.reset()] on the layer registered as [nm]. *)
Definition reset (nm : string) (m : t) : t :=
  match layers m !! nm with
  | None => m
  | Some layer =>
      let m1 := fold_left (fun acc child => fst (destroy child acc))
                  (UILayer.children layer) m in
      match layers m1 !! nm with
      | None => m1
      | Some layer1 =>
          let '(layer2, h2) :=
            UILayer.clearListeners (UILayer.with_childNodes [] layer1) (host m1) in
          {| layers := <[nm := layer2]> (layers m1); host := h2 |}
      end
  end.

Definition clearListeners (nm : string) (m : t) : t :=
  match layers m !! nm with
  | None => m
  | Some layer =>
      let '(layer1, h1) := UILayer.clearListeners layer (host m) in
      {| layers := <[nm := layer1]> (layers m); host := h1 |}
  end.

Definition is_shown (nm : string) (m : t) : option bool :=
  match layers m !! nm with
  | Some l => Some (UILayer.shown l)
  | None => None
  end.

(** [find(name)]; [None] is the [Error] it throws for a name that is not
    registered. *)
Definition find (nm : string) (m : t) : option UILayer.t := layers m !! nm.

(** [find(name).on(eventType, selector, callback)] and
    [find(name).onContainer(eventType, callback)], once the layer is found. *)
Definition on (nm ty sel : string) (cb : nat) (m : t) : t :=
  update nm (UILayer.on ty sel cb) m.

Definition onContainer (nm ty : string) (cb : nat) (m : t) : t :=
  match layers m !! nm with
  | None => m
  | Some layer =>
      let '(layer1, h1) := UILayer.onContainer ty cb layer (host m) in
      {| layers := <[nm := layer1]> (layers m); host := h1 |}
  end.

End UILayerManager.

(** ** State configurations *)

#[local] Set Warnings "-register-all".

(** A layer an [ensureLayer] hook creates when it is missing. *)
Record Ensured := {
  en_name : string;
  en_zIndex : option Z;
  en_parent : option UILayerManager.ParentRef
}.

(** What [on] and [onContainer] of a builder record. *)
Record DelegatedSpec := {
  d_layerName : string; d_eventType : string; d_selector : string; d_callback : nat
}.

Record ContainerSpec := {
  c_layerName : string; c_eventType : string; c_callback : nat
}.

(** A lifecycle hook held by a configuration: the combined hook [build] makes
    for the builder named [owner], or the closure [mergeConfigs] makes from the
    hooks of the base and of the child, either of which may be missing. Of
    what the combined hook of a builder does, the manager sees that it runs,
    the layers its [ensureLayer] hooks create ([ensured]) and the listeners
    its last lines attach to their layers ([delegated], [container]); the
    combined exit hook attaches none. *)
Inductive Hook :=
| Built (owner : string) (ensured : list Ensured)
    (delegated : list DelegatedSpec) (container : list ContainerSpec)
| Chain (base child : option Hook).

Record UiConfig := {
  visible : option (list string);
  preserveOnExit : option (list string);
  cleanupOnExit : option (list string);
  layers : option (list (string * Z))
}.

Record EventListener := { eventName : string; eventCallback : UserFn }.

Record KeyListener := { keyEventType : string; key : string; keyCallback : UserFn }.

(** [FocusStateConfig]. Every configuration the manager sees comes from
    [build], which writes every key (with [undefined] where the builder has
    nothing), so a field that is [None] is a key present and undefined. *)
Record FocusStateConfig := {
  extends : option string;
  ui : option UiConfig;
  transitionEffectName : option string;
  transitionDuration : option nat;
  managedPrefabs : option (list string);
  onEnterHookCount : option nat;
  onExitHookCount : option nat;
  eventListeners : option (list EventListener);
  keyListeners : option (list KeyListener);
  onEnter : option Hook;
  onExit : option Hook
}.

(** What awaiting a hook of a configuration appends to the trace when every
    hook it is made of resolves: the combined hooks of the builders, in the
    order they run. *)
Fixpoint enter_events (h : Hook) (payload : Payload) : list Event :=
  match h with
  | Built owner _ _ _ => [EvEnterHook owner payload]
  | Chain base child =>
      match base with Some b => enter_events b payload | None => [] end
      ++ match child with Some c => enter_events c payload | None => [] end
  end.

Fixpoint exit_events (h : Hook) (nextState : string) : list Event :=
  match h with
  | Built owner _ _ _ => [EvExitHook owner nextState]
  | Chain base child =>
      match base with Some b => exit_events b nextState | None => [] end
      ++ match child with Some c => exit_events c nextState | None => [] end
  end.

(** [await config.onEnter?.(payload, ui)] and [await config.onExit?.(next)]. *)
Definition await_onEnter (c : FocusStateConfig) (payload : Payload) : list Event :=
  match onEnter c with Some h => enter_events h payload | None => [] end.

Definition await_onExit (c : FocusStateConfig) (nextState : string) : list Event :=
  match onExit c with Some h => exit_events h nextState | None => [] end.

(** ** FocusState: the builder *)

Module FocusState.

(** The hooks a builder collects. [UserEnter h n] is a callback of the user
    that awaits [n] times before it returns ([0]: synchronous);
    [PrefabsEnter slot names] and [PrefabsExit slot] are the two closures of
    one [withPrefabs] call, [slot] standing for the [instantiatedPrefabs]
    variable they share; [EnsureLayerEnter] is the hook of [ensureLayer].
    [withPrefabsBatched] and [nukeSceneOnEnter] are not embedded. *)
Inductive EnterHook :=
| UserEnter (hook : nat) (awaits : nat)
| PrefabsEnter (slot : nat) (prefabNames : list string)
| EnsureLayerEnter (layer : Ensured).

Inductive ExitHook :=
| UserExit (hook : nat)
| PrefabsExit (slot : nat).

Record t := {
  name : string;
  _uiConfig : UiConfig;
  _onEnterHooks : list EnterHook;
  _onExitHooks : list ExitHook;
  _delegatedListeners : list DelegatedSpec;
  _eventListeners : list EventListener;
  _keyListeners : list KeyListener;
  _containerListeners : list ContainerSpec;
  _extendsStateName : option string;
  _preserveOnExit : list string;
  _transitionEffectName : option string;
  _transitionDuration : option nat;
  _managedPrefabs : list string
}.

Definition create (nm : string) : t :=
  {| name := nm;
     _uiConfig := {| visible := None; preserveOnExit := None;
                     cleanupOnExit := None; layers := None |};
     _onEnterHooks := []; _onExitHooks := []; _delegatedListeners := [];
     _eventListeners := []; _keyListeners := []; _containerListeners := [];
     _extendsStateName := None; _preserveOnExit := [];
     _transitionEffectName := None; _transitionDuration := None;
     _managedPrefabs := [] |}.

Definition set_extends (baseStateName : string) (s : t) : t :=
  {| name := name s; _uiConfig := _uiConfig s; _onEnterHooks := _onEnterHooks s;
     _onExitHooks := _onExitHooks s; _delegatedListeners := _delegatedListeners s;
     _eventListeners := _eventListeners s; _keyListeners := _keyListeners s;
     _containerListeners := _containerListeners s;
     _extendsStateName := Some baseStateName; _preserveOnExit := _preserveOnExit s;
     _transitionEffectName := _transitionEffectName s;
     _transitionDuration := _transitionDuration s;
     _managedPrefabs := _managedPrefabs s |}.

Definition or_else {A} (a b : option A) : option A :=
  match a with Some x => Some x | None => b end.

(** [ui(config)]: [{ ...this._uiConfig, ...config }] for the keys the call
    gives, and its [preserveOnExit] names join the builder's set. *)
Definition set_ui (config : UiConfig) (s : t) : t :=
  {| name := name s;
     _uiConfig :=
       {| visible := or_else (visible config) (visible (_uiConfig s));
          preserveOnExit := or_else (preserveOnExit config) (preserveOnExit (_uiConfig s));
          cleanupOnExit := or_else (cleanupOnExit config) (cleanupOnExit (_uiConfig s));
          layers := or_else (layers config) (layers (_uiConfig s)) |};
     _onEnterHooks := _onEnterHooks s;
     _onExitHooks := _onExitHooks s; _delegatedListeners := _delegatedListeners s;
     _eventListeners := _eventListeners s; _keyListeners := _keyListeners s;
     _containerListeners := _containerListeners s;
     _extendsStateName := _extendsStateName s;
     _preserveOnExit :=
       match preserveOnExit config with
       | Some names => set_add_all (_preserveOnExit s) names
       | None => _preserveOnExit s
       end;
     _transitionEffectName := _transitionEffectName s;
     _transitionDuration := _transitionDuration s;
     _managedPrefabs := _managedPrefabs s |}.

Definition with_hooks (enters : list EnterHook) (exits : list ExitHook)
    (prefabs : list string) (s : t) : t :=
  {| name := name s; _uiConfig := _uiConfig s; _onEnterHooks := enters;
     _onExitHooks := exits; _delegatedListeners := _delegatedListeners s;
     _eventListeners := _eventListeners s; _keyListeners := _keyListeners s;
     _containerListeners := _containerListeners s;
     _extendsStateName := _extendsStateName s; _preserveOnExit := _preserveOnExit s;
     _transitionEffectName := _transitionEffectName s;
     _transitionDuration := _transitionDuration s;
     _managedPrefabs := prefabs |}.

Definition add_onEnter (hook awaits : nat) (s : t) : t :=
  with_hooks (_onEnterHooks s ++ [UserEnter hook awaits]) (_onExitHooks s)
    (_managedPrefabs s) s.

Definition add_onExit (hook : nat) (s : t) : t :=
  with_hooks (_onEnterHooks s) (_onExitHooks s ++ [UserExit hook])
    (_managedPrefabs s) s.

(** [withPrefabs(...prefabNames)]: the names join [_managedPrefabs], and one
    enter hook and one exit hook are added around a fresh
    [instantiatedPrefabs] variable. *)
Definition withPrefabs (prefabNames : list string) (s : t) : t :=
  let slot := length (_onEnterHooks s) in
  with_hooks (_onEnterHooks s ++ [PrefabsEnter slot prefabNames])
    (_onExitHooks s ++ [PrefabsExit slot])
    (_managedPrefabs s ++ prefabNames) s.

(** [ensureLayer(name, zIndexOrOptions)]. *)
Definition ensureLayer (nm : string) (zIndex : option Z)
    (parent : option UILayerManager.ParentRef) (s : t) : t :=
  with_hooks
    (_onEnterHooks s
       ++ [EnsureLayerEnter {| en_name := nm; en_zIndex := zIndex; en_parent := parent |}])
    (_onExitHooks s) (_managedPrefabs s) s.

Definition withTransition (effectName : string) (durationMs : option nat) (s : t) : t :=
  {| name := name s; _uiConfig := _uiConfig s; _onEnterHooks := _onEnterHooks s;
     _onExitHooks := _onExitHooks s; _delegatedListeners := _delegatedListeners s;
     _eventListeners := _eventListeners s; _keyListeners := _keyListeners s;
     _containerListeners := _containerListeners s;
     _extendsStateName := _extendsStateName s; _preserveOnExit := _preserveOnExit s;
     _transitionEffectName := Some effectName;
     _transitionDuration := durationMs;
     _managedPrefabs := _managedPrefabs s |}.

Definition with_specs (ds : list DelegatedSpec) (cs : list ContainerSpec)
    (es : list EventListener) (ks : list KeyListener) (preserve : list string)
    (s : t) : t :=
  {| name := name s; _uiConfig := _uiConfig s; _onEnterHooks := _onEnterHooks s;
     _onExitHooks := _onExitHooks s; _delegatedListeners := ds;
     _eventListeners := es; _keyListeners := ks;
     _containerListeners := cs;
     _extendsStateName := _extendsStateName s; _preserveOnExit := preserve;
     _transitionEffectName := _transitionEffectName s;
     _transitionDuration := _transitionDuration s;
     _managedPrefabs := _managedPrefabs s |}.

Definition add_on (layerName eventType selector : string) (callback : nat) (s : t) : t :=
  with_specs
    (_delegatedListeners s
       ++ [{| d_layerName := layerName; d_eventType := eventType;
              d_selector := selector; d_callback := callback |}])
    (_containerListeners s) (_eventListeners s) (_keyListeners s) (_preserveOnExit s) s.

Definition add_onContainer (layerName eventType : string) (callback : nat) (s : t) : t :=
  with_specs (_delegatedListeners s)
    (_containerListeners s
       ++ [{| c_layerName := layerName; c_eventType := eventType; c_callback := callback |}])
    (_eventListeners s) (_keyListeners s) (_preserveOnExit s) s.

Definition onEvent (eventName : string) (callback : UserFn) (s : t) : t :=
  with_specs (_delegatedListeners s) (_containerListeners s)
    (_eventListeners s ++ [{| eventName := eventName; eventCallback := callback |}])
    (_keyListeners s) (_preserveOnExit s) s.

Definition onKey (eventType key : string) (callback : UserFn) (s : t) : t :=
  with_specs (_delegatedListeners s) (_containerListeners s) (_eventListeners s)
    (_keyListeners s
       ++ [{| keyEventType := eventType; key := key; keyCallback := callback |}])
    (_preserveOnExit s) s.

Definition dontResetOnExit (layerName : string) (s : t) : t :=
  with_specs (_delegatedListeners s) (_containerListeners s) (_eventListeners s)
    (_keyListeners s) (set_add_all (_preserveOnExit s) [layerName]) s.

Definition ensured_layers (hooks : list EnterHook) : list Ensured :=
  flat_map (fun h => match h with EnsureLayerEnter e => [e] | _ => [] end) hooks.

Definition nonempty {A} (xs : list A) : option (list A) :=
  match xs with [] => None | _ => Some xs end.

(** [build()], the data of the configuration; its two hooks are the
    closures [Built name], whose bodies are [onEnter_body] and [onExit_body]
    below. *)
Definition build (s : t) : FocusStateConfig :=
  let layersWithListeners :=
    set_add_all (set_add_all [] (map d_layerName (_delegatedListeners s)))
      (map c_layerName (_containerListeners s)) in
  let ui0 :=
    {| visible := visible (_uiConfig s);
       preserveOnExit := nonempty (_preserveOnExit s);
       cleanupOnExit := cleanupOnExit (_uiConfig s);
       layers := layers (_uiConfig s) |} in
  let ui1 :=
    match layersWithListeners with
    | [] => ui0
    | _ =>
        let cleanupSet :=
          set_add_all
            (array_of_set (match cleanupOnExit ui0 with Some xs => xs | None => [] end))
            (List.filter (fun layerName => str_mem layerName (_preserveOnExit s))
               layersWithListeners) in
        match cleanupSet with
        | [] => ui0
        | _ => {| visible := visible ui0; preserveOnExit := preserveOnExit ui0;
                  cleanupOnExit := Some cleanupSet; layers := layers ui0 |}
        end
    end in
  {| extends := _extendsStateName s;
     ui := Some ui1;
     transitionEffectName := _transitionEffectName s;
     transitionDuration := _transitionDuration s;
     managedPrefabs := nonempty (_managedPrefabs s);
     onEnterHookCount := Some (length (_onEnterHooks s));
     onExitHookCount := Some (length (_onExitHooks s));
     eventListeners := nonempty (_eventListeners s);
     keyListeners := nonempty (_keyListeners s);
     onEnter := Some (Built (name s) (ensured_layers (_onEnterHooks s))
                        (_delegatedListeners s) (_containerListeners s));
     onExit := Some (Built (name s) [] [] []) |}.

(** *** The hooks at run time

    What the closures of one builder share while they run: the builder's
    [_entryVersion], the [instantiatedPrefabs] variable of each [withPrefabs]
    call, and the engine: its scene, the keys of [RE.Prefab.namedPrefabUUIDs]
    and what [RE.Prefab.instantiate] answers for a path. *)
Inductive Answer :=
| Instantiated
| Null
| Thrown.

Record Env := {
  _entryVersion : nat;
  instantiatedPrefabs : gmap nat (list nat);
  scene : list (nat * string);
  instanceSeq : nat;
  prefabLibrary : list string;
  engine : string -> Answer;
  trace : list Event
}.

Definition with_version (v : nat) (e : Env) : Env :=
  {| _entryVersion := v; instantiatedPrefabs := instantiatedPrefabs e;
     scene := scene e; instanceSeq := instanceSeq e;
     prefabLibrary := prefabLibrary e; engine := engine e; trace := trace e |}.

Definition with_slots (m : gmap nat (list nat)) (e : Env) : Env :=
  {| _entryVersion := _entryVersion e; instantiatedPrefabs := m;
     scene := scene e; instanceSeq := instanceSeq e;
     prefabLibrary := prefabLibrary e; engine := engine e; trace := trace e |}.

Definition with_scene (sc : list (nat * string)) (seq : nat) (e : Env) : Env :=
  {| _entryVersion := _entryVersion e; instantiatedPrefabs := instantiatedPrefabs e;
     scene := sc; instanceSeq := seq;
     prefabLibrary := prefabLibrary e; engine := engine e; trace := trace e |}.

Definition emit_event (ev : Event) (e : Env) : Env :=
  {| _entryVersion := _entryVersion e; instantiatedPrefabs := instantiatedPrefabs e;
     scene := scene e; instanceSeq := instanceSeq e;
     prefabLibrary := prefabLibrary e; engine := engine e; trace := trace e ++ [ev] |}.

Definition log (category title : string) (e : Env) : Env :=
  emit_event (EvLog category title) e.

Definition get_slot (slot : nat) (e : Env) : list nat :=
  match instantiatedPrefabs e !! slot with Some xs => xs | None => [] end.

Definition set_slot (slot : nat) (xs : list nat) (e : Env) : Env :=
  with_slots (<[slot := xs]> (instantiatedPrefabs e)) e.

(** An asynchronous function between two turns of the scheduler: it has
    returned ([Fin]) or it is suspended at an [await] ([Susp]), to go on from
    whatever the environment is when it is resumed. *)
Inductive Step :=
| Fin (e : Env)
| Susp (e : Env) (resume : Env -> Step).

Fixpoint bind (s : Step) (k : Env -> Step) : Step :=
  match s with
  | Fin e => k e
  | Susp e r => Susp e (fun e' => bind (r e') k)
  end.

(** [await f(); rest]: [f] runs to its end, the caller is resumed on a later
    turn. *)
Definition await (s : Step) (rest : Env -> Step) : Step :=
  bind s (fun e => Susp e rest).

Fixpoint suspend_n (n : nat) (e : Env) : Step :=
  match n with
  | 0 => Fin e
  | S m => Susp e (suspend_n m)
  end.

(** *** PrefabUtil

    Names and paths are taken to be ASCII. *)
Definition backslash : Ascii.ascii := Ascii.ascii_of_nat 92.
Definition slash : Ascii.ascii := Ascii.ascii_of_nat 47.

Fixpoint str_map (f : Ascii.ascii -> Ascii.ascii) (s : string) : string :=
  match s with
  | EmptyString => EmptyString
  | String c tl => String (f c) (str_map f tl)
  end.

(** [s.replace(/\\/g, '/')]. *)
Definition forward_slashes (s : string) : string :=
  str_map (fun c => if Ascii.eqb c backslash then slash else c) s.

(** [s.toLowerCase()]. *)
Definition lower (c : Ascii.ascii) : Ascii.ascii :=
  let n := Ascii.nat_of_ascii c in
  if Nat.leb 65 n && Nat.leb n 90 then Ascii.ascii_of_nat (n + 32) else c.

Definition toLowerCase (s : string) : string := str_map lower s.

(** [s.endsWith(suffix)] and [s.slice(0, -n)]. *)
Definition endsWith (s suffix : string) : bool :=
  Nat.leb (String.length suffix) (String.length s)
  && String.eqb
       (String.substring (String.length s - String.length suffix) (String.length suffix) s)
       suffix.

Definition slice_off (n : nat) (s : string) : string :=
  String.substring 0 (String.length s - n) s.

Definition extension : string := ".roguePrefab".

Definition without_extension (s : string) : string :=
  if endsWith s extension then slice_off (String.length extension) s else s.

Fixpoint includes (c : Ascii.ascii) (s : string) : bool :=
  match s with
  | EmptyString => false
  | String c' tl => Ascii.eqb c' c || includes c tl
  end.

(** [p.substring(p.lastIndexOf('/') + 1)]. *)
Fixpoint fileName (p : string) : string :=
  match p with
  | EmptyString => EmptyString
  | String c tl =>
      if includes slash tl then fileName tl
      else if Ascii.eqb c slash then tl else p
  end.

(** What the three steps of [find] give for a list of keys that is not
    empty. *)
Inductive Resolution :=
| Path (path : string)
| Ambiguous
| Unresolved.

Definition resolve (keys : list string) (nameOrPath : string) : Resolution :=
  let normalizedNameOrPath := forward_slashes (without_extension nameOrPath) in
  let allNormalizedPrefabKeys := map forward_slashes keys in
  if str_mem normalizedNameOrPath allNormalizedPrefabKeys
  then Path normalizedNameOrPath
  else
    let lowerCaseNormalizedNameOrPath := toLowerCase normalizedNameOrPath in
    let caseInsensitiveMatch :=
      List.find (fun p => String.eqb (toLowerCase p) lowerCaseNormalizedNameOrPath)
        allNormalizedPrefabKeys in
    let simpleName :=
      if negb (includes slash normalizedNameOrPath)
      then
        let matchingPaths :=
          List.filter
            (fun p => String.eqb (toLowerCase (fileName p)) lowerCaseNormalizedNameOrPath)
            allNormalizedPrefabKeys in
        match matchingPaths with
        | [p] => Path p
        | _ :: _ :: _ => Ambiguous
        | [] => Unresolved
        end
      else Unresolved in
    match caseInsensitiveMatch with
    | Some p => if String.eqb p "" then simpleName else Path p
    | None => simpleName
    end.

(** The end of [find(nameOrPath)], once its loop is left. *)
Definition find_result (nameOrPath : string) (e : Env) : option string * Env :=
  match prefabLibrary e with
  | [] =>
      (None,
       log "error"
         ("Prefab list is empty. Could not find " +:+ dquote +:+ nameOrPath +:+ dquote +:+ ".")
         e)
  | keys =>
      match resolve keys nameOrPath with
      | Path p => (Some p, e)
      | Ambiguous =>
          (None,
           log "error"
             ("Ambiguous prefab name " +:+ dquote +:+ nameOrPath +:+ dquote
                +:+ ". Found multiple matches.") e)
      | Unresolved =>
          (None,
           log "error"
             ("Could not resolve prefab name or path: " +:+ dquote +:+ nameOrPath +:+ dquote)
             e)
      end
  end.

(** A call of [PrefabUtil.instantiate(nameOrPath)] that is suspended or has
    returned: in [find], at the timer of a round of its loop with [rounds]
    more to go after it; at [await this.find], which has returned [path];
    at [await RE.Prefab.instantiate], which has answered; or with its promise
    settled. *)
Inductive Instantiation :=
| Waiting (nameOrPath : string) (rounds : nat)
| Found (path : option string)
| Answered (path : string) (instance : option nat)
| Settled (instance : option nat).

(** [find] from the test of its loop, with [rounds] to go. *)
Definition find_loop (rounds : nat) (nameOrPath : string) (e : Env) : Instantiation * Env :=
  match rounds, prefabLibrary e with
  | S k, [] => (Waiting nameOrPath k, e)
  | _, _ =>
      let '(path, e1) := find_result nameOrPath e in
      (Found path, e1)
  end.

Definition retries : nat := 5.

(** The call of [instantiate], up to its first [await]. *)
Definition start (nameOrPath : string) (e : Env) : Instantiation * Env :=
  find_loop retries nameOrPath e.

(** The call, resumed, up to its next [await] or its end. A new object of
    the scene is numbered by [instanceSeq]. *)
Definition advance (i : Instantiation) (e : Env) : Instantiation * Env :=
  match i with
  | Waiting nameOrPath rounds => find_loop rounds nameOrPath e
  | Found None => (Settled None, e)
  | Found (Some found) =>
      if String.eqb found "" then (Settled None, e)
      else
        let path := without_extension found in
        match engine e path with
        | Instantiated =>
            let instance := instanceSeq e in
            (Answered path (Some instance),
             emit_event (EvInstantiate instance path)
               (with_scene (scene e ++ [(instance, path)]) (S instance) e))
        | Null => (Answered path None, e)
        | Thrown =>
            (Settled None,
             log "error"
               ("Error during instantiation of prefab " +:+ dquote +:+ path +:+ dquote) e)
        end
  | Answered path (Some instance) => (Settled (Some instance), e)
  | Answered path None =>
      (Settled None, log "error" ("RE.Prefab.instantiate failed for path: " +:+ path) e)
  | Settled instance => (Settled instance, e)
  end.

Definition settled (i : Instantiation) : bool :=
  match i with Settled _ => true | _ => false end.

Definition result (i : Instantiation) : option nat :=
  match i with Settled instance => instance | _ => None end.

(** The turns a call takes at most before its promise is settled. *)
Definition turns_left (i : Instantiation) : nat :=
  match i with
  | Waiting _ rounds => rounds + 3
  | Found _ => 2
  | Answered _ _ => 1
  | Settled _ => 0
  end.

(** Calls made one after the other, each up to its first [await]. *)
Fixpoint start_all (namesOrPaths : list string) (e : Env) : list Instantiation * Env :=
  match namesOrPaths with
  | [] => ([], e)
  | n :: tl =>
      let '(i, e1) := start n e in
      let '(calls, e2) := start_all tl e1 in
      (i :: calls, e2)
  end.

(** One turn of the scheduler: every call goes on to its next [await], in the
    order the calls were made. *)
Fixpoint advance_all (calls : list Instantiation) (e : Env) : list Instantiation * Env :=
  match calls with
  | [] => ([], e)
  | i :: tl =>
      let '(i1, e1) := advance i e in
      let '(calls1, e2) := advance_all tl e1 in
      (i1 :: calls1, e2)
  end.

(** [await] of the promises of calls that run side by side: the caller goes
    on, on a later turn, when they are all settled. [turns] bounds the turns
    that takes. *)
Fixpoint settle (turns : nat) (calls : list Instantiation)
    (rest : list (option nat) -> Env -> Step) (e : Env) : Step :=
  Susp e
    (fun e1 =>
       if forallb settled calls then rest (map result calls) e1
       else
         match turns with
         | 0 => rest (map result calls) e1
         | S n =>
             let '(calls1, e2) := advance_all calls e1 in
             settle n calls1 rest e2
         end).

Definition max_turns (calls : list Instantiation) : nat :=
  list_max (map turns_left calls).

(** [const instance = await PrefabUtil.instantiate(nameOrPath); rest]. *)
Definition instantiate (nameOrPath : string) (rest : option nat -> Env -> Step) (e : Env)
    : Step :=
  let '(i, e1) := start nameOrPath e in
  settle (turns_left i) [i]
    (fun results => rest (match results with [r] => r | _ => None end)) e1.

(** [const instances = await PrefabUtil.instantiateMultiple(...names); rest]:
    [Promise.all] of the calls, and the instances that are not [null]. *)
Definition instantiateMultiple (namesOrPaths : list string)
    (rest : list nat -> Env -> Step) (e : Env) : Step :=
  let '(calls, e1) := start_all namesOrPaths e in
  settle (max_turns calls) calls (fun results => rest (omap id results)) e1.

(** [PrefabUtil.destroy(object, true)]. *)
Definition destroy (instance : nat) (e : Env) : Env :=
  emit_event (EvDestroy instance)
    (with_scene (List.filter (fun o => negb (Nat.eqb (fst o) instance)) (scene e))
       (instanceSeq e) e).

Definition destroy_all (instances : list nat) (e : Env) : Env :=
  fold_left (fun acc i => destroy i acc) instances e.

Definition enter_hook (stateName : string) (h : EnterHook) (payload : Payload)
    (e : Env) : Step :=
  match h with
  | UserEnter hook awaits => suspend_n awaits (emit_event (EvUserEnter hook payload) e)
  | PrefabsEnter slot prefabNames =>
      let entryVersionForThisHook := _entryVersion e in
      instantiateMultiple prefabNames
        (fun instances e2 =>
           if negb (Nat.eqb entryVersionForThisHook (_entryVersion e2))
           then
             Fin (destroy_all instances
                    (log "prefab"
                       ("Instantiation cancelled for state '" +:+ stateName
                          +:+ "' due to rapid state change. Cleaning up.") e2))
           else Fin (set_slot slot (get_slot slot e2 ++ instances) e2))
        (set_slot slot [] e)
  | EnsureLayerEnter layer => Fin (emit_event (EvEnsureLayer (en_name layer)) e)
  end.

Definition exit_hook (h : ExitHook) (nextStateName : string) (e : Env) : Env :=
  match h with
  | UserExit hook => emit_event (EvUserExit hook nextStateName) e
  | PrefabsExit slot => set_slot slot [] (destroy_all (get_slot slot e) e)
  end.

(** The last step of the combined enter hook: every delegated and every
    container listener of the builder is attached to its layer. Here the
    layers are taken to be registered; what the step does to the layers, and
    when it throws, is in [FocusManager.run_hook]. *)
Definition attach_listeners (s : t) (e : Env) : Env :=
  let e1 :=
    fold_left
      (fun acc d =>
         emit_event
           (EvAttachDelegated (d_layerName d) (d_eventType d) (d_selector d) (d_callback d))
           acc)
      (_delegatedListeners s) e in
  fold_left
    (fun acc c => emit_event (EvAttachContainer (c_layerName c) (c_eventType c) (c_callback c)) acc)
    (_containerListeners s) e1.

Fixpoint enter_loop (stateName : string) (hooks : list EnterHook) (payload : Payload)
    (after : Env -> Step) (e : Env) : Step :=
  match hooks with
  | [] => after e
  | hook :: tl =>
      await (enter_hook stateName hook payload e) (enter_loop stateName tl payload after)
  end.

(** [finalConfig.onEnter] of [build]. *)
Definition onEnter_body (s : t) (payload : Payload) (e : Env) : Step :=
  let entryVersion := _entryVersion e in
  enter_loop (name s) (_onEnterHooks s) payload
    (fun e' =>
       if negb (Nat.eqb entryVersion (_entryVersion e'))
       then
         Fin (emit_event
                (EvLog "ui"
                   ("Listener attachment cancelled for state '" +:+ name s
                      +:+ "' due to rapid state change.")) e')
       else Fin (attach_listeners s e'))
    e.

Fixpoint exit_loop (hooks : list ExitHook) (nextStateName : string) (e : Env) : Step :=
  match hooks with
  | [] => Fin e
  | hook :: tl => Susp (exit_hook hook nextStateName e) (exit_loop tl nextStateName)
  end.

(** [finalConfig.onExit] of [build]. *)
Definition onExit_body (s : t) (nextStateName : string) (e : Env) : Step :=
  exit_loop (_onExitHooks s) nextStateName (with_version (S (_entryVersion e)) e).

(** Scheduling. [finish] lets a computation run alone to its end; [resume]
    lets it run to its next [await]; [meanwhile other] lets [other] run while
    it stays suspended where it is. *)
Fixpoint finish (s : Step) : Env :=
  match s with
  | Fin e => e
  | Susp e r => finish (r e)
  end.

Definition resume (s : Step) : Step :=
  match s with
  | Fin e => Fin e
  | Susp e r => r e
  end.

Definition meanwhile (other : Env -> Env) (s : Step) : Step :=
  match s with
  | Fin e => Fin (other e)
  | Susp e r => Susp (other e) r
  end.

Definition is_suspended (s : Step) : bool :=
  match s with Fin _ => false | Susp _ _ => true end.

Definition env_of (s : Step) : Env :=
  match s with Fin e => e | Susp e _ => e end.

Definition attach_event (ev : Event) : bool :=
  match ev with
  | EvAttachDelegated _ _ _ _ | EvAttachContainer _ _ _ => true
  | _ => false
  end.

(** A fresh builder in an empty scene, with an engine that instantiates
    every path it is given. *)
Definition initial_env (library : list string) : Env :=
  {| _entryVersion := 0; instantiatedPrefabs := ∅; scene := []; instanceSeq := 0;
     prefabLibrary := library; engine := fun _ => Instantiated; trace := [] |}.

Definition with_engine (answers : string -> Answer) (e : Env) : Env :=
  {| _entryVersion := _entryVersion e; instantiatedPrefabs := instantiatedPrefabs e;
     scene := scene e; instanceSeq := instanceSeq e;
     prefabLibrary := prefabLibrary e; engine := answers; trace := trace e |}.

End FocusState.

(** ** FocusManager *)

Module FocusManager.

(** The closure [_activateStateEventListeners] registers on the bus. *)
Record ScopedCallback := {
  sc_id : nat;
  sc_state : string;
  sc_listener : EventListener
}.

Inductive BusHandler :=
| ScopedHandler (c : ScopedCallback)
| UserHandler (f : UserFn).

(** The closure [_activateStateKeyListeners] adds to [document]. *)
Record KeyHandler := {
  kh_id : nat;
  kh_state : string;
  kh_listener : KeyListener
}.

Record t := {
  states : gmap string FocusStateConfig;
  uiLayerManager : UILayerManager.t;
  managedLayers : list string;
  _stateStack : list string;
  _events : gmap string (list BusHandler);
  activeEventListeners : list (string * (string * BusHandler));
  activeKeyListeners : list (string * (string * KeyHandler));
  documentListeners : list (string * KeyHandler);
  switchListeners : list UserFn;
  transitionEffects : gmap string nat;
  closureSeq : nat
}.

Definition with_states (x : gmap string FocusStateConfig) (fm : t) : t :=
  {| states := x; uiLayerManager := uiLayerManager fm; managedLayers := managedLayers fm;
     _stateStack := _stateStack fm; _events := _events fm;
     activeEventListeners := activeEventListeners fm;
     activeKeyListeners := activeKeyListeners fm;
     documentListeners := documentListeners fm; switchListeners := switchListeners fm;
     transitionEffects := transitionEffects fm; closureSeq := closureSeq fm |}.

Definition with_ui (x : UILayerManager.t) (fm : t) : t :=
  {| states := states fm; uiLayerManager := x; managedLayers := managedLayers fm;
     _stateStack := _stateStack fm; _events := _events fm;
     activeEventListeners := activeEventListeners fm;
     activeKeyListeners := activeKeyListeners fm;
     documentListeners := documentListeners fm; switchListeners := switchListeners fm;
     transitionEffects := transitionEffects fm; closureSeq := closureSeq fm |}.

Definition with_managedLayers (x : list string) (fm : t) : t :=
  {| states := states fm; uiLayerManager := uiLayerManager fm; managedLayers := x;
     _stateStack := _stateStack fm; _events := _events fm;
     activeEventListeners := activeEventListeners fm;
     activeKeyListeners := activeKeyListeners fm;
     documentListeners := documentListeners fm; switchListeners := switchListeners fm;
     transitionEffects := transitionEffects fm; closureSeq := closureSeq fm |}.

Definition with_stack (x : list string) (fm : t) : t :=
  {| states := states fm; uiLayerManager := uiLayerManager fm;
     managedLayers := managedLayers fm;
     _stateStack := x; _events := _events fm;
     activeEventListeners := activeEventListeners fm;
     activeKeyListeners := activeKeyListeners fm;
     documentListeners := documentListeners fm; switchListeners := switchListeners fm;
     transitionEffects := transitionEffects fm; closureSeq := closureSeq fm |}.

Definition with_bus (bus : gmap string (list BusHandler))
    (active : list (string * (string * BusHandler))) (seq : nat) (fm : t) : t :=
  {| states := states fm; uiLayerManager := uiLayerManager fm;
     managedLayers := managedLayers fm;
     _stateStack := _stateStack fm; _events := bus;
     activeEventListeners := active;
     activeKeyListeners := activeKeyListeners fm;
     documentListeners := documentListeners fm; switchListeners := switchListeners fm;
     transitionEffects := transitionEffects fm; closureSeq := seq |}.

Definition with_keys (active : list (string * (string * KeyHandler)))
    (doc : list (string * KeyHandler)) (seq : nat) (fm : t) : t :=
  {| states := states fm; uiLayerManager := uiLayerManager fm;
     managedLayers := managedLayers fm;
     _stateStack := _stateStack fm; _events := _events fm;
     activeEventListeners := activeEventListeners fm;
     activeKeyListeners := active;
     documentListeners := doc; switchListeners := switchListeners fm;
     transitionEffects := transitionEffects fm; closureSeq := seq |}.

Definition with_switchListeners (x : list UserFn) (fm : t) : t :=
  {| states := states fm; uiLayerManager := uiLayerManager fm;
     managedLayers := managedLayers fm;
     _stateStack := _stateStack fm; _events := _events fm;
     activeEventListeners := activeEventListeners fm;
     activeKeyListeners := activeKeyListeners fm;
     documentListeners := documentListeners fm; switchListeners := x;
     transitionEffects := transitionEffects fm; closureSeq := closureSeq fm |}.

Definition with_effects (x : gmap string nat) (fm : t) : t :=
  {| states := states fm; uiLayerManager := uiLayerManager fm;
     managedLayers := managedLayers fm;
     _stateStack := _stateStack fm; _events := _events fm;
     activeEventListeners := activeEventListeners fm;
     activeKeyListeners := activeKeyListeners fm;
     documentListeners := documentListeners fm; switchListeners := switchListeners fm;
     transitionEffects := x; closureSeq := closureSeq fm |}.

Definition trace (fm : t) : list Event :=
  UILayer.trace (UILayerManager.host (uiLayerManager fm)).

Definition emit_events (evs : list Event) (fm : t) : t :=
  with_ui
    {| UILayerManager.layers := UILayerManager.layers (uiLayerManager fm);
       UILayerManager.host :=
         {| UILayer.rogueDOMContainer :=
              UILayer.rogueDOMContainer (UILayerManager.host (uiLayerManager fm));
            UILayer.trace := trace fm ++ evs |} |}
    fm.

Definition log (category title : string) (fm : t) : t :=
  emit_events [EvLog category title] fm.

(** [get current()]. *)
Definition current (fm : t) : option string := last (_stateStack fm).

(** [is(stateName)]. *)
Definition is_state (stateName : string) (fm : t) : bool :=
  match current fm with
  | Some c => String.eqb c stateName
  | None => false
  end.

(** [!s] is false: the string is there and not empty. *)
Definition truthy (s : option string) : bool :=
  match s with
  | Some x => negb (String.eqb x "")
  | None => false
  end.

Definition or_nil {A} (o : option (list A)) : list A :=
  match o with Some xs => xs | None => [] end.

(** [config.ui?.field]. *)
Definition ui_field {A} (f : UiConfig -> option A) (c : FocusStateConfig) : option A :=
  match ui c with Some u => f u | None => None end.

Definition mergeConfigs (base child : FocusStateConfig) : FocusStateConfig :=
  let mergedUI :=
    {| layers := Some (obj_spread (or_nil (ui_field layers base))
                         (or_nil (ui_field layers child)));
       visible := FocusState.or_else (ui_field visible child) (ui_field visible base);
       preserveOnExit :=
         Some (array_of_set (or_nil (ui_field preserveOnExit base)
                               ++ or_nil (ui_field preserveOnExit child)));
       cleanupOnExit :=
         Some (array_of_set (or_nil (ui_field cleanupOnExit base)
                               ++ or_nil (ui_field cleanupOnExit child))) |} in
  let count (o : option nat) := match o with Some n => n | None => 0 end in
  let chained (b c : option Hook) : option Hook :=
    match b, c with
    | None, None => c
    | _, _ => Some (Chain b c)
    end in
  {| extends := extends child;
     ui := Some mergedUI;
     transitionEffectName := transitionEffectName child;
     transitionDuration := transitionDuration child;
     managedPrefabs :=
       Some (array_of_set (or_nil (managedPrefabs base) ++ or_nil (managedPrefabs child)));
     onEnterHookCount := Some (count (onEnterHookCount base) + count (onEnterHookCount child));
     onExitHookCount := Some (count (onExitHookCount base) + count (onExitHookCount child));
     eventListeners := eventListeners child;
     keyListeners := keyListeners child;
     onEnter := chained (onEnter base) (onEnter child);
     onExit := chained (onExit base) (onExit child) |}.

(** [{ ...config, extends: undefined }]. *)
Definition without_extends (c : FocusStateConfig) : FocusStateConfig :=
  {| extends := None; ui := ui c; transitionEffectName := transitionEffectName c;
     transitionDuration := transitionDuration c; managedPrefabs := managedPrefabs c;
     onEnterHookCount := onEnterHookCount c; onExitHookCount := onExitHookCount c;
     eventListeners := eventListeners c; keyListeners := keyListeners c;
     onEnter := onEnter c; onExit := onExit c |}.

(** [resolveInheritance(config, visited)] with the errors it logs. Every
    recursive call adds to [visited] a registered name that was not in it, so
    the depth is at most the number of registered states: [fuel] is never
    used up from [resolveInheritance] below. *)
Fixpoint resolve_go (fuel : nat) (registered : gmap string FocusStateConfig)
    (config : FocusStateConfig) (visited : list string)
    : FocusStateConfig * list Event :=
  if truthy (extends config)
  then
    let parentName := match extends config with Some p => p | None => "" end in
    if str_mem parentName visited
    then
      (without_extends config,
       [EvLog "error"
          ("Circular dependency detected in state inheritance: "
             +:+ String.concat " -> " (visited ++ [parentName]))])
    else
      match registered !! parentName with
      | None =>
          (without_extends config,
           [EvLog "error"
              ("Base state '" +:+ parentName
                 +:+ "' not found. It must be registered before the states that extend it.")])
      | Some parentConfig =>
          match fuel with
          | 0 => (without_extends config, [])
          | S f =>
              let '(resolvedParent, evs) :=
                resolve_go f registered parentConfig (visited ++ [parentName]) in
              (mergeConfigs resolvedParent config, evs)
          end
      end
  else (config, []).

Definition resolveInheritance (registered : gmap string FocusStateConfig)
    (config : FocusStateConfig) : FocusStateConfig * list Event :=
  resolve_go (size registered) registered config [].

Definition create_layer (layerName : string) (zIndex : Z) (fm : t) : t :=
  if UILayerManager.has layerName (uiLayerManager fm) then fm
  else
    match UILayerManager.create layerName (Some zIndex) None (uiLayerManager fm) with
    | Some m => with_ui m fm
    | None => fm
    end.

(** [register(state)]. *)
Definition register (state : FocusState.t) (fm : t) : t :=
  let name := FocusState.name state in
  let fm0 :=
    match states fm !! name with
    | Some _ =>
        log "warn"
          ("A state with the name '" +:+ name +:+ "' is already registered. Overwriting.") fm
    | None => fm
    end in
  let config := FocusState.build state in
  let '(finalConfig, evs) := resolveInheritance (states fm0) config in
  let fm1 := emit_events evs fm0 in
  let fm2 :=
    match ui_field layers finalConfig with
    | Some ls => fold_left (fun acc kv => create_layer (fst kv) (snd kv) acc) ls fm1
    | None => fm1
    end in
  let fm3 := with_states (<[name := finalConfig]> (states fm2)) fm2 in
  with_managedLayers
    (set_add_all
       (set_add_all
          (set_add_all (managedLayers fm3) (or_nil (ui_field visible finalConfig)))
          (or_nil (ui_field preserveOnExit finalConfig)))
       (or_nil (ui_field cleanupOnExit finalConfig)))
    fm3.

Definition onSwitch (callback : UserFn) (fm : t) : t :=
  with_switchListeners (switchListeners fm ++ [callback]) fm.

Fixpoint remove_fn (callback : UserFn) (fs : list UserFn) : list UserFn :=
  match fs with
  | [] => []
  | f :: tl =>
      if Nat.eqb (fn_id f) (fn_id callback) then tl else f :: remove_fn callback tl
  end.

Definition offSwitch (callback : UserFn) (fm : t) : t :=
  with_switchListeners (remove_fn callback (switchListeners fm)) fm.

Definition registerTransitionEffect (name : string) (effect : nat) (fm : t) : t :=
  let fm0 :=
    match transitionEffects fm !! name with
    | Some _ =>
        log "warn"
          ("A transition effect with the name '" +:+ name
             +:+ "' is already registered. Overwriting.") fm
    | None => fm
    end in
  with_effects (<[name := effect]> (transitionEffects fm0)) fm0.

Definition same_handler (a b : BusHandler) : bool :=
  match a, b with
  | ScopedHandler x, ScopedHandler y => Nat.eqb (sc_id x) (sc_id y)
  | UserHandler f, UserHandler g => Nat.eqb (fn_id f) (fn_id g)
  | _, _ => false
  end.

(** Calling a handler of the bus. The scoped callback tests, when it is
    called, that its state is still the current one. *)
Definition invoke_handler (fm : t) (h : BusHandler) (payload : Payload)
    : list Event * bool :=
  match h with
  | UserHandler f => FocusEventBus.invoke_user f payload
  | ScopedHandler c =>
      if is_state (sc_state c) fm
      then ([EvStateEvent (fn_id (eventCallback (sc_listener c))) payload],
            fn_throws (eventCallback (sc_listener c)))
      else ([], false)
  end.

(** [this.events.emit(eventName, payload)]. *)
Definition emit (eventName : string) (payload : Payload) (fm : t) : t :=
  emit_events
    (FocusEventBus.emit (invoke_handler fm) eventName payload (_events fm) [])
    fm.

Definition _deactivateStateEventListeners (fm : t) : t :=
  match activeEventListeners fm with
  | [] => fm
  | active =>
      let fm1 :=
        log "lifecycle" ("Deactivating " +:+ pretty (length active) +:+ " listeners.") fm in
      let bus :=
        fold_left
          (fun acc info => FocusEventBus.off same_handler (fst (snd info)) (snd (snd info)) acc)
          active (_events fm1) in
      with_bus bus [] (closureSeq fm1) fm1
  end.

Definition activate_event_listener (stateName : string) (fm : t)
    (il : nat * EventListener) : t :=
  let '(index, listener) := il in
  let scopedCallback :=
    ScopedHandler {| sc_id := closureSeq fm; sc_state := stateName; sc_listener := listener |} in
  let key := stateName +:+ "::" +:+ eventName listener +:+ "::" +:+ pretty index in
  with_bus
    (FocusEventBus.on (eventName listener) scopedCallback (_events fm))
    (alist_set key (eventName listener, scopedCallback) (activeEventListeners fm))
    (S (closureSeq fm)) fm.

Definition indexed {A} (xs : list A) : list (nat * A) :=
  combine (seq 0 (length xs)) xs.

Definition _activateStateEventListeners (stateName : string) (fm : t) : t :=
  let fm1 := _deactivateStateEventListeners fm in
  match states fm1 !! stateName with
  | None => fm1
  | Some stateConfig =>
      match eventListeners stateConfig with
      | None => fm1
      | Some listeners =>
          let fm2 :=
            log "lifecycle"
              ("Activating " +:+ pretty (length listeners) +:+ " listeners for state '"
                 +:+ stateName +:+ "'.") fm1 in
          fold_left (activate_event_listener stateName) (indexed listeners) fm2
      end
  end.

Fixpoint remove_key_handler (eventType : string) (h : KeyHandler)
    (ls : list (string * KeyHandler)) : list (string * KeyHandler) :=
  match ls with
  | [] => []
  | x :: tl =>
      if String.eqb (fst x) eventType && Nat.eqb (kh_id (snd x)) (kh_id h)
      then tl
      else x :: remove_key_handler eventType h tl
  end.

Definition _deactivateStateKeyListeners (fm : t) : t :=
  match activeKeyListeners fm with
  | [] => fm
  | active =>
      let fm1 :=
        log "lifecycle" ("Deactivating " +:+ pretty (length active) +:+ " key listeners.") fm in
      let doc :=
        fold_left
          (fun acc info => remove_key_handler (fst (snd info)) (snd (snd info)) acc)
          active (documentListeners fm1) in
      with_keys [] doc (closureSeq fm1) fm1
  end.

Definition activate_key_listener (stateName : string) (fm : t)
    (il : nat * KeyListener) : t :=
  let '(index, listener) := il in
  let handler := {| kh_id := closureSeq fm; kh_state := stateName; kh_listener := listener |} in
  let k := stateName +:+ "::" +:+ keyEventType listener +:+ "::" +:+ key listener
             +:+ "::" +:+ pretty index in
  with_keys
    (alist_set k (keyEventType listener, handler) (activeKeyListeners fm))
    (documentListeners fm ++ [(keyEventType listener, handler)])
    (S (closureSeq fm)) fm.

Definition _activateStateKeyListeners (stateName : string) (fm : t) : t :=
  let fm1 := _deactivateStateKeyListeners fm in
  match states fm1 !! stateName with
  | None => fm1
  | Some stateConfig =>
      match keyListeners stateConfig with
      | None => fm1
      | Some listeners =>
          let fm2 :=
            log "lifecycle"
              ("Activating " +:+ pretty (length listeners) +:+ " key listeners for state '"
                 +:+ stateName +:+ "'.") fm1 in
          fold_left (activate_key_listener stateName) (indexed listeners) fm2
      end
  end.

(** The body of the [handler] closure of [_activateStateKeyListeners], called
    by [document] with a keyboard event whose [key] is [eventKey]: what the
    call appends to the trace, and whether it throws. There is no [try]
    around [listener.callback]. *)
Definition key_handler (fm : t) (h : KeyHandler) (eventKey : string) : list Event * bool :=
  if is_state (kh_state h) fm && String.eqb eventKey (key (kh_listener h))
  then ([EvKeyCallback (fn_id (keyCallback (kh_listener h))) eventKey],
        fn_throws (keyCallback (kh_listener h)))
  else ([], false).

(** [document] dispatches a keyboard event of type [eventType] whose [key] is
    [eventKey]: it calls its listeners for that type in the order they were
    added. An exception that leaves a listener is out of the program's hands:
    the host reports it and calls the next listener. The result is what the
    calls append to the trace, and the handlers whose exception has reached
    the host. *)
Definition dispatch_key (eventType eventKey : string) (fm : t)
    : list Event * list KeyHandler :=
  fold_left
    (fun acc reg =>
       if String.eqb (fst reg) eventType
       then
         let '(evs, threw) := key_handler fm (snd reg) eventKey in
         (fst acc ++ evs, if threw then snd acc ++ [snd reg] else snd acc)
       else acc)
    (documentListeners fm) ([], []).

Definition getTransitionEffect (name : option string) (fm : t) : option nat * t :=
  if truthy name
  then
    let n := match name with Some n => n | None => "" end in
    match transitionEffects fm !! n with
    | Some effect => (Some effect, fm)
    | None => (None, log "warn" ("Transition effect '" +:+ n +:+ "' not found.") fm)
    end
  else (None, fm).

Definition _emitSwitchEvent (newState : string) (oldState : option string) (fm : t) : t :=
  fold_left
    (fun acc listener =>
       let acc1 := emit_events [EvSwitchListener (fn_id listener) newState oldState] acc in
       if fn_throws listener then log "error" "Error in onSwitch listener" acc1 else acc1)
    (switchListeners fm) fm.

Definition reset_and_hide (layerName : string) (fm : t) : t :=
  match UILayerManager.get layerName (uiLayerManager fm) with
  | Some _ =>
      with_ui
        (UILayerManager.update layerName UILayer.hide
           (UILayerManager.reset layerName (uiLayerManager fm)))
        fm
  | None =>
      log "warn"
        ("Could not find layer " +:+ dquote +:+ layerName +:+ dquote
           +:+ " to reset on exit.") fm
  end.

Definition _exitState (stateNameToExit nextStateName : string) (fm : t) : t :=
  match states fm !! stateNameToExit with
  | None => fm
  | Some oldStateConfig =>
      let fm1 := emit_events (await_onExit oldStateConfig nextStateName) fm in
      let layersToPreserve := or_nil (ui_field preserveOnExit oldStateConfig) in
      let visibleLayers := or_nil (ui_field visible oldStateConfig) in
      let fm2 :=
        fold_left
          (fun acc layerName =>
             if str_mem layerName layersToPreserve then acc
             else reset_and_hide layerName acc)
          visibleLayers fm1 in
      fold_left
        (fun acc layerName =>
           with_ui (UILayerManager.clearListeners layerName (uiLayerManager acc)) acc)
        (or_nil (ui_field cleanupOnExit oldStateConfig)) fm2
  end.

Definition set_shown (b : bool) (layerName : string) (fm : t) : t :=
  with_ui (UILayerManager.update layerName (UILayer.with_shown b) (uiLayerManager fm)) fm.

(** [_updateUiVisibility()]; [None] is the [TypeError] of reading [ui] of a
    configuration that is not there. *)
Definition _updateUiVisibility (fm : t) : option t :=
  if truthy (current fm)
  then
    let currentStateName := match current fm with Some c => c | None => "" end in
    match states fm !! currentStateName with
    | None => None
    | Some currentStateConfig =>
        let visibleLayers := or_nil (ui_field visible currentStateConfig) in
        Some (fold_left
                (fun acc layerName => set_shown (str_mem layerName visibleLayers) layerName acc)
                (managedLayers fm) fm)
    end
  else Some (fold_left (fun acc layerName => set_shown false layerName acc)
               (managedLayers fm) fm).

Definition duration_or_default (d : option nat) : nat :=
  match d with Some n => n | None => 300 end.

Definition fx_exit (transition : option nat) (fromState : option string)
    (toState : string) (durationMs : nat) (fm : t) : t :=
  match transition with
  | Some effect => emit_events [EvFxExit effect fromState toState durationMs] fm
  | None => fm
  end.

Definition fx_enter (transition : option nat) (currentState : string)
    (previousState : option string) (durationMs : nat) (fm : t) : t :=
  match transition with
  | Some effect => emit_events [EvFxEnter effect currentState previousState durationMs] fm
  | None => fm
  end.

(** The [while] of [switch]: one round exits the state on top and pops it.
    [rounds] is the depth of the stack when the loop starts. *)
Fixpoint exit_all (rounds : nat) (name : string) (fm : t) : t :=
  match rounds with
  | 0 => fm
  | S n =>
      match last (_stateStack fm) with
      | None => fm
      | Some stateToExitName =>
          let fm1 := _exitState stateToExitName name fm in
          exit_all n name (with_stack (removelast (_stateStack fm1)) fm1)
      end
  end.

(** An [ensureLayer] hook: [if (!ui.has(name)) ui.create(name, zIndexOrOptions)]. *)
Definition ensure_layer (fm : t) (e : Ensured) : t :=
  if UILayerManager.has (en_name e) (uiLayerManager fm) then fm
  else
    match UILayerManager.create (en_name e) (en_zIndex e) (en_parent e)
            (uiLayerManager fm) with
    | Some m => with_ui m fm
    | None => fm
    end.

(** How the promise of an [async] method ends: it resolves, or it rejects
    with what was thrown. Either way the manager is left as it was by then. *)
Inductive Outcome :=
| Resolved (fm : t)
| Rejected (fm : t).

Definition after (o : Outcome) : t :=
  match o with Resolved fm => fm | Rejected fm => fm end.

Definition resolved (o : Outcome) : bool :=
  match o with Resolved _ => true | Rejected _ => false end.

(** [await p; rest]: the rest runs when [p] resolves. *)
Definition and_then (o : Outcome) (rest : t -> Outcome) : Outcome :=
  match o with
  | Resolved fm => rest fm
  | Rejected fm => Rejected fm
  end.

(** [this.uiLayerManager.find(layerName).on(eventType, selector, callback)]. *)
Definition attach_delegated (fm : t) (l : DelegatedSpec) : Outcome :=
  match UILayerManager.find (d_layerName l) (uiLayerManager fm) with
  | None => Rejected fm
  | Some _ =>
      Resolved
        (with_ui
           (UILayerManager.on (d_layerName l) (d_eventType l) (d_selector l)
              (d_callback l) (uiLayerManager fm))
           fm)
  end.

(** [this.uiLayerManager.find(layerName).onContainer(eventType, callback, options)]. *)
Definition attach_container (fm : t) (l : ContainerSpec) : Outcome :=
  match UILayerManager.find (c_layerName l) (uiLayerManager fm) with
  | None => Rejected fm
  | Some _ =>
      Resolved
        (with_ui
           (UILayerManager.onContainer (c_layerName l) (c_eventType l) (c_callback l)
              (uiLayerManager fm))
           fm)
  end.

(** [xs.forEach(f)] with an [f] that may throw. *)
Fixpoint for_each {A} (f : t -> A -> Outcome) (xs : list A) (fm : t) : Outcome :=
  match xs with
  | [] => Resolved fm
  | x :: tl => and_then (f fm x) (for_each f tl)
  end.

(** Awaiting a hook of a configuration on entry. The combined hook of a
    builder runs the builder's hooks, of which the manager sees the layers
    its [ensureLayer] hooks create, and then attaches the builder's
    listeners; the users' hooks are taken to resolve, and no other transition
    to start meanwhile, so that the builder's [_entryVersion] is the one the
    hook read. The closure of [mergeConfigs] awaits the base's hook and then
    the child's. *)
Fixpoint run_hook (h : Hook) (payload : Payload) (fm : t) : Outcome :=
  match h with
  | Built owner ensured delegated container =>
      let fm1 := emit_events [EvEnterHook owner payload] fm in
      let fm2 := fold_left ensure_layer ensured fm1 in
      and_then (for_each attach_delegated delegated fm2)
        (for_each attach_container container)
  | Chain base child =>
      and_then
        (match base with Some b => run_hook b payload fm | None => Resolved fm end)
        (fun fm1 =>
           match child with Some c => run_hook c payload fm1 | None => Resolved fm1 end)
  end.

(** [await newStateConfig.onEnter?.(payload, this.uiLayerManager)]. *)
Definition run_onEnter (c : FocusStateConfig) (payload : Payload) (fm : t) : Outcome :=
  match onEnter c with
  | Some h => run_hook h payload fm
  | None => Resolved fm
  end.

(** The part of [switch] and [push] after the stack holds the new state. The
    [TypeError] of [_updateUiVisibility] and the error of the enter hook
    reject the transition where they are thrown. *)
Definition enter_new_state (name : string) (previousStateName : option string)
    (newStateConfig : FocusStateConfig) (transition : option nat)
    (transitionDuration : nat) (payload : Payload) (fm : t) : Outcome :=
  let fm1 := _emitSwitchEvent name previousStateName fm in
  let fm2 := _activateStateEventListeners name fm1 in
  let fm3 := _activateStateKeyListeners name fm2 in
  match _updateUiVisibility fm3 with
  | None => Rejected fm3
  | Some fm4 =>
      and_then (run_onEnter newStateConfig payload fm4)
        (fun fm5 =>
           Resolved (fx_enter transition name previousStateName transitionDuration fm5))
  end.

(** [switch(name, payload)]. The users' hooks and the phases of the
    transition effect are taken to resolve. *)
Definition switch (name : string) (payload : Payload) (fm : t) : Outcome :=
  if is_state name fm && Nat.eqb (length (_stateStack fm)) 1 then Resolved fm
  else
    match states fm !! name with
    | None =>
        Resolved
          (log "error" ("Attempted to switch to unregistered state '" +:+ name +:+ "'.") fm)
    | Some newStateConfig =>
        let fm0 := emit_events [EvNextFrame] fm in
        let previousStateName := current fm0 in
        let '(transition, fm1) :=
          getTransitionEffect (transitionEffectName newStateConfig) fm0 in
        let transitionDuration := duration_or_default (transitionDuration newStateConfig) in
        let fm2 := _deactivateStateKeyListeners (_deactivateStateEventListeners fm1) in
        let fm3 := fx_exit transition previousStateName name transitionDuration fm2 in
        let fm4 := exit_all (length (_stateStack fm3)) name fm3 in
        let fm5 := with_stack (_stateStack fm4 ++ [name]) fm4 in
        enter_new_state name previousStateName newStateConfig transition
          transitionDuration payload fm5
    end.

(** [push(name, payload)]. *)
Definition push (name : string) (payload : Payload) (fm : t) : Outcome :=
  if is_state name fm then Resolved fm
  else
    match states fm !! name with
    | None =>
        Resolved
          (log "error" ("Attempted to push unregistered state '" +:+ name +:+ "'.") fm)
    | Some newStateConfig =>
        let fm0 := emit_events [EvNextFrame] fm in
        let previousStateName := current fm0 in
        let '(transition, fm1) :=
          getTransitionEffect (transitionEffectName newStateConfig) fm0 in
        let transitionDuration := duration_or_default (transitionDuration newStateConfig) in
        let fm2 := _deactivateStateKeyListeners (_deactivateStateEventListeners fm1) in
        let fm3 := fx_exit transition previousStateName name transitionDuration fm2 in
        let fm4 := with_stack (_stateStack fm3 ++ [name]) fm3 in
        enter_new_state name previousStateName newStateConfig transition
          transitionDuration payload fm4
    end.

(** [pop()]. Reading [transitionEffectName] of a configuration that is not
    there is a [TypeError]; with two states or more on the stack the two
    names are there. *)
Definition pop (fm : t) : Outcome :=
  if Nat.leb (length (_stateStack fm)) 1
  then
    Resolved
      (log "warn"
         "Cannot pop the last state from the stack. Use switch() to change the base state."
         fm)
  else
    let fm0 := emit_events [EvNextFrame] fm in
    match current fm0, last (removelast (_stateStack fm0)) with
    | Some stateToPopName, Some stateToResumeName =>
        match states fm0 !! stateToPopName with
        | None => Rejected fm0
        | Some stateToPopConfig =>
            let '(transition, fm1) :=
              getTransitionEffect (transitionEffectName stateToPopConfig) fm0 in
            let transitionDuration :=
              duration_or_default (transitionDuration stateToPopConfig) in
            let fm2 := _deactivateStateKeyListeners (_deactivateStateEventListeners fm1) in
            let fm3 :=
              fx_exit transition (Some stateToPopName) stateToResumeName
                transitionDuration fm2 in
            let fm4 := _exitState stateToPopName stateToResumeName fm3 in
            let fm5 := with_stack (removelast (_stateStack fm4)) fm4 in
            match current fm5 with
            | None => Rejected fm5
            | Some top =>
                let fm6 := _emitSwitchEvent top (Some stateToPopName) fm5 in
                let fm7 := _activateStateKeyListeners top (_activateStateEventListeners top fm6) in
                match _updateUiVisibility fm7 with
                | None => Rejected fm7
                | Some fm8 =>
                    Resolved
                      (fx_enter transition top (Some stateToPopName) transitionDuration fm8)
                end
            end
        end
    | _, _ => Rejected fm0
    end.

(** [new FocusManager(uiLayerManager)] for the first manager of the page: the
    three default effects, and the hidden layer they draw on. *)
Definition make (ui : UILayerManager.t) : t :=
  let ui1 :=
    match UILayerManager.create "focus-transition-layer" (Some 9999%Z) None ui with
    | Some m => UILayerManager.update "focus-transition-layer" UILayer.hide m
    | None => ui
    end in
  {| states := ∅; uiLayerManager := ui1; managedLayers := []; _stateStack := [];
     _events := ∅; activeEventListeners := []; activeKeyListeners := [];
     documentListeners := []; switchListeners := [];
     transitionEffects := {[ "fade" := 0; "wipe" := 1; "iris" := 2 ]};
     closureSeq := 0 |}.

(** The lifecycle events of a trace: the combined hooks that were awaited
    and the phases of the transition effects, in order. *)
Definition lifecycle_event (ev : Event) : bool :=
  match ev with
  | EvEnterHook _ _ | EvExitHook _ _ | EvFxExit _ _ _ _ | EvFxEnter _ _ _ _ => true
  | _ => false
  end.

Definition lifecycle (tr : list Event) : list Event := List.filter lifecycle_event tr.

(** A call of the stack machine. *)
Inductive Op :=
| OpPush (name : string) (payload : Payload)
| OpPop.

Definition apply_op (op : Op) (fm : t) : Outcome :=
  match op with
  | OpPush name payload => push name payload fm
  | OpPop => pop fm
  end.

(** The calls made one after the other, whether the one before resolved or
    rejected. *)
Fixpoint apply_ops (ops : list Op) (fm : t) : t :=
  match ops with
  | [] => fm
  | op :: tl => apply_ops tl (after (apply_op op fm))
  end.

Definition pushes (ops : list Op) : nat :=
  length (List.filter (fun op => match op with OpPush _ _ => true | OpPop => false end) ops).

Definition pops (ops : list Op) : nat :=
  length (List.filter (fun op => match op with OpPop => true | OpPush _ _ => false end) ops).

(** A sequence of valid calls, followed on the names alone: a push names a
    registered state other than the one on top, a pop finds at least two
    states. [stack] is the stack the sequence starts from. *)
Fixpoint valid_ops (registered : gmap string FocusStateConfig) (stack : list string)
    (ops : list Op) : Prop :=
  match ops with
  | [] => True
  | OpPush name _ :: tl =>
      is_Some (registered !! name) /\ last stack <> Some name
      /\ valid_ops registered (stack ++ [name]) tl
  | OpPop :: tl =>
      2 <= length stack /\ valid_ops registered (removelast stack) tl
  end.

(** One of the three transitions. *)
Inductive Transition :=
| TSwitch (name : string) (payload : Payload)
| TPush (name : string) (payload : Payload)
| TPop.

Definition run (tr : Transition) (fm : t) : Outcome :=
  match tr with
  | TSwitch name payload => switch name payload fm
  | TPush name payload => push name payload fm
  | TPop => pop fm
  end.

(** The transition is carried out: it is neither refused nor skipped by the
    guard of its first lines. *)
Definition carried_out (tr : Transition) (fm : t) : Prop :=
  match tr with
  | TSwitch name _ =>
      is_Some (states fm !! name)
      /\ ~ (current fm = Some name /\ length (_stateStack fm) = 1)
  | TPush name _ => is_Some (states fm !! name) /\ current fm <> Some name
  | TPop => 2 <= length (_stateStack fm)
  end.

(** The visible set of the state on top of the stack. *)
Definition visible_now (fm : t) : list string :=
  match current fm with
  | Some top =>
      match states fm !! top with
      | Some c => or_nil (ui_field visible c)
      | None => []
      end
  | None => []
  end.

(** Every managed name is a layer that is shown when the top state lists it
    and hidden when it does not. *)
Definition shown_as_declared (fm : t) : Prop :=
  forall nm, In nm (managedLayers fm) ->
    UILayerManager.is_shown nm (uiLayerManager fm) = Some (str_mem nm (visible_now fm)).

End FocusManager.

(** ** The states of the example component *)

Module Example.

Local Notation "x |> f" := (f x) (at level 40, left associativity, only parsing).

Definition fn (id : nat) : UserFn := {| fn_id := id; fn_throws := false |}.

Definition ui_of (vis : list string) (ls : option (list (string * Z))) : UiConfig :=
  {| visible := Some vis; preserveOnExit := None; cleanupOnExit := None; layers := ls |}.

Definition lobbyState : FocusState.t :=
  FocusState.create "lobby"
  |> FocusState.set_ui
       (ui_of ["main-menu-layer"]
          (Some [("main-menu-layer", 10%Z); ("game-layer", 10%Z);
                 ("game-chat-layer", 12%Z); ("game-over-layer", 15%Z)]))
  |> FocusState.withTransition "fade" (Some 700)
  |> FocusState.add_onEnter 1 0
  |> FocusState.onEvent "lobby:joinGame" (fn 101).

Definition gameState : FocusState.t :=
  FocusState.create "game"
  |> FocusState.set_ui (ui_of ["game-layer"; "game-chat-layer"; "global-hud-layer"] None)
  |> FocusState.add_onEnter 2 0
  |> FocusState.onEvent "game:pause" (fn 102)
  |> FocusState.onEvent "game:over" (fn 103)
  |> FocusState.onKey "keydown" "Escape" (fn 104).

Definition baseMenuState : FocusState.t :=
  FocusState.create "base-menu" |> FocusState.withTransition "fade" (Some 250).

Definition pauseMenuState : FocusState.t :=
  FocusState.create "pause-menu"
  |> FocusState.set_extends "base-menu"
  |> FocusState.ensureLayer "pause-layer" (Some 20%Z) None
  |> FocusState.set_ui (ui_of ["pause-layer"; "global-hud-layer"] None)
  |> FocusState.add_onEnter 4 0
  |> FocusState.onEvent "pause:resume" (fn 105)
  |> FocusState.onEvent "pause:openSettings" (fn 106)
  |> FocusState.onEvent "pause:quitToLobby" (fn 107)
  |> FocusState.onKey "keydown" "Escape" (fn 108).

Definition settingsMenuState : FocusState.t :=
  FocusState.create "settings-menu"
  |> FocusState.set_extends "base-menu"
  |> FocusState.ensureLayer "settings-layer" None
       (Some (UILayerManager.ParentName "pause-layer"))
  |> FocusState.set_ui (ui_of ["pause-layer"; "settings-layer"; "global-hud-layer"] None)
  |> FocusState.dontResetOnExit "pause-layer"
  |> FocusState.withTransition "fade" (Some 150)
  |> FocusState.add_onEnter 6 0
  |> FocusState.onEvent "settings:back" (fn 109).

Definition gameOverState : FocusState.t :=
  FocusState.create "game-over"
  |> FocusState.set_ui (ui_of ["game-over-layer"; "global-hud-layer"] None)
  |> FocusState.withTransition "iris" (Some 500)
  |> FocusState.add_onEnter 7 0
  |> FocusState.onEvent "gameover:backToLobby" (fn 110).

Definition with_layer (nm : string) (z : Z) (fm : FocusManager.t) : FocusManager.t :=
  match UILayerManager.create nm (Some z) None (FocusManager.uiLayerManager fm) with
  | Some m => FocusManager.with_ui m fm
  | None => fm
  end.

(** [start()] up to the registrations. *)
Definition registered : FocusManager.t :=
  FocusManager.make UILayerManager.empty
  |> with_layer "global-hud-layer" 50
  |> with_layer "global-overlay-layer" 100
  |> FocusManager.register lobbyState
  |> FocusManager.register gameState
  |> FocusManager.register baseMenuState
  |> FocusManager.register pauseMenuState
  |> FocusManager.register settingsMenuState
  |> FocusManager.register gameOverState.

Definition then_switch (name : string) (fm : FocusManager.t) : FocusManager.t :=
  FocusManager.after (FocusManager.switch name None fm).

Definition then_push (name : string) (fm : FocusManager.t) : FocusManager.t :=
  FocusManager.after (FocusManager.push name None fm).

(** The game, paused, with the settings open. *)
Definition in_settings : FocusManager.t :=
  registered |> then_switch "lobby" |> then_switch "game"
  |> then_push "pause-menu" |> then_push "settings-menu".

(** The game state is registered after the lobby was entered. *)
Definition late_registration : FocusManager.t :=
  FocusManager.make UILayerManager.empty
  |> FocusManager.register lobbyState
  |> then_switch "lobby"
  |> FocusManager.register gameState.

(** A state that lists a layer nothing creates. *)
Definition ghostState : FocusState.t :=
  FocusState.create "ghost" |> FocusState.set_ui (ui_of ["ghost-layer"] None).

Definition ghost_registered : FocusManager.t :=
  FocusManager.make UILayerManager.empty |> FocusManager.register ghostState.

(** A state that creates a layer on entry, has its listeners cleaned up on
    exit, and does not list it as visible. *)
Definition tooltipState : FocusState.t :=
  FocusState.create "tooltip-owner"
  |> FocusState.ensureLayer "tooltip" (Some 5%Z) None
  |> FocusState.set_ui
       {| visible := Some ["main"]; preserveOnExit := None;
          cleanupOnExit := Some ["tooltip"]; layers := Some [("main", 1%Z)] |}.

Definition tooltip_registered : FocusManager.t :=
  FocusManager.make UILayerManager.empty |> FocusManager.register tooltipState.

(** Three states in a chain, each with hooks of its own, registered from the
    base up. *)
Definition chain (enterA enterB enterC : list FocusState.EnterHook)
    (exitA exitB exitC : list FocusState.ExitHook) : FocusManager.t :=
  FocusManager.make UILayerManager.empty
  |> FocusManager.register
       (FocusState.create "A" |> FocusState.with_hooks enterA exitA [])
  |> FocusManager.register
       (FocusState.create "B" |> FocusState.set_extends "A"
        |> FocusState.with_hooks enterB exitB [])
  |> FocusManager.register
       (FocusState.create "C" |> FocusState.set_extends "B"
        |> FocusState.with_hooks enterC exitC []).

(** A state whose first key callback and first event callback throw. *)
Definition fragileState : FocusState.t :=
  FocusState.create "fragile"
  |> FocusState.onKey "keydown" "Escape" {| fn_id := 9; fn_throws := true |}
  |> FocusState.onKey "keydown" "Escape" {| fn_id := 12; fn_throws := false |}
  |> FocusState.onEvent "boom" {| fn_id := 10; fn_throws := true |}
  |> FocusState.onEvent "boom" {| fn_id := 11; fn_throws := false |}.

Definition in_fragile : FocusManager.t :=
  FocusManager.make UILayerManager.empty
  |> FocusManager.register fragileState
  |> then_switch "fragile".

(** A state whose builder listens on a layer that nothing creates, entered
    from the lobby. *)
Definition strayState : FocusState.t :=
  FocusState.create "stray"
  |> FocusState.add_onEnter 8 0
  |> FocusState.add_on "nowhere" "click" ".btn" 7.

Definition before_stray : FocusManager.t :=
  registered |> FocusManager.register strayState |> then_switch "lobby".

(** A state with a hook of the user, then [withPrefabs], and a listener. *)
Definition arenaState : FocusState.t :=
  FocusState.create "arena"
  |> FocusState.add_onEnter 1 0
  |> FocusState.withPrefabs ["Enemy"]
  |> FocusState.add_on "hud" "click" ".btn" 7.

(** A state with [withPrefabs] alone, and a listener. *)
Definition duelState : FocusState.t :=
  FocusState.create "duel"
  |> FocusState.withPrefabs ["Enemy"]
  |> FocusState.add_on "hud" "click" ".btn" 7.

(** The enter hook of [s] starts; while it is suspended at its first
    [await] the exit hook of [s] runs to its end; then the enter hook is left
    to finish. *)
Definition exit_during_entry (s : FocusState.t) (next : string)
    (e : FocusState.Env) : FocusState.Env :=
  FocusState.finish
    (FocusState.meanwhile (fun e' => FocusState.finish (FocusState.onExit_body s next e'))
       (FocusState.onEnter_body s None e)).

End Example.

(** * Vocabulary of the properties *)

Section LayerVocabulary.
Import UILayer.

(** The state every layer is in between two calls: the element holds exactly
    the handlers of [masterHandlers], one per event type, and an event type
    has a handler exactly when a pair is registered for it. *)
Record master_inv (l : t) : Prop := {
  inv_element : elementListeners l = masterHandlers l;
  inv_keys : NoDup (map fst (masterHandlers l));
  inv_has : forall ty, alist_has ty (masterHandlers l) = has_pair_for ty l
}.

(** The (selector, callback) pairs that are registered after a call, read
    off the call alone: [on] registers its pair after the others, [off]
    removes every registration of its pair, and [html], [text] and
    [clearListeners] remove them all. *)
Definition registers (pairs : list DelegatedListener) (c : Call) : list DelegatedListener :=
  match c with
  | COn ty sel cb => pairs ++ [{| eventType := ty; selector := sel; callback := cb |}]
  | COff ty sel cb => List.filter (fun dl => negb (same_listener ty sel cb dl)) pairs
  | CHtml _ | CText _ | CClearListeners => []
  | CAddCleanupTask _ | COnContainer _ _ | CAppend _ | CPrepend _ | CShow | CHide => pairs
  end.

(** The pairs registered after a sequence of calls on a new layer. *)
Definition pairs_of (cs : list Call) : list DelegatedListener :=
  fold_left registers cs [].

Definition pair_for (ty : string) (pairs : list DelegatedListener) : bool :=
  existsb (fun dl => String.eqb (eventType dl) ty) pairs.

End LayerVocabulary.

Section ManagerVocabulary.
Import FocusManager.

(** A step of a layer or of the layer manager is silent when it adds no
    lifecycle event to the trace. *)
Definition silent_host (h h' : UILayer.Host) : Prop :=
  lifecycle (UILayer.trace h') = lifecycle (UILayer.trace h).

Definition silent_ui (m m' : UILayerManager.t) : Prop :=
  silent_host (UILayerManager.host m) (UILayerManager.host m').

(** What no step of a transition touches except where the code says so. *)
Record same_core (fm fm' : t) : Prop := {
  core_states : states fm' = states fm;
  core_effects : transitionEffects fm' = transitionEffects fm;
  core_managed : managedLayers fm' = managedLayers fm;
  core_stack : _stateStack fm' = _stateStack fm;
  core_switch : switchListeners fm' = switchListeners fm
}.

(** [adds evs fm fm']: from [fm] to [fm'] the lifecycle events [evs] were
    added to the trace, in this order, and nothing else of the core changed. *)
Definition adds (evs : list Event) (fm fm' : t) : Prop :=
  same_core fm fm' /\ lifecycle (trace fm') = lifecycle (trace fm) ++ evs.

(** The effect [getTransitionEffect] finds for a configuration. *)
Definition effect_of (fm : t) (c : FocusStateConfig) : option nat :=
  if truthy (transitionEffectName c)
  then transitionEffects fm !! (match transitionEffectName c with Some n => n | None => "" end)
  else None.

Definition fx_exit_events (transition : option nat) (fromState : option string)
    (toState : string) (durationMs : nat) : list Event :=
  match transition with
  | Some effect => [EvFxExit effect fromState toState durationMs]
  | None => []
  end.

Definition fx_enter_events (transition : option nat) (currentState : string)
    (previousState : option string) (durationMs : nat) : list Event :=
  match transition with
  | Some effect => [EvFxEnter effect currentState previousState durationMs]
  | None => []
  end.

(** The events of the exit hook [_exitState] awaits for a state, none when
    the state is not registered. *)
Definition exit_hook_events (fm : t) (nextStateName stateNameToExit : string) : list Event :=
  match states fm !! stateNameToExit with
  | Some c => await_onExit c nextStateName
  | None => []
  end.

(** The layer registered under a name. *)
Definition layer_of (nm : string) (fm : t) : option UILayer.t :=
  UILayerManager.layers (uiLayerManager fm) !! nm.

Definition visible_of (c : FocusStateConfig) : list string := or_nil (ui_field visible c).

(** As [adds], for a step that may change the stack. *)
Definition evolves (evs : list Event) (fm fm' : t) : Prop :=
  states fm' = states fm /\ transitionEffects fm' = transitionEffects fm
  /\ managedLayers fm' = managedLayers fm
  /\ lifecycle (trace fm') = lifecycle (trace fm) ++ evs.

Definition all_registered (fm : t) : Prop :=
  Forall (fun nm => is_Some (states fm !! nm)) (_stateStack fm).

(** What one handler leaves in the trace when [emit] calls it: its own
    events, and the error entry when it throws. *)
Definition guarded_call {H : Type} (invoke : H -> Payload -> list Event * bool)
    (eventName : string) (payload : Payload) (listener : H) : list Event :=
  FocusEventBus.call_guarded invoke eventName payload [] listener.

(** What the handlers of one emission leave in the trace when every one of
    them is called, in order, and every call that throws is followed by the
    error entry of the bus. *)
Definition handler_events {H : Type} (invoke : H -> Payload -> list Event * bool)
    (eventName : string) (payload : Payload) (hs : list H) : list Event :=
  flat_map
    (fun h =>
       fst (invoke h payload)
       ++ (if snd (invoke h payload)
           then [EvConsoleError ("Error in event handler for '" +:+ eventName +:+ "':")]
           else []))
    hs.

(** The handlers on [document] that call their callback for a keyboard
    event: those added for its type, for the current state and for its
    key. *)
Definition key_callers (eventType eventKey : string) (fm : t) : list KeyHandler :=
  map snd
    (List.filter
       (fun reg =>
          String.eqb (fst reg) eventType
          && (is_state (kh_state (snd reg)) fm
              && String.eqb eventKey (key (kh_listener (snd reg)))))
       (documentListeners fm)).

Definition is_log (ev : Event) : bool :=
  match ev with
  | EvLog _ _ | EvConsoleError _ => true
  | _ => false
  end.

(** The names of the registered layers. *)
Definition layer_names (fm : t) : gset string :=
  dom (UILayerManager.layers (uiLayerManager fm)).

(** Awaiting an enter hook, followed on the names of the layers alone.
    [present] holds the names registered when the hook starts. The combined
    hook of a builder adds the names its [ensureLayer] hooks ensure, and it
    throws when a listener of the builder names a layer that is not there by
    then: [None]. Otherwise the result holds the names registered when the
    hook resolves. *)
Fixpoint hook_layers (h : Hook) (present : gset string) : option (gset string) :=
  match h with
  | Built _ ensured delegated container =>
      let there := present ∪ list_to_set (map en_name ensured) in
      if forallb (fun nm => bool_decide (nm ∈ there))
           (map d_layerName delegated ++ map c_layerName container)
      then Some there
      else None
  | Chain base child =>
      match match base with Some b => hook_layers b present | None => Some present end with
      | Some there =>
          match child with Some c => hook_layers c there | None => Some there end
      | None => None
      end
  end.

(** The combined hooks that run when a hook is awaited: those of
    [enter_events] up to the first that throws, that one included. *)
Fixpoint entered (h : Hook) (payload : Payload) (present : gset string) : list Event :=
  match h with
  | Built owner _ _ _ => [EvEnterHook owner payload]
  | Chain base child =>
      match base with Some b => entered b payload present | None => [] end
      ++ match match base with Some b => hook_layers b present | None => Some present end with
         | Some there =>
             match child with Some c => entered c payload there | None => [] end
         | None => []
         end
  end.

(** The same for the enter hook of a configuration, which may have none. *)
Definition onEnter_layers (c : FocusStateConfig) (present : gset string)
    : option (gset string) :=
  match onEnter c with Some h => hook_layers h present | None => Some present end.

Definition onEnter_entered (c : FocusStateConfig) (payload : Payload)
    (present : gset string) : list Event :=
  match onEnter c with Some h => entered h payload present | None => [] end.

Definition attaches (c : FocusStateConfig) (present : gset string) : bool :=
  match onEnter_layers c present with Some _ => true | None => false end.

(** The names of the layers that are still registered when the transition
    has left the states it leaves: [switch] has exited every state of the
    stack, [pop] the state on top, [push] none. These are the layers the
    enter hook finds when it starts. *)
Definition survivors (tr : Transition) (fm : t) : gset string :=
  match tr with
  | TSwitch name _ => layer_names (exit_all (length (_stateStack fm)) name fm)
  | TPush _ _ => layer_names fm
  | TPop =>
      match current fm, last (removelast (_stateStack fm)) with
      | Some popped, Some resumed => layer_names (_exitState popped resumed fm)
      | _, _ => layer_names fm
      end
  end.

(** The entries of a list of events that are not log lines. *)
Definition unlogged (evs : list Event) : list Event :=
  List.filter (fun ev => negb (is_log ev)) evs.

(** [traces evs fm fm']: from [fm] to [fm'] the trace grew by entries which,
    log lines apart, are [evs], and nothing of the core changed. *)
Definition traces (evs : list Event) (fm fm' : t) : Prop :=
  same_core fm fm'
  /\ exists added, trace fm' = trace fm ++ added /\ unlogged added = evs.

(** From [fm] to [fm'] no layer left the registry, a layer that was there
    is shown as it was, and a layer that was not there is shown. *)
Definition grows (fm fm' : t) : Prop :=
  layer_names fm ⊆ layer_names fm'
  /\ forall nm l', layer_of nm fm' = Some l' ->
       match layer_of nm fm with
       | Some l => UILayer.shown l' = UILayer.shown l
       | None => UILayer.shown l' = true
       end.

(** Two managers with the same registered states, the same stack and the
    same layers; the trace, the bus and the listeners may differ. *)
Definition alike (fm fm' : t) : Prop :=
  states fm' = states fm /\ _stateStack fm' = _stateStack fm
  /\ UILayerManager.layers (uiLayerManager fm') = UILayerManager.layers (uiLayerManager fm).

(** A step that logs at most, and leaves the registered names and the
    visibility of every layer as they are. *)
Definition steady (fm fm' : t) : Prop :=
  traces [] fm fm' /\ grows fm fm' /\ layer_names fm' = layer_names fm.

End ManagerVocabulary.

(** ** Vocabulary of the further properties *)

Section LayerCoverageVocabulary.
Import UILayer.

(** The call a delegated pair gets from the master handler for one event:
    none unless the event has the pair's type and a target whose closest
    match of the selector lies inside the layer. *)
Definition delegated_call (ty sel : string) (cb : nat) (ev : DomEvent)
    : list (DelegatedListener * nat) :=
  if String.eqb ty (ev_type ev)
  then match ev_target ev with
       | Some closest =>
           match closest sel with
           | Some (matchingTarget, true) =>
               [({| eventType := ty; selector := sel; callback := cb |}, matchingTarget)]
           | _ => []
           end
       | None => []
       end
  else [].

(** The calls an event makes when the pairs of [pairs], and no others, are
    functional: one for every pair it matches, in the order of the pairs. *)
Definition pair_calls (pairs : list DelegatedListener) (ev : DomEvent)
    : list (DelegatedListener * nat) :=
  flat_map (fun dl => delegated_call (eventType dl) (selector dl) (callback dl) ev) pairs.

(** The listener is on the event target. *)
Definition registered_on (ty : string) (cb : nat) (ls : list (string * nat)) : bool :=
  existsb (fun x => listener_eqb x (ty, cb)) ls.

End LayerCoverageVocabulary.

Section TreeCoverageVocabulary.
Import UILayerManager.

(** [options.parent] given as a layer name. *)
Definition named (parent : option string) : option ParentRef :=
  option_map ParentName parent.

(** The parent [create] links a new layer to: the named layer when the name
    is not empty and registered. *)
Definition parent_found (parent : option string) (m : t) : option string :=
  match parent with
  | Some p => if has p m && negb (String.eqb p "") then Some p else None
  | None => None
  end.

(** The warning of [resolveParent] for a name that is not registered. *)
Definition parent_warning (parent : option string) (m : t) : list Event :=
  match parent with
  | Some p =>
      if negb (String.eqb p "") && negb (has p m)
      then [EvLog "warn"
              ("Parent layer " +:+ dquote +:+ p +:+ dquote
                 +:+ " not found. Creating as a top-level layer.")]
      else []
  | None => []
  end.

End TreeCoverageVocabulary.

Section BusCoverageVocabulary.
Context {H : Type}.
Variable same : H -> H -> bool.

(** The handler is among those registered for the event. *)
Definition registered_for (eventName : string) (cb : H)
    (listeners : gmap string (list H)) : bool :=
  match listeners !! eventName with
  | Some hs => existsb (fun h => same h cb) hs
  | None => false
  end.

End BusCoverageVocabulary.

Section ManagerCoverageVocabulary.
Import FocusManager.

(** The configuration [register] stores for a builder. *)
Definition resolved_config (state : FocusState.t) (fm : t) : FocusStateConfig :=
  fst (resolveInheritance (states fm) (FocusState.build state)).

(** [count || 0]. *)
Definition hook_count (o : option nat) : nat := match o with Some n => n | None => 0 end.

(** The layers a builder has delegated or container listeners for. *)
Definition listener_layers (s : FocusState.t) : list string :=
  map d_layerName (FocusState._delegatedListeners s)
  ++ map c_layerName (FocusState._containerListeners s).

End ManagerCoverageVocabulary.

Section TranscriptVocabulary.
Import FocusManager.

(** The entries of the trace that are log lines or calls of cleanup tasks. *)
Definition noise (ev : Event) : bool :=
  match ev with
  | EvLog _ _ | EvConsoleError _ | EvCleanupTask _ => true
  | _ => false
  end.

(** The trace without them: the frames waited for, the phases of the
    effects, the hooks awaited and the listeners called, in order. *)
Definition observable (tr : list Event) : list Event :=
  List.filter (fun ev => negb (noise ev)) tr.

Definition quiet_host (h h' : UILayer.Host) : Prop :=
  observable (UILayer.trace h') = observable (UILayer.trace h).

Definition quiet_ui (m m' : UILayerManager.t) : Prop :=
  quiet_host (UILayerManager.host m) (UILayerManager.host m').

(** As [adds], for the observable trace. *)
Definition shows (evs : list Event) (fm fm' : t) : Prop :=
  same_core fm fm' /\ observable (trace fm') = observable (trace fm) ++ evs.

(** As [shows], for a step that may change the stack. *)
Definition unfolds (evs : list Event) (fm fm' : t) : Prop :=
  states fm' = states fm /\ transitionEffects fm' = transitionEffects fm
  /\ managedLayers fm' = managedLayers fm /\ switchListeners fm' = switchListeners fm
  /\ observable (trace fm') = observable (trace fm) ++ evs.

(** The calls [_emitSwitchEvent] makes. *)
Definition notifications (newState : string) (oldState : option string) (fm : t)
    : list Event :=
  map (fun l => EvSwitchListener (fn_id l) newState oldState) (switchListeners fm).

(** Whether the promise of a transition that is carried out resolves: the
    listeners of the state entered find their layers. [pop] enters no
    state. *)
Definition resolves (tr : Transition) (fm : t) : bool :=
  match tr with
  | TSwitch name _ | TPush name _ =>
      match states fm !! name with
      | Some cfg => attaches cfg (survivors tr fm)
      | None => true
      end
  | TPop => true
  end.

(** What entering a state adds to the observable trace: the enter hook and
    then the enter phase of the effect; when the hook rejects, the enter
    hooks up to the one that throws. *)
Definition entry (tr : Transition) (fm : t) (cfg : FocusStateConfig) (name : string)
    (payload : Payload) : list Event :=
  if attaches cfg (survivors tr fm)
  then await_onEnter cfg payload
         ++ fx_enter_events (effect_of fm cfg) name (current fm)
              (duration_or_default (transitionDuration cfg))
  else onEnter_entered cfg payload (survivors tr fm).

(** What a transition that is carried out adds to the observable trace. *)
Definition transcript (tr : Transition) (fm : t) : list Event :=
  match tr with
  | TSwitch name payload =>
      match states fm !! name with
      | Some cfg =>
          let d := duration_or_default (transitionDuration cfg) in
          [EvNextFrame]
            ++ fx_exit_events (effect_of fm cfg) (current fm) name d
            ++ flat_map (exit_hook_events fm name) (rev (_stateStack fm))
            ++ notifications name (current fm) fm
            ++ entry tr fm cfg name payload
      | None => []
      end
  | TPush name payload =>
      match states fm !! name with
      | Some cfg =>
          let d := duration_or_default (transitionDuration cfg) in
          [EvNextFrame]
            ++ fx_exit_events (effect_of fm cfg) (current fm) name d
            ++ notifications name (current fm) fm
            ++ entry tr fm cfg name payload
      | None => []
      end
  | TPop =>
      match current fm, last (removelast (_stateStack fm)) with
      | Some popped, Some resumed =>
          match states fm !! popped with
          | Some cfg =>
              let d := duration_or_default (transitionDuration cfg) in
              [EvNextFrame]
                ++ fx_exit_events (effect_of fm cfg) (Some popped) resumed d
                ++ await_onExit cfg resumed
                ++ notifications resumed (Some popped) fm
                ++ fx_enter_events (effect_of fm cfg) resumed (Some popped) d
          | None => []
          end
      | _, _ => []
      end
  end.

(** The example component with a listener for state changes, as the
    debugger registers one: in the settings, and in the game. *)
Definition watched_settings : t :=
  onSwitch {| fn_id := 200; fn_throws := false |} Example.in_settings.


End TranscriptVocabulary.

Section PrefabVocabulary.
Import FocusState.

(** The calls a program makes on a builder. *)
Inductive BuilderCall :=
| BExtends (baseStateName : string)
| BUi (config : UiConfig)
| BOnEnter (hook awaits : nat)
| BOnExit (hook : nat)
| BWithPrefabs (prefabNames : list string)
| BEnsureLayer (layerName : string) (zIndex : option Z)
    (parent : option UILayerManager.ParentRef)
| BWithTransition (effectName : string) (durationMs : option nat)
| BOn (layerName eventType selector : string) (callback : nat)
| BOnContainer (layerName eventType : string) (callback : nat)
| BOnEvent (eventName : string) (callback : UserFn)
| BOnKey (eventType key : string) (callback : UserFn)
| BDontResetOnExit (layerName : string).

Definition builder_call (s : t) (c : BuilderCall) : t :=
  match c with
  | BExtends b => set_extends b s
  | BUi config => set_ui config s
  | BOnEnter hook awaits => add_onEnter hook awaits s
  | BOnExit hook => add_onExit hook s
  | BWithPrefabs names => withPrefabs names s
  | BEnsureLayer nm z parent => ensureLayer nm z parent s
  | BWithTransition eff d => withTransition eff d s
  | BOn layerName ty sel cb => add_on layerName ty sel cb s
  | BOnContainer layerName ty cb => add_onContainer layerName ty cb s
  | BOnEvent e cb => onEvent e cb s
  | BOnKey ty k cb => onKey ty k cb s
  | BDontResetOnExit layerName => dontResetOnExit layerName s
  end.

(** [focusManager.create(name)] followed by the calls. *)
Definition configure (nm : string) (calls : list BuilderCall) : t :=
  fold_left builder_call calls (create nm).

(** The [instantiatedPrefabs] variables of the [withPrefabs] hooks. *)
Definition enter_slots (hooks : list EnterHook) : list nat :=
  flat_map (fun h => match h with PrefabsEnter slot _ => [slot] | _ => [] end) hooks.

Definition exit_slots (hooks : list ExitHook) : list nat :=
  flat_map (fun h => match h with PrefabsExit slot => [slot] | _ => [] end) hooks.

(** The prefab names of the [withPrefabs] hooks, in order. *)
Definition enter_prefabs (hooks : list EnterHook) : list string :=
  flat_map (fun h => match h with PrefabsEnter _ names => names | _ => [] end) hooks.

(** The path [PrefabUtil.instantiate] instantiates for a path [find] has
    returned, when the engine makes an instance for it. *)
Definition made_of (e : Env) (found : option string) : option string :=
  match found with
  | Some p =>
      if String.eqb p "" then None
      else
        match engine e (without_extension p) with
        | Instantiated => Some (without_extension p)
        | Null | Thrown => None
        end
  | None => None
  end.

(** The path [PrefabUtil.instantiate] instantiates for a name, when it makes
    an instance: the prefab list is not empty, [find] resolves the name in
    it, and the engine answers with an object. *)
Definition instantiable (e : Env) (nameOrPath : string) : option string :=
  match prefabLibrary e with
  | [] => None
  | keys =>
      match resolve keys nameOrPath with
      | Path p => made_of e (Some p)
      | Ambiguous | Unresolved => None
      end
  end.

(** The paths instantiated for a list of names, in order. *)
Definition resolved (e : Env) (names : list string) : list string :=
  omap (instantiable e) names.

(** Calls of [instantiate] left to run alone, for [turns] turns at most. *)
Fixpoint settle_alone (turns : nat) (calls : list Instantiation) (e : Env)
    : list Instantiation * Env :=
  if forallb settled calls then (calls, e)
  else
    match turns with
    | 0 => (calls, e)
    | S n =>
        let '(calls1, e1) := advance_all calls e in
        settle_alone n calls1 e1
    end.

(** The instances of calls that the engine has answered with an object. *)
Definition instances_of (calls : list Instantiation) : list nat :=
  omap (fun i =>
          match i with
          | Answered _ instance | Settled instance => instance
          | Waiting _ _ | Found _ => None
          end)
    calls.

(** A call the engine has answered, and a call that waits for a prefab list
    or has found nothing. *)
Definition answered (i : Instantiation) : Prop :=
  match i with
  | Answered _ _ | Settled _ => True
  | Waiting _ _ | Found _ => False
  end.

Definition idle (i : Instantiation) : Prop :=
  match i with
  | Waiting _ _ | Found None | Settled None => True
  | Found (Some _) | Answered _ _ | Settled (Some _) => False
  end.

(** Two environments with the same engine, and the same otherwise but for
    the trace. *)
Definition same_engine (e e' : Env) : Prop :=
  prefabLibrary e' = prefabLibrary e /\ engine e' = engine e.

Definition same_but_trace (e e' : Env) : Prop :=
  _entryVersion e' = _entryVersion e
  /\ instantiatedPrefabs e' = instantiatedPrefabs e
  /\ scene e' = scene e
  /\ instanceSeq e' = instanceSeq e
  /\ same_engine e e'.

(** The [await]s a computation goes through when it runs alone. *)
Fixpoint await_count (s : Step) : nat :=
  match s with
  | Fin _ => 0
  | Susp e r => S (await_count (r e))
  end.

(** Every object of the scene was created before the next instance. *)
Definition scene_fresh (e : Env) : Prop :=
  Forall (fun o => fst o < instanceSeq e) (scene e).

End PrefabVocabulary.

(** ** Vocabulary of the exit and of the listeners of a state *)

Section ExitVocabulary.

(** A layer as [reset().hide()] leaves it: hidden, with no content, no
    delegated pair, no master handler and no cleanup task. *)
Definition blank (l : UILayer.t) : Prop :=
  UILayer.shown l = false /\ UILayer.childNodes l = []
  /\ UILayer.delegatedListeners l = [] /\ UILayer.masterHandlers l = []
  /\ UILayer.cleanupTasks l = [].

(** The layer registered under the name, if there is one, is blank. *)
Definition blank_or_gone (nm : string) (m : UILayerManager.t) : Prop :=
  forall l, UILayerManager.layers m !! nm = Some l -> blank l.

End ExitVocabulary.

Section HygieneVocabulary.
Import FocusManager.

(** The handlers the bus holds for an event, in the order [emit] calls them. *)
Definition handlers_for (ev : string) (fm : t) : list BusHandler :=
  default [] (_events fm !! ev).

(** Every scoped callback on the bus was created before now. *)
Definition fresh_closures (fm : t) : Prop :=
  forall ev c, In (ScopedHandler c) (handlers_for ev fm) -> sc_id c < closureSeq fm.

(** The [eventListeners] of a registered state. *)
Definition state_listeners (stateName : string) (fm : t) : list EventListener :=
  match states fm !! stateName with
  | Some cfg => or_nil (eventListeners cfg)
  | None => []
  end.

(** The entry [_activateStateEventListeners] makes for the listener at
    [index], the first closure having the number [n]. *)
Definition scoped_entry (stateName : string) (n : nat) (il : nat * EventListener)
    : string * (string * BusHandler) :=
  (stateName +:+ "::" +:+ eventName (snd il) +:+ "::" +:+ pretty (fst il),
   (eventName (snd il),
    ScopedHandler {| sc_id := n + fst il; sc_state := stateName; sc_listener := snd il |})).

Definition scoped_entries (stateName : string) (n : nat) (ls : list EventListener)
    : list (string * (string * BusHandler)) :=
  map (scoped_entry stateName n) (indexed ls).

(** The handlers among the entries that are for the event. *)
Definition for_event (ev : string) (es : list (string * (string * BusHandler)))
    : list BusHandler :=
  map (fun e => snd (snd e)) (List.filter (fun e => String.eqb ev (fst (snd e))) es).

Definition colon : Ascii.ascii := Ascii.ascii_of_nat 58.

Fixpoint has_colon (s : string) : bool :=
  match s with
  | EmptyString => false
  | String c r => Ascii.eqb c colon || has_colon r
  end.

(** What follows the last colon of a string. *)
Fixpoint last_segment (s : string) : string :=
  match s with
  | EmptyString => EmptyString
  | String c r =>
      if has_colon r then last_segment r
      else if Ascii.eqb c colon then r else String c r
  end.

(** The registered example, with a handler of the user on the bus. *)
Definition watched_bus : t :=
  with_bus (FocusEventBus.on "game:pause" (UserHandler (Example.fn 900))
              (_events Example.registered))
    [] (closureSeq Example.registered) Example.registered.

End HygieneVocabulary.

Section KeyVocabulary.
Import FocusManager.

(** Every handler on [document] was created before now. *)
Definition fresh_key_closures (fm : t) : Prop :=
  forall e, In e (documentListeners fm) -> kh_id (snd e) < closureSeq fm.

(** The [keyListeners] of a registered state. *)
Definition state_key_listeners (stateName : string) (fm : t) : list KeyListener :=
  match states fm !! stateName with
  | Some cfg => or_nil (keyListeners cfg)
  | None => []
  end.

(** The entry [_activateStateKeyListeners] makes for the listener at [index],
    the first closure having the number [n]. *)
Definition key_entry (stateName : string) (n : nat) (il : nat * KeyListener)
    : string * (string * KeyHandler) :=
  (stateName +:+ "::" +:+ keyEventType (snd il) +:+ "::" +:+ key (snd il)
     +:+ "::" +:+ pretty (fst il),
   (keyEventType (snd il),
    {| kh_id := n + fst il; kh_state := stateName; kh_listener := snd il |})).

Definition key_entries (stateName : string) (n : nat) (ls : list KeyListener)
    : list (string * (string * KeyHandler)) :=
  map (key_entry stateName n) (indexed ls).

End KeyVocabulary.

(** ** Vocabulary of the layer tree *)

Section ForestVocabulary.
Import UILayerManager.

(** [layer.parent] and [layer.children] of a registered layer, by name. *)
Definition parent_of (nm : string) (m : t) : option string :=
  match layers m !! nm with Some l => UILayer.parent l | None => None end.

Definition children_of (nm : string) (m : t) : list string :=
  match layers m !! nm with Some l => UILayer.children l | None => [] end.

(** The cleanup tasks a registered layer holds. *)
Definition tasks_of (nm : string) (m : t) : list UILayer.Task :=
  match layers m !! nm with Some l => UILayer.cleanupTasks l | None => [] end.

(** [climbs m k x z]: following [parent] from [x] for [k] steps leads to [z]. *)
Inductive climbs (m : t) : nat -> string -> string -> Prop :=
| climbs_here x : climbs m 0 x x
| climbs_up k x p z : parent_of x m = Some p -> climbs m k p z -> climbs m (S k) x z.

(** [x] is [z] or a descendant of [z]. *)
Definition below (m : t) (x z : string) : Prop := exists k, climbs m k x z.

(** The registry is a forest: [children] and [parent] agree, no layer is
    listed twice, and there is no cycle. *)
Record forest (m : t) : Prop := {
  forest_child : forall p c, In c (children_of p m) -> parent_of c m = Some p;
  forest_parent : forall c p, parent_of c m = Some p -> In c (children_of p m);
  forest_nodup : forall p, NoDup (children_of p m);
  forest_rank : exists rank : string -> nat,
      forall c p, parent_of c m = Some p -> rank p < rank c
}.

(** [m'] is [m] without the layer [nm] and its descendants: these are not
    registered, the parent of [nm] has lost it from its children and its
    child nodes, and every other layer is as it was. *)
Definition pruned (nm : string) (m m' : t) : Prop :=
  (forall x, below m x nm -> layers m' !! x = None)
  /\ (forall x, ~ below m x nm ->
        layers m' !! x
        = (fun lx => if decide (parent_of nm m = Some x) then detach_child nm lx else lx)
            <$> layers m !! x).

(** No descendant of [nm] is more than [fuel] steps below it. *)
Definition shallow (m : t) (fuel : nat) (nm : string) : Prop :=
  forall x k, climbs m k x nm -> k <= fuel.

(** [manager.get(nm)?.call(...)]: a call on a registered layer. *)
Definition call_on (nm : string) (c : UILayer.Call) (m : t) : t :=
  match layers m !! nm with
  | Some l =>
      let '(l', h') := UILayer.call c (l, host m) in
      {| layers := <[nm := l']> (layers m); host := h' |}
  | None => m
  end.

(** The calls a program makes on the layer manager and on its layers. A
    [create] that throws leaves the registry as it is. *)
Inductive LayerOp :=
| OCreate (nm : string) (zIndex : option Z) (parent : option string)
| ODestroy (nm : string)
| OReset (nm : string)
| OCall (nm : string) (c : UILayer.Call).

Definition run_op (m : t) (op : LayerOp) : t :=
  match op with
  | OCreate nm zIndex parent =>
      match create nm zIndex (named parent) m with
      | Some m' => m'
      | None => m
      end
  | ODestroy nm => fst (destroy nm m)
  | OReset nm => reset nm m
  | OCall nm c => call_on nm c m
  end.

Definition run_ops (ops : list LayerOp) (m : t) : t := fold_left run_op ops m.

(** A hud with a panel that holds two widgets, beside a menu. *)
Definition nested_ops : list LayerOp :=
  [OCreate "hud" (Some 10%Z) None; OCreate "panel" None (Some "hud");
   OCreate "clock" None (Some "panel"); OCreate "score" None (Some "panel");
   OCall "panel" (UILayer.COn "click" ".close" 7);
   OCreate "menu" (Some 20%Z) None].

Definition nested_layers : t := run_ops nested_ops empty.

(** The same layers, the panel holding a cleanup task and a listener on the
    engine's container as well. *)
Definition busy_panel : t :=
  run_ops
    [OCall "panel" (UILayer.CAddCleanupTask {| fn_id := 5; fn_throws := false |});
     OCall "panel" (UILayer.COnContainer "mousemove" 6)]
    nested_layers.

End ForestVocabulary.

(** ** [withPrefabsBatched]

    The enter hook of [withPrefabsBatched], taken alone: the list of hooks
    of a builder above does not hold it. *)

Section BatchedVocabulary.
Import FocusState.

(** The [for] loop of the enter hook of [withPrefabsBatched], from one of its
    iterations on. [slot] stands for the [instantiatedPrefabs] variable the
    two closures of the call share; the [await]s are those of the
    instantiation and, for a positive delay, the timer. *)
Fixpoint batched_loop (stateName : string) (slot delayMs entryVersionForThisHook : nat)
    (prefabNames : list string) (e : Env) : Step :=
  match prefabNames with
  | [] => Fin e
  | name :: tl =>
      if negb (Nat.eqb entryVersionForThisHook (_entryVersion e))
      then
        let e1 :=
          log "prefab"
            ("Batched instantiation cancelled for state '" +:+ stateName +:+ "'.") e in
        Fin (set_slot slot [] (destroy_all (get_slot slot e1) e1))
      else
        instantiate name
          (fun instance e2 =>
             let e3 :=
               match instance with
               | Some i => set_slot slot (get_slot slot e2 ++ [i]) e2
               | None => e2
               end in
             if Nat.ltb 0 delayMs
             then Susp e3 (batched_loop stateName slot delayMs entryVersionForThisHook tl)
             else batched_loop stateName slot delayMs entryVersionForThisHook tl e3)
          e
  end.

(** The enter hook of [withPrefabsBatched(delayMs, ...prefabNames)]. Its exit
    hook is the one of [withPrefabs]. *)
Definition batched_enter (stateName : string) (slot delayMs : nat)
    (prefabNames : list string) (e : Env) : Step :=
  batched_loop stateName slot delayMs (_entryVersion e) prefabNames (set_slot slot [] e).

(** The hook is resumed [n] times with nothing running in between. *)
Fixpoint resume_n (n : nat) (s : Step) : Step :=
  match n with
  | 0 => s
  | S k => resume_n k (resume s)
  end.

(** The [await]s the loop goes through for a list of names, from [e] on and
    with nothing running in between. *)
Definition batched_awaits (stateName : string) (slot delayMs : nat) (names : list string)
    (e : Env) : nat :=
  await_count (batched_enter stateName slot delayMs names e).

(** The combined exit hook of a builder whose only exit hook is the one of
    the call. *)
Definition batched_exit (slot : nat) (nextStateName : string) (e : Env) : Env :=
  exit_hook (PrefabsExit slot) nextStateName (with_version (S (_entryVersion e)) e).

End BatchedVocabulary.

(** ** Vocabulary of the refusals *)

Section RefusalVocabulary.
Import FocusManager.

(** The log line of a transition that returns at its first lines: none when
    the state asked for is the current one, an error for a state that is not
    registered, a warning for [pop] on a stack of at most one state. *)
Definition refusal (tr : Transition) (fm : t) : list Event :=
  match tr with
  | TSwitch name _ =>
      if is_state name fm && Nat.eqb (length (_stateStack fm)) 1 then []
      else [EvLog "error" ("Attempted to switch to unregistered state '" +:+ name +:+ "'.")]
  | TPush name _ =>
      if is_state name fm then []
      else [EvLog "error" ("Attempted to push unregistered state '" +:+ name +:+ "'.")]
  | TPop =>
      [EvLog "warn"
         "Cannot pop the last state from the stack. Use switch() to change the base state."]
  end.

(** Nothing of the manager differs but the trace. *)
Record untouched (fm fm' : t) : Prop := {
  same_states : states fm' = states fm;
  same_stack : _stateStack fm' = _stateStack fm;
  same_managed : managedLayers fm' = managedLayers fm;
  same_bus : _events fm' = _events fm;
  same_active : activeEventListeners fm' = activeEventListeners fm;
  same_keys : activeKeyListeners fm' = activeKeyListeners fm;
  same_document : documentListeners fm' = documentListeners fm;
  same_switch : switchListeners fm' = switchListeners fm;
  same_effects : transitionEffects fm' = transitionEffects fm;
  same_closures : closureSeq fm' = closureSeq fm;
  same_layers : UILayerManager.layers (uiLayerManager fm')
                = UILayerManager.layers (uiLayerManager fm);
  same_container : UILayer.rogueDOMContainer (UILayerManager.host (uiLayerManager fm'))
                   = UILayer.rogueDOMContainer (UILayerManager.host (uiLayerManager fm))
}.

End RefusalVocabulary.

(** * Properties *)

(** ** Layers: one master listener per event type *)

Section LayerFacts.
Import UILayer.

Lemma alist_set_fresh {V} k (v : V) m :
  alist_has k m = false -> alist_set k v m = m ++ [(k, v)].
Proof.
  unfold alist_has. induction m as [|[k' v'] tl IH]; simpl; [done|].
  destruct (String.eqb k k'); [done|]. intros H. by rewrite IH.
Qed.

Lemma alist_has_app {V} k (m1 m2 : list (string * V)) :
  alist_has k (m1 ++ m2) = alist_has k m1 || alist_has k m2.
Proof.
  unfold alist_has. induction m1 as [|[k' v'] tl IH]; simpl; [done|].
  by destruct (String.eqb k k').
Qed.

Lemma alist_has_in {V} k (m : list (string * V)) :
  alist_has k m = true <-> In k (map fst m).
Proof.
  unfold alist_has. induction m as [|[k' v'] tl IH]; simpl.
  - split; [done | tauto].
  - destruct (String.eqb_spec k k') as [->|Hne].
    + split; auto.
    + rewrite IH. split; [auto | intros [?|?]; [congruence | done]].
Qed.

Lemma alist_delete_other {V} k k' (m : list (string * V)) :
  k' <> k -> alist_has k' (alist_delete k m) = alist_has k' m.
Proof.
  intros Hne. unfold alist_has. induction m as [|[k0 v0] tl IH]; simpl; [done|].
  destruct (String.eqb_spec k k0) as [->|Hk].
  - destruct (String.eqb_spec k' k0); [congruence | done].
  - simpl. destruct (String.eqb k' k0); [done | apply IH].
Qed.

Lemma alist_delete_gone {V} k (m : list (string * V)) :
  NoDup (map fst m) -> alist_has k (alist_delete k m) = false.
Proof.
  induction m as [|[k0 v0] tl IH]; simpl; [done|].
  intros Hnd. apply NoDup_cons in Hnd as [Hnotin Hnd].
  destruct (String.eqb_spec k k0) as [->|Hk].
  - destruct (alist_has k0 tl) eqn:E; [|done].
    apply alist_has_in in E. exfalso. apply Hnotin. by apply list_elem_of_In.
  - unfold alist_has in *. simpl. destruct (String.eqb_spec k k0); [done | by apply IH].
Qed.

Lemma alist_delete_keys {V} k (m : list (string * V)) :
  NoDup (map fst m) -> NoDup (map fst (alist_delete k m)).
Proof.
  induction m as [|[k0 v0] tl IH]; simpl; [done|].
  intros Hnd. apply NoDup_cons in Hnd as [Hnotin Hnd].
  destruct (String.eqb k k0); [done|]. simpl. apply NoDup_cons. split; [|by apply IH].
  intros Hin. apply Hnotin. apply list_elem_of_In in Hin. apply list_elem_of_In.
  apply alist_has_in in Hin. apply alist_has_in.
  destruct (String.eqb_spec k0 k) as [->|Hne].
  - rewrite alist_delete_gone in Hin; [done|]. done.
  - by rewrite alist_delete_other in Hin.
Qed.

Lemma remove_is_delete k v (m : list (string * nat)) :
  alist_get k m = Some v -> removeEventListener k v m = alist_delete k m.
Proof.
  induction m as [|[k0 v0] tl IH]; simpl; [done|].
  unfold listener_eqb; simpl. rewrite (String.eqb_sym k0 k).
  destruct (String.eqb k k0); simpl.
  - intros [= ->]. by rewrite Nat.eqb_refl.
  - intros H. by rewrite IH.
Qed.

Lemma remove_all_self (m : list (string * nat)) :
  fold_left (fun acc kv => removeEventListener (fst kv) (snd kv) acc) m m = [].
Proof.
  induction m as [|[k v] tl IH]; simpl; [done|].
  unfold listener_eqb; simpl. by rewrite String.eqb_refl, Nat.eqb_refl.
Qed.

Lemma listeners_for_count ty (m : list (string * nat)) :
  NoDup (map fst m) ->
  listeners_for ty m = if alist_has ty m then 1 else 0.
Proof.
  unfold listeners_for, alist_has.
  induction m as [|[k v] tl IH]; simpl; [done|].
  intros Hnd. apply NoDup_cons in Hnd as [Hnotin Hnd].
  rewrite (String.eqb_sym k ty).
  destruct (String.eqb_spec ty k) as [->|Hne]; simpl; [|by apply IH].
  rewrite IH by done.
  destruct (alist_get k tl) eqn:E; [|done].
  exfalso. apply Hnotin. apply list_elem_of_In, alist_has_in.
  unfold alist_has. by rewrite E.
Qed.

Lemma master_inv_make nm par z : master_inv (make nm par z).
Proof. split; simpl; [done | constructor | done]. Qed.

Lemma master_inv_on ty sel cb l : master_inv l -> master_inv (on ty sel cb l).
Proof.
  intros [He Hk Hh]. unfold on.
  destruct (alist_has ty (masterHandlers l)) eqn:E.
  - split; simpl; [done | done |].
    intros ty'. unfold has_pair_for; simpl. rewrite existsb_app; simpl.
    rewrite orb_false_r. rewrite Hh. unfold has_pair_for.
    destruct (String.eqb_spec ty ty') as [->|Hne]; [|by rewrite orb_false_r].
    rewrite Hh in E. unfold has_pair_for in E. by rewrite E.
  - split; simpl.
    + by rewrite He, alist_set_fresh.
    + rewrite alist_set_fresh by done. rewrite map_app; simpl.
      apply NoDup_app. split; [done|]. split; [|apply NoDup_singleton].
      intros x Hx ->%list_elem_of_singleton.
      apply list_elem_of_In, alist_has_in in Hx. congruence.
    + intros ty'. rewrite alist_set_fresh by done. rewrite alist_has_app.
      unfold has_pair_for; simpl. rewrite existsb_app; simpl.
      rewrite Hh. unfold has_pair_for, alist_has; simpl.
      rewrite (String.eqb_sym ty ty'). by destruct (String.eqb ty' ty).
Qed.

Lemma filter_other_type ty sel cb ty' (ds : list DelegatedListener) :
  ty' <> ty ->
  existsb (fun dl => String.eqb (eventType dl) ty')
    (List.filter (fun dl => negb (same_listener ty sel cb dl)) ds)
  = existsb (fun dl => String.eqb (eventType dl) ty') ds.
Proof.
  intros Hne. induction ds as [|d tl IH]; simpl; [done|].
  unfold same_listener at 1.
  destruct (String.eqb_spec (eventType d) ty) as [Hd|Hd]; simpl.
  - destruct (String.eqb (selector d) sel && Nat.eqb (callback d) cb); simpl.
    + rewrite IH. destruct (String.eqb_spec (eventType d) ty'); [congruence | done].
    + by rewrite IH.
  - by rewrite IH.
Qed.

Lemma filter_has_implies ty sel cb ty' (ds : list DelegatedListener) :
  existsb (fun dl => String.eqb (eventType dl) ty')
    (List.filter (fun dl => negb (same_listener ty sel cb dl)) ds) = true ->
  existsb (fun dl => String.eqb (eventType dl) ty') ds = true.
Proof.
  induction ds as [|d tl IH]; simpl; [done|].
  destruct (negb (same_listener ty sel cb d)); simpl.
  - destruct (String.eqb (eventType d) ty'); [done | apply IH].
  - intros H. rewrite IH by done. apply orb_true_r.
Qed.

Lemma master_inv_off ty sel cb l : master_inv l -> master_inv (off ty sel cb l).
Proof.
  intros [He Hk Hh]. unfold off.
  set (ds := List.filter _ _).
  destruct (existsb _ ds) eqn:Emore.
  - split; simpl; [done | done |].
    intros ty'. unfold has_pair_for; simpl. fold ds.
    destruct (String.eqb_spec ty' ty) as [->|Hne].
    + rewrite Emore. rewrite Hh. by apply filter_has_implies in Emore.
    + rewrite Hh. unfold has_pair_for, ds. by rewrite filter_other_type.
  - destruct (alist_get ty (masterHandlers l)) as [handler|] eqn:Eget.
    + split; simpl.
      * rewrite He. by apply remove_is_delete.
      * by apply alist_delete_keys.
      * intros ty'. unfold has_pair_for; simpl. fold ds.
        destruct (String.eqb_spec ty' ty) as [->|Hne].
        -- rewrite Emore. by apply alist_delete_gone.
        -- rewrite alist_delete_other by done. rewrite Hh.
           unfold has_pair_for, ds. by rewrite filter_other_type.
    + split; simpl; [done | done |].
      intros ty'. unfold has_pair_for; simpl. fold ds.
      destruct (String.eqb_spec ty' ty) as [->|Hne].
      * rewrite Emore. unfold alist_has. by rewrite Eget.
      * rewrite Hh. unfold has_pair_for, ds. by rewrite filter_other_type.
Qed.

Lemma clearListeners_listeners l h :
  elementListeners l = masterHandlers l ->
  let l' := fst (clearListeners l h) in
  delegatedListeners l' = [] /\ masterHandlers l' = [] /\ elementListeners l' = []
  /\ cleanupTasks l' = [].
Proof.
  intros He. simpl. rewrite He. by rewrite remove_all_self.
Qed.

Lemma master_inv_empty l :
  delegatedListeners l = [] -> masterHandlers l = [] -> elementListeners l = [] ->
  master_inv l.
Proof.
  intros Hd Hm He. split.
  - by rewrite He, Hm.
  - rewrite Hm. constructor.
  - intros ty. unfold has_pair_for. by rewrite Hm, Hd.
Qed.

Lemma master_inv_with_childNodes ns l : master_inv l -> master_inv (with_childNodes ns l).
Proof. intros [He Hk Hh]. by split. Qed.

Lemma master_inv_clear l h : master_inv l -> master_inv (fst (clearListeners l h)).
Proof.
  intros [He _ _].
  pose proof (clearListeners_listeners l h He) as (Hd & Hm & Hel & _).
  by apply master_inv_empty.
Qed.

Lemma html_fst s l h :
  fst (html s l h) = with_childNodes (innerHTML s) (fst (clearListeners l h)).
Proof. unfold html. by destruct (clearListeners l h). Qed.

Lemma text_fst s l h :
  fst (text s l h) = with_childNodes (textContent s) (fst (clearListeners l h)).
Proof. unfold text. by destruct (clearListeners l h). Qed.

Lemma master_inv_call c l h : master_inv l -> master_inv (fst (call c (l, h))).
Proof.
  intros Hinv. destruct c; cbn [call].
  - by apply master_inv_on.
  - by apply master_inv_off.
  - rewrite html_fst. by apply master_inv_with_childNodes, master_inv_clear.
  - rewrite text_fst. by apply master_inv_with_childNodes, master_inv_clear.
  - by apply master_inv_clear.
  - destruct Hinv as [He Hk Hh]. by split.
  - unfold onContainer. destruct Hinv as [He Hk Hh].
    destruct (rogueDOMContainer h); by split.
  - destruct Hinv as [He Hk Hh]. by split.
  - destruct Hinv as [He Hk Hh]. by split.
  - destruct Hinv as [He Hk Hh]. by split.
  - destruct Hinv as [He Hk Hh]. by split.
Qed.

Lemma master_inv_calls cs l h : master_inv l -> master_inv (fst (calls cs (l, h))).
Proof.
  unfold calls. revert l h.
  induction cs as [|c cs IH]; intros l h Hinv; cbn [fold_left]; [done|].
  pose proof (master_inv_call c l h Hinv) as H.
  destruct (call c (l, h)) as [l1 h1]. by apply IH.
Qed.

Lemma master_handler_off ty sel cb l ev :
  master_handler (off ty sel cb l) ev
  = List.filter (fun p => negb (same_listener ty sel cb (fst p))) (master_handler l ev).
Proof.
  assert (Hds : delegatedListeners (off ty sel cb l)
                = List.filter (fun dl => negb (same_listener ty sel cb dl))
                    (delegatedListeners l)).
  { unfold off. destruct (existsb _ _); [done|].
    by destruct (alist_get ty (masterHandlers l)). }
  unfold master_handler. rewrite Hds. clear Hds.
  destruct (ev_target ev) as [closest|]; [|done].
  induction (delegatedListeners l) as [|d tl IH]; simpl; [done|].
  rewrite List.filter_app, <- IH.
  destruct (same_listener ty sel cb d) eqn:Esame; simpl.
  - destruct (String.eqb (eventType d) (ev_type ev)); [|done].
    destruct (closest (selector d)) as [[el [|]]|]; simpl; [|done|done].
    by rewrite Esame.
  - f_equal. destruct (String.eqb (eventType d) (ev_type ev)); [|done].
    destruct (closest (selector d)) as [[el [|]]|]; simpl; [|done|done].
    by rewrite Esame.
Qed.

Lemma master_handler_none l ev :
  has_pair_for (ev_type ev) l = false -> master_handler l ev = [].
Proof.
  unfold has_pair_for, master_handler. destruct (ev_target ev) as [closest|]; [|done].
  induction (delegatedListeners l) as [|d tl IH]; simpl; [done|].
  destruct (String.eqb (eventType d) (ev_type ev)); simpl; [done|]. apply IH.
Qed.

Lemma dispatch_master l ev : master_inv l -> dispatch l ev = master_handler l ev.
Proof.
  intros [He Hk Hh]. unfold dispatch. rewrite He.
  specialize (Hh (ev_type ev)).
  destruct (has_pair_for (ev_type ev) l) eqn:Ehas.
  - clear He. revert Hk Hh. generalize (master_handler l ev) as calls.
    induction (masterHandlers l) as [|[k v] tl IH]; intros cs Hk Hh; simpl.
    + done.
    + apply NoDup_cons in Hk as [Hnotin Hk]. unfold alist_has in Hh; simpl in Hh.
      rewrite (String.eqb_sym k (ev_type ev)).
      destruct (String.eqb_spec (ev_type ev) k) as [Heq|Hne].
      * assert (Hnone : alist_has k tl = false).
        { destruct (alist_has k tl) eqn:E; [|done]. exfalso. apply Hnotin.
          by apply list_elem_of_In, alist_has_in. }
        rewrite <- Heq in Hnone. clear Hh IH Hk Hnotin.
        assert (Hrest : flat_map (fun reg : string * nat =>
                  if String.eqb (fst reg) (ev_type ev) then cs else []) tl = []).
        { induction tl as [|[k' v'] tl' IH']; simpl; [done|].
          unfold alist_has in Hnone; simpl in Hnone.
          rewrite (String.eqb_sym k' (ev_type ev)).
          destruct (String.eqb (ev_type ev) k'); [done|]. by apply IH'. }
        rewrite Hrest. apply app_nil_r.
      * simpl. by apply IH.
  - rewrite master_handler_none by done. clear.
    induction (masterHandlers l) as [|[k v] tl IH]; simpl; [done|].
    by destruct (String.eqb k (ev_type ev)).
Qed.

Lemma run_tasks_trace tasks h :
  trace (fold_left (fun acc task => run_task task acc) tasks h)
  = trace h ++ task_events tasks.
Proof.
  revert h. induction tasks as [|task tl IH]; intros h; simpl.
  - by rewrite app_nil_r.
  - rewrite IH. destruct task as [f|ty cb]; simpl.
    + destruct (fn_throws f); simpl; by rewrite <- ?app_assoc.
    + by destruct (rogueDOMContainer h).
Qed.

Lemma clearListeners_trace l h :
  trace (snd (clearListeners l h)) = trace h ++ task_events (cleanupTasks l).
Proof. apply run_tasks_trace. Qed.

Lemma html_snd s l h : snd (html s l h) = snd (clearListeners l h).
Proof. unfold html. by destruct (clearListeners l h). Qed.

Lemma text_snd s l h : snd (text s l h) = snd (clearListeners l h).
Proof. unfold text. by destruct (clearListeners l h). Qed.

Lemma call_registers c l h :
  delegatedListeners (fst (call c (l, h))) = registers (delegatedListeners l) c.
Proof.
  destruct c as [ty sel cb|ty sel cb|s|s| |f|ty cb|n|n| |]; cbn [call fst registers]; try done.
  - unfold on. by destruct (alist_has ty (masterHandlers l)).
  - unfold off.
    destruct (existsb _ _); [done|]. by destruct (alist_get ty (masterHandlers l)).
  - unfold onContainer. by destruct (rogueDOMContainer h).
Qed.

Lemma calls_registers cs :
  forall l h,
    delegatedListeners (fst (calls cs (l, h))) = fold_left registers cs (delegatedListeners l).
Proof.
  unfold calls. induction cs as [|c tl IH]; intros l h; cbn [fold_left]; [done|].
  pose proof (call_registers c l h) as Hc.
  destruct (call c (l, h)) as [l1 h1]. cbn [fst] in Hc. by rewrite IH, Hc.
Qed.

Lemma master_handler_pairs l ev : master_handler l ev = pair_calls (delegatedListeners l) ev.
Proof.
  unfold master_handler, pair_calls, delegated_call.
  destruct (ev_target ev) as [closest|].
  - induction (delegatedListeners l) as [|d tl IH]; cbn [flat_map]; [done|].
    rewrite IH. f_equal. destruct d as [ty sel cb]; cbn.
    destruct (String.eqb ty (ev_type ev)); [|done].
    by destruct (closest sel) as [[target []]|].
  - induction (delegatedListeners l) as [|d tl IH]; cbn [flat_map]; [done|].
    rewrite <- IH. by destruct (String.eqb (eventType d) (ev_type ev)).
Qed.

(** C7. Whatever calls were made on a layer since it was created, its root
    element holds exactly one master listener for an event type when the
    calls have left a (selector, callback) pair registered for it, and none
    when they have left none (so the listener goes when [off] removes the
    last pair); an event calls the pairs the calls have left registered, each
    once and in the order they were registered; and after [off] it calls
    exactly the delegated callbacks it called before, less the removed
    pair. *)
Theorem one_master_listener_per_event_type :
  forall (cs : list Call) (nm : string) (par : option string) (z : option Z) (h : Host),
    let l := fst (calls cs (make nm par z, h)) in
    (forall ty,
        listeners_for ty (elementListeners l) = if pair_for ty (pairs_of cs) then 1 else 0)
    /\ (forall ev, dispatch l ev = pair_calls (pairs_of cs) ev)
    /\ (forall ty sel cb ev,
          dispatch (off ty sel cb l) ev
          = List.filter (fun p => negb (same_listener ty sel cb (fst p)))
              (dispatch l ev)).
Proof.
  intros cs nm par z h l.
  assert (Hinv : master_inv l) by apply master_inv_calls, master_inv_make.
  assert (Hpairs : delegatedListeners l = pairs_of cs).
  { unfold l. by rewrite calls_registers. }
  split; [|split].
  - intros ty. destruct Hinv as [He Hk Hh].
    rewrite He, <- Hpairs. change (pair_for ty (delegatedListeners l)) with (has_pair_for ty l).
    rewrite <- Hh. by apply listeners_for_count.
  - intros ev. rewrite (dispatch_master _ _ Hinv), <- Hpairs. apply master_handler_pairs.
  - intros ty sel cb ev.
    rewrite (dispatch_master _ _ (master_inv_off ty sel cb l Hinv)).
    rewrite (dispatch_master _ _ Hinv). apply master_handler_off.
Qed.

(** Two pairs for [click] and one for [keydown]; one of the click pairs is
    removed, and then the other. *)
Lemma one_master_listener_per_event_type_witness :
  listeners_for "click"
    (elementListeners
       (fst (calls [COn "click" ".a" 1; COn "click" ".b" 2; COn "keydown" ".a" 3;
                    COff "click" ".a" 1]
               (make "hud" None None, UILayerManager.host UILayerManager.empty))))
  = 1
  /\ listeners_for "keydown"
       (elementListeners
          (fst (calls [COn "click" ".a" 1; COn "click" ".b" 2; COn "keydown" ".a" 3;
                       COff "click" ".a" 1]
                  (make "hud" None None, UILayerManager.host UILayerManager.empty))))
     = 1
  /\ listeners_for "click"
       (elementListeners
          (fst (calls [COn "click" ".a" 1; COn "click" ".b" 2; COn "keydown" ".a" 3;
                       COff "click" ".a" 1; COff "click" ".b" 2]
                  (make "hud" None None, UILayerManager.host UILayerManager.empty))))
     = 0
  /\ dispatch
       (fst (calls [COn "click" ".a" 1; COn "click" ".b" 2; COn "keydown" ".a" 3;
                    COff "click" ".a" 1]
               (make "hud" None None, UILayerManager.host UILayerManager.empty)))
       {| ev_type := "click"; ev_target := Some (fun _ => Some (4, true)) |}
     = [({| eventType := "click"; selector := ".b"; callback := 2 |}, 4)].
Proof.
  destruct (one_master_listener_per_event_type
              [COn "click" ".a" 1; COn "click" ".b" 2; COn "keydown" ".a" 3;
               COff "click" ".a" 1]
              "hud" None None (UILayerManager.host UILayerManager.empty)) as (H1 & H2 & _).
  destruct (one_master_listener_per_event_type
              [COn "click" ".a" 1; COn "click" ".b" 2; COn "keydown" ".a" 3;
               COff "click" ".a" 1; COff "click" ".b" 2]
              "hud" None None (UILayerManager.host UILayerManager.empty)) as (H3 & _).
  split; [exact (H1 "click")|]. split; [exact (H1 "keydown")|].
  split; [exact (H3 "click")|].
  exact (H2 {| ev_type := "click"; ev_target := Some (fun _ => Some (4, true)) |}).
Defined.

(** [html] or [text] on a registered layer, seen from the registry. *)
Lemma content_call_on (c : Call) (content : list Node) (m : UILayerManager.t) (nm : string) :
  (forall l h, fst (call c (l, h)) = with_childNodes content (fst (clearListeners l h))) ->
  (forall l h, snd (call c (l, h)) = snd (clearListeners l h)) ->
  let m' := call_on nm c m in
  children_of nm m' = children_of nm m
  /\ (forall x, x <> nm -> UILayerManager.layers m' !! x = UILayerManager.layers m !! x)
  /\ trace (UILayerManager.host m')
     = trace (UILayerManager.host m) ++ task_events (tasks_of nm m).
Proof.
  intros Hfst Hsnd. cbv zeta. unfold call_on, children_of, tasks_of.
  destruct (UILayerManager.layers m !! nm) as [l|] eqn:El.
  - specialize (Hfst l (UILayerManager.host m)). specialize (Hsnd l (UILayerManager.host m)).
    destruct (call c (l, UILayerManager.host m)) as [l' h']. cbn [fst snd] in *.
    subst l' h'. cbn [UILayerManager.layers UILayerManager.host].
    rewrite lookup_insert_eq. split; [done|]. split.
    + intros x Hx. by rewrite lookup_insert_ne.
    + apply clearListeners_trace.
  - rewrite El. split; [done|]. split; [done|]. by rewrite app_nil_r.
Qed.

(** C9. [html] and [text] on a layer, whatever calls were made on it before:
    every registered cleanup task has run (the trace grows by their calls, in
    order) and the delegated pairs, the master handlers and the listeners on
    the root element are gone, and the element's child nodes are exactly the
    new content. The child layers are another matter: in a registry, after
    [html] or [text] on a layer, the layer lists the children it listed and
    every other layer, its child layers among them, is registered as it was,
    with its listeners and with its cleanup tasks, none of which has run.
    Only [reset] destroys the child layers before it clears the content. *)
Theorem replacing_content_keeps_child_layers :
  (forall (cs : list Call) (nm : string) (par : option string) (z : option Z) (h : Host)
          (s : string),
      let st := calls cs (make nm par z, h) in
      (let '(l', h') := html s (fst st) (snd st) in
       childNodes l' = innerHTML s
       /\ delegatedListeners l' = [] /\ masterHandlers l' = []
       /\ elementListeners l' = [] /\ cleanupTasks l' = []
       /\ trace h' = trace (snd st) ++ task_events (cleanupTasks (fst st)))
      /\ (let '(l', h') := text s (fst st) (snd st) in
          childNodes l' = textContent s
          /\ delegatedListeners l' = [] /\ masterHandlers l' = []
          /\ elementListeners l' = [] /\ cleanupTasks l' = []
          /\ trace h' = trace (snd st) ++ task_events (cleanupTasks (fst st))))
  /\ (forall (m : UILayerManager.t) (nm s : string) (c : Call),
        In c [CHtml s; CText s] ->
        let m' := call_on nm c m in
        children_of nm m' = children_of nm m
        /\ (forall x, x <> nm ->
              UILayerManager.layers m' !! x = UILayerManager.layers m !! x)
        /\ trace (UILayerManager.host m')
           = trace (UILayerManager.host m) ++ task_events (tasks_of nm m)).
Proof.
  split.
  - intros cs nm par z h s st.
    assert (Hinv : master_inv (fst st)) by apply master_inv_calls, master_inv_make.
    destruct Hinv as [He _ _].
    pose proof (clearListeners_listeners (fst st) (snd st) He) as (Hd & Hm & Hel & Hc).
    pose proof (clearListeners_trace (fst st) (snd st)) as Htr.
    split.
    + pose proof (html_fst s (fst st) (snd st)) as Hf.
      pose proof (html_snd s (fst st) (snd st)) as Hs.
      destruct (html s (fst st) (snd st)) as [l' h']. simpl in Hf, Hs. subst l' h'.
      by repeat split.
    + pose proof (text_fst s (fst st) (snd st)) as Hf.
      pose proof (text_snd s (fst st) (snd st)) as Hs.
      destruct (text s (fst st) (snd st)) as [l' h']. simpl in Hf, Hs. subst l' h'.
      by repeat split.
  - intros m nm s c [<-|[<-|[]]].
    + apply (content_call_on (CHtml s) (innerHTML s)); intros l h; cbn [call].
      * apply html_fst.
      * apply html_snd.
    + apply (content_call_on (CText s) (textContent s)); intros l h; cbn [call].
      * apply text_fst.
      * apply text_snd.
Qed.

(** The content of the hud is replaced while it holds the panel: the panel
    and its widgets stay registered, the panel with its click pair, its
    cleanup task, which has not run, and its listener on the engine's
    container, which is still there. [reset] on the hud destroys them. *)
Lemma html_leaves_child_layers :
  UILayerManager.has "panel" (call_on "hud" (CHtml "<p>score</p>") busy_panel) = true
  /\ UILayerManager.has "clock" (call_on "hud" (CHtml "<p>score</p>") busy_panel) = true
  /\ children_of "hud" (call_on "hud" (CHtml "<p>score</p>") busy_panel) = ["panel"]
  /\ (childNodes
        <$> UILayerManager.layers (call_on "hud" (CHtml "<p>score</p>") busy_panel) !! "hud")
     = Some [HtmlContent "<p>score</p>"]
  /\ (delegatedListeners
        <$> UILayerManager.layers (call_on "hud" (CHtml "<p>score</p>") busy_panel) !! "panel")
     = Some [{| eventType := "click"; selector := ".close"; callback := 7 |}]
  /\ tasks_of "panel" (call_on "hud" (CHtml "<p>score</p>") busy_panel)
     = [UserTask {| fn_id := 5; fn_throws := false |}; ContainerCleanup "mousemove" 6]
  /\ rogueDOMContainer (UILayerManager.host (call_on "hud" (CHtml "<p>score</p>") busy_panel))
     = Some [("mousemove", 6)]
  /\ trace (UILayerManager.host (call_on "hud" (CHtml "<p>score</p>") busy_panel)) = []
  /\ UILayerManager.has "panel" (UILayerManager.reset "hud" busy_panel) = false
  /\ rogueDOMContainer (UILayerManager.host (UILayerManager.reset "hud" busy_panel))
     = Some [].
Proof. vm_compute. repeat split; reflexivity. Qed.

End LayerFacts.

(** ** The trace of the manager: what each step adds *)

#[local] Set Warnings "-clear-no-such-hyp".

Section ManagerFacts.
Import FocusManager.

Lemma lifecycle_app a b : lifecycle (a ++ b) = lifecycle a ++ lifecycle b.
Proof. apply List.filter_app. Qed.

Lemma enter_events_lifecycle h payload :
  lifecycle (enter_events h payload) = enter_events h payload.
Proof.
  revert h. fix IH 1. intros [owner ens|base child]; simpl; [done|].
  rewrite lifecycle_app. f_equal.
  - destruct base as [b|]; [apply IH | done].
  - destruct child as [c|]; [apply IH | done].
Qed.

Lemma exit_events_lifecycle h next :
  lifecycle (exit_events h next) = exit_events h next.
Proof.
  revert h. fix IH 1. intros [owner ens|base child]; simpl; [done|].
  rewrite lifecycle_app. f_equal.
  - destruct base as [b|]; [apply IH | done].
  - destruct child as [c|]; [apply IH | done].
Qed.

Lemma await_onEnter_lifecycle c payload :
  lifecycle (await_onEnter c payload) = await_onEnter c payload.
Proof. unfold await_onEnter. destruct (onEnter c); [apply enter_events_lifecycle | done]. Qed.

Lemma await_onExit_lifecycle c next :
  lifecycle (await_onExit c next) = await_onExit c next.
Proof. unfold await_onExit. destruct (onExit c); [apply exit_events_lifecycle | done]. Qed.

Lemma run_task_silent task h : silent_host h (UILayer.run_task task h).
Proof.
  unfold silent_host. destruct task as [f|ty cb]; simpl.
  - destruct (fn_throws f); simpl; rewrite !lifecycle_app; simpl; by rewrite ?app_nil_r.
  - by destruct (UILayer.rogueDOMContainer h).
Qed.

Lemma layer_clearListeners_silent l h : silent_host h (snd (UILayer.clearListeners l h)).
Proof.
  unfold silent_host. rewrite clearListeners_trace, lifecycle_app.
  assert (Hq : lifecycle (UILayer.task_events (UILayer.cleanupTasks l)) = []).
  { induction (UILayer.cleanupTasks l) as [|task tl IH]; simpl; [done|].
    rewrite lifecycle_app, IH. destruct task as [f|ty cb]; simpl; [|done].
    by destruct (fn_throws f). }
  by rewrite Hq, app_nil_r.
Qed.

Lemma silent_ui_refl m : silent_ui m m.
Proof. done. Qed.

Lemma silent_ui_trans m1 m2 m3 : silent_ui m1 m2 -> silent_ui m2 m3 -> silent_ui m1 m3.
Proof. unfold silent_ui, silent_host. congruence. Qed.

Lemma update_silent nm f m : silent_ui m (UILayerManager.update nm f m).
Proof. unfold UILayerManager.update. by destruct (UILayerManager.layers m !! nm). Qed.

Lemma fold_silent {A} (f : UILayerManager.t -> A -> UILayerManager.t) xs m :
  (forall acc x, silent_ui acc (f acc x)) -> silent_ui m (fold_left f xs m).
Proof.
  intros Hf. revert m. induction xs as [|x tl IH]; intros m; simpl; [done|].
  eapply silent_ui_trans; [apply Hf | apply IH].
Qed.

Lemma destroy_self_silent nm layer m : silent_ui m (UILayerManager.destroy_self nm layer m).
Proof.
  unfold UILayerManager.destroy_self.
  set (layer1 := match UILayerManager.layers m !! nm with Some l => l | None => layer end).
  pose proof (layer_clearListeners_silent layer1 (UILayerManager.host m)) as Hc.
  destruct (UILayer.clearListeners layer1 (UILayerManager.host m)) as [layer2 h2].
  destruct (UILayer.parent layer2) as [p|]; [|exact Hc].
  unfold silent_ui; cbn [UILayerManager.host].
  pose proof (update_silent p (UILayerManager.detach_child nm)
                {| UILayerManager.layers := <[nm:=layer2]> (UILayerManager.layers m);
                   UILayerManager.host := h2 |}) as Hu.
  unfold silent_ui, silent_host in *. cbn [UILayerManager.host snd] in *. congruence.
Qed.

Lemma destroy_go_silent fuel nm m : silent_ui m (fst (UILayerManager.destroy_go fuel nm m)).
Proof.
  revert nm m. induction fuel as [|f IH]; intros nm m; cbn [UILayerManager.destroy_go].
  - destruct (UILayerManager.layers m !! nm) as [layer|]; [|done].
    apply destroy_self_silent.
  - destruct (UILayerManager.layers m !! nm) as [layer|]; [|done].
    cbn [fst]. eapply silent_ui_trans; [|apply destroy_self_silent].
    apply fold_silent. intros. apply IH.
Qed.

Lemma reset_silent nm m : silent_ui m (UILayerManager.reset nm m).
Proof.
  unfold UILayerManager.reset.
  destruct (UILayerManager.layers m !! nm) as [layer|]; [|done].
  set (m1 := fold_left _ _ m).
  assert (H1 : silent_ui m m1).
  { apply fold_silent. intros. apply destroy_go_silent. }
  destruct (UILayerManager.layers m1 !! nm) as [layer1|]; [|done].
  pose proof (layer_clearListeners_silent (UILayer.with_childNodes [] layer1)
                (UILayerManager.host m1)) as Hc.
  destruct (UILayer.clearListeners _ (UILayerManager.host m1)) as [layer2 h2].
  eapply silent_ui_trans; [exact H1 | exact Hc].
Qed.

Lemma manager_clearListeners_silent nm m : silent_ui m (UILayerManager.clearListeners nm m).
Proof.
  unfold UILayerManager.clearListeners.
  destruct (UILayerManager.layers m !! nm) as [layer|]; [|done].
  pose proof (layer_clearListeners_silent layer (UILayerManager.host m)) as Hc.
  by destruct (UILayer.clearListeners layer (UILayerManager.host m)).
Qed.

Lemma adds_refl fm : adds [] fm fm.
Proof. split; [by split | by rewrite app_nil_r]. Qed.

Lemma adds_trans e1 e2 a b c : adds e1 a b -> adds e2 b c -> adds (e1 ++ e2) a c.
Proof.
  intros [[] H1] [[] H2]. split; [split; congruence|].
  rewrite H2, H1. by rewrite app_assoc.
Qed.

Lemma adds_nil_l e a b c : adds [] a b -> adds e b c -> adds e a c.
Proof. intros H1 H2. apply (adds_trans [] e a b c H1 H2). Qed.

Lemma adds_nil_r e a b c : adds e a b -> adds [] b c -> adds e a c.
Proof.
  intros H1 H2. pose proof (adds_trans e [] a b c H1 H2) as H.
  by rewrite app_nil_r in H.
Qed.

Lemma adds_emit_events evs fm : adds (lifecycle evs) fm (emit_events evs fm).
Proof. split; [by split|]. unfold trace; simpl. apply lifecycle_app. Qed.

Lemma adds_log category title fm : adds [] fm (log category title fm).
Proof. apply (adds_emit_events [EvLog category title]). Qed.

Lemma adds_with_ui m fm : silent_ui (uiLayerManager fm) m -> adds [] fm (with_ui m fm).
Proof.
  intros H. split; [by split|]. unfold trace; simpl.
  unfold silent_ui, silent_host in H. by rewrite H, app_nil_r.
Qed.

Lemma adds_with_bus bus active seq fm : adds [] fm (with_bus bus active seq fm).
Proof. split; [by split | by rewrite app_nil_r]. Qed.

Lemma adds_with_keys active doc seq fm : adds [] fm (with_keys active doc seq fm).
Proof. split; [by split | by rewrite app_nil_r]. Qed.

Lemma adds_fold {A} (f : t -> A -> t) xs fm :
  (forall acc x, adds [] acc (f acc x)) -> adds [] fm (fold_left f xs fm).
Proof.
  intros Hf. revert fm. induction xs as [|x tl IH]; intros fm; simpl.
  - apply adds_refl.
  - eapply adds_nil_l; [apply Hf | apply IH].
Qed.

Lemma adds_deactivate_events fm : adds [] fm (_deactivateStateEventListeners fm).
Proof.
  unfold _deactivateStateEventListeners.
  destruct (activeEventListeners fm) as [|a tl]; [apply adds_refl|].
  eapply adds_nil_l; [apply adds_log | apply adds_with_bus].
Qed.

Lemma adds_deactivate_keys fm : adds [] fm (_deactivateStateKeyListeners fm).
Proof.
  unfold _deactivateStateKeyListeners.
  destruct (activeKeyListeners fm) as [|a tl]; [apply adds_refl|].
  eapply adds_nil_l; [apply adds_log | apply adds_with_keys].
Qed.

Lemma adds_activate_events nm fm : adds [] fm (_activateStateEventListeners nm fm).
Proof.
  unfold _activateStateEventListeners.
  eapply adds_nil_l; [apply adds_deactivate_events|].
  set (fm1 := _deactivateStateEventListeners fm).
  destruct (states fm1 !! nm) as [cfg|]; [|apply adds_refl].
  destruct (eventListeners cfg) as [ls|]; [|apply adds_refl].
  eapply adds_nil_l; [apply adds_log|].
  apply adds_fold. intros acc [i l]. apply adds_with_bus.
Qed.

Lemma adds_activate_keys nm fm : adds [] fm (_activateStateKeyListeners nm fm).
Proof.
  unfold _activateStateKeyListeners.
  eapply adds_nil_l; [apply adds_deactivate_keys|].
  set (fm1 := _deactivateStateKeyListeners fm).
  destruct (states fm1 !! nm) as [cfg|]; [|apply adds_refl].
  destruct (keyListeners cfg) as [ls|]; [|apply adds_refl].
  eapply adds_nil_l; [apply adds_log|].
  apply adds_fold. intros acc [i l]. apply adds_with_keys.
Qed.

Lemma adds_emitSwitchEvent newState oldState fm :
  adds [] fm (_emitSwitchEvent newState oldState fm).
Proof.
  unfold _emitSwitchEvent. apply adds_fold. intros acc listener.
  pose proof (adds_emit_events [EvSwitchListener (fn_id listener) newState oldState] acc) as H.
  destruct (fn_throws listener); [|exact H].
  eapply adds_nil_l; [exact H | apply adds_log].
Qed.

Lemma getTransitionEffect_spec fm c :
  fst (getTransitionEffect (transitionEffectName c) fm) = effect_of fm c
  /\ adds [] fm (snd (getTransitionEffect (transitionEffectName c) fm)).
Proof.
  unfold getTransitionEffect, effect_of.
  destruct (truthy (transitionEffectName c)); [|split; [done | apply adds_refl]].
  destruct (transitionEffects fm !! _); simpl; split; try done.
  - apply adds_refl.
  - apply adds_log.
Qed.

Lemma adds_fx_exit tr from to d fm :
  adds (fx_exit_events tr from to d) fm (fx_exit tr from to d fm).
Proof.
  unfold fx_exit, fx_exit_events. destruct tr as [e|]; [|apply adds_refl].
  apply (adds_emit_events [EvFxExit e from to d]).
Qed.

Lemma adds_fx_enter tr cur prev d fm :
  adds (fx_enter_events tr cur prev d) fm (fx_enter tr cur prev d fm).
Proof.
  unfold fx_enter, fx_enter_events. destruct tr as [e|]; [|apply adds_refl].
  apply (adds_emit_events [EvFxEnter e cur prev d]).
Qed.

Lemma adds_reset_and_hide layerName fm : adds [] fm (reset_and_hide layerName fm).
Proof.
  unfold reset_and_hide.
  destruct (UILayerManager.get layerName (uiLayerManager fm)); [|apply adds_log].
  apply adds_with_ui. eapply silent_ui_trans; [apply reset_silent | apply update_silent].
Qed.

Lemma adds_exitState stateNameToExit nextStateName fm :
  adds (exit_hook_events fm nextStateName stateNameToExit) fm
    (_exitState stateNameToExit nextStateName fm).
Proof.
  unfold _exitState, exit_hook_events.
  destruct (states fm !! stateNameToExit) as [c|]; [|apply adds_refl].
  set (fm1 := emit_events (await_onExit c nextStateName) fm).
  assert (H1 : adds (await_onExit c nextStateName) fm fm1).
  { pose proof (adds_emit_events (await_onExit c nextStateName) fm) as H.
    by rewrite await_onExit_lifecycle in H. }
  set (fm2 := fold_left _ (or_nil (ui_field visible c)) fm1).
  assert (H2 : adds [] fm1 fm2).
  { apply adds_fold. intros acc layerName.
    destruct (str_mem layerName _); [apply adds_refl | apply adds_reset_and_hide]. }
  apply (adds_nil_r _ fm fm2); [by apply (adds_nil_r _ fm fm1)|].
  apply adds_fold. intros acc layerName.
  apply adds_with_ui, manager_clearListeners_silent.
Qed.

Lemma adds_set_shown b layerName fm : adds [] fm (set_shown b layerName fm).
Proof. apply adds_with_ui, update_silent. Qed.

Lemma layer_of_set_shown b x nm fm :
  layer_of nm (set_shown b x fm)
  = if String.eqb nm x then option_map (UILayer.with_shown b) (layer_of x fm)
    else layer_of nm fm.
Proof.
  unfold layer_of, set_shown, UILayerManager.update; simpl.
  destruct (String.eqb_spec nm x) as [->|Hne].
  - destruct (UILayerManager.layers (uiLayerManager fm) !! x) as [l|] eqn:E; simpl.
    + by rewrite lookup_insert_eq.
    + done.
  - destruct (UILayerManager.layers (uiLayerManager fm) !! x) as [l|] eqn:E; simpl.
    + by rewrite lookup_insert_ne.
    + done.
Qed.

Lemma layer_of_emit_events evs nm fm : layer_of nm (emit_events evs fm) = layer_of nm fm.
Proof. done. Qed.

Lemma layer_of_fx_enter tr cur prev d nm fm :
  layer_of nm (fx_enter tr cur prev d fm) = layer_of nm fm.
Proof. unfold fx_enter. by destruct tr. Qed.

Lemma sweep_layers (f : string -> bool) names fm nm :
  layer_of nm (fold_left (fun acc n => set_shown (f n) n acc) names fm)
  = if str_mem nm names then option_map (UILayer.with_shown (f nm)) (layer_of nm fm)
    else layer_of nm fm.
Proof.
  revert fm. induction names as [|x tl IH]; intros fm; simpl; [done|].
  rewrite IH, layer_of_set_shown.
  destruct (String.eqb_spec nm x) as [->|Hne]; simpl.
  - destruct (str_mem x tl); [|done]. by destruct (layer_of x fm).
  - done.
Qed.

Lemma str_mem_In x xs : str_mem x xs = true <-> In x xs.
Proof.
  unfold str_mem. rewrite existsb_exists. split.
  - intros (y & Hy & ->%String.eqb_eq). done.
  - intros H. exists x. split; [done | apply String.eqb_refl].
Qed.

(** [_updateUiVisibility] when the top state has a name and is registered:
    every managed name that has a layer gets the visibility the top state
    declares for it. *)
Lemma updateUiVisibility_spec fm top cfg :
  current fm = Some top -> states fm !! top = Some cfg ->
  exists fm',
    _updateUiVisibility fm = Some fm' /\ adds [] fm fm'
    /\ (top <> "" ->
        forall nm l, In nm (managedLayers fm) -> layer_of nm fm' = Some l ->
                     UILayer.shown l = str_mem nm (visible_of cfg)).
Proof.
  intros Hcur Hcfg. unfold _updateUiVisibility. rewrite Hcur. unfold truthy.
  destruct (String.eqb_spec top "") as [->|Hne]; simpl.
  - eexists. split; [done|]. split; [|done].
    apply adds_fold. intros. apply adds_set_shown.
  - rewrite Hcfg. eexists. split; [done|]. split.
    + apply adds_fold. intros. apply adds_set_shown.
    + intros _ nm l Hin Hl.
      rewrite (sweep_layers (fun n => str_mem n (or_nil (ui_field visible cfg)))) in Hl.
      apply str_mem_In in Hin. rewrite Hin in Hl.
      destruct (layer_of nm fm) as [l0|]; simpl in Hl; [|done].
      by injection Hl as <-.
Qed.

Lemma adds_evolves evs fm fm' : adds evs fm fm' -> evolves evs fm fm'.
Proof. intros [[] H]. by repeat split. Qed.

Lemma evolves_trans e1 e2 a b c : evolves e1 a b -> evolves e2 b c -> evolves (e1 ++ e2) a c.
Proof.
  intros (H1 & H2 & H3 & H4) (G1 & G2 & G3 & G4). repeat split; try congruence.
  rewrite G4, H4. by rewrite app_assoc.
Qed.

Lemma evolves_with_stack st fm : evolves [] fm (with_stack st fm).
Proof. repeat split. by rewrite app_nil_r. Qed.

Lemma exit_hook_events_states fm fm' next nm :
  states fm' = states fm -> exit_hook_events fm' next nm = exit_hook_events fm next nm.
Proof. unfold exit_hook_events. by intros ->. Qed.

(** The loop of [switch] exits the stacked states from the top down and
    leaves the stack empty. *)
Lemma exit_all_spec name st :
  forall fm, _stateStack fm = st ->
    let fm' := exit_all (length st) name fm in
    _stateStack fm' = []
    /\ evolves (flat_map (exit_hook_events fm name) (rev st)) fm fm'.
Proof.
  induction st as [|top st' IH] using rev_ind; intros fm Hst; simpl.
  - split; [done|]. repeat split. by rewrite app_nil_r.
  - rewrite length_app, Nat.add_1_r. cbn [exit_all].
    rewrite Hst, last_snoc.
    pose proof (adds_exitState top name fm) as Hex.
    set (fm1 := _exitState top name fm) in *.
    assert (Hst1 : _stateStack fm1 = st' ++ [top]).
    { destruct Hex as [[] _]. congruence. }
    rewrite Hst1, removelast_last.
    set (fm2 := with_stack st' fm1).
    destruct (IH fm2 eq_refl) as [Hempty Hev].
    split; [exact Hempty|].
    rewrite rev_app_distr; simpl.
    assert (Hstates : states fm2 = states fm).
    { destruct Hex as [[] _]. done. }
    assert (Heq : flat_map (exit_hook_events fm2 name) (rev st')
                  = flat_map (exit_hook_events fm name) (rev st')).
    { apply flat_map_ext. intros. by apply exit_hook_events_states. }
    rewrite Heq in Hev.
    eapply evolves_trans; [|exact Hev].
    pose proof (evolves_trans _ [] fm fm1 fm2 (adds_evolves _ _ _ Hex)
                  (evolves_with_stack st' fm1)) as H.
    by rewrite app_nil_r in H.
Qed.

Lemma resolveParent_layers parent m :
  UILayerManager.layers (snd (UILayerManager.resolveParent parent m)) = UILayerManager.layers m
  /\ silent_ui m (snd (UILayerManager.resolveParent parent m)).
Proof.
  unfold UILayerManager.resolveParent.
  destruct parent as [[nm|nm]|]; simpl; [|done|done].
  destruct (String.eqb nm ""); [done|].
  destruct (UILayerManager.get nm m); [done|]. split; [done|].
  unfold silent_ui, silent_host; simpl. by rewrite lifecycle_app, app_nil_r.
Qed.

Lemma Hook_nested_ind (P : Hook -> Prop) :
  (forall owner ensured delegated container, P (Built owner ensured delegated container)) ->
  (forall base child,
      (forall b, base = Some b -> P b) -> (forall c, child = Some c -> P c) ->
      P (Chain base child)) ->
  forall h, P h.
Proof.
  intros HB HC. fix IH 1. intros [owner ensured delegated container|base child].
  - apply HB.
  - apply HC.
    + destruct base as [b0|]; intros b Hb; [|discriminate].
      injection Hb as <-. apply IH.
    + destruct child as [c0|]; intros c Hc; [|discriminate].
      injection Hc as <-. apply IH.
Qed.

Lemma unlogged_app a b : unlogged (a ++ b) = unlogged a ++ unlogged b.
Proof. apply List.filter_app. Qed.

Lemma lifecycle_unlogged evs : lifecycle (unlogged evs) = lifecycle evs.
Proof.
  induction evs as [|ev tl IH]; [done|].
  unfold unlogged, lifecycle in *. simpl.
  destruct ev; simpl; rewrite ?IH; done.
Qed.

Lemma same_core_refl fm : same_core fm fm.
Proof. by split. Qed.

Lemma same_core_trans a b c : same_core a b -> same_core b c -> same_core a c.
Proof. intros [] []. split; congruence. Qed.

Lemma traces_refl fm : traces [] fm fm.
Proof. split; [apply same_core_refl|]. exists []. by rewrite app_nil_r. Qed.

Lemma traces_trans e1 e2 a b c : traces e1 a b -> traces e2 b c -> traces (e1 ++ e2) a c.
Proof.
  intros [H1 (x & Hx & Ex)] [H2 (y & Hy & Ey)].
  split; [by eapply same_core_trans|].
  exists (x ++ y). rewrite Hy, Hx, unlogged_app, Ex, Ey. by rewrite app_assoc.
Qed.

Lemma traces_nil_l e a b c : traces [] a b -> traces e b c -> traces e a c.
Proof. intros H1 H2. apply (traces_trans [] e a b c H1 H2). Qed.

Lemma traces_nil_r e a b c : traces e a b -> traces [] b c -> traces e a c.
Proof.
  intros H1 H2. pose proof (traces_trans e [] a b c H1 H2) as H.
  by rewrite app_nil_r in H.
Qed.

Lemma traces_emit_events evs fm : traces (unlogged evs) fm (emit_events evs fm).
Proof. split; [by split|]. by exists evs. Qed.

Lemma traces_adds evs fm fm' : traces evs fm fm' -> adds (lifecycle evs) fm fm'.
Proof.
  intros [Hc (added & Ht & <-)]. split; [done|].
  by rewrite Ht, lifecycle_app, lifecycle_unlogged.
Qed.

(** A step of the layer manager that logs at most. *)
Lemma traces_with_ui m fm added :
  UILayer.trace (UILayerManager.host m) = trace fm ++ added -> unlogged added = [] ->
  traces [] fm (with_ui m fm).
Proof. intros Ht Hu. split; [by split|]. by exists added. Qed.

Lemma grows_refl fm : grows fm fm.
Proof.
  split; [done|]. intros nm l' Hl. by rewrite Hl.
Qed.

Lemma layer_of_names nm fm : is_Some (layer_of nm fm) <-> nm ∈ layer_names fm.
Proof. unfold layer_of, layer_names. by rewrite elem_of_dom. Qed.

Lemma grows_trans a b c : grows a b -> grows b c -> grows a c.
Proof.
  intros [N1 S1] [N2 S2]. split; [set_solver|].
  intros nm l' Hl. specialize (S2 nm l' Hl).
  destruct (layer_of nm b) as [l1|] eqn:Hb.
  - specialize (S1 nm l1 Hb). destruct (layer_of nm a); congruence.
  - destruct (layer_of nm a) as [l0|] eqn:Ha; [|done].
    assert (Hin : nm ∈ layer_names b) by (apply N1, layer_of_names; by rewrite Ha).
    apply layer_of_names in Hin. rewrite Hb in Hin. by destruct Hin.
Qed.

Lemma steady_refl fm : steady fm fm.
Proof. split; [apply traces_refl|]. split; [apply grows_refl | done]. Qed.

Lemma steady_trans a b c : steady a b -> steady b c -> steady a c.
Proof.
  intros (T1 & G1 & N1) (T2 & G2 & N2). split; [by eapply traces_nil_l|].
  split; [by eapply grows_trans | congruence].
Qed.

(** A step that replaces one layer by one that is shown as it was. *)
Lemma grows_replace nm l l1 h fm :
  layer_of nm fm = Some l -> UILayer.shown l1 = UILayer.shown l ->
  let fm' :=
    with_ui {| UILayerManager.layers := <[nm := l1]> (UILayerManager.layers (uiLayerManager fm));
               UILayerManager.host := h |} fm in
  grows fm fm' /\ layer_names fm' = layer_names fm.
Proof.
  intros Hl Hs fm'.
  assert (Hn : layer_names fm' = layer_names fm).
  { unfold layer_names, fm'; cbn. rewrite dom_insert_L.
    assert (nm ∈ dom (UILayerManager.layers (uiLayerManager fm)))
      by (apply elem_of_dom; eexists; exact Hl).
    set_solver. }
  split; [|done]. split; [by rewrite Hn|].
  intros x l' Hx. unfold layer_of, fm' in Hx; cbn in Hx.
  destruct (decide (nm = x)) as [->|Hne].
  - rewrite lookup_insert_eq in Hx. injection Hx as <-. by rewrite Hl.
  - rewrite lookup_insert_ne in Hx by done. unfold layer_of. by rewrite Hx.
Qed.

Lemma on_shown ty sel cb l : UILayer.shown (UILayer.on ty sel cb l) = UILayer.shown l.
Proof. unfold UILayer.on. by destruct (alist_has ty (UILayer.masterHandlers l)). Qed.

Lemma attach_delegated_spec fm l :
  if bool_decide (d_layerName l ∈ layer_names fm)
  then resolved (attach_delegated fm l) = true /\ steady fm (after (attach_delegated fm l))
  else attach_delegated fm l = Rejected fm.
Proof.
  unfold attach_delegated, UILayerManager.find, UILayerManager.on, UILayerManager.update.
  case_bool_decide as Hin.
  - apply layer_of_names in Hin as [layer Hl]. unfold layer_of in Hl. rewrite Hl.
    split; [done|]. cbn [after].
    destruct (grows_replace (d_layerName l) layer
                (UILayer.on (d_eventType l) (d_selector l) (d_callback l) layer)
                (UILayerManager.host (uiLayerManager fm)) fm Hl (on_shown _ _ _ _))
      as [Hg Hn].
    split; [|done].
    apply (traces_with_ui _ fm []); [by rewrite app_nil_r | done].
  - assert (Hl : layer_of (d_layerName l) fm = None).
    { destruct (layer_of (d_layerName l) fm) eqn:E; [|done].
      destruct Hin. apply layer_of_names. by rewrite E. }
    unfold layer_of in Hl. by rewrite Hl.
Qed.

Lemma attach_container_spec fm l :
  if bool_decide (c_layerName l ∈ layer_names fm)
  then resolved (attach_container fm l) = true /\ steady fm (after (attach_container fm l))
  else attach_container fm l = Rejected fm.
Proof.
  unfold attach_container, UILayerManager.find, UILayerManager.onContainer.
  case_bool_decide as Hin.
  - apply layer_of_names in Hin as [layer Hl]. unfold layer_of in Hl. rewrite Hl.
    split; [done|]. cbn [after].
    unfold UILayer.onContainer.
    destruct (UILayer.rogueDOMContainer (UILayerManager.host (uiLayerManager fm))) as [ls|].
    + destruct (grows_replace (c_layerName l) layer
                  (UILayer.addCleanupTask
                     (UILayer.ContainerCleanup (c_eventType l) (c_callback l)) layer)
                  (UILayer.with_container
                     (Some (UILayer.addEventListener (c_eventType l) (c_callback l) ls))
                     (UILayerManager.host (uiLayerManager fm))) fm Hl eq_refl)
        as [Hg Hn].
      split; [|done].
      apply (traces_with_ui _ fm []); [by rewrite app_nil_r | done].
    + destruct (grows_replace (c_layerName l) layer layer
                  (UILayer.emit_event
                     (EvLog "error"
                        ("RE.Runtime.rogueDOMContainer is not available to attach '"
                           +:+ c_eventType l +:+ "' listener."))
                     (UILayerManager.host (uiLayerManager fm))) fm Hl eq_refl)
        as [Hg Hn].
      split; [|done].
      eapply (traces_with_ui _ fm [_]); [reflexivity | done].
  - assert (Hl : layer_of (c_layerName l) fm = None).
    { destruct (layer_of (c_layerName l) fm) eqn:E; [|done].
      destruct Hin. apply layer_of_names. by rewrite E. }
    unfold layer_of in Hl. by rewrite Hl.
Qed.

(** [forEach] over listeners: it goes through when every layer named is
    registered, and stops at the first that is not. *)
Lemma for_each_spec {A} (f : t -> A -> Outcome) (layerName : A -> string) xs :
  (forall fm x,
      if bool_decide (layerName x ∈ layer_names fm)
      then resolved (f fm x) = true /\ steady fm (after (f fm x))
      else f fm x = Rejected fm) ->
  forall fm,
    steady fm (after (for_each f xs fm))
    /\ resolved (for_each f xs fm)
       = forallb (fun nm => bool_decide (nm ∈ layer_names fm)) (map layerName xs).
Proof.
  intros Hf. induction xs as [|x tl IH]; intros fm; cbn [for_each map forallb].
  - split; [apply steady_refl | done].
  - specialize (Hf fm x). case_bool_decide as Hin.
    + destruct Hf as [Hr Hs]. destruct (f fm x) as [fm1|fm1]; [|done].
      cbn [and_then after] in *. destruct (IH fm1) as [Hs1 Hr1].
      split; [by eapply steady_trans|].
      rewrite Hr1. destruct Hs as (_ & _ & ->). done.
    + rewrite Hf. cbn. split; [apply steady_refl | done].
Qed.

Lemma resolveParent_trace parent m :
  exists added,
    UILayer.trace (UILayerManager.host (snd (UILayerManager.resolveParent parent m)))
    = UILayer.trace (UILayerManager.host m) ++ added
    /\ unlogged added = [].
Proof.
  unfold UILayerManager.resolveParent.
  destruct parent as [[nm|nm]|]; simpl; try (exists []; by rewrite app_nil_r).
  destruct (String.eqb nm ""); [exists []; by rewrite app_nil_r|].
  destruct (UILayerManager.get nm m); [exists []; by rewrite app_nil_r|].
  eexists [_]. split; [reflexivity | done].
Qed.

(** An [ensureLayer] hook logs at most and leaves the name registered; a
    layer it creates is shown. *)
Lemma ensure_layer_grows fm e :
  traces [] fm (ensure_layer fm e)
  /\ grows fm (ensure_layer fm e)
  /\ layer_names (ensure_layer fm e) = layer_names fm ∪ {[en_name e]}.
Proof.
  unfold ensure_layer.
  destruct (UILayerManager.has (en_name e) (uiLayerManager fm)) eqn:Hhas.
  { split; [apply traces_refl|]. split; [apply grows_refl|].
    assert (en_name e ∈ layer_names fm).
    { apply layer_of_names. unfold layer_of, UILayerManager.has in *.
      by destruct (UILayerManager.layers (uiLayerManager fm) !! en_name e). }
    set_solver. }
  assert (Hnone : UILayerManager.layers (uiLayerManager fm) !! en_name e = None).
  { unfold UILayerManager.has in Hhas.
    by destruct (UILayerManager.layers (uiLayerManager fm) !! en_name e). }
  unfold UILayerManager.create. rewrite Hhas.
  destruct (resolveParent_layers (en_parent e) (uiLayerManager fm)) as [Hlayers _].
  destruct (resolveParent_trace (en_parent e) (uiLayerManager fm)) as (added & Ht & Hu).
  destruct (UILayerManager.resolveParent (en_parent e) (uiLayerManager fm))
    as [parentLayer m1]. simpl in Hlayers, Ht.
  set (layer := UILayer.make _ _ _).
  set (m2 := {| UILayerManager.layers := <[en_name e := layer]> (UILayerManager.layers m1);
                UILayerManager.host := UILayerManager.host m1 |}).
  assert (Hfacts : forall m3,
             UILayerManager.host m3 = UILayerManager.host m2 ->
             dom (UILayerManager.layers m3) = dom (UILayerManager.layers m2) ->
             (forall nm l', UILayerManager.layers m3 !! nm = Some l' ->
                exists l2, UILayerManager.layers m2 !! nm = Some l2
                           /\ UILayer.shown l' = UILayer.shown l2) ->
             traces [] fm (with_ui m3 fm)
             /\ grows fm (with_ui m3 fm)
             /\ layer_names (with_ui m3 fm) = layer_names fm ∪ {[en_name e]}).
  { intros m3 Hh Hd Hsh.
    assert (Hn : layer_names (with_ui m3 fm) = layer_names fm ∪ {[en_name e]}).
    { unfold layer_names; cbn. rewrite Hd. subst m2; cbn. rewrite dom_insert_L, Hlayers.
      set_solver. }
    split.
    { apply (traces_with_ui _ fm added); [|done]. by rewrite Hh. }
    split; [|done]. split; [rewrite Hn; set_solver|].
    intros nm l' Hl. unfold layer_of in *. cbn in Hl.
    destruct (Hsh nm l' Hl) as (l2 & Hl2 & ->). subst m2; cbn in Hl2.
    destruct (decide (en_name e = nm)) as [<-|Hne].
    - rewrite lookup_insert_eq in Hl2. injection Hl2 as <-. by rewrite Hnone.
    - rewrite lookup_insert_ne in Hl2 by done. rewrite Hlayers in Hl2. by rewrite Hl2. }
  destruct parentLayer as [p|].
  - apply Hfacts.
    + unfold UILayerManager.update. by destruct (UILayerManager.layers m2 !! p).
    + unfold UILayerManager.update.
      destruct (UILayerManager.layers m2 !! p) as [pl|] eqn:Hp; [|done]. cbn.
      rewrite dom_insert_L.
      assert (p ∈ dom (UILayerManager.layers m2)) by (apply elem_of_dom; by rewrite Hp).
      set_solver.
    + intros nm l' Hl. unfold UILayerManager.update in Hl.
      destruct (UILayerManager.layers m2 !! p) as [pl|] eqn:Hp; [|by exists l'].
      cbn in Hl. destruct (decide (p = nm)) as [->|Hne].
      * rewrite lookup_insert_eq in Hl. injection Hl as <-. by exists pl.
      * rewrite lookup_insert_ne in Hl by done. by exists l'.
  - apply Hfacts; [done | done |]. intros nm l' Hl. by exists l'.
Qed.

Lemma ensure_layers_grows es :
  forall fm,
    traces [] fm (fold_left ensure_layer es fm)
    /\ grows fm (fold_left ensure_layer es fm)
    /\ layer_names (fold_left ensure_layer es fm)
       = layer_names fm ∪ list_to_set (map en_name es).
Proof.
  induction es as [|e tl IH]; intros fm; cbn [fold_left map list_to_set].
  - split; [apply traces_refl|]. split; [apply grows_refl | set_solver].
  - destruct (ensure_layer_grows fm e) as (T1 & G1 & N1).
    destruct (IH (ensure_layer fm e)) as (T2 & G2 & N2).
    split; [by eapply traces_nil_l|]. split; [by eapply grows_trans|].
    rewrite N2, N1. set_solver.
Qed.

(** Awaiting a hook on entry: the combined hooks that run, the layers left
    registered, and whether the hook resolves, are those [entered] and
    [hook_layers] give for the names registered when it starts. *)
Lemma run_hook_spec h payload :
  forall fm,
    traces (entered h payload (layer_names fm)) fm (after (run_hook h payload fm))
    /\ grows fm (after (run_hook h payload fm))
    /\ match hook_layers h (layer_names fm) with
       | Some there =>
           resolved (run_hook h payload fm) = true
           /\ layer_names (after (run_hook h payload fm)) = there
       | None => resolved (run_hook h payload fm) = false
       end.
Proof.
  induction h as [owner ensured delegated container|base child IHb IHc]
    using Hook_nested_ind; intros fm.
  - cbn [run_hook entered hook_layers].
    set (fm1 := emit_events [EvEnterHook owner payload] fm).
    assert (T1 : traces [EvEnterHook owner payload] fm fm1)
      by apply (traces_emit_events [EvEnterHook owner payload]).
    destruct (ensure_layers_grows ensured fm1) as (T2 & G2 & N2).
    set (fm2 := fold_left ensure_layer ensured fm1) in *.
    assert (N2' : layer_names fm2 = layer_names fm ∪ list_to_set (map en_name ensured))
      by exact N2.
    destruct (for_each_spec attach_delegated d_layerName delegated
                attach_delegated_spec fm2) as [S3 R3].
    rewrite forallb_app, <- N2', <- R3.
    destruct (for_each attach_delegated delegated fm2) as [fm3|fm3];
      cbn [and_then after resolved andb] in *.
    + destruct (for_each_spec attach_container c_layerName container
                  attach_container_spec fm3) as [S4 R4].
      destruct S3 as (T3 & G3 & N3). rewrite <- N3, <- R4.
      destruct S4 as (T4 & G4 & N4).
      split.
      { eapply traces_nil_r; [|exact T4]. eapply traces_nil_r; [|exact T3].
        eapply traces_nil_r; [exact T1 | exact T2]. }
      split.
      { eapply grows_trans; [|exact G4]. eapply grows_trans; [|exact G3]. exact G2. }
      destruct (for_each attach_container container fm3) as [fm4|fm4];
        cbn [after resolved] in *; [|done].
      split; [done | congruence].
    + destruct S3 as (T3 & G3 & N3).
      split.
      { eapply traces_nil_r; [|exact T3]. eapply traces_nil_r; [exact T1 | exact T2]. }
      split; [|done]. eapply grows_trans; [|exact G3]. exact G2.
  - cbn [run_hook entered hook_layers].
    assert (Hb : let o := match base with
                          | Some b => run_hook b payload fm
                          | None => Resolved fm
                          end in
                 traces (match base with Some b => entered b payload (layer_names fm)
                                    | None => [] end) fm (after o)
                 /\ grows fm (after o)
                 /\ match match base with
                          | Some b => hook_layers b (layer_names fm)
                          | None => Some (layer_names fm)
                          end with
                    | Some there => resolved o = true /\ layer_names (after o) = there
                    | None => resolved o = false
                    end).
    { destruct base as [b|]; [apply (IHb b eq_refl)|].
      cbn. split; [apply traces_refl|]. split; [apply grows_refl | done]. }
    cbn zeta in Hb. destruct Hb as (T1 & G1 & R1).
    destruct (match base with Some b => hook_layers b (layer_names fm)
                         | None => Some (layer_names fm) end) as [there|].
    + destruct R1 as [R1 N1].
      destruct (match base with Some b => run_hook b payload fm | None => Resolved fm end)
        as [fm1|fm1]; [|done]. cbn [and_then after resolved] in *. subst there.
      destruct child as [c|].
      * destruct (IHc c eq_refl fm1) as (T2 & G2 & R2).
        split; [by eapply traces_trans|]. split; [by eapply grows_trans | done].
      * cbn. rewrite app_nil_r. done.
    + destruct (match base with Some b => run_hook b payload fm | None => Resolved fm end)
        as [fm1|fm1]; [done|]. cbn [and_then after resolved] in *.
      rewrite app_nil_r. done.
Qed.

Lemma entered_lifecycle h payload present :
  lifecycle (entered h payload present) = entered h payload present.
Proof.
  revert present. induction h as [owner ensured delegated container|base child IHb IHc]
    using Hook_nested_ind; intros present; cbn [entered]; [done|].
  rewrite lifecycle_app. f_equal.
  - destruct base as [b|]; [by apply IHb | done].
  - destruct (match base with Some b => hook_layers b present | None => Some present end);
      [|done].
    destruct child as [c|]; [by apply IHc | done].
Qed.

(** A hook that resolves has run every combined hook it is made of; one
    that rejects has run the first of them, in order. *)
Lemma entered_full h payload present there :
  hook_layers h present = Some there -> entered h payload present = enter_events h payload.
Proof.
  revert present there.
  induction h as [owner ensured delegated container|base child IHb IHc]
    using Hook_nested_ind; intros present there; cbn [entered enter_events hook_layers];
    [done|].
  destruct base as [b|].
  - destruct (hook_layers b present) as [mid|] eqn:Hb; [|done].
    rewrite (IHb b eq_refl present mid Hb).
    destruct child as [c|]; [|done]. intros Hc. by rewrite (IHc c eq_refl mid there Hc).
  - destruct child as [c|]; [|done]. intros Hc. by rewrite (IHc c eq_refl present there Hc).
Qed.

Lemma entered_prefix h payload present :
  exists rest, enter_events h payload = entered h payload present ++ rest.
Proof.
  revert present.
  induction h as [owner ensured delegated container|base child IHb IHc]
    using Hook_nested_ind; intros present; cbn [entered enter_events hook_layers].
  { exists []. by rewrite app_nil_r. }
  destruct base as [b|].
  - destruct (hook_layers b present) as [mid|] eqn:Hb.
    + rewrite (entered_full b payload present mid Hb).
      destruct child as [c|]; [|exists []; by rewrite !app_nil_r].
      destruct (IHc c eq_refl mid) as [rest Hrest]. exists rest.
      by rewrite Hrest, app_assoc.
    + destruct (IHb b eq_refl present) as [rest Hrest].
      exists (rest ++ match child with Some c => enter_events c payload | None => [] end).
      by rewrite Hrest, app_nil_r, app_assoc.
  - destruct child as [c|]; [|by exists []].
    apply (IHc c eq_refl).
Qed.

Lemma onEnter_entered_lifecycle c payload present :
  lifecycle (onEnter_entered c payload present) = onEnter_entered c payload present.
Proof. unfold onEnter_entered. destruct (onEnter c); [apply entered_lifecycle | done]. Qed.

Lemma onEnter_entered_full c payload present :
  attaches c present = true -> onEnter_entered c payload present = await_onEnter c payload.
Proof.
  unfold attaches, onEnter_layers, onEnter_entered, await_onEnter.
  destruct (onEnter c) as [h|]; [|done].
  destruct (hook_layers h present) as [there|] eqn:Hh; [|done].
  intros _. by eapply entered_full.
Qed.

(** [await newStateConfig.onEnter?.(payload, ui)]. *)
Lemma run_onEnter_spec c payload fm :
  traces (onEnter_entered c payload (layer_names fm)) fm (after (run_onEnter c payload fm))
  /\ grows fm (after (run_onEnter c payload fm))
  /\ resolved (run_onEnter c payload fm) = attaches c (layer_names fm).
Proof.
  unfold run_onEnter, onEnter_entered, attaches, onEnter_layers.
  destruct (onEnter c) as [h|].
  - destruct (run_hook_spec h payload fm) as (T & G & R).
    split; [done|]. split; [done|].
    destruct (hook_layers h (layer_names fm)); [by destruct R | done].
  - cbn. split; [apply traces_refl|]. split; [apply grows_refl | done].
Qed.

(** *** Steps that leave the layers alone *)

Lemma alike_refl fm : alike fm fm.
Proof. by repeat split. Qed.

Lemma alike_trans a b c : alike a b -> alike b c -> alike a c.
Proof. intros (? & ? & ?) (? & ? & ?). repeat split; congruence. Qed.

Lemma alike_names a b : alike a b -> layer_names b = layer_names a.
Proof. intros (_ & _ & H). unfold layer_names. by rewrite H. Qed.

Lemma alike_fold {A} (f : t -> A -> t) xs fm :
  (forall acc x, alike acc (f acc x)) -> alike fm (fold_left f xs fm).
Proof.
  intros Hf. revert fm. induction xs as [|x tl IH]; intros fm; simpl; [apply alike_refl|].
  eapply alike_trans; [apply Hf | apply IH].
Qed.

Lemma alike_emit_events evs fm : alike fm (emit_events evs fm).
Proof. by repeat split. Qed.

Lemma alike_getTransitionEffect name fm : alike fm (snd (getTransitionEffect name fm)).
Proof.
  unfold getTransitionEffect. destruct (truthy name); [|apply alike_refl].
  destruct (transitionEffects fm !! _); [apply alike_refl | by repeat split].
Qed.

Lemma alike_deactivate_events fm : alike fm (_deactivateStateEventListeners fm).
Proof.
  unfold _deactivateStateEventListeners.
  destruct (activeEventListeners fm); [apply alike_refl | by repeat split].
Qed.

Lemma alike_deactivate_keys fm : alike fm (_deactivateStateKeyListeners fm).
Proof.
  unfold _deactivateStateKeyListeners.
  destruct (activeKeyListeners fm); [apply alike_refl | by repeat split].
Qed.

Lemma alike_activate_events nm fm : alike fm (_activateStateEventListeners nm fm).
Proof.
  unfold _activateStateEventListeners.
  eapply alike_trans; [apply alike_deactivate_events|].
  destruct (states _ !! nm) as [c|]; [|apply alike_refl].
  destruct (eventListeners c); [|apply alike_refl].
  eapply alike_trans; [|apply alike_fold].
  - by repeat split.
  - intros acc [index listener]. by repeat split.
Qed.

Lemma alike_activate_keys nm fm : alike fm (_activateStateKeyListeners nm fm).
Proof.
  unfold _activateStateKeyListeners.
  eapply alike_trans; [apply alike_deactivate_keys|].
  destruct (states _ !! nm) as [c|]; [|apply alike_refl].
  destruct (keyListeners c); [|apply alike_refl].
  eapply alike_trans; [|apply alike_fold].
  - by repeat split.
  - intros acc [index listener]. by repeat split.
Qed.

Lemma alike_emitSwitchEvent newState oldState fm :
  alike fm (_emitSwitchEvent newState oldState fm).
Proof.
  unfold _emitSwitchEvent. apply alike_fold. intros acc listener.
  destruct (fn_throws listener); by repeat split.
Qed.

Lemma alike_fx_exit tr from to d fm : alike fm (fx_exit tr from to d fm).
Proof. unfold fx_exit. destruct tr; by repeat split. Qed.

Lemma alike_fx_enter tr cur prev d fm : alike fm (fx_enter tr cur prev d fm).
Proof. unfold fx_enter. destruct tr; by repeat split. Qed.

(** *** What the exits do to the layers depends on the layers alone *)

Lemma update_alike nm f m m' :
  UILayerManager.layers m' = UILayerManager.layers m ->
  UILayerManager.layers (UILayerManager.update nm f m')
  = UILayerManager.layers (UILayerManager.update nm f m).
Proof.
  intros H. unfold UILayerManager.update. rewrite H.
  destruct (UILayerManager.layers m !! nm); cbn; by rewrite ?H.
Qed.

Lemma destroy_self_alike nm layer m m' :
  UILayerManager.layers m' = UILayerManager.layers m ->
  UILayerManager.layers (UILayerManager.destroy_self nm layer m')
  = UILayerManager.layers (UILayerManager.destroy_self nm layer m).
Proof.
  intros H. unfold UILayerManager.destroy_self. rewrite H.
  set (layer1 := match UILayerManager.layers m !! nm with Some l => l | None => layer end).
  unfold UILayer.clearListeners. cbn.
  destruct (UILayer.parent layer1) as [p|]; cbn; [|done].
  f_equal. by apply update_alike.
Qed.

Lemma destroy_go_alike fuel :
  forall nm m m',
    UILayerManager.layers m' = UILayerManager.layers m ->
    UILayerManager.layers (fst (UILayerManager.destroy_go fuel nm m'))
    = UILayerManager.layers (fst (UILayerManager.destroy_go fuel nm m)).
Proof.
  induction fuel as [|f IH]; intros nm m m' H; cbn [UILayerManager.destroy_go]; rewrite H;
    destruct (UILayerManager.layers m !! nm) as [layer|]; cbn [fst]; try done.
  - by apply destroy_self_alike.
  - apply destroy_self_alike.
    revert m m' H. induction (UILayer.children layer) as [|child tl IHc]; intros m m' H;
      cbn [fold_left]; [done|].
    apply IHc. by apply IH.
Qed.

Lemma destroy_fold_alike children :
  forall m m',
    UILayerManager.layers m' = UILayerManager.layers m ->
    UILayerManager.layers
      (fold_left (fun acc child => fst (UILayerManager.destroy child acc)) children m')
    = UILayerManager.layers
        (fold_left (fun acc child => fst (UILayerManager.destroy child acc)) children m).
Proof.
  induction children as [|child tl IH]; intros m m' H; cbn [fold_left]; [done|].
  apply IH. unfold UILayerManager.destroy. rewrite H. by apply destroy_go_alike.
Qed.

Lemma reset_alike nm m m' :
  UILayerManager.layers m' = UILayerManager.layers m ->
  UILayerManager.layers (UILayerManager.reset nm m')
  = UILayerManager.layers (UILayerManager.reset nm m).
Proof.
  intros H. unfold UILayerManager.reset. rewrite H.
  destruct (UILayerManager.layers m !! nm) as [layer|]; [|done].
  pose proof (destroy_fold_alike (UILayer.children layer) m m' H) as H1.
  rewrite H1.
  destruct (UILayerManager.layers (fold_left _ (UILayer.children layer) m) !! nm)
    as [layer1|]; [|done].
  unfold UILayer.clearListeners. cbn. by rewrite ?H1.
Qed.

Lemma manager_clearListeners_alike nm m m' :
  UILayerManager.layers m' = UILayerManager.layers m ->
  UILayerManager.layers (UILayerManager.clearListeners nm m')
  = UILayerManager.layers (UILayerManager.clearListeners nm m).
Proof.
  intros H. unfold UILayerManager.clearListeners. rewrite H.
  destruct (UILayerManager.layers m !! nm) as [layer|]; [|done].
  unfold UILayer.clearListeners. cbn. by rewrite ?H.
Qed.

Lemma reset_and_hide_alike layerName a b :
  alike a b -> alike (reset_and_hide layerName a) (reset_and_hide layerName b).
Proof.
  intros (Hs & Hk & Hl). unfold reset_and_hide, UILayerManager.get. rewrite Hl.
  destruct (UILayerManager.layers (uiLayerManager a) !! layerName).
  - split; [done|]. split; [done|]. cbn. apply update_alike. by apply reset_alike.
  - by repeat split.
Qed.

Lemma fold_alike {A} (f : t -> A -> t) xs :
  (forall a b x, alike a b -> alike (f a x) (f b x)) ->
  forall a b, alike a b -> alike (fold_left f xs a) (fold_left f xs b).
Proof.
  intros Hf. induction xs as [|x tl IH]; intros a b H; cbn [fold_left]; [done|].
  apply IH. by apply Hf.
Qed.

Lemma exitState_alike stateNameToExit nextStateName a b :
  alike a b ->
  alike (_exitState stateNameToExit nextStateName a) (_exitState stateNameToExit nextStateName b).
Proof.
  intros H. pose proof H as (Hs & Hk & Hl). unfold _exitState. rewrite Hs.
  destruct (states a !! stateNameToExit) as [c|]; [|done].
  apply fold_alike.
  { intros x y layerName (Xs & Xk & Xl). split; [done|]. split; [done|]. cbn.
    by apply manager_clearListeners_alike. }
  apply fold_alike.
  { intros x y layerName Hxy. destruct (str_mem layerName _); [done|].
    by apply reset_and_hide_alike. }
  by repeat split.
Qed.

Lemma exit_all_alike rounds name :
  forall a b, alike a b -> alike (exit_all rounds name a) (exit_all rounds name b).
Proof.
  induction rounds as [|n IH]; intros a b H; cbn [exit_all]; [done|].
  pose proof H as (Hs & Hk & Hl). rewrite Hk.
  destruct (last (_stateStack a)) as [top|]; [|done].
  apply IH.
  destruct (exitState_alike top name a b H) as (Xs & Xk & Xl).
  split; [done|]. split; [cbn; by rewrite Xk | done].
Qed.

(** [_updateUiVisibility] keeps the registered names. *)
Lemma set_shown_names b x fm : layer_names (set_shown b x fm) = layer_names fm.
Proof.
  unfold layer_names, set_shown, UILayerManager.update; cbn.
  destruct (UILayerManager.layers (uiLayerManager fm) !! x) as [l|] eqn:E; [|done].
  cbn. rewrite dom_insert_L.
  assert (x ∈ dom (UILayerManager.layers (uiLayerManager fm)))
    by (apply elem_of_dom; eexists; exact E).
  set_solver.
Qed.

Lemma updateUiVisibility_names fm fm' :
  _updateUiVisibility fm = Some fm' -> layer_names fm' = layer_names fm.
Proof.
  assert (Hfold : forall (f : string -> bool) names x,
             layer_names (fold_left (fun acc n => set_shown (f n) n acc) names x)
             = layer_names x).
  { intros f names. induction names as [|n tl IH]; intros x; cbn [fold_left]; [done|].
    by rewrite IH, set_shown_names. }
  unfold _updateUiVisibility. destruct (truthy (current fm)).
  - destruct (states fm !! _); [|done]. intros [= <-]. apply Hfold.
  - intros [= <-]. apply (Hfold (fun _ => false)).
Qed.

(** [_updateUiVisibility] when the top state is registered: every managed
    name that has a layer is shown when the top state has a name and
    lists it, and hidden otherwise. *)
Lemma updateUiVisibility_rule fm top cfg :
  current fm = Some top -> states fm !! top = Some cfg ->
  exists fm',
    _updateUiVisibility fm = Some fm' /\ adds [] fm fm'
    /\ layer_names fm' = layer_names fm
    /\ forall nm l, In nm (managedLayers fm) -> layer_of nm fm' = Some l ->
         UILayer.shown l = truthy (Some top) && str_mem nm (visible_of cfg).
Proof.
  intros Hcur Hcfg.
  destruct (updateUiVisibility_spec fm top cfg Hcur Hcfg) as (fm' & Hrun & Hadds & Hvis).
  exists fm'. split; [done|]. split; [done|].
  split; [by apply updateUiVisibility_names|].
  intros nm l Hin Hl. cbn [truthy].
  destruct (String.eqb_spec top "") as [->|Hne]; cbn [negb andb].
  - unfold _updateUiVisibility in Hrun. rewrite Hcur in Hrun. cbn in Hrun.
    injection Hrun as <-.
    rewrite (sweep_layers (fun _ => false)) in Hl.
    apply str_mem_In in Hin. rewrite Hin in Hl.
    destruct (layer_of nm fm) as [l0|]; simpl in Hl; [|done].
    by injection Hl as <-.
  - by apply Hvis.
Qed.

Lemma enter_new_state_spec name prev cfg tr d payload fm :
  current fm = Some name -> states fm !! name = Some cfg ->
  let o := enter_new_state name prev cfg tr d payload fm in
  let present := layer_names fm in
  resolved o = attaches cfg present
  /\ adds (onEnter_entered cfg payload present
             ++ (if attaches cfg present then fx_enter_events tr name prev d else []))
       fm (after o)
  /\ forall nm l, In nm (managedLayers fm) -> layer_of nm (after o) = Some l ->
       UILayer.shown l
       = if bool_decide (nm ∈ present)
         then truthy (Some name) && str_mem nm (visible_of cfg)
         else true.
Proof.
  intros Hcur Hcfg o present. subst o. unfold enter_new_state.
  set (fm1 := _emitSwitchEvent name prev fm).
  set (fm2 := _activateStateEventListeners name fm1).
  set (fm3 := _activateStateKeyListeners name fm2).
  assert (H3 : adds [] fm fm3).
  { eapply adds_nil_l; [apply adds_emitSwitchEvent|].
    eapply adds_nil_l; [apply adds_activate_events | apply adds_activate_keys]. }
  assert (A3 : alike fm fm3).
  { eapply alike_trans; [apply alike_emitSwitchEvent|].
    eapply alike_trans; [apply alike_activate_events | apply alike_activate_keys]. }
  pose proof H3 as [[Hs He Hm Hk Hw] _].
  assert (Hcur3 : current fm3 = Some name) by (unfold current; by rewrite Hk).
  assert (Hcfg3 : states fm3 !! name = Some cfg) by (by rewrite Hs).
  destruct (updateUiVisibility_rule fm3 name cfg Hcur3 Hcfg3)
    as (fm4 & -> & H4 & N4 & Hvis).
  assert (Hnames : layer_names fm4 = present).
  { rewrite N4. by apply alike_names. }
  destruct (run_onEnter_spec cfg payload fm4) as (T5 & G5 & R5).
  rewrite Hnames in T5, R5.
  apply traces_adds in T5. rewrite onEnter_entered_lifecycle in T5.
  assert (Hshown : forall fm', grows fm4 fm' ->
            forall nm l, In nm (managedLayers fm) -> layer_of nm fm' = Some l ->
              UILayer.shown l
              = if bool_decide (nm ∈ present)
                then truthy (Some name) && str_mem nm (visible_of cfg)
                else true).
  { intros fm' [_ Hg] nm l Hin Hl. specialize (Hg nm l Hl).
    destruct (layer_of nm fm4) as [l4|] eqn:E4.
    - rewrite bool_decide_true.
      + rewrite Hg. apply (Hvis nm l4); [by rewrite Hm | done].
      + rewrite <- Hnames. apply layer_of_names. by rewrite E4.
    - rewrite bool_decide_false; [done|]. rewrite <- Hnames. intros Hx.
      apply layer_of_names in Hx. rewrite E4 in Hx. by destruct Hx. }
  destruct (run_onEnter cfg payload fm4) as [fm5|fm5]; cbn [and_then after resolved] in *;
    rewrite <- R5.
  - split; [done|]. split.
    + eapply adds_nil_l; [exact H3|]. eapply adds_nil_l; [exact H4|].
      eapply adds_trans; [exact T5 | apply adds_fx_enter].
    + intros nm l Hin Hl. rewrite layer_of_fx_enter in Hl. by apply (Hshown fm5).
  - split; [done|]. split.
    + rewrite app_nil_r. eapply adds_nil_l; [exact H3|]. by eapply adds_nil_l.
    + intros nm l Hin Hl. by apply (Hshown fm5).
Qed.

Lemma evolves_adds_l e1 e2 a b c : adds e1 a b -> evolves e2 b c -> evolves (e1 ++ e2) a c.
Proof. intros H1 H2. eapply evolves_trans; [by apply adds_evolves | done]. Qed.

Lemma effect_of_same fm fm' c :
  transitionEffects fm' = transitionEffects fm -> effect_of fm' c = effect_of fm c.
Proof. unfold effect_of. by intros ->. Qed.

(** [switch(name)] when the name is registered and the guard of the first
    line does not hold. *)
Lemma switch_spec name payload fm cfg :
  states fm !! name = Some cfg ->
  is_state name fm && Nat.eqb (length (_stateStack fm)) 1 = false ->
  let d := duration_or_default (transitionDuration cfg) in
  let o := switch name payload fm in
  let present := survivors (TSwitch name payload) fm in
  resolved o = attaches cfg present
  /\ _stateStack (after o) = [name]
  /\ evolves
       (fx_exit_events (effect_of fm cfg) (current fm) name d
          ++ flat_map (exit_hook_events fm name) (rev (_stateStack fm))
          ++ onEnter_entered cfg payload present
          ++ (if attaches cfg present
              then fx_enter_events (effect_of fm cfg) name (current fm) d
              else []))
       fm (after o)
  /\ forall nm l, In nm (managedLayers (after o)) -> layer_of nm (after o) = Some l ->
       UILayer.shown l
       = if bool_decide (nm ∈ present)
         then truthy (Some name) && str_mem nm (visible_of cfg)
         else true.
Proof.
  intros Hcfg Hguard d o present. subst o. unfold switch. rewrite Hguard, Hcfg.
  set (fm0 := emit_events [EvNextFrame] fm).
  assert (H0 : adds [] fm fm0) by apply (adds_emit_events [EvNextFrame]).
  destruct (getTransitionEffect_spec fm0 cfg) as [Htr H1].
  pose proof (alike_getTransitionEffect (transitionEffectName cfg) fm0) as A1.
  destruct (getTransitionEffect (transitionEffectName cfg) fm0) as [transition fm1].
  simpl in Htr, H1, A1. fold d.
  set (fm2 := _deactivateStateKeyListeners (_deactivateStateEventListeners fm1)).
  assert (H2 : adds [] fm fm2).
  { eapply adds_nil_l; [exact H0|]. eapply adds_nil_l; [exact H1|].
    eapply adds_nil_l; [apply adds_deactivate_events | apply adds_deactivate_keys]. }
  pose proof H2 as [[Hs2 He2 Hm2 Hk2 Hw2] _].
  assert (Hcur0 : current fm0 = current fm) by done.
  assert (Htr' : transition = effect_of fm cfg).
  { rewrite Htr. apply effect_of_same. by destruct H0 as [[] _]. }
  rewrite Hcur0. clear Htr. subst transition.
  set (fm3 := fx_exit (effect_of fm cfg) (current fm) name d fm2).
  pose proof (adds_fx_exit (effect_of fm cfg) (current fm) name d fm2) as H3.
  fold fm3 in H3. pose proof H3 as [[Hs3 He3 Hm3 Hk3 Hw3] _].
  assert (A3 : alike fm fm3).
  { eapply alike_trans; [apply (alike_emit_events [EvNextFrame])|].
    eapply alike_trans; [exact A1|].
    eapply alike_trans; [apply alike_deactivate_events|].
    eapply alike_trans; [apply alike_deactivate_keys | apply alike_fx_exit]. }
  destruct (exit_all_spec name (_stateStack fm3) fm3 eq_refl) as [Hempty H4].
  pose proof (exit_all_alike (length (_stateStack fm3)) name fm fm3 A3) as A4.
  set (fm4 := exit_all (length (_stateStack fm3)) name fm3) in *.
  rewrite Hempty. cbn [app].
  set (fm5 := with_stack [name] fm4).
  destruct H4 as (Hs4 & He4 & Hm4 & Ht4).
  assert (Hcfg5 : states fm5 !! name = Some cfg).
  { cbn. rewrite Hs4, Hs3, Hs2. done. }
  assert (Hpresent : layer_names fm5 = present).
  { unfold present, survivors. rewrite <- Hk2, <- Hk3. by apply alike_names in A4. }
  destruct (enter_new_state_spec name (current fm) cfg (effect_of fm cfg) d payload fm5
              eq_refl Hcfg5) as (Hres & H6 & Hvis).
  cbn zeta in Hres, H6, Hvis. rewrite Hpresent in Hres, H6, Hvis.
  set (o := enter_new_state name (current fm) cfg (effect_of fm cfg) d payload fm5) in *.
  split; [exact Hres|]. split.
  { destruct H6 as [[_ _ _ Hk6 _] _]. by rewrite Hk6. }
  split.
  - assert (Hexits : flat_map (exit_hook_events fm3 name) (rev (_stateStack fm3))
                     = flat_map (exit_hook_events fm name) (rev (_stateStack fm))).
    { rewrite Hk3, Hk2. apply flat_map_ext. intros.
      apply exit_hook_events_states. congruence. }
    rewrite Hexits in Ht4.
    assert (H25 : evolves (fx_exit_events (effect_of fm cfg) (current fm) name d
                             ++ flat_map (exit_hook_events fm name) (rev (_stateStack fm)))
                    fm fm5).
    { eapply evolves_adds_l; [eapply adds_nil_l; [exact H2 | exact H3]|].
      split; [exact Hs4|]. split; [exact He4|]. split; [exact Hm4 | exact Ht4]. }
    pose proof (evolves_trans _ _ fm fm5 (after o) H25 (adds_evolves _ _ _ H6)) as H.
    by rewrite <- !app_assoc in H.
  - intros nm l Hin Hl. apply (Hvis nm l); [|done].
    destruct H6 as [[_ _ Hm6 _ _] _]. by rewrite <- Hm6.
Qed.

(** [push(name)] when the name is registered and is not the current state. *)
Lemma push_spec name payload fm cfg :
  states fm !! name = Some cfg ->
  is_state name fm = false ->
  let d := duration_or_default (transitionDuration cfg) in
  let o := push name payload fm in
  let present := layer_names fm in
  resolved o = attaches cfg present
  /\ _stateStack (after o) = _stateStack fm ++ [name]
  /\ evolves
       (fx_exit_events (effect_of fm cfg) (current fm) name d
          ++ onEnter_entered cfg payload present
          ++ (if attaches cfg present
              then fx_enter_events (effect_of fm cfg) name (current fm) d
              else []))
       fm (after o)
  /\ forall nm l, In nm (managedLayers (after o)) -> layer_of nm (after o) = Some l ->
       UILayer.shown l
       = if bool_decide (nm ∈ present)
         then truthy (Some name) && str_mem nm (visible_of cfg)
         else true.
Proof.
  intros Hcfg Hguard d o present. subst o. unfold push. rewrite Hguard, Hcfg.
  set (fm0 := emit_events [EvNextFrame] fm).
  assert (H0 : adds [] fm fm0) by apply (adds_emit_events [EvNextFrame]).
  destruct (getTransitionEffect_spec fm0 cfg) as [Htr H1].
  pose proof (alike_getTransitionEffect (transitionEffectName cfg) fm0) as A1.
  destruct (getTransitionEffect (transitionEffectName cfg) fm0) as [transition fm1].
  simpl in Htr, H1, A1. fold d.
  set (fm2 := _deactivateStateKeyListeners (_deactivateStateEventListeners fm1)).
  assert (H2 : adds [] fm fm2).
  { eapply adds_nil_l; [exact H0|]. eapply adds_nil_l; [exact H1|].
    eapply adds_nil_l; [apply adds_deactivate_events | apply adds_deactivate_keys]. }
  pose proof H2 as [[Hs2 He2 Hm2 Hk2 Hw2] _].
  assert (Hcur0 : current fm0 = current fm) by done.
  assert (Htr' : transition = effect_of fm cfg).
  { rewrite Htr. apply effect_of_same. by destruct H0 as [[] _]. }
  rewrite Hcur0. clear Htr. subst transition.
  set (fm3 := fx_exit (effect_of fm cfg) (current fm) name d fm2).
  pose proof (adds_fx_exit (effect_of fm cfg) (current fm) name d fm2) as H3.
  fold fm3 in H3. pose proof H3 as [[Hs3 He3 Hm3 Hk3 Hw3] _].
  assert (A3 : alike fm fm3).
  { eapply alike_trans; [apply (alike_emit_events [EvNextFrame])|].
    eapply alike_trans; [exact A1|].
    eapply alike_trans; [apply alike_deactivate_events|].
    eapply alike_trans; [apply alike_deactivate_keys | apply alike_fx_exit]. }
  set (fm4 := with_stack (_stateStack fm3 ++ [name]) fm3).
  assert (Hcfg4 : states fm4 !! name = Some cfg).
  { cbn. rewrite Hs3, Hs2. done. }
  assert (Hcur4 : current fm4 = Some name) by (unfold current; cbn; apply last_snoc).
  assert (Hpresent : layer_names fm4 = present) by (by apply alike_names in A3).
  destruct (enter_new_state_spec name (current fm) cfg (effect_of fm cfg) d payload fm4
              Hcur4 Hcfg4) as (Hres & H6 & Hvis).
  cbn zeta in Hres, H6, Hvis. rewrite Hpresent in Hres, H6, Hvis.
  set (o := enter_new_state name (current fm) cfg (effect_of fm cfg) d payload fm4) in *.
  split; [exact Hres|]. split.
  { destruct H6 as [[_ _ _ Hk6 _] _]. rewrite Hk6. cbn. by rewrite Hk3, Hk2. }
  split.
  - assert (H24 : evolves (fx_exit_events (effect_of fm cfg) (current fm) name d) fm fm4).
    { pose proof (evolves_adds_l _ _ fm fm3 fm4
                    (adds_nil_l _ _ _ _ H2 H3) (evolves_with_stack _ fm3)) as H.
      by rewrite app_nil_r in H. }
    apply (evolves_trans _ _ fm fm4 (after o) H24 (adds_evolves _ _ _ H6)).
  - intros nm l Hin Hl. apply (Hvis nm l); [|done].
    destruct H6 as [[_ _ Hm6 _ _] _]. by rewrite <- Hm6.
Qed.

(** [pop()] on a stack that ends in [resumed; popped], both registered. *)
Lemma pop_spec fm below resumed popped cfgP cfgR :
  _stateStack fm = below ++ [resumed; popped] ->
  states fm !! popped = Some cfgP ->
  states fm !! resumed = Some cfgR ->
  let d := duration_or_default (transitionDuration cfgP) in
  exists fm',
    pop fm = Resolved fm'
    /\ _stateStack fm' = below ++ [resumed]
    /\ evolves
         (fx_exit_events (effect_of fm cfgP) (Some popped) resumed d
            ++ await_onExit cfgP resumed
            ++ fx_enter_events (effect_of fm cfgP) resumed (Some popped) d)
         fm fm'
    /\ layer_names fm' = survivors TPop fm
    /\ forall nm l, In nm (managedLayers fm') -> layer_of nm fm' = Some l ->
         UILayer.shown l = truthy (Some resumed) && str_mem nm (visible_of cfgR).
Proof.
  intros Hst HcfgP HcfgR d. unfold pop.
  assert (Hlen : Nat.leb (length (_stateStack fm)) 1 = false).
  { rewrite Hst, length_app. simpl. apply Nat.leb_gt. lia. }
  rewrite Hlen.
  set (fm0 := emit_events [EvNextFrame] fm).
  assert (H0 : adds [] fm fm0) by apply (adds_emit_events [EvNextFrame]).
  assert (Hst0 : _stateStack fm0 = below ++ [resumed; popped]) by done.
  assert (Hcur0 : current fm0 = Some popped).
  { unfold current. rewrite Hst0. change [resumed; popped] with ([resumed] ++ [popped]).
    rewrite app_assoc. apply last_snoc. }
  assert (Hres0 : last (removelast (_stateStack fm0)) = Some resumed).
  { rewrite Hst0. change [resumed; popped] with ([resumed] ++ [popped]).
    rewrite app_assoc, removelast_last. apply last_snoc. }
  rewrite Hcur0, Hres0.
  change (states fm0 !! popped) with (states fm !! popped). rewrite HcfgP.
  destruct (getTransitionEffect_spec fm0 cfgP) as [Htr H1].
  pose proof (alike_getTransitionEffect (transitionEffectName cfgP) fm0) as A1.
  destruct (getTransitionEffect (transitionEffectName cfgP) fm0) as [transition fm1].
  simpl in Htr, H1, A1. fold d.
  assert (Htr' : transition = effect_of fm cfgP).
  { rewrite Htr. apply effect_of_same. by destruct H0 as [[] _]. }
  clear Htr. subst transition.
  set (fm2 := _deactivateStateKeyListeners (_deactivateStateEventListeners fm1)).
  assert (H2 : adds [] fm fm2).
  { eapply adds_nil_l; [exact H0|]. eapply adds_nil_l; [exact H1|].
    eapply adds_nil_l; [apply adds_deactivate_events | apply adds_deactivate_keys]. }
  set (fm3 := fx_exit (effect_of fm cfgP) (Some popped) resumed d fm2).
  assert (H3 : adds (fx_exit_events (effect_of fm cfgP) (Some popped) resumed d) fm fm3).
  { eapply adds_nil_l; [exact H2 | apply adds_fx_exit]. }
  assert (A3 : alike fm fm3).
  { eapply alike_trans; [apply (alike_emit_events [EvNextFrame])|].
    eapply alike_trans; [exact A1|].
    eapply alike_trans; [apply alike_deactivate_events|].
    eapply alike_trans; [apply alike_deactivate_keys | apply alike_fx_exit]. }
  pose proof (exitState_alike popped resumed fm fm3 A3) as A4.
  set (fm4 := _exitState popped resumed fm3) in *.
  assert (H4 : adds (fx_exit_events (effect_of fm cfgP) (Some popped) resumed d
                       ++ await_onExit cfgP resumed) fm fm4).
  { eapply adds_trans; [exact H3|].
    pose proof (adds_exitState popped resumed fm3) as H.
    unfold exit_hook_events in H.
    destruct H3 as [[Hs3 _ _ _ _] _]. rewrite Hs3, HcfgP in H. exact H. }
  pose proof H4 as [[Hs4 He4 Hm4 Hk4 Hw4] _].
  set (fm5 := with_stack (removelast (_stateStack fm4)) fm4).
  assert (Hst5 : _stateStack fm5 = below ++ [resumed]).
  { cbn. rewrite Hk4, Hst. change [resumed; popped] with ([resumed] ++ [popped]).
    by rewrite app_assoc, removelast_last. }
  assert (Hcur5 : current fm5 = Some resumed).
  { unfold current. rewrite Hst5. apply last_snoc. }
  rewrite Hcur5.
  set (fm6 := _emitSwitchEvent resumed (Some popped) fm5).
  set (fm7 := _activateStateKeyListeners resumed (_activateStateEventListeners resumed fm6)).
  assert (H7 : adds [] fm5 fm7).
  { eapply adds_nil_l; [apply adds_emitSwitchEvent|].
    eapply adds_nil_l; [apply adds_activate_events | apply adds_activate_keys]. }
  assert (A7 : alike fm5 fm7).
  { eapply alike_trans; [apply alike_emitSwitchEvent|].
    eapply alike_trans; [apply alike_activate_events | apply alike_activate_keys]. }
  pose proof H7 as [[Hs7 He7 Hm7 Hk7 Hw7] _].
  assert (Hcur7 : current fm7 = Some resumed)
    by (unfold current; rewrite Hk7, Hst5; apply last_snoc).
  assert (Hcfg7 : states fm7 !! resumed = Some cfgR).
  { rewrite Hs7. cbn. by rewrite Hs4. }
  destruct (updateUiVisibility_rule fm7 resumed cfgR Hcur7 Hcfg7)
    as (fm8 & -> & H8 & N8 & Hvis).
  eexists. split; [done|].
  pose proof (adds_fx_enter (effect_of fm cfgP) resumed (Some popped) d fm8) as H9.
  assert (H79 : adds (fx_enter_events (effect_of fm cfgP) resumed (Some popped) d) fm5
                  (fx_enter (effect_of fm cfgP) resumed (Some popped) d fm8)).
  { eapply adds_nil_l; [exact H7|]. eapply adds_nil_l; [exact H8 | exact H9]. }
  split.
  { destruct H79 as [[] _]. congruence. }
  split.
  - assert (H45 : evolves (fx_exit_events (effect_of fm cfgP) (Some popped) resumed d
                             ++ await_onExit cfgP resumed) fm fm5).
    { pose proof (evolves_adds_l _ _ fm fm4 fm5 H4 (evolves_with_stack _ fm4)) as H.
      by rewrite app_nil_r in H. }
    pose proof (evolves_trans _ _ fm fm5 _ H45 (adds_evolves _ _ _ H79)) as H.
    by rewrite <- !app_assoc in H.
  - split.
    + rewrite (alike_names _ _ (alike_fx_enter _ _ _ _ fm8)), N8.
      rewrite (alike_names _ _ A7).
      unfold survivors.
      assert (Hc : current fm = Some popped) by exact Hcur0.
      assert (Hr : last (removelast (_stateStack fm)) = Some resumed) by exact Hres0.
      rewrite Hc, Hr. by apply alike_names in A4.
    + intros nm l Hin Hl. rewrite layer_of_fx_enter in Hl.
      apply (Hvis nm l); [|done].
      destruct H9 as [[_ _ Hm9 _ _] _]. destruct H8 as [[_ _ Hm8 _ _] _]. congruence.
Qed.

Lemma is_state_false name fm : current fm <> Some name -> is_state name fm = false.
Proof.
  unfold is_state. destruct (current fm) as [c|]; [|done].
  intros Hne. apply String.eqb_neq. congruence.
Qed.

Lemma exit_hook_events_registered fm next nm c :
  states fm !! nm = Some c -> exit_hook_events fm next nm = await_onExit c next.
Proof. unfold exit_hook_events. by intros ->. Qed.

(** What the enter hook and the enter phase add when the hook resolves, and
    what the enter hook adds when it rejects. *)
Lemma entry_events c payload present (fx : list Event) :
  onEnter_entered c payload present ++ (if attaches c present then fx else [])
  = if attaches c present
    then await_onEnter c payload ++ fx
    else onEnter_entered c payload present.
Proof.
  destruct (attaches c present) eqn:Hok.
  - by rewrite (onEnter_entered_full c payload present Hok).
  - by rewrite app_nil_r.
Qed.

(** C3. On a stack [[A; B; C]] of registered states, [switch D] for a
    registered [D] leaves the stack [[D]], and after the exit phase of the
    effect the lifecycle events it adds are the exit hook of [C], then that
    of [B], then that of [A], each awaited with the destination [D], and then
    the enter hook of [D], followed by the enter phase of the effect. The
    promise rejects instead, with the stack [[D]] and after the same exit
    hooks, when a listener of [D] names a layer that is not registered by
    then: the enter hooks up to the one that throws have run, and the enter
    phase has not. *)
Theorem switch_exits_top_down :
  forall fm A B C D payload cfgA cfgB cfgC cfgD,
    _stateStack fm = [A; B; C] ->
    states fm !! A = Some cfgA -> states fm !! B = Some cfgB ->
    states fm !! C = Some cfgC -> states fm !! D = Some cfgD ->
    let o := switch D payload fm in
    let present := survivors (TSwitch D payload) fm in
    resolved o = attaches cfgD present
    /\ _stateStack (after o) = [D]
    /\ lifecycle (trace (after o))
       = lifecycle (trace fm)
           ++ fx_exit_events (effect_of fm cfgD) (Some C) D
                (duration_or_default (transitionDuration cfgD))
           ++ await_onExit cfgC D ++ await_onExit cfgB D ++ await_onExit cfgA D
           ++ (if resolved o
               then await_onEnter cfgD payload
                      ++ fx_enter_events (effect_of fm cfgD) D (Some C)
                           (duration_or_default (transitionDuration cfgD))
               else onEnter_entered cfgD payload present).
Proof.
  intros fm A B C D payload cfgA cfgB cfgC cfgD Hst HA HB HC HD o present.
  assert (Hguard : is_state D fm && Nat.eqb (length (_stateStack fm)) 1 = false).
  { rewrite Hst. simpl. apply andb_false_r. }
  destruct (switch_spec D payload fm cfgD HD Hguard) as (Hres & Hstack & Hev & _).
  split; [exact Hres|]. split; [exact Hstack|].
  destruct Hev as (_ & _ & _ & Htr). fold o present in Htr, Hres. rewrite Htr, Hres.
  f_equal. rewrite entry_events.
  unfold current. rewrite Hst. simpl.
  rewrite (exit_hook_events_registered fm D C cfgC HC).
  rewrite (exit_hook_events_registered fm D B cfgB HB).
  rewrite (exit_hook_events_registered fm D A cfgA HA).
  by rewrite app_nil_r, <- !app_assoc.
Qed.

(** Every event of an exit hook carries the destination it was awaited with. *)
Lemma exit_events_destination h next ev :
  In ev (exit_events h next) -> exists owner, ev = EvExitHook owner next.
Proof.
  revert h ev. fix IH 1. intros [owner ens|base child] ev; simpl.
  - intros [<-|[]]. by exists owner.
  - rewrite in_app_iff. intros [Hin|Hin].
    + destruct base as [b|]; [by apply (IH b) | done].
    + destruct child as [c|]; [by apply (IH c) | done].
Qed.

(** C10. [switch T] when [T] is on top of a stack of two states or more is
    carried out: it awaits the exit hook of [T] itself with the destination
    [T], then those of the states below from the top down, leaves the stack
    [[T]], and awaits the enter hook of [T] again, which is followed by the
    enter phase of the effect when it resolves; when it rejects, because a
    listener of [T] names a layer that is not registered by then, the stack
    is [[T]] all the same and the enter hooks up to the one that throws have
    run. *)
Theorem switch_to_top_of_deeper_stack :
  forall fm below T payload cfgT,
    _stateStack fm = below ++ [T] -> below <> [] ->
    states fm !! T = Some cfgT ->
    let o := switch T payload fm in
    let present := survivors (TSwitch T payload) fm in
    resolved o = attaches cfgT present
    /\ _stateStack (after o) = [T]
    /\ lifecycle (trace (after o))
       = lifecycle (trace fm)
           ++ fx_exit_events (effect_of fm cfgT) (Some T) T
                (duration_or_default (transitionDuration cfgT))
           ++ await_onExit cfgT T
           ++ flat_map (exit_hook_events fm T) (rev below)
           ++ (if resolved o
               then await_onEnter cfgT payload
                      ++ fx_enter_events (effect_of fm cfgT) T (Some T)
                           (duration_or_default (transitionDuration cfgT))
               else onEnter_entered cfgT payload present).
Proof.
  intros fm below T payload cfgT Hst Hbelow HT o present.
  assert (Hguard : is_state T fm && Nat.eqb (length (_stateStack fm)) 1 = false).
  { rewrite Hst, length_app. simpl. destruct below; [done|]. simpl.
    rewrite Nat.add_1_r. apply andb_false_r. }
  destruct (switch_spec T payload fm cfgT HT Hguard) as (Hres & Hstack & Hev & _).
  split; [exact Hres|]. split; [exact Hstack|].
  destruct Hev as (_ & _ & _ & Htr). fold o present in Htr, Hres. rewrite Htr, Hres.
  f_equal. rewrite entry_events.
  unfold current. rewrite Hst, last_snoc, rev_app_distr. simpl.
  rewrite (exit_hook_events_registered fm T T cfgT HT).
  by rewrite <- !app_assoc.
Qed.


(** [switch] to a registered state leaves that state alone on the stack,
    whether it is carried out or skipped, resolved or rejected. *)
Lemma switch_registered name payload fm cfg :
  states fm !! name = Some cfg ->
  _stateStack (after (switch name payload fm)) = [name]
  /\ states (after (switch name payload fm)) = states fm.
Proof.
  intros Hcfg.
  destruct (is_state name fm && Nat.eqb (length (_stateStack fm)) 1) eqn:Hguard.
  - unfold switch. rewrite Hguard. cbn [after]. split; [|done].
    apply andb_prop in Hguard as [His Hlen].
    apply Nat.eqb_eq in Hlen. unfold is_state, current in His.
    destruct (_stateStack fm) as [|x [|y tl]]; simpl in *; try done.
    apply String.eqb_eq in His. by subst.
  - destruct (switch_spec name payload fm cfg Hcfg Hguard)
      as (_ & Hstack & (Hs & _) & _).
    done.
Qed.

(** A valid sequence changes the stack depth by the pushes and the pops it
    makes. *)
Lemma apply_ops_depth ops :
  forall fm, all_registered fm -> 1 <= length (_stateStack fm) ->
    valid_ops (states fm) (_stateStack fm) ops ->
    length (_stateStack (apply_ops ops fm)) + pops ops
    = length (_stateStack fm) + pushes ops
    /\ 1 <= length (_stateStack (apply_ops ops fm)).
Proof.
  induction ops as [|op tl IH]; intros fm Hreg Hlen Hvalid.
  - unfold pops, pushes; simpl. split; [lia | done].
  - destruct op as [name payload|]; cbn [valid_ops] in Hvalid.
    + destruct Hvalid as ([cfg Hcfg] & Htop & Hrest).
      destruct (push_spec name payload fm cfg Hcfg (is_state_false name fm Htop))
        as (_ & Hstack & (Hs & _) & _).
      cbn [apply_ops apply_op].
      set (fm1 := after (push name payload fm)) in *.
      destruct (IH fm1) as (Hdepth & Hpos).
      * unfold all_registered. rewrite Hstack, Hs. apply Forall_app. split; [done|].
        apply Forall_singleton. by exists cfg.
      * rewrite Hstack, length_app. simpl. lia.
      * by rewrite Hs, Hstack.
      * split; [|done]. unfold pops, pushes in *; simpl.
        rewrite Hstack, length_app in Hdepth. simpl in Hdepth. lia.
    + destruct Hvalid as (Hdeep & Hrest).
      destruct (_stateStack fm) as [|x st] eqn:Hst using rev_ind; [simpl in Hdeep; lia|].
      clear IHst. destruct st as [|y st'] using rev_ind.
      { rewrite length_app in Hdeep. simpl in Hdeep. lia. }
      clear IHst'.
      assert (Hst' : _stateStack fm = st' ++ [y; x]) by (by rewrite Hst, <- app_assoc).
      unfold all_registered in Hreg. rewrite Hst' in Hreg.
      apply Forall_app in Hreg as [Hreg' Hyx].
      apply Forall_cons in Hyx as [[cfgR HR] Hx].
      apply Forall_cons in Hx as [[cfgP HP] _].
      destruct (pop_spec fm st' y x cfgP cfgR Hst' HP HR)
        as (fm1 & Hrun & Hstack & (Hs & _) & _).
      cbn [apply_ops apply_op]. rewrite Hrun. cbn [after].
      destruct (IH fm1) as (Hdepth & Hpos).
      * unfold all_registered. rewrite Hstack, Hs. apply Forall_app. split; [done|].
        apply Forall_singleton. by exists cfgR.
      * rewrite Hstack, length_app. simpl. lia.
      * rewrite Hs, Hstack. by rewrite removelast_last in Hrest.
      * split; [|done]. unfold pops, pushes in *; simpl.
        rewrite Hstack in Hdepth. rewrite !length_app in *. simpl in *. lia.
Qed.

(** C4. After one [switch] to a registered state and then any valid sequence
    of pushes and pops, the pops are no more than the pushes and the stack is
    [1 + pushes - pops] deep, whether the promises of the calls resolved or
    an enter hook rejected one of them; and [pop()] on a stack of depth 1 or
    less logs a warning and returns with everything else as it was. *)
Theorem stack_depth_after_pushes_and_pops :
  (forall fm s payload cfg ops,
      states fm !! s = Some cfg ->
      valid_ops (states fm) [s] ops ->
      let fm1 := after (switch s payload fm) in
      let fm2 := apply_ops ops fm1 in
      pops ops <= pushes ops
      /\ length (_stateStack fm2) = 1 + pushes ops - pops ops)
  /\ (forall fm,
        length (_stateStack fm) <= 1 ->
        pop fm
        = Resolved
            (log "warn"
               "Cannot pop the last state from the stack. Use switch() to change the base state."
               fm)
        /\ _stateStack (after (pop fm)) = _stateStack fm).
Proof.
  split.
  - intros fm s payload cfg ops Hcfg Hvalid fm1 fm2.
    destruct (switch_registered s payload fm cfg Hcfg) as (Hstack & Hs).
    fold fm1 in Hstack, Hs.
    destruct (apply_ops_depth ops fm1) as (Hdepth & Hpos).
    + unfold all_registered. rewrite Hstack, Hs. apply Forall_singleton. by exists cfg.
    + by rewrite Hstack.
    + by rewrite Hs, Hstack.
    + fold fm2 in Hdepth, Hpos. rewrite Hstack in Hdepth. simpl in Hdepth. lia.
  - intros fm Hlen. unfold pop.
    apply Nat.leb_le in Hlen. by rewrite Hlen.
Qed.

Lemma deep_stack (st : list string) :
  2 <= length st -> exists below y x, st = below ++ [y; x].
Proof.
  intros Hlen. destruct st as [|x st] using rev_ind; [simpl in Hlen; lia|].
  clear IHst. destruct st as [|y st'] using rev_ind.
  { rewrite length_app in Hlen. simpl in Hlen. lia. }
  exists st', y, x. by rewrite <- app_assoc.
Qed.

Lemma is_shown_layer_of nm fm l :
  layer_of nm fm = Some l ->
  UILayerManager.is_shown nm (uiLayerManager fm) = Some (UILayer.shown l).
Proof. unfold layer_of, UILayerManager.is_shown. by intros ->. Qed.

Lemma has_layer_of nm fm :
  UILayerManager.has nm (uiLayerManager fm) = true -> exists l, layer_of nm fm = Some l.
Proof.
  unfold layer_of, UILayerManager.has.
  destruct (UILayerManager.layers (uiLayerManager fm) !! nm) as [l|]; [by exists l | done].
Qed.

Lemma switch_guard_false name fm :
  ~ (current fm = Some name /\ length (_stateStack fm) = 1) ->
  is_state name fm && Nat.eqb (length (_stateStack fm)) 1 = false.
Proof.
  intros Hno. apply andb_false_iff.
  destruct (is_state name fm) eqn:His; [|by left]. right.
  apply Nat.eqb_neq. intros Hlen. apply Hno. split; [|done].
  unfold is_state in His. destruct (current fm) as [c|]; [|done].
  apply String.eqb_eq in His. by subst.
Qed.

(** C6, amended. After a [switch], [push] or [pop] that is carried out on a
    stack of registered states, whether its promise resolves or the enter
    hook rejects it: every managed surface that has a layer is shown if the
    state on top has a name and lists it as visible, and hidden if not,
    whatever it was before; except that a layer which was not there when the
    enter hook started, and which the hook created, is shown. *)
Theorem visibility_after_transition :
  forall tr fm,
    carried_out tr fm -> all_registered fm ->
    let fm' := after (run tr fm) in
    forall nm,
      In nm (managedLayers fm') ->
      UILayerManager.has nm (uiLayerManager fm') = true ->
      UILayerManager.is_shown nm (uiLayerManager fm')
      = Some (if bool_decide (nm ∈ survivors tr fm)
              then truthy (current fm') && str_mem nm (visible_now fm')
              else true).
Proof.
  intros tr fm Hcarried Hreg fm'. subst fm'.
  destruct tr as [name payload|name payload|]; cbn [run].
  - destruct Hcarried as [[cfg Hcfg] Hguard].
    destruct (switch_spec name payload fm cfg Hcfg (switch_guard_false name fm Hguard))
      as (_ & Hstack & (Hs & _) & Hvis).
    set (fm' := after (switch name payload fm)) in *.
    assert (Hcur : current fm' = Some name) by (unfold current; by rewrite Hstack).
    intros nm Hin Hhas.
    destruct (has_layer_of nm fm' Hhas) as [l Hl].
    rewrite (is_shown_layer_of nm fm' l Hl). f_equal.
    unfold visible_now. rewrite Hcur, Hs, Hcfg.
    apply (Hvis nm l Hin Hl).
  - destruct Hcarried as [[cfg Hcfg] Htop].
    destruct (push_spec name payload fm cfg Hcfg (is_state_false name fm Htop))
      as (_ & Hstack & (Hs & _) & Hvis).
    set (fm' := after (push name payload fm)) in *.
    assert (Hcur : current fm' = Some name).
    { unfold current. rewrite Hstack. apply last_snoc. }
    intros nm Hin Hhas.
    destruct (has_layer_of nm fm' Hhas) as [l Hl].
    rewrite (is_shown_layer_of nm fm' l Hl). f_equal.
    unfold visible_now. rewrite Hcur, Hs, Hcfg.
    apply (Hvis nm l Hin Hl).
  - destruct (deep_stack _ Hcarried) as (below & y & x & Hst).
    unfold all_registered in Hreg. rewrite Hst in Hreg.
    apply Forall_app in Hreg as [_ Hyx].
    apply Forall_cons in Hyx as [[cfgR HR] Hx].
    apply Forall_cons in Hx as [[cfgP HP] _].
    destruct (pop_spec fm below y x cfgP cfgR Hst HP HR)
      as (fm' & Hrun & Hstack & (Hs & _) & Hnames & Hvis).
    rewrite Hrun. cbn [after].
    assert (Hcur : current fm' = Some y).
    { unfold current. rewrite Hstack. apply last_snoc. }
    intros nm Hin Hhas.
    destruct (has_layer_of nm fm' Hhas) as [l Hl].
    rewrite (is_shown_layer_of nm fm' l Hl). f_equal.
    rewrite bool_decide_true.
    + unfold visible_now. rewrite Hcur, Hs, HR. apply (Hvis nm l Hin Hl).
    + rewrite <- Hnames. apply layer_of_names. by rewrite Hl.
Qed.

(** The rule of C6 as the specification words it fails in three ways: a
    [switch] to the state that is already alone on the stack returns at once,
    and a layer that a later registration made managed stays shown; a managed
    name with no layer is not shown although the top state lists it; and a
    layer that the enter hook creates is shown although the top state does
    not list it. *)
Lemma visibility_rule_counterexample :
  (run (TSwitch "lobby" None) Example.late_registration
   = Resolved Example.late_registration
   /\ ~ shown_as_declared Example.late_registration)
  /\ (exists fm', run (TSwitch "ghost" None) Example.ghost_registered = Resolved fm'
                  /\ ~ shown_as_declared fm')
  /\ (exists fm', run (TSwitch "tooltip-owner" None) Example.tooltip_registered
                  = Resolved fm'
                  /\ ~ shown_as_declared fm').
Proof.
  split; [|split].
  - split; [by vm_compute|].
    intros H. specialize (H "game-layer"). vm_compute in H.
    specialize (H ltac:(tauto)). discriminate.
  - eexists. split; [by vm_compute|].
    intros H. specialize (H "ghost-layer"). vm_compute in H.
    specialize (H ltac:(tauto)). discriminate.
  - eexists. split; [by vm_compute|].
    intros H. specialize (H "tooltip"). vm_compute in H.
    specialize (H ltac:(tauto)). discriminate.
Qed.

(** ** Inheritance *)

(** C1 on the code, for a chain of three: the hooks of [A] are counted twice
    in the resolved configuration of [C], and run twice. [register] stores
    for [B] the merged configuration with its [extends] still set, so
    resolving [C] merges [A] into it again. *)
Theorem three_level_chain_counts_base_twice :
  forall enterA enterB enterC exitA exitB exitC payload next,
    let fm := Example.chain enterA enterB enterC exitA exitB exitC in
    option_map onEnterHookCount (states fm !! "C")
    = Some (Some (2 * length enterA + length enterB + length enterC))
    /\ option_map onExitHookCount (states fm !! "C")
       = Some (Some (2 * length exitA + length exitB + length exitC))
    /\ option_map (fun c => await_onEnter c payload) (states fm !! "C")
       = Some [EvEnterHook "A" payload; EvEnterHook "A" payload;
               EvEnterHook "B" payload; EvEnterHook "C" payload]
    /\ option_map (fun c => await_onExit c next) (states fm !! "C")
       = Some [EvExitHook "A" next; EvExitHook "A" next;
               EvExitHook "B" next; EvExitHook "C" next].
Proof.
  intros enterA enterB enterC exitA exitB exitC payload next fm. subst fm.
  replace (2 * length enterA + length enterB + length enterC)
    with (length enterA + (length enterA + length enterB) + length enterC) by lia.
  replace (2 * length exitA + length exitB + length exitC)
    with (length exitA + (length exitA + length exitB) + length exitC) by lia.
  repeat split; vm_compute; reflexivity.
Qed.

(** With one level of inheritance the counts and the order are as declared. *)
Lemma two_level_chain_counts :
  forall enterA enterB enterC exitA exitB exitC payload,
    let fm := Example.chain enterA enterB enterC exitA exitB exitC in
    option_map onEnterHookCount (states fm !! "B")
    = Some (Some (length enterA + length enterB))
    /\ option_map (fun c => await_onEnter c payload) (states fm !! "B")
       = Some [EvEnterHook "A" payload; EvEnterHook "B" payload].
Proof. intros. subst fm. split; vm_compute; reflexivity. Qed.

(** The names on a path of [extends] are registered and distinct, so there
    are no more of them than registered states. *)
Lemma visited_bound (registered : gmap string FocusStateConfig) (visited : list string) :
  NoDup visited ->
  (forall v, In v visited -> is_Some (registered !! v)) ->
  length visited <= size registered.
Proof.
  intros Hnd Hin.
  rewrite <- (size_list_to_set (C := gset string) visited Hnd).
  rewrite <- (size_dom (D := gset string) registered).
  apply subseteq_size. intros v Hv.
  apply elem_of_list_to_set in Hv. apply elem_of_dom.
  apply Hin. by apply list_elem_of_In.
Qed.

Lemma visited_snoc (registered : gmap string FocusStateConfig) visited parentName
    parentConfig :
  NoDup visited ->
  (forall v, In v visited -> is_Some (registered !! v)) ->
  str_mem parentName visited = false ->
  registered !! parentName = Some parentConfig ->
  NoDup (visited ++ [parentName])
  /\ (forall v, In v (visited ++ [parentName]) -> is_Some (registered !! v)).
Proof.
  intros Hnd Hin Hmem Hp. split.
  - apply NoDup_app. split; [exact Hnd|]. split; [|apply NoDup_singleton].
    intros v Hv Hv'. apply list_elem_of_singleton in Hv'. subst v.
    apply list_elem_of_In, str_mem_In in Hv. congruence.
  - intros v Hv. apply in_app_or in Hv as [Hv|[<-|[]]]; [by apply Hin|eauto].
Qed.

(** The recursion of [resolveInheritance] ends by itself: once the fuel
    covers the registered names not yet visited, more fuel changes nothing. *)
Lemma resolve_go_fuel (registered : gmap string FocusStateConfig) (fuel : nat) :
  forall config visited more,
    NoDup visited ->
    (forall v, In v visited -> is_Some (registered !! v)) ->
    size registered <= fuel + length visited ->
    resolve_go (fuel + more) registered config visited
    = resolve_go fuel registered config visited.
Proof.
  induction fuel as [|f IH]; intros config visited more Hnd Hin Hsz.
  - destruct more as [|more]; [reflexivity|].
    cbn [Nat.add resolve_go].
    destruct (truthy (extends config)); [|reflexivity].
    set (parentName := match extends config with Some p => p | None => "" end).
    destruct (str_mem parentName visited) eqn:Hmem; [reflexivity|].
    destruct (registered !! parentName) as [parentConfig|] eqn:Hp; [|reflexivity].
    exfalso.
    destruct (visited_snoc registered visited parentName parentConfig Hnd Hin Hmem Hp)
      as [Hnd' Hin'].
    pose proof (visited_bound registered _ Hnd' Hin') as Hb.
    rewrite length_app in Hb. simpl in *. lia.
  - cbn [Nat.add resolve_go].
    destruct (truthy (extends config)); [|reflexivity].
    set (parentName := match extends config with Some p => p | None => "" end).
    destruct (str_mem parentName visited) eqn:Hmem; [reflexivity|].
    destruct (registered !! parentName) as [parentConfig|] eqn:Hp; [|reflexivity].
    destruct (visited_snoc registered visited parentName parentConfig Hnd Hin Hmem Hp)
      as [Hnd' Hin'].
    rewrite IH; [reflexivity|exact Hnd'|exact Hin'|].
    rewrite length_app. simpl. lia.
Qed.

End ManagerFacts.

(** ** Cancellation of a stale entry *)

Section BuilderFacts.
Import FocusState.

(** C5 on the code: the exit hook of a state runs while its enter hook is
    suspended after the first of two hooks, the second being [withPrefabs].
    When the enter hook goes on, [withPrefabs] reads the version the exit has
    already advanced, so its check passes: the prefab is instantiated after
    the exit, stays in the scene and is added to the managed list. Only the
    listeners are not attached. *)
Theorem stale_entry_keeps_later_prefabs :
  let started := onEnter_body Example.arenaState None (initial_env ["Enemy"]) in
  let e := Example.exit_during_entry Example.arenaState "lobby" (initial_env ["Enemy"]) in
  is_suspended started = true
  /\ scene e = [(0, "Enemy")]
  /\ get_slot 1 e = [0]
  /\ trace e
     = [EvUserEnter 1 None; EvInstantiate 0 "Enemy";
        EvLog "ui"
          "Listener attachment cancelled for state 'arena' due to rapid state change."]
  /\ List.filter attach_event (trace e) = [].
Proof. vm_compute. repeat split; reflexivity. Qed.

(** The same schedule on a state whose only hook is [withPrefabs]: the
    prefab is destroyed, the managed list stays empty and no listener is
    attached. *)
Lemma single_prefab_hook_is_cancelled :
  let e := Example.exit_during_entry Example.duelState "lobby" (initial_env ["Enemy"]) in
  scene e = [] /\ get_slot 0 e = []
  /\ trace e
     = [EvInstantiate 0 "Enemy";
        EvLog "prefab"
          "Instantiation cancelled for state 'duel' due to rapid state change. Cleaning up.";
        EvDestroy 0;
        EvLog "ui"
          "Listener attachment cancelled for state 'duel' due to rapid state change."].
Proof. vm_compute. repeat split; reflexivity. Qed.

End BuilderFacts.

(** ** Exceptions of handlers *)

Section DispatchFacts.
Import FocusManager.

Lemma call_guarded_app {H : Type} (invoke : H -> Payload -> list Event * bool)
    eventName payload tr listener :
  FocusEventBus.call_guarded invoke eventName payload tr listener
  = tr ++ guarded_call invoke eventName payload listener.
Proof.
  unfold guarded_call, FocusEventBus.call_guarded.
  by destruct (invoke listener payload) as [evs threw].
Qed.

Lemma emit_calls_every_handler {H : Type} (invoke : H -> Payload -> list Event * bool)
    eventName payload (listeners : gmap string (list H)) hs tr :
  listeners !! eventName = Some hs ->
  FocusEventBus.emit invoke eventName payload listeners tr
  = tr ++ flat_map (guarded_call invoke eventName payload) hs.
Proof.
  intros Hhs. unfold FocusEventBus.emit. rewrite Hhs. clear Hhs.
  revert tr. induction hs as [|h tl IH]; intros tr; simpl.
  - by rewrite app_nil_r.
  - rewrite IH, call_guarded_app. by rewrite <- app_assoc.
Qed.

Lemma emit_handler_events {H : Type} (invoke : H -> Payload -> list Event * bool)
    eventName payload (listeners : gmap string (list H)) hs tr :
  listeners !! eventName = Some hs ->
  FocusEventBus.emit invoke eventName payload listeners tr
  = tr ++ handler_events invoke eventName payload hs.
Proof.
  intros Hhs. rewrite (emit_calls_every_handler _ _ _ _ hs) by done. f_equal.
  unfold handler_events. apply flat_map_ext. intros h.
  unfold guarded_call, FocusEventBus.call_guarded. by destruct (invoke h payload).
Qed.

Lemma dispatch_key_calls eventType eventKey fm :
  dispatch_key eventType eventKey fm
  = (map (fun h => EvKeyCallback (fn_id (keyCallback (kh_listener h))) eventKey)
       (key_callers eventType eventKey fm),
     List.filter (fun h => fn_throws (keyCallback (kh_listener h)))
       (key_callers eventType eventKey fm)).
Proof.
  unfold dispatch_key, key_callers.
  assert (Hgen : forall ls acc,
             fold_left
               (fun acc reg =>
                  if String.eqb (fst reg) eventType
                  then
                    let '(evs, threw) := key_handler fm (snd reg) eventKey in
                    (fst acc ++ evs, if threw then snd acc ++ [snd reg] else snd acc)
                  else acc)
               ls acc
             = (fst acc
                  ++ map (fun h => EvKeyCallback (fn_id (keyCallback (kh_listener h))) eventKey)
                       (map snd
                          (List.filter
                             (fun reg =>
                                String.eqb (fst reg) eventType
                                && (is_state (kh_state (snd reg)) fm
                                    && String.eqb eventKey (key (kh_listener (snd reg)))))
                             ls)),
                snd acc
                  ++ List.filter (fun h => fn_throws (keyCallback (kh_listener h)))
                       (map snd
                          (List.filter
                             (fun reg =>
                                String.eqb (fst reg) eventType
                                && (is_state (kh_state (snd reg)) fm
                                    && String.eqb eventKey (key (kh_listener (snd reg)))))
                             ls)))).
  { induction ls as [|[ty h] tl IH]; intros [evs hs]; cbn [fold_left List.filter map fst snd].
    - by rewrite !app_nil_r.
    - rewrite IH. unfold key_handler.
      destruct (String.eqb ty eventType); cbn [andb]; [|done].
      destruct (is_state (kh_state h) fm && String.eqb eventKey (key (kh_listener h)));
        cbn [map List.filter fst snd].
      + destruct (fn_throws (keyCallback (kh_listener h))); cbn [fst snd];
          by rewrite <- ?app_assoc.
      + by rewrite app_nil_r. }
  by rewrite Hgen.
Qed.

(** C2. A cleanup task that throws is logged by [clearListeners] and the
    tasks after it still run; a handler of the bus that throws is logged by
    [emit] and the handlers after it still run, the callbacks of the active
    state among them. The handler the manager adds to [document] for a key
    listener has no such guard: when [document] dispatches a keyboard event,
    every handler for the type, the current state and the key calls its
    callback, nothing else reaches the trace, so nothing is logged, and the
    exception of every callback that throws reaches the host. *)
Theorem handler_exceptions_at_dispatch :
  (forall l h,
      UILayer.trace (snd (UILayer.clearListeners l h))
      = UILayer.trace h ++ UILayer.task_events (UILayer.cleanupTasks l))
  /\ (forall (H : Type) (invoke : H -> Payload -> list Event * bool)
             eventName payload (listeners : gmap string (list H)) hs tr,
         listeners !! eventName = Some hs ->
         FocusEventBus.emit invoke eventName payload listeners tr
         = tr ++ handler_events invoke eventName payload hs)
  /\ (forall fm eventType eventKey,
         fst (dispatch_key eventType eventKey fm)
         = map (fun h => EvKeyCallback (fn_id (keyCallback (kh_listener h))) eventKey)
             (key_callers eventType eventKey fm)
         /\ snd (dispatch_key eventType eventKey fm)
            = List.filter (fun h => fn_throws (keyCallback (kh_listener h)))
                (key_callers eventType eventKey fm)).
Proof.
  split; [|split].
  - intros l h. apply clearListeners_trace.
  - intros H invoke eventName payload listeners hs tr. apply emit_handler_events.
  - intros fm eventType eventKey. by rewrite dispatch_key_calls.
Qed.

(** In the state [fragile] two handlers on [document] listen for [Escape],
    and the callback of the first throws. When the key is pressed both
    callbacks are called, the exception of the first reaches the host and
    nothing is logged. The same state's event callbacks show the guard the
    bus has: it calls both, and logs the one that throws. *)
Lemma key_handler_exception_escapes :
  exists h1 h2,
    documentListeners Example.in_fragile = [("keydown", h1); ("keydown", h2)]
    /\ key_handler Example.in_fragile h1 "Escape" = ([EvKeyCallback 9 "Escape"], true)
    /\ dispatch_key "keydown" "Escape" Example.in_fragile
       = ([EvKeyCallback 9 "Escape"; EvKeyCallback 12 "Escape"], [h1])
    /\ trace (emit "boom" None Example.in_fragile)
       = trace Example.in_fragile
           ++ [EvStateEvent 10 None;
               EvConsoleError "Error in event handler for 'boom':";
               EvStateEvent 11 None].
Proof. do 2 eexists. vm_compute. repeat split; reflexivity. Qed.

End DispatchFacts.

(** ** The theorems at the states of the example component *)

Section Witnesses.
Import FocusManager.

Lemma in_settings_registered : all_registered Example.in_settings.
Proof.
  unfold all_registered.
  assert (Hst : _stateStack Example.in_settings = ["game"; "pause-menu"; "settings-menu"])
    by (vm_compute; reflexivity).
  rewrite Hst.
  repeat (apply Forall_cons; split; [eexists; vm_compute; reflexivity|]).
  exact (List.Forall_nil _).
Defined.

(** [switch('lobby')] from the settings menu, opened from the pause menu of
    the game. *)
Lemma switch_exits_top_down_witness :
  _stateStack Example.in_settings = ["game"; "pause-menu"; "settings-menu"]
  /\ resolved (switch "lobby" None Example.in_settings) = true
  /\ _stateStack (after (switch "lobby" None Example.in_settings)) = ["lobby"]
  /\ lifecycle (trace (after (switch "lobby" None Example.in_settings)))
     = lifecycle (trace Example.in_settings)
         ++ [EvFxExit 0 (Some "settings-menu") "lobby" 700;
             EvExitHook "base-menu" "lobby"; EvExitHook "settings-menu" "lobby";
             EvExitHook "base-menu" "lobby"; EvExitHook "pause-menu" "lobby";
             EvExitHook "game" "lobby";
             EvEnterHook "lobby" None;
             EvFxEnter 0 "lobby" (Some "settings-menu") 700].
Proof.
  split; [vm_compute; reflexivity|].
  assert (Hok : resolved (switch "lobby" None Example.in_settings) = true)
    by (vm_compute; reflexivity).
  edestruct (switch_exits_top_down Example.in_settings
               "game" "pause-menu" "settings-menu" "lobby" None)
    as (_ & Hstack & Htrace);
    [vm_compute; reflexivity ..|].
  split; [exact Hok|]. split; [exact Hstack|].
  rewrite Htrace, Hok. apply (f_equal (app (lifecycle (trace Example.in_settings)))).
  vm_compute. reflexivity.
Defined.

(** [switch('settings-menu')] while the settings menu is on top of two
    other states. *)
Lemma switch_to_top_of_deeper_stack_witness :
  _stateStack Example.in_settings = ["game"; "pause-menu"] ++ ["settings-menu"]
  /\ resolved (switch "settings-menu" None Example.in_settings) = true
  /\ _stateStack (after (switch "settings-menu" None Example.in_settings))
     = ["settings-menu"]
  /\ lifecycle (trace (after (switch "settings-menu" None Example.in_settings)))
     = lifecycle (trace Example.in_settings)
         ++ [EvFxExit 0 (Some "settings-menu") "settings-menu" 150;
             EvExitHook "base-menu" "settings-menu";
             EvExitHook "settings-menu" "settings-menu";
             EvExitHook "base-menu" "settings-menu";
             EvExitHook "pause-menu" "settings-menu";
             EvExitHook "game" "settings-menu";
             EvEnterHook "base-menu" None; EvEnterHook "settings-menu" None;
             EvFxEnter 0 "settings-menu" (Some "settings-menu") 150].
Proof.
  split; [vm_compute; reflexivity|].
  assert (Hok : resolved (switch "settings-menu" None Example.in_settings) = true)
    by (vm_compute; reflexivity).
  edestruct (switch_to_top_of_deeper_stack Example.in_settings
               ["game"; "pause-menu"] "settings-menu" None)
    as (_ & Hstack & Htrace);
    [vm_compute; reflexivity | discriminate | vm_compute; reflexivity |].
  split; [exact Hok|]. split; [exact Hstack|].
  rewrite Htrace, Hok. apply (f_equal (app (lifecycle (trace Example.in_settings)))).
  vm_compute. reflexivity.
Defined.


(** The lobby, then the game, the pause menu, the settings, and back out of
    the settings: three pushes and one pop. *)
Lemma stack_depth_after_pushes_and_pops_witness :
  is_Some (states Example.registered !! "lobby")
  /\ 1 <= 3
  /\ length
       (_stateStack
          (apply_ops [OpPush "game" None; OpPush "pause-menu" None;
                      OpPush "settings-menu" None; OpPop]
             (after (switch "lobby" None Example.registered))))
     = 1 + 3 - 1.
Proof.
  assert (Hreg : is_Some (states Example.registered !! "lobby"))
    by (eexists; vm_compute; reflexivity).
  split; [exact Hreg|]. destruct Hreg as [cfg Hcfg].
  refine (proj1 stack_depth_after_pushes_and_pops Example.registered "lobby" None cfg
            [OpPush "game" None; OpPush "pause-menu" None;
             OpPush "settings-menu" None; OpPop] Hcfg _).
  assert (Hstates : forall nm, is_Some (match nm with
                                        | 0 => states Example.registered !! "game"
                                        | 1 => states Example.registered !! "pause-menu"
                                        | _ => states Example.registered !! "settings-menu"
                                        end)).
  { intros [|[|n]]; eexists; vm_compute; reflexivity. }
  cbn [valid_ops].
  repeat match goal with
         | |- _ /\ _ => split
         | |- is_Some (_ !! "game") => exact (Hstates 0)
         | |- is_Some (_ !! "pause-menu") => exact (Hstates 1)
         | |- is_Some (_ !! "settings-menu") => exact (Hstates 2)
         | |- _ <> _ => vm_compute; discriminate
         | |- _ <= _ => vm_compute; lia
         | |- True => exact I
         end.
Defined.

(** [pop()] from the settings menu: after it the settings layer is hidden and
    the layers of the pause menu are shown. *)
Lemma visibility_after_transition_witness :
  carried_out TPop Example.in_settings
  /\ forall nm,
       In nm (managedLayers (after (run TPop Example.in_settings))) ->
       UILayerManager.has nm (uiLayerManager (after (run TPop Example.in_settings))) = true ->
       UILayerManager.is_shown nm (uiLayerManager (after (run TPop Example.in_settings)))
       = Some (if bool_decide (nm ∈ survivors TPop Example.in_settings)
               then truthy (current (after (run TPop Example.in_settings)))
                    && str_mem nm (visible_now (after (run TPop Example.in_settings)))
               else true).
Proof.
  assert (Hdeep : carried_out TPop Example.in_settings) by (vm_compute; lia).
  split; [exact Hdeep|].
  exact (visibility_after_transition TPop Example.in_settings Hdeep in_settings_registered).
Defined.

End Witnesses.

(** * Further properties of the code *)

(** ** Layers: delegated and container listeners *)

Section LayerCoverage.
Import UILayer.

Lemma master_handler_on ty sel cb l ev :
  master_handler (on ty sel cb l) ev = master_handler l ev ++ delegated_call ty sel cb ev.
Proof.
  assert (Hds : delegatedListeners (on ty sel cb l)
                = delegatedListeners l
                    ++ [{| eventType := ty; selector := sel; callback := cb |}]).
  { unfold on. by destruct (alist_has ty (masterHandlers l)). }
  unfold master_handler, delegated_call. rewrite Hds.
  destruct (ev_target ev) as [closest|]; [|by destruct (String.eqb ty (ev_type ev))].
  rewrite flat_map_app. simpl. by rewrite app_nil_r.
Qed.

(** X1. [on] on a layer, whatever calls were made on it before: an event
    calls the delegated callbacks it called before, in the same order, and
    then the new pair when the pair matches it. Registering the same pair
    twice makes its callback run twice. *)
Theorem on_adds_one_call_after_the_others :
  forall (cs : list Call) (nm : string) (par : option string) (z : option Z) (h : Host)
         (ty sel : string) (cb : nat) (ev : DomEvent),
    let l := fst (calls cs (make nm par z, h)) in
    dispatch (on ty sel cb l) ev = dispatch l ev ++ delegated_call ty sel cb ev
    /\ dispatch (on ty sel cb (on ty sel cb l)) ev
       = dispatch l ev ++ delegated_call ty sel cb ev ++ delegated_call ty sel cb ev.
Proof.
  intros cs nm par z h ty sel cb ev l.
  assert (Hinv : master_inv l) by apply master_inv_calls, master_inv_make.
  pose proof (master_inv_on ty sel cb l Hinv) as Hinv1.
  pose proof (master_inv_on ty sel cb _ Hinv1) as Hinv2.
  rewrite (dispatch_master _ _ Hinv2), (dispatch_master _ _ Hinv1),
    (dispatch_master _ _ Hinv).
  rewrite !master_handler_on. by rewrite <- app_assoc.
Qed.

Lemma listener_eqb_eq a b : listener_eqb a b = true <-> a = b.
Proof.
  destruct a as [s n], b as [s' n']. unfold listener_eqb; simpl.
  rewrite andb_true_iff, String.eqb_eq, Nat.eqb_eq. split; [intros [-> ->]; done|].
  intros [= -> ->]. done.
Qed.

Lemma remove_absent ty cb ls :
  registered_on ty cb ls = false -> removeEventListener ty cb ls = ls.
Proof.
  unfold registered_on. induction ls as [|x tl IH]; simpl; [done|].
  destruct (listener_eqb x (ty, cb)); simpl; [done|]. intros H. by rewrite IH.
Qed.

Lemma remove_snoc_absent ty cb ls :
  registered_on ty cb ls = false -> removeEventListener ty cb (ls ++ [(ty, cb)]) = ls.
Proof.
  unfold registered_on. induction ls as [|x tl IH]; simpl.
  - intros _. unfold listener_eqb; simpl. by rewrite String.eqb_refl, Nat.eqb_refl.
  - destruct (listener_eqb x (ty, cb)); simpl; [done|]. intros H. by rewrite IH.
Qed.

Lemma remove_app_present ty cb ls tl :
  registered_on ty cb ls = true ->
  removeEventListener ty cb (ls ++ tl) = removeEventListener ty cb ls ++ tl.
Proof.
  unfold registered_on. induction ls as [|x r IH]; simpl; [done|].
  destruct (listener_eqb x (ty, cb)); simpl; [done|]. intros H. by rewrite IH.
Qed.

Lemma remove_keeps_absent ty cb ty' cb' ls :
  registered_on ty cb ls = false ->
  registered_on ty cb (removeEventListener ty' cb' ls) = false.
Proof.
  unfold registered_on. induction ls as [|x tl IH]; simpl; [done|].
  intros H. apply orb_false_iff in H as [Hx Htl].
  destruct (listener_eqb x (ty', cb')); simpl; [done|].
  rewrite Hx. by apply IH.
Qed.

Lemma remove_snoc_other ty cb ty' cb' ls :
  registered_on ty' cb' ls = false -> (ty', cb') <> (ty, cb) ->
  removeEventListener ty' cb' (ls ++ [(ty, cb)]) = ls ++ [(ty, cb)].
Proof.
  unfold registered_on. intros H Hne. induction ls as [|x tl IH]; simpl.
  - destruct (listener_eqb (ty, cb) (ty', cb')) eqn:E; [|done].
    apply listener_eqb_eq in E. congruence.
  - simpl in H. apply orb_false_iff in H as [Hx Htl]. rewrite Hx. by rewrite IH.
Qed.

(** Two runs of the same cleanup tasks, the second on a container that holds
    one listener more, at its end: the second run keeps that listener at the
    end, or has removed it and is where the first is. *)
Lemma run_tasks_one_more tasks ty cb :
  forall h1 h2 ls,
    rogueDOMContainer h1 = Some ls -> registered_on ty cb ls = false ->
    rogueDOMContainer h2 = Some (ls ++ [(ty, cb)]) \/ rogueDOMContainer h2 = Some ls ->
    let run := fold_left (fun acc task => run_task task acc) tasks in
    exists ls',
      rogueDOMContainer (run h1) = Some ls'
      /\ registered_on ty cb ls' = false
      /\ (rogueDOMContainer (run h2) = Some (ls' ++ [(ty, cb)])
          \/ rogueDOMContainer (run h2) = Some ls').
Proof.
  induction tasks as [|task tl IH]; intros h1 h2 ls H1 Habs H2; cbn [fold_left].
  - by exists ls.
  - destruct task as [f|ty' cb'].
    + apply (IH _ _ ls); [| done |].
      * cbn [run_task]. by destruct (fn_throws f).
      * cbn [run_task]. by destruct (fn_throws f).
    + cbn [run_task]. rewrite H1.
      apply (IH _ _ (removeEventListener ty' cb' ls));
        [done | by apply remove_keeps_absent |].
      destruct H2 as [-> | ->]; cbn [rogueDOMContainer with_container]; [|by right].
      destruct (registered_on ty' cb' ls) eqn:Epres.
      { left. by rewrite remove_app_present. }
      destruct (decide ((ty', cb') = (ty, cb))) as [Heq|Hne].
      { right. injection Heq as -> ->. rewrite remove_snoc_absent by done.
        by rewrite remove_absent. }
      left. rewrite remove_snoc_other by done. by rewrite remove_absent.
Qed.

(** X2. [onContainer] with a listener the engine's container does not hold
    yet: the listener is added at the end, and the cleanup task registered
    with it removes it again. After [clearListeners] the container holds what
    it would hold had [onContainer] not been called, and the listener is not
    among it. *)
Theorem container_listener_goes_with_the_layer :
  forall (l : t) (h : Host) (ls : list (string * nat)) (ty : string) (cb : nat),
    rogueDOMContainer h = Some ls ->
    registered_on ty cb ls = false ->
    let st := onContainer ty cb l h in
    rogueDOMContainer (snd st) = Some (ls ++ [(ty, cb)])
    /\ rogueDOMContainer (snd (clearListeners (fst st) (snd st)))
       = rogueDOMContainer (snd (clearListeners l h))
    /\ exists ls',
         rogueDOMContainer (snd (clearListeners (fst st) (snd st))) = Some ls'
         /\ registered_on ty cb ls' = false.
Proof.
  intros l h ls ty cb Hc Habs st. subst st. unfold onContainer. rewrite Hc.
  cbn [fst snd].
  assert (Hadd : addEventListener ty cb ls = ls ++ [(ty, cb)]).
  { unfold addEventListener. unfold registered_on in Habs. by rewrite Habs. }
  rewrite Hadd. split; [done|].
  unfold clearListeners. cbn [fst snd addCleanupTask cleanupTasks with_cleanupTasks].
  rewrite fold_left_app. cbn [fold_left].
  destruct (run_tasks_one_more (cleanupTasks l) ty cb h
              (with_container (Some (ls ++ [(ty, cb)])) h) ls Hc Habs)
    as (ls' & Hr & Ha & Hor); [by left|].
  assert (Hend : rogueDOMContainer
                   (run_task (ContainerCleanup ty cb)
                      (fold_left (fun acc task => run_task task acc) (cleanupTasks l)
                         (with_container (Some (ls ++ [(ty, cb)])) h)))
                 = Some ls').
  { cbn [run_task].
    destruct Hor as [-> | ->]; cbn [rogueDOMContainer with_container].
    - by rewrite remove_snoc_absent.
    - by rewrite remove_absent. }
  split; [by rewrite Hend, Hr|]. exists ls'. by split.
Qed.

(** A [mousemove] listener on a layer of the page, the container holding a
    [wheel] listener of another layer. *)
Lemma container_listener_goes_with_the_layer_witness :
  rogueDOMContainer (snd (onContainer "mousemove" 7 (make "hud" None (Some 10%Z))
                            {| rogueDOMContainer := Some [("wheel", 3)]; trace := [] |}))
  = Some [("wheel", 3); ("mousemove", 7)]
  /\ rogueDOMContainer
       (snd (clearListeners
               (fst (onContainer "mousemove" 7 (make "hud" None (Some 10%Z))
                       {| rogueDOMContainer := Some [("wheel", 3)]; trace := [] |}))
               (snd (onContainer "mousemove" 7 (make "hud" None (Some 10%Z))
                       {| rogueDOMContainer := Some [("wheel", 3)]; trace := [] |}))))
     = Some [("wheel", 3)].
Proof.
  destruct (container_listener_goes_with_the_layer (make "hud" None (Some 10%Z))
              {| rogueDOMContainer := Some [("wheel", 3)]; trace := [] |}
              [("wheel", 3)] "mousemove" 7 eq_refl eq_refl) as (Hadd & Hsame & _).
  split; [exact Hadd|]. rewrite Hsame. reflexivity.
Defined.

End LayerCoverage.

(** ** The layer tree: [create] and [destroy] *)

Section TreeCoverage.
Import UILayerManager.

Lemma resolveParent_named parent m :
  fst (resolveParent (named parent) m) = parent_found parent m
  /\ layers (snd (resolveParent (named parent) m)) = layers m
  /\ UILayer.trace (host (snd (resolveParent (named parent) m)))
     = UILayer.trace (host m) ++ parent_warning parent m.
Proof.
  unfold resolveParent, named, parent_found, parent_warning, has, get.
  destruct parent as [p|]; simpl; [|by rewrite app_nil_r].
  destruct (String.eqb p ""); simpl.
  - by rewrite andb_false_r, app_nil_r.
  - rewrite andb_true_r. destruct (layers m !! p); simpl; [|done]. by rewrite app_nil_r.
Qed.

Lemma parent_found_registered parent m p :
  parent_found parent m = Some p -> exists pl, layers m !! p = Some pl.
Proof.
  unfold parent_found. destruct parent as [q|]; [|done].
  destruct (has q m && negb (String.eqb q "")) eqn:E; [|done].
  intros [= ->]. apply andb_true_iff in E as [E _].
  unfold has in E. destruct (layers m !! p) as [pl|]; [by exists pl | done].
Qed.

(** X3. [create(name, { zIndex, parent })] with the parent given by name. A
    name that is registered makes it throw. Otherwise the name is registered
    with a new layer, shown and empty, under the named parent when that one
    is registered and at the top level when not, with a warning for a parent
    that is missing. A top-level layer gets the z-index given (0 by
    default), a child layer gets none. The parent gets the new layer as its
    last child and the layer's container as its last node, and no other
    layer changes. *)
Theorem create_registers_a_new_layer :
  forall (nm : string) (zIndex : option Z) (parent : option string) (m : t),
    if has nm m
    then create nm zIndex (named parent) m = None
    else
      exists m',
        create nm zIndex (named parent) m = Some m'
        /\ get nm m'
           = Some (UILayer.make nm (parent_found parent m)
                     (match parent_found parent m with
                      | Some _ => None
                      | None => Some (default 0%Z zIndex)
                      end))
        /\ UILayer.trace (host m') = UILayer.trace (host m) ++ parent_warning parent m
        /\ (forall k, k <> nm -> parent_found parent m <> Some k -> get k m' = get k m)
        /\ (forall p pl, parent_found parent m = Some p -> get p m = Some pl ->
              get p m'
              = Some (UILayer.with_childNodes
                        (UILayer.childNodes pl ++ [UILayer.LayerContainer nm])
                        (UILayer.with_children (UILayer.children pl ++ [nm]) pl))).
Proof.
  intros nm zIndex parent m. destruct (has nm m) eqn:Hhas.
  { unfold create. by rewrite Hhas. }
  unfold create. rewrite Hhas.
  destruct (resolveParent_named parent m) as (Hp & Hl & Ht).
  destruct (resolveParent (named parent) m) as [parentLayer m1].
  cbn [fst snd] in Hp, Hl, Ht. subst parentLayer. rewrite Hl.
  assert (Hz : match zIndex with Some z => z | None => 0%Z end = default 0%Z zIndex)
    by (by destruct zIndex).
  rewrite Hz.
  destruct (parent_found parent m) as [p|] eqn:Epf.
  - destruct (parent_found_registered parent m p Epf) as [pl Hpl].
    assert (Hpne : p <> nm).
    { intros ->. unfold has in Hhas. by rewrite Hpl in Hhas. }
    eexists. split; [reflexivity|].
    unfold update, get. cbn [layers]. rewrite lookup_insert_ne by done. rewrite Hpl.
    cbn [layers host]. split; [|split; [|split]].
    + rewrite lookup_insert_ne by done. by rewrite lookup_insert_eq.
    + exact Ht.
    + intros k Hk Hkp. rewrite lookup_insert_ne by congruence.
      by rewrite lookup_insert_ne.
    + intros p' pl' [= <-] Hget. rewrite Hpl in Hget. injection Hget as <-.
      by rewrite lookup_insert_eq.
  - eexists. split; [reflexivity|]. unfold get. cbn [layers host].
    split; [by rewrite lookup_insert_eq|]. split; [exact Ht|]. split.
    + intros k Hk _. by rewrite lookup_insert_ne.
    + intros p pl Hp. done.
Qed.

Lemma update_keys nm f m k : has k (update nm f m) = has k m.
Proof.
  unfold update, has. destruct (layers m !! nm) as [l|] eqn:E; [|done]. cbn [layers].
  destruct (decide (k = nm)) as [->|Hne].
  - rewrite lookup_insert_eq. by rewrite E.
  - by rewrite lookup_insert_ne.
Qed.

Lemma destroy_self_keys nm layer m k :
  has k (destroy_self nm layer m) = if String.eqb k nm then false else has k m.
Proof.
  unfold destroy_self.
  destruct (UILayer.clearListeners _ (host m)) as [layer2 h2].
  set (m2 := {| layers := <[nm:=layer2]> (layers m); host := h2 |}).
  assert (H3 : forall m3, (forall k', has k' m3 = has k' m2) ->
            has k {| layers := delete nm (layers m3); host := host m3 |}
            = if String.eqb k nm then false else has k m).
  { intros m3 H. unfold has at 1. cbn [layers].
    destruct (String.eqb_spec k nm) as [->|Hne].
    - by rewrite lookup_delete_eq.
    - rewrite lookup_delete_ne by done. specialize (H k). unfold has in H at 1.
      rewrite H. unfold has, m2. cbn [layers]. by rewrite lookup_insert_ne. }
  destruct (UILayer.parent layer2) as [p|].
  - apply H3. intros k'. apply update_keys.
  - by apply H3.
Qed.

Lemma destroy_go_keys fuel :
  forall nm m k, has k (fst (destroy_go fuel nm m)) = true -> has k m = true.
Proof.
  induction fuel as [|f IH]; intros nm m k; cbn [destroy_go].
  - destruct (layers m !! nm) as [layer|]; [|done]. cbn [fst].
    rewrite destroy_self_keys. by destruct (String.eqb k nm).
  - destruct (layers m !! nm) as [layer|]; [|done]. cbn [fst].
    rewrite destroy_self_keys. destruct (String.eqb k nm); [done|].
    generalize (UILayer.children layer). intros cs. revert m.
    induction cs as [|c tl IHc]; intros m; cbn [fold_left]; [done|].
    intros H. apply IHc in H. by apply IH in H.
Qed.

Lemma destroy_go_gone fuel nm m :
  has nm (fst (destroy_go fuel nm m)) = false.
Proof.
  destruct fuel as [|f]; cbn [destroy_go]; unfold has at 1.
  - destruct (layers m !! nm) as [layer|] eqn:E; cbn [fst].
    + fold (has nm (destroy_self nm layer m)). rewrite destroy_self_keys.
      by rewrite String.eqb_refl.
    + by rewrite E.
  - destruct (layers m !! nm) as [layer|] eqn:E; cbn [fst].
    + match goal with |- context [destroy_self nm layer ?m1] =>
        fold (has nm (destroy_self nm layer m1)) end.
      rewrite destroy_self_keys. by rewrite String.eqb_refl.
    + by rewrite E.
Qed.

Lemma destroy_fold_keys f cs :
  forall m k,
    has k (fold_left (fun acc child => fst (destroy_go f child acc)) cs m) = true ->
    has k m = true.
Proof.
  induction cs as [|y r IHr]; intros m k H; cbn [fold_left] in *; [done|].
  apply IHr in H. by apply destroy_go_keys in H.
Qed.

Lemma destroy_children_gone f cs :
  forall m c, In c cs ->
    has c (fold_left (fun acc child => fst (destroy_go f child acc)) cs m) = false.
Proof.
  induction cs as [|x tl IH]; intros m c Hin; [destruct Hin|].
  cbn [fold_left]. destruct (in_dec String.string_dec c tl) as [Htl|Hntl].
  - by apply IH.
  - destruct Hin as [->|Hin]; [|done].
    destruct (has c (fold_left _ tl _)) eqn:E; [|done].
    apply destroy_fold_keys in E. by rewrite destroy_go_gone in E.
Qed.

(** X4. [destroy(name)] returns [false] and changes nothing for a name that
    is not registered. For a registered layer it returns [true]; afterwards
    neither the layer nor any child it lists is registered, and no name is
    registered that was not before. *)
Theorem destroy_unregisters_the_layer_and_its_children :
  forall (nm : string) (m : t),
    match get nm m with
    | None => destroy nm m = (m, false)
    | Some layer =>
        snd (destroy nm m) = true
        /\ has nm (fst (destroy nm m)) = false
        /\ (forall c, In c (UILayer.children layer) -> has c (fst (destroy nm m)) = false)
        /\ (forall k, has k (fst (destroy nm m)) = true -> has k m = true)
    end.
Proof.
  intros nm m. unfold get. destruct (layers m !! nm) as [layer|] eqn:E.
  - assert (Hsize : exists f, size (layers m) = S f).
    { destruct (size (layers m)) as [|f] eqn:Hs; [|by exists f].
      apply map_size_empty_iff in Hs. rewrite Hs in E. done. }
    destruct Hsize as [f Hf]. unfold destroy. rewrite Hf.
    split; [|split; [|split]].
    + cbn [destroy_go]. by rewrite E.
    + apply destroy_go_gone.
    + intros c Hin. cbn [destroy_go]. rewrite E. cbn [fst].
      rewrite destroy_self_keys. destruct (String.eqb c nm); [done|].
      by apply destroy_children_gone.
    + intros k. apply destroy_go_keys.
  - unfold destroy. destruct (size (layers m)); cbn [destroy_go]; by rewrite E.
Qed.

End TreeCoverage.

(** ** The event bus: [on], [off] and [emit] *)

Section BusCoverage.
Context {H : Type}.
Variable same : H -> H -> bool.
Variable invoke : H -> Payload -> list Event * bool.

Lemma emit_list evName payload (listeners : gmap string (list H)) tr :
  FocusEventBus.emit invoke evName payload listeners tr
  = tr ++ flat_map (guarded_call invoke evName payload)
            (default [] (listeners !! evName)).
Proof.
  unfold FocusEventBus.emit. destruct (listeners !! evName) as [hs|]; simpl.
  - revert tr. induction hs as [|h tl IH]; intros tr; simpl.
    + by rewrite app_nil_r.
    + rewrite IH, call_guarded_app. by rewrite <- app_assoc.
  - by rewrite app_nil_r.
Qed.

Lemma on_lookup evName cb (listeners : gmap string (list H)) e' :
  default [] (FocusEventBus.on evName cb listeners !! e')
  = default [] (listeners !! e') ++ (if String.eqb e' evName then [cb] else []).
Proof.
  unfold FocusEventBus.on.
  destruct (String.eqb_spec e' evName) as [->|Hne].
  - destruct (listeners !! evName) as [hs|] eqn:E.
    + rewrite E. by rewrite lookup_insert_eq.
    + rewrite lookup_insert_eq. by rewrite lookup_insert_eq.
  - rewrite app_nil_r. destruct (listeners !! evName) as [hs|] eqn:E.
    + rewrite E. by rewrite lookup_insert_ne.
    + rewrite lookup_insert_eq. rewrite lookup_insert_ne by done.
      by rewrite lookup_insert_ne.
Qed.

Lemma off_lookup evName cb (listeners : gmap string (list H)) e' :
  default [] (FocusEventBus.off same evName cb listeners !! e')
  = if String.eqb e' evName
    then FocusEventBus.remove_first same cb (default [] (listeners !! evName))
    else default [] (listeners !! e').
Proof.
  unfold FocusEventBus.off.
  destruct (String.eqb_spec e' evName) as [->|Hne].
  - destruct (listeners !! evName) as [hs|] eqn:E.
    + by rewrite lookup_insert_eq.
    + by rewrite E.
  - destruct (listeners !! evName) as [hs|] eqn:E; [|done].
    by rewrite lookup_insert_ne.
Qed.

Lemma remove_first_absent cb hs :
  existsb (fun h => same h cb) hs = false -> FocusEventBus.remove_first same cb hs = hs.
Proof.
  induction hs as [|h tl IH]; simpl; [done|].
  destruct (same h cb); simpl; [done|]. intros E. by rewrite IH.
Qed.

Lemma remove_first_snoc cb hs tl :
  same cb cb = true -> existsb (fun h => same h cb) hs = false ->
  FocusEventBus.remove_first same cb (hs ++ cb :: tl) = hs ++ tl.
Proof.
  intros Hrefl. induction hs as [|h r IH]; simpl.
  - by rewrite Hrefl.
  - destruct (same h cb); simpl; [done|]. intros E. by rewrite IH.
Qed.

(** X5. After [on(eventName, callback)], [emit] of that event calls the
    handlers it called before, in the same order, and then the new one; the
    handlers of every other event are called as before. *)
Theorem on_calls_the_handler_last :
  forall evName cb (listeners : gmap string (list H)) e' payload tr,
    FocusEventBus.emit invoke e' payload (FocusEventBus.on evName cb listeners) tr
    = FocusEventBus.emit invoke e' payload listeners tr
        ++ (if String.eqb e' evName then guarded_call invoke e' payload cb else []).
Proof.
  intros. rewrite !emit_list, on_lookup, flat_map_app, <- app_assoc. f_equal. f_equal.
  destruct (String.eqb e' evName); simpl; by rewrite ?app_nil_r.
Qed.

(** X6. [off(eventName, callback)] removes one registration. For a handler
    that is not registered for the event, [off] changes nothing that [emit]
    calls, [on] followed by [off] leaves the bus calling what it called
    before, and after two [on] and one [off] the handler is still called
    once. *)
Theorem off_removes_one_registration :
  forall evName cb (listeners : gmap string (list H)),
    same cb cb = true ->
    registered_for same evName cb listeners = false ->
    forall e' payload tr,
      FocusEventBus.emit invoke e' payload (FocusEventBus.off same evName cb listeners) tr
      = FocusEventBus.emit invoke e' payload listeners tr
      /\ FocusEventBus.emit invoke e' payload
           (FocusEventBus.off same evName cb (FocusEventBus.on evName cb listeners)) tr
         = FocusEventBus.emit invoke e' payload listeners tr
      /\ FocusEventBus.emit invoke e' payload
           (FocusEventBus.off same evName cb
              (FocusEventBus.on evName cb (FocusEventBus.on evName cb listeners))) tr
         = FocusEventBus.emit invoke e' payload (FocusEventBus.on evName cb listeners) tr.
Proof.
  intros evName cb listeners Hrefl Habs e' payload tr.
  assert (Hhs : existsb (fun h => same h cb) (default [] (listeners !! evName)) = false).
  { unfold registered_for in Habs. by destruct (listeners !! evName). }
  rewrite !emit_list, !off_lookup, !on_lookup, String.eqb_refl.
  destruct (String.eqb_spec e' evName) as [->|Hne]; [|by rewrite ?app_nil_r].
  rewrite remove_first_absent by done.
  rewrite (remove_first_snoc cb _ []) by done.
  rewrite <- app_assoc. simpl.
  rewrite (remove_first_snoc cb _ [cb]) by done.
  by rewrite app_nil_r.
Qed.

End BusCoverage.

(** A handler of the user on a bus that holds another one for the event. *)
Lemma off_removes_one_registration_witness :
  FocusEventBus.emit (FocusManager.invoke_handler (FocusManager.make UILayerManager.empty))
    "game:over" None
    (FocusEventBus.off FocusManager.same_handler "game:over"
       (FocusManager.UserHandler {| fn_id := 2; fn_throws := true |})
       (FocusEventBus.on "game:over"
          (FocusManager.UserHandler {| fn_id := 2; fn_throws := true |})
          (FocusEventBus.on "game:over"
             (FocusManager.UserHandler {| fn_id := 2; fn_throws := true |})
             (FocusEventBus.on "game:over"
                (FocusManager.UserHandler {| fn_id := 1; fn_throws := false |})
                (∅ : gmap string (list FocusManager.BusHandler))))))
    []
  = [EvBusHandler 1 None; EvBusHandler 2 None;
     EvConsoleError "Error in event handler for 'game:over':"].
Proof.
  assert (Habs : registered_for FocusManager.same_handler "game:over"
                   (FocusManager.UserHandler {| fn_id := 2; fn_throws := true |})
                   (FocusEventBus.on "game:over"
                      (FocusManager.UserHandler {| fn_id := 1; fn_throws := false |})
                      (∅ : gmap string (list FocusManager.BusHandler)))
                 = false) by (vm_compute; reflexivity).
  destruct (off_removes_one_registration FocusManager.same_handler
              (FocusManager.invoke_handler (FocusManager.make UILayerManager.empty))
              "game:over" (FocusManager.UserHandler {| fn_id := 2; fn_throws := true |})
              _ eq_refl Habs "game:over" None [])
    as (_ & _ & Htwice).
  rewrite Htwice. vm_compute. reflexivity.
Defined.

(** ** Registration and inheritance *)

Section RegisterCoverage.
Import FocusManager.

Lemma set_add_all_In x xs : forall acc, In x (set_add_all acc xs) <-> In x acc \/ In x xs.
Proof.
  induction xs as [|y tl IH]; intros acc; simpl; [tauto|].
  rewrite IH. destruct (str_mem y acc) eqn:E.
  - apply str_mem_In in E. split; [tauto|]. intros [?|[<-|?]]; tauto.
  - rewrite in_app_iff. simpl. tauto.
Qed.

Lemma set_add_all_NoDup xs : forall acc, NoDup acc -> NoDup (set_add_all acc xs).
Proof.
  induction xs as [|y tl IH]; intros acc Hnd; simpl; [done|].
  apply IH. destruct (str_mem y acc) eqn:E; [done|].
  apply NoDup_app. split; [done|]. split; [|apply NoDup_singleton].
  intros x Hx Hx'. apply list_elem_of_singleton in Hx'. subst x.
  apply list_elem_of_In, str_mem_In in Hx. congruence.
Qed.

Lemma create_layer_core layerName zIndex fm :
  states (create_layer layerName zIndex fm) = states fm
  /\ managedLayers (create_layer layerName zIndex fm) = managedLayers fm
  /\ _stateStack (create_layer layerName zIndex fm) = _stateStack fm
  /\ trace (create_layer layerName zIndex fm) = trace fm.
Proof.
  unfold create_layer. destruct (UILayerManager.has _ _) eqn:Hhas; [done|].
  unfold UILayerManager.create. rewrite Hhas. simpl. done.
Qed.

Lemma create_layer_layers layerName zIndex fm nm :
  layer_of nm (create_layer layerName zIndex fm)
  = match layer_of nm fm with
    | Some l => Some l
    | None => if String.eqb nm layerName then Some (UILayer.make layerName None (Some zIndex))
              else None
    end.
Proof.
  unfold create_layer, layer_of, UILayerManager.has.
  destruct (UILayerManager.layers (uiLayerManager fm) !! layerName) as [l0|] eqn:E0.
  - destruct (UILayerManager.layers (uiLayerManager fm) !! nm) as [l|] eqn:E; [done|].
    destruct (String.eqb_spec nm layerName) as [->|Hne]; [congruence | done].
  - unfold UILayerManager.create, UILayerManager.has. rewrite E0. simpl.
    destruct (String.eqb_spec nm layerName) as [->|Hne].
    + rewrite lookup_insert_eq. by rewrite E0.
    + rewrite lookup_insert_ne by done.
      by destruct (UILayerManager.layers (uiLayerManager fm) !! nm).
Qed.

Lemma create_layers_fold ls :
  forall fm,
    let fm' := fold_left (fun acc kv => create_layer (fst kv) (snd kv) acc) ls fm in
    (states fm' = states fm /\ managedLayers fm' = managedLayers fm
     /\ _stateStack fm' = _stateStack fm /\ trace fm' = trace fm)
    /\ (forall nm l, layer_of nm fm = Some l -> layer_of nm fm' = Some l)
    /\ (forall nm z, In (nm, z) ls -> is_Some (layer_of nm fm'))
    /\ (forall nm l, layer_of nm fm = None -> layer_of nm fm' = Some l ->
          exists z, In (nm, z) ls /\ l = UILayer.make nm None (Some z)).
Proof.
  induction ls as [|[k z] tl IH]; intros fm; cbn [fold_left fst snd].
  - repeat split; try done. intros nm l H1 H2. congruence.
  - destruct (IH (create_layer k z fm)) as ((Hs & Hm & Hk & Ht) & Hkeep & Hnew & Hfresh).
    pose proof (create_layer_core k z fm) as (Hs1 & Hm1 & Hk1 & Ht1).
    split; [repeat split; congruence|]. split; [|split].
    + intros nm l Hl. apply Hkeep. rewrite create_layer_layers. by rewrite Hl.
    + intros nm z' [[= -> ->]|Hin]; [|by apply (Hnew nm z')].
      destruct (layer_of nm (create_layer nm z' fm)) as [l|] eqn:E.
      * exists l. by apply Hkeep.
      * rewrite create_layer_layers, String.eqb_refl in E. by destruct (layer_of nm fm).
    + intros nm l Hnone Hl.
      destruct (layer_of nm (create_layer k z fm)) as [l1|] eqn:E.
      * rewrite (Hkeep nm l1 E) in Hl. injection Hl as <-.
        rewrite create_layer_layers, Hnone in E.
        destruct (String.eqb_spec nm k) as [->|Hne]; [|done].
        injection E as <-. exists z. split; [by left | done].
      * destruct (Hfresh nm l E Hl) as (z' & Hin & ->). exists z'. split; [by right | done].
Qed.

Lemma register_unfold state fm :
  let fm0 :=
    match states fm !! FocusState.name state with
    | Some _ =>
        log "warn"
          ("A state with the name '" +:+ FocusState.name state
             +:+ "' is already registered. Overwriting.") fm
    | None => fm
    end in
  let cfg := resolved_config state fm in
  let fm1 := emit_events (snd (resolveInheritance (states fm) (FocusState.build state))) fm0 in
  let fm2 := fold_left (fun acc kv => create_layer (fst kv) (snd kv) acc)
               (or_nil (ui_field layers cfg)) fm1 in
  register state fm
  = with_managedLayers
      (set_add_all
         (set_add_all
            (set_add_all (managedLayers fm2) (or_nil (ui_field visible cfg)))
            (or_nil (ui_field preserveOnExit cfg)))
         (or_nil (ui_field cleanupOnExit cfg)))
      (with_states (<[FocusState.name state := cfg]> (states fm2)) fm2).
Proof.
  intros fm0 cfg fm1 fm2. unfold register.
  assert (Hs0 : states fm0 = states fm).
  { subst fm0. by destruct (states fm !! FocusState.name state). }
  fold fm0. rewrite Hs0.
  subst cfg fm2 fm1. unfold resolved_config.
  destruct (resolveInheritance (states fm) (FocusState.build state)) as [finalConfig evs].
  cbn [fst snd]. by destruct (ui_field layers finalConfig).
Qed.

(** X7. [register(state)] stores the resolved configuration under the
    state's name, replacing what the name had, and leaves every other
    registered state and the stack as they are. The managed layers become
    those there were and the names of the configuration's [visible],
    [preserveOnExit] and [cleanupOnExit] lists, with no name twice. *)
Theorem register_stores_the_resolved_configuration :
  forall (state : FocusState.t) (fm : t),
    let fm' := register state fm in
    states fm' !! FocusState.name state = Some (resolved_config state fm)
    /\ (forall k, k <> FocusState.name state -> states fm' !! k = states fm !! k)
    /\ _stateStack fm' = _stateStack fm
    /\ (forall nm, In nm (managedLayers fm') <->
          In nm (managedLayers fm)
          \/ In nm (or_nil (ui_field visible (resolved_config state fm)))
          \/ In nm (or_nil (ui_field preserveOnExit (resolved_config state fm)))
          \/ In nm (or_nil (ui_field cleanupOnExit (resolved_config state fm))))
    /\ (NoDup (managedLayers fm) -> NoDup (managedLayers fm')).
Proof.
  intros state fm fm'. subst fm'. rewrite register_unfold. cbv zeta.
  set (fm0 := match states fm !! FocusState.name state with Some _ => _ | None => fm end).
  assert (H0 : states fm0 = states fm /\ managedLayers fm0 = managedLayers fm
               /\ _stateStack fm0 = _stateStack fm).
  { subst fm0. by destruct (states fm !! FocusState.name state). }
  destruct H0 as (Hs0 & Hm0 & Hk0).
  set (fm1 := emit_events _ fm0).
  destruct (create_layers_fold (or_nil (ui_field layers (resolved_config state fm))) fm1)
    as ((Hs & Hm & Hk & _) & _).
  set (fm2 := fold_left _ _ fm1) in *.
  cbn [states managedLayers _stateStack with_managedLayers with_states].
  split; [by rewrite lookup_insert_eq|]. split.
  { intros k Hne. rewrite lookup_insert_ne by done. rewrite Hs. subst fm1. simpl.
    by rewrite Hs0. }
  split; [rewrite Hk; subst fm1; simpl; by rewrite Hk0|].
  assert (Hm2 : managedLayers fm2 = managedLayers fm).
  { rewrite Hm. subst fm1. simpl. by rewrite Hm0. }
  rewrite Hm2. split.
  - intros nm. rewrite !set_add_all_In. tauto.
  - intros Hnd. by repeat apply set_add_all_NoDup.
Qed.

(** X8. [register(state)] creates the layers the resolved configuration
    declares under [ui.layers] that do not exist yet, each at the top level,
    shown and empty, with the z-index declared for it. A layer that exists
    is left as it is, so [create] is never called on a name that is taken,
    and no other layer comes into being. *)
Theorem register_creates_the_declared_layers :
  forall (state : FocusState.t) (fm : t),
    let fm' := register state fm in
    (forall nm l, layer_of nm fm = Some l -> layer_of nm fm' = Some l)
    /\ (forall nm z, In (nm, z) (or_nil (ui_field layers (resolved_config state fm))) ->
          UILayerManager.has nm (uiLayerManager fm') = true)
    /\ (forall nm l, layer_of nm fm = None -> layer_of nm fm' = Some l ->
          exists z, In (nm, z) (or_nil (ui_field layers (resolved_config state fm)))
                    /\ l = UILayer.make nm None (Some z)).
Proof.
  intros state fm fm'. subst fm'. rewrite register_unfold. cbv zeta.
  set (fm0 := match states fm !! FocusState.name state with Some _ => _ | None => fm end).
  assert (H0 : forall nm, layer_of nm fm0 = layer_of nm fm).
  { intros nm. subst fm0. by destruct (states fm !! FocusState.name state). }
  set (fm1 := emit_events _ fm0).
  assert (H1 : forall nm, layer_of nm fm1 = layer_of nm fm).
  { intros nm. subst fm1. by rewrite layer_of_emit_events. }
  destruct (create_layers_fold (or_nil (ui_field layers (resolved_config state fm))) fm1)
    as (_ & Hkeep & Hnew & Hfresh).
  set (fm2 := fold_left _ _ fm1) in *.
  assert (H2 : forall nm X Y, layer_of nm (with_managedLayers X (with_states Y fm2))
                              = layer_of nm fm2) by done.
  split; [|split].
  - intros nm l Hl. rewrite H2. apply Hkeep. by rewrite H1.
  - intros nm z Hin. destruct (Hnew nm z Hin) as [l Hl].
    unfold UILayerManager.has. unfold layer_of in Hl. simpl. by rewrite Hl.
  - intros nm l Hnone Hl. rewrite H2 in Hl. apply (Hfresh nm l); [by rewrite H1 | done].
Qed.

Lemma resolve_go_own fuel registered config visited :
  let r := fst (resolve_go fuel registered config visited) in
  transitionEffectName r = transitionEffectName config
  /\ transitionDuration r = transitionDuration config
  /\ eventListeners r = eventListeners config
  /\ keyListeners r = keyListeners config.
Proof.
  destruct fuel as [|f]; cbn [resolve_go].
  - destruct (truthy (extends config)); [|done].
    destruct (str_mem _ visited); [done|].
    by destruct (registered !! _).
  - destruct (truthy (extends config)); [|done].
    destruct (str_mem _ visited); [done|].
    destruct (registered !! _) as [parentConfig|]; [|done].
    by destruct (resolve_go f registered parentConfig _).
Qed.

(** X9. Whatever a state extends, the configuration stored for it has the
    transition effect, the transition duration, the event listeners and the
    key listeners of its own builder and none of the base's: [build] writes
    these four keys also when the builder has nothing for them, and
    [mergeConfigs] spreads the child over the base. *)
Theorem transition_and_listeners_are_not_inherited :
  forall (state : FocusState.t) (fm : t),
    let cfg := resolved_config state fm in
    transitionEffectName cfg = FocusState._transitionEffectName state
    /\ transitionDuration cfg = FocusState._transitionDuration state
    /\ eventListeners cfg = FocusState.nonempty (FocusState._eventListeners state)
    /\ keyListeners cfg = FocusState.nonempty (FocusState._keyListeners state).
Proof.
  intros state fm cfg. subst cfg. unfold resolved_config, resolveInheritance.
  apply (resolve_go_own (size (states fm)) (states fm) (FocusState.build state) []).
Qed.

(** X10. A state that extends a registered base which extends nothing: the
    hook counts are the base's plus the builder's, the enter and the exit
    hook run the base's hook and then the builder's, and the visible layers
    are the builder's when it gives any and the base's when not. *)
Theorem single_level_inheritance :
  forall (state : FocusState.t) (fm : t) (base : string) (baseConfig : FocusStateConfig),
    FocusState._extendsStateName state = Some base ->
    base <> "" ->
    states fm !! base = Some baseConfig ->
    truthy (extends baseConfig) = false ->
    let cfg := resolved_config state fm in
    onEnterHookCount cfg
    = Some (hook_count (onEnterHookCount baseConfig)
            + length (FocusState._onEnterHooks state))
    /\ onExitHookCount cfg
       = Some (hook_count (onExitHookCount baseConfig)
               + length (FocusState._onExitHooks state))
    /\ (forall payload,
          await_onEnter cfg payload
          = await_onEnter baseConfig payload ++ [EvEnterHook (FocusState.name state) payload])
    /\ (forall next,
          await_onExit cfg next
          = await_onExit baseConfig next ++ [EvExitHook (FocusState.name state) next])
    /\ ui_field visible cfg
       = FocusState.or_else (visible (FocusState._uiConfig state))
           (ui_field visible baseConfig).
Proof.
  intros state fm base baseConfig Hext Hne Hbase Hroot cfg. subst cfg.
  unfold resolved_config, resolveInheritance.
  destruct (size (states fm)) as [|f] eqn:Hsize.
  { apply map_size_empty_iff in Hsize. rewrite Hsize in Hbase. done. }
  assert (Hvis : ui_field visible (FocusState.build state)
                 = visible (FocusState._uiConfig state)).
  { unfold ui_field, FocusState.build; simpl.
    destruct (set_add_all _ _); [done|]. by destruct (set_add_all _ _). }
  cbn [resolve_go]. cbn [FocusState.build extends]. rewrite Hext.
  assert (Htr : truthy (Some base) = true).
  { unfold truthy. destruct (String.eqb_spec base ""); [done | done]. }
  rewrite Htr. cbn [str_mem existsb]. rewrite Hbase.
  assert (Hb : resolve_go f (states fm) baseConfig ([] ++ [base]) = (baseConfig, [])).
  { destruct f; cbn [resolve_go]; by rewrite Hroot. }
  rewrite Hb. cbn [fst].
  split; [done|]. split; [done|]. split; [|split].
  - intros payload. unfold await_onEnter, mergeConfigs; simpl.
    by destruct (onEnter baseConfig).
  - intros next. unfold await_onExit, mergeConfigs; simpl.
    by destruct (onExit baseConfig).
  - fold (FocusState.build state). unfold mergeConfigs at 1. unfold ui_field at 1. simpl.
    by rewrite Hvis.
Qed.

(** The pause menu of the example component, registered after the base menu
    it extends. *)
Lemma single_level_inheritance_witness :
  await_onEnter
    (resolved_config Example.pauseMenuState
       (register Example.baseMenuState (make UILayerManager.empty)))
    None
  = [EvEnterHook "base-menu" None; EvEnterHook "pause-menu" None].
Proof.
  destruct (single_level_inheritance Example.pauseMenuState
              (register Example.baseMenuState (make UILayerManager.empty))
              "base-menu" (FocusState.build Example.baseMenuState)
              eq_refl ltac:(discriminate) ltac:(vm_compute; reflexivity)
              ltac:(vm_compute; reflexivity))
    as (_ & _ & Henter & _).
  rewrite Henter. vm_compute. reflexivity.
Defined.

(** X11. [resolveInheritance] ends by itself. Every call it makes to itself
    adds a registered name to [visited] that was not in it, so the calls are
    never nested deeper than there are registered states, also when the
    stored configurations extend each other in a circle: a bound on the depth
    that is larger than that number changes nothing. *)
Theorem inheritance_resolution_is_bounded :
  forall (registered : gmap string FocusStateConfig) (config : FocusStateConfig)
         (more : nat),
    resolve_go (size registered + more) registered config []
    = resolveInheritance registered config.
Proof.
  intros registered config more.
  apply resolve_go_fuel; [apply NoDup_nil_2 | intros v [] | simpl; lia].
Qed.

End RegisterCoverage.

(** ** Dispatch to the listeners of a state *)

Section ListenerCoverage.
Import FocusManager.

(** X12. [events.emit(eventName, payload)] on the manager's bus: a callback
    a state registered with [onEvent] runs only while that state is the
    current one, with the payload of the emission. The handlers of the states
    below on the stack, and of states that were left, do nothing. *)
Theorem scoped_callback_runs_only_for_the_current_state :
  forall (fm : t) (eventName : string) (payload : Payload),
    let called := FocusEventBus.emit (invoke_handler fm) eventName payload (_events fm) [] in
    trace (emit eventName payload fm) = trace fm ++ called
    /\ forall callback payload',
         In (EvStateEvent callback payload') called ->
         exists c hs,
           _events fm !! eventName = Some hs
           /\ In (ScopedHandler c) hs
           /\ current fm = Some (sc_state c)
           /\ fn_id (eventCallback (sc_listener c)) = callback
           /\ payload' = payload.
Proof.
  intros fm eventName payload called. split; [done|].
  intros callback payload' Hin. subst called. rewrite emit_list in Hin. simpl in Hin.
  destruct (_events fm !! eventName) as [hs|] eqn:E; [|destruct Hin].
  simpl in Hin. apply in_flat_map in Hin as (h & Hh & Hev).
  unfold guarded_call, FocusEventBus.call_guarded in Hev.
  destruct h as [c|f]; cbn [invoke_handler] in Hev.
  - unfold is_state in Hev. destruct (current fm) as [cur|] eqn:Ecur.
    + destruct (String.eqb_spec cur (sc_state c)) as [->|Hne].
      * simpl in Hev.
        destruct Hev as [Hev|Hev].
        { injection Hev as <- <-. exists c, hs. done. }
        destruct (fn_throws _); simpl in Hev; [destruct Hev as [?|[]]; done | done].
      * simpl in Hev. destruct Hev.
    + simpl in Hev. destruct Hev.
  - unfold FocusEventBus.invoke_user in Hev. simpl in Hev.
    destruct Hev as [Hev|Hev]; [done|].
    destruct (fn_throws f); simpl in Hev; [destruct Hev as [?|[]]; done | done].
Qed.

End ListenerCoverage.

(** ** The builder *)

Section BuilderCoverage.
Import FocusState.

(** X13. The [cleanupOnExit] list [build] gives: the names the builder was
    given for it, and every layer that has a delegated or container listener
    of the builder and is preserved on exit. So the listeners on a preserved
    layer are removed on exit although its content stays. *)
Theorem preserved_layers_with_listeners_are_cleaned :
  forall (s : t) (layerName : string),
    In layerName (FocusManager.or_nil (FocusManager.ui_field cleanupOnExit (build s)))
    <-> In layerName (FocusManager.or_nil (cleanupOnExit (_uiConfig s)))
        \/ (In layerName (listener_layers s) /\ In layerName (_preserveOnExit s)).
Proof.
  intros s layerName. unfold build, FocusManager.ui_field, listener_layers. cbn [ui].
  set (lw := set_add_all (set_add_all [] (map d_layerName (_delegatedListeners s)))
               (map c_layerName (_containerListeners s))).
  assert (Hlw : forall x, In x lw <-> In x (map d_layerName (_delegatedListeners s)
                                          ++ map c_layerName (_containerListeners s))).
  { intros x. subst lw. rewrite !set_add_all_In, in_app_iff. simpl. tauto. }
  assert (Hset : forall x,
             In x (set_add_all
                     (array_of_set (FocusManager.or_nil (cleanupOnExit (_uiConfig s))))
                     (List.filter (fun n => str_mem n (_preserveOnExit s)) lw))
             <-> In x (FocusManager.or_nil (cleanupOnExit (_uiConfig s)))
                 \/ (In x (map d_layerName (_delegatedListeners s)
                           ++ map c_layerName (_containerListeners s))
                     /\ In x (_preserveOnExit s))).
  { intros x. rewrite set_add_all_In. unfold array_of_set. rewrite set_add_all_In.
    rewrite filter_In, Hlw, str_mem_In. simpl. tauto. }
  destruct lw as [|l0 lw'] eqn:Elw.
  - cbn [cleanupOnExit]. split; [tauto|]. intros [H|[H _]]; [done|].
    apply Hlw in H. destruct H.
  - cbn [FocusManager.or_nil cleanupOnExit] in Hset.
    destruct (set_add_all _ (List.filter _ (l0 :: lw'))) as [|c0 cs] eqn:Ecs.
    + cbn [cleanupOnExit]. split; [tauto|]. intros H. apply Hset in H. destruct H.
    + cbn [cleanupOnExit FocusManager.or_nil]. rewrite <- Hset. done.
Qed.

End BuilderCoverage.

(** ** The transcript of a transition *)

Section TranscriptCoverage.
Import FocusManager.

Lemma observable_app a b : observable (a ++ b) = observable a ++ observable b.
Proof. apply List.filter_app. Qed.

Lemma enter_events_observable h payload :
  observable (enter_events h payload) = enter_events h payload.
Proof.
  revert h. fix IH 1. intros [owner ens|base child]; simpl; [done|].
  rewrite observable_app. f_equal.
  - destruct base as [b|]; [apply IH | done].
  - destruct child as [c|]; [apply IH | done].
Qed.

Lemma exit_events_observable h next :
  observable (exit_events h next) = exit_events h next.
Proof.
  revert h. fix IH 1. intros [owner ens|base child]; simpl; [done|].
  rewrite observable_app. f_equal.
  - destruct base as [b|]; [apply IH | done].
  - destruct child as [c|]; [apply IH | done].
Qed.

Lemma await_onEnter_observable c payload :
  observable (await_onEnter c payload) = await_onEnter c payload.
Proof. unfold await_onEnter. destruct (onEnter c); [apply enter_events_observable | done]. Qed.

Lemma await_onExit_observable c next :
  observable (await_onExit c next) = await_onExit c next.
Proof. unfold await_onExit. destruct (onExit c); [apply exit_events_observable | done]. Qed.

Lemma layer_clearListeners_quiet l h : quiet_host h (snd (UILayer.clearListeners l h)).
Proof.
  unfold quiet_host. rewrite clearListeners_trace, observable_app.
  assert (Hq : observable (UILayer.task_events (UILayer.cleanupTasks l)) = []).
  { induction (UILayer.cleanupTasks l) as [|task tl IH]; simpl; [done|].
    rewrite observable_app, IH. destruct task as [f|ty cb]; simpl; [|done].
    by destruct (fn_throws f). }
  by rewrite Hq, app_nil_r.
Qed.

Lemma quiet_ui_trans m1 m2 m3 : quiet_ui m1 m2 -> quiet_ui m2 m3 -> quiet_ui m1 m3.
Proof. unfold quiet_ui, quiet_host. congruence. Qed.

Lemma update_quiet nm f m : quiet_ui m (UILayerManager.update nm f m).
Proof. unfold UILayerManager.update. by destruct (UILayerManager.layers m !! nm). Qed.

Lemma fold_quiet {A} (f : UILayerManager.t -> A -> UILayerManager.t) xs m :
  (forall acc x, quiet_ui acc (f acc x)) -> quiet_ui m (fold_left f xs m).
Proof.
  intros Hf. revert m. induction xs as [|x tl IH]; intros m; simpl; [done|].
  eapply quiet_ui_trans; [apply Hf | apply IH].
Qed.

Lemma destroy_self_quiet nm layer m : quiet_ui m (UILayerManager.destroy_self nm layer m).
Proof.
  unfold UILayerManager.destroy_self.
  set (layer1 := match UILayerManager.layers m !! nm with Some l => l | None => layer end).
  pose proof (layer_clearListeners_quiet layer1 (UILayerManager.host m)) as Hc.
  destruct (UILayer.clearListeners layer1 (UILayerManager.host m)) as [layer2 h2].
  destruct (UILayer.parent layer2) as [p|]; [|exact Hc].
  unfold quiet_ui; cbn [UILayerManager.host].
  pose proof (update_quiet p (UILayerManager.detach_child nm)
                {| UILayerManager.layers := <[nm:=layer2]> (UILayerManager.layers m);
                   UILayerManager.host := h2 |}) as Hu.
  unfold quiet_ui, quiet_host in *. cbn [UILayerManager.host snd] in *. congruence.
Qed.

Lemma destroy_go_quiet fuel nm m : quiet_ui m (fst (UILayerManager.destroy_go fuel nm m)).
Proof.
  revert nm m. induction fuel as [|f IH]; intros nm m; cbn [UILayerManager.destroy_go].
  - destruct (UILayerManager.layers m !! nm) as [layer|]; [|done].
    apply destroy_self_quiet.
  - destruct (UILayerManager.layers m !! nm) as [layer|]; [|done].
    cbn [fst]. eapply quiet_ui_trans; [|apply destroy_self_quiet].
    apply fold_quiet. intros. apply IH.
Qed.

Lemma reset_quiet nm m : quiet_ui m (UILayerManager.reset nm m).
Proof.
  unfold UILayerManager.reset.
  destruct (UILayerManager.layers m !! nm) as [layer|]; [|done].
  set (m1 := fold_left _ _ m).
  assert (H1 : quiet_ui m m1).
  { apply fold_quiet. intros. apply destroy_go_quiet. }
  destruct (UILayerManager.layers m1 !! nm) as [layer1|]; [|done].
  pose proof (layer_clearListeners_quiet (UILayer.with_childNodes [] layer1)
                (UILayerManager.host m1)) as Hc.
  destruct (UILayer.clearListeners _ (UILayerManager.host m1)) as [layer2 h2].
  eapply quiet_ui_trans; [exact H1 | exact Hc].
Qed.

Lemma manager_clearListeners_quiet nm m : quiet_ui m (UILayerManager.clearListeners nm m).
Proof.
  unfold UILayerManager.clearListeners.
  destruct (UILayerManager.layers m !! nm) as [layer|]; [|done].
  pose proof (layer_clearListeners_quiet layer (UILayerManager.host m)) as Hc.
  by destruct (UILayer.clearListeners layer (UILayerManager.host m)).
Qed.

Lemma shows_refl fm : shows [] fm fm.
Proof. split; [by split | by rewrite app_nil_r]. Qed.

Lemma shows_trans e1 e2 a b c : shows e1 a b -> shows e2 b c -> shows (e1 ++ e2) a c.
Proof.
  intros [[] H1] [[] H2]. split; [split; congruence|].
  rewrite H2, H1. by rewrite app_assoc.
Qed.

Lemma shows_nil_l e a b c : shows [] a b -> shows e b c -> shows e a c.
Proof. intros H1 H2. apply (shows_trans [] e a b c H1 H2). Qed.

Lemma shows_nil_r e a b c : shows e a b -> shows [] b c -> shows e a c.
Proof.
  intros H1 H2. pose proof (shows_trans e [] a b c H1 H2) as H.
  by rewrite app_nil_r in H.
Qed.

Lemma shows_emit_events evs fm : shows (observable evs) fm (emit_events evs fm).
Proof. split; [by split|]. unfold trace; simpl. apply observable_app. Qed.

Lemma shows_log category title fm : shows [] fm (log category title fm).
Proof. apply (shows_emit_events [EvLog category title]). Qed.

Lemma shows_with_ui m fm : quiet_ui (uiLayerManager fm) m -> shows [] fm (with_ui m fm).
Proof.
  intros H. split; [by split|]. unfold trace; simpl.
  unfold quiet_ui, quiet_host in H. by rewrite H, app_nil_r.
Qed.

Lemma shows_with_bus bus active seq fm : shows [] fm (with_bus bus active seq fm).
Proof. split; [by split | by rewrite app_nil_r]. Qed.

Lemma shows_with_keys active doc seq fm : shows [] fm (with_keys active doc seq fm).
Proof. split; [by split | by rewrite app_nil_r]. Qed.

Lemma shows_fold {A} (f : t -> A -> t) xs fm :
  (forall acc x, shows [] acc (f acc x)) -> shows [] fm (fold_left f xs fm).
Proof.
  intros Hf. revert fm. induction xs as [|x tl IH]; intros fm; simpl.
  - apply shows_refl.
  - eapply shows_nil_l; [apply Hf | apply IH].
Qed.

Lemma shows_deactivate_events fm : shows [] fm (_deactivateStateEventListeners fm).
Proof.
  unfold _deactivateStateEventListeners.
  destruct (activeEventListeners fm) as [|a tl]; [apply shows_refl|].
  eapply shows_nil_l; [apply shows_log | apply shows_with_bus].
Qed.

Lemma shows_deactivate_keys fm : shows [] fm (_deactivateStateKeyListeners fm).
Proof.
  unfold _deactivateStateKeyListeners.
  destruct (activeKeyListeners fm) as [|a tl]; [apply shows_refl|].
  eapply shows_nil_l; [apply shows_log | apply shows_with_keys].
Qed.

Lemma shows_deactivate fm :
  shows [] fm (_deactivateStateKeyListeners (_deactivateStateEventListeners fm)).
Proof. eapply shows_nil_l; [apply shows_deactivate_events | apply shows_deactivate_keys]. Qed.

Lemma shows_activate_events nm fm : shows [] fm (_activateStateEventListeners nm fm).
Proof.
  unfold _activateStateEventListeners.
  eapply shows_nil_l; [apply shows_deactivate_events|].
  set (fm1 := _deactivateStateEventListeners fm).
  destruct (states fm1 !! nm) as [cfg|]; [|apply shows_refl].
  destruct (eventListeners cfg) as [ls|]; [|apply shows_refl].
  eapply shows_nil_l; [apply shows_log|].
  apply shows_fold. intros acc [i l]. apply shows_with_bus.
Qed.

Lemma shows_activate_keys nm fm : shows [] fm (_activateStateKeyListeners nm fm).
Proof.
  unfold _activateStateKeyListeners.
  eapply shows_nil_l; [apply shows_deactivate_keys|].
  set (fm1 := _deactivateStateKeyListeners fm).
  destruct (states fm1 !! nm) as [cfg|]; [|apply shows_refl].
  destruct (keyListeners cfg) as [ls|]; [|apply shows_refl].
  eapply shows_nil_l; [apply shows_log|].
  apply shows_fold. intros acc [i l]. apply shows_with_keys.
Qed.

Lemma shows_emitSwitchEvent newState oldState fm :
  shows (notifications newState oldState fm) fm (_emitSwitchEvent newState oldState fm).
Proof.
  unfold _emitSwitchEvent, notifications.
  assert (H : forall ls acc,
             shows (map (fun l => EvSwitchListener (fn_id l) newState oldState) ls) acc
               (fold_left
                  (fun acc listener =>
                     let acc1 :=
                       emit_events [EvSwitchListener (fn_id listener) newState oldState] acc in
                     if fn_throws listener
                     then log "error" "Error in onSwitch listener" acc1 else acc1)
                  ls acc)).
  { induction ls as [|l tl IH]; intros acc; cbn [fold_left map].
    - apply shows_refl.
    - change (EvSwitchListener (fn_id l) newState oldState
              :: map (fun l0 => EvSwitchListener (fn_id l0) newState oldState) tl)
        with ([EvSwitchListener (fn_id l) newState oldState]
              ++ map (fun l0 => EvSwitchListener (fn_id l0) newState oldState) tl).
      eapply shows_trans; [|apply IH].
      pose proof (shows_emit_events [EvSwitchListener (fn_id l) newState oldState] acc) as H.
      destruct (fn_throws l); [|exact H].
      eapply shows_nil_r; [exact H | apply shows_log]. }
  apply H.
Qed.

Lemma shows_getTransitionEffect fm c :
  shows [] fm (snd (getTransitionEffect (transitionEffectName c) fm)).
Proof.
  unfold getTransitionEffect.
  destruct (truthy (transitionEffectName c)); [|apply shows_refl].
  destruct (transitionEffects fm !! _); simpl; [apply shows_refl | apply shows_log].
Qed.

Lemma shows_fx_exit tr from to d fm :
  shows (fx_exit_events tr from to d) fm (fx_exit tr from to d fm).
Proof.
  unfold fx_exit, fx_exit_events. destruct tr as [e|]; [|apply shows_refl].
  apply (shows_emit_events [EvFxExit e from to d]).
Qed.

Lemma shows_fx_enter tr cur prev d fm :
  shows (fx_enter_events tr cur prev d) fm (fx_enter tr cur prev d fm).
Proof.
  unfold fx_enter, fx_enter_events. destruct tr as [e|]; [|apply shows_refl].
  apply (shows_emit_events [EvFxEnter e cur prev d]).
Qed.

Lemma shows_exitState stateNameToExit nextStateName fm :
  shows (exit_hook_events fm nextStateName stateNameToExit) fm
    (_exitState stateNameToExit nextStateName fm).
Proof.
  unfold _exitState, exit_hook_events.
  destruct (states fm !! stateNameToExit) as [c|]; [|apply shows_refl].
  set (fm1 := emit_events (await_onExit c nextStateName) fm).
  assert (H1 : shows (await_onExit c nextStateName) fm fm1).
  { pose proof (shows_emit_events (await_onExit c nextStateName) fm) as H.
    by rewrite await_onExit_observable in H. }
  set (fm2 := fold_left _ (or_nil (ui_field visible c)) fm1).
  assert (H2 : shows [] fm1 fm2).
  { apply shows_fold. intros acc layerName.
    destruct (str_mem layerName _); [apply shows_refl|].
    unfold reset_and_hide.
    destruct (UILayerManager.get layerName (uiLayerManager acc)); [|apply shows_log].
    apply shows_with_ui. eapply quiet_ui_trans; [apply reset_quiet | apply update_quiet]. }
  apply (shows_nil_r _ fm fm2); [by apply (shows_nil_r _ fm fm1)|].
  apply shows_fold. intros acc layerName.
  apply shows_with_ui, manager_clearListeners_quiet.
Qed.

Lemma shows_updateUiVisibility fm top cfg :
  current fm = Some top -> states fm !! top = Some cfg ->
  exists fm', _updateUiVisibility fm = Some fm' /\ shows [] fm fm'.
Proof.
  intros Hcur Hcfg. unfold _updateUiVisibility. rewrite Hcur.
  destruct (truthy (Some top)).
  - rewrite Hcfg. eexists. split; [done|].
    apply shows_fold. intros acc layerName. apply shows_with_ui, update_quiet.
  - eexists. split; [done|].
    apply shows_fold. intros acc layerName. apply shows_with_ui, update_quiet.
Qed.

Lemma observable_unlogged evs : observable (unlogged evs) = observable evs.
Proof.
  induction evs as [|ev tl IH]; [done|].
  unfold unlogged, observable in *. simpl.
  destruct ev; simpl; rewrite ?IH; done.
Qed.

Lemma traces_shows evs fm fm' : traces evs fm fm' -> shows (observable evs) fm fm'.
Proof.
  intros [Hc (added & Ht & <-)]. split; [done|].
  by rewrite Ht, observable_app, observable_unlogged.
Qed.

Lemma entered_observable h payload present :
  observable (entered h payload present) = entered h payload present.
Proof.
  revert present. induction h as [owner ensured delegated container|base child IHb IHc]
    using Hook_nested_ind; intros present; cbn [entered]; [done|].
  rewrite observable_app. f_equal.
  - destruct base as [b|]; [by apply IHb | done].
  - destruct (match base with Some b => hook_layers b present | None => Some present end);
      [|done].
    destruct child as [c|]; [by apply IHc | done].
Qed.

Lemma onEnter_entered_observable c payload present :
  observable (onEnter_entered c payload present) = onEnter_entered c payload present.
Proof. unfold onEnter_entered. destruct (onEnter c); [apply entered_observable | done]. Qed.

Lemma shows_run_onEnter c payload fm :
  shows (onEnter_entered c payload (layer_names fm)) fm (after (run_onEnter c payload fm)).
Proof.
  destruct (run_onEnter_spec c payload fm) as (T & _ & _).
  apply traces_shows in T. by rewrite onEnter_entered_observable in T.
Qed.

Lemma shows_enter_new_state name prev cfg tr d payload fm :
  current fm = Some name -> states fm !! name = Some cfg ->
  shows (notifications name prev fm
           ++ onEnter_entered cfg payload (layer_names fm)
           ++ (if attaches cfg (layer_names fm) then fx_enter_events tr name prev d else []))
    fm (after (enter_new_state name prev cfg tr d payload fm)).
Proof.
  intros Hcur Hcfg. unfold enter_new_state.
  set (fm1 := _emitSwitchEvent name prev fm).
  set (fm3 := _activateStateKeyListeners name (_activateStateEventListeners name fm1)).
  assert (H3 : shows (notifications name prev fm) fm fm3).
  { eapply shows_nil_r; [apply shows_emitSwitchEvent|].
    eapply shows_nil_l; [apply shows_activate_events | apply shows_activate_keys]. }
  assert (A3 : alike fm fm3).
  { eapply alike_trans; [apply alike_emitSwitchEvent|].
    eapply alike_trans; [apply alike_activate_events | apply alike_activate_keys]. }
  pose proof H3 as [[Hs He Hm Hk Hw] _].
  assert (Hcur3 : current fm3 = Some name) by (unfold current; by rewrite Hk).
  assert (Hcfg3 : states fm3 !! name = Some cfg) by (by rewrite Hs).
  destruct (shows_updateUiVisibility fm3 name cfg Hcur3 Hcfg3) as (fm4 & Hrun4 & H4).
  pose proof (updateUiVisibility_names fm3 fm4 Hrun4) as N4.
  rewrite Hrun4.
  assert (Hnames : layer_names fm4 = layer_names fm).
  { rewrite N4. by apply alike_names. }
  pose proof (shows_run_onEnter cfg payload fm4) as H5.
  destruct (run_onEnter_spec cfg payload fm4) as (_ & _ & R5).
  rewrite Hnames in H5, R5. rewrite <- R5.
  eapply shows_trans; [eapply shows_nil_r; [exact H3 | exact H4]|].
  destruct (run_onEnter cfg payload fm4) as [fm5|fm5]; cbn [and_then after resolved] in *.
  - eapply shows_trans; [exact H5 | apply shows_fx_enter].
  - by rewrite app_nil_r.
Qed.

Lemma shows_unfolds evs fm fm' : shows evs fm fm' -> unfolds evs fm fm'.
Proof. intros [[] H]. by repeat split. Qed.

Lemma unfolds_trans e1 e2 a b c : unfolds e1 a b -> unfolds e2 b c -> unfolds (e1 ++ e2) a c.
Proof.
  intros (H1 & H2 & H3 & H4 & H5) (G1 & G2 & G3 & G4 & G5). repeat split; try congruence.
  rewrite G5, H5. by rewrite app_assoc.
Qed.

Lemma unfolds_with_stack st fm : unfolds [] fm (with_stack st fm).
Proof. repeat split. by rewrite app_nil_r. Qed.

Lemma unfolds_exit_all name st :
  forall fm, _stateStack fm = st ->
    let fm' := exit_all (length st) name fm in
    _stateStack fm' = []
    /\ unfolds (flat_map (exit_hook_events fm name) (rev st)) fm fm'.
Proof.
  induction st as [|top st' IH] using rev_ind; intros fm Hst; simpl.
  - split; [done|]. repeat split. by rewrite app_nil_r.
  - rewrite length_app, Nat.add_1_r. cbn [exit_all].
    rewrite Hst, last_snoc.
    pose proof (shows_exitState top name fm) as Hex.
    set (fm1 := _exitState top name fm) in *.
    assert (Hst1 : _stateStack fm1 = st' ++ [top]).
    { destruct Hex as [[] _]. congruence. }
    rewrite Hst1, removelast_last.
    set (fm2 := with_stack st' fm1).
    destruct (IH fm2 eq_refl) as [Hempty Hev].
    split; [exact Hempty|].
    rewrite rev_app_distr; simpl.
    assert (Hstates : states fm2 = states fm).
    { destruct Hex as [[] _]. done. }
    assert (Heq : flat_map (exit_hook_events fm2 name) (rev st')
                  = flat_map (exit_hook_events fm name) (rev st')).
    { apply flat_map_ext. intros. by apply exit_hook_events_states. }
    rewrite Heq in Hev.
    eapply unfolds_trans; [|exact Hev].
    pose proof (unfolds_trans _ [] fm fm1 fm2 (shows_unfolds _ _ _ Hex)
                  (unfolds_with_stack st' fm1)) as H.
    by rewrite app_nil_r in H.
Qed.

Lemma notifications_same new old fm fm' :
  switchListeners fm' = switchListeners fm ->
  notifications new old fm' = notifications new old fm.
Proof. unfold notifications. by intros ->. Qed.

Lemma shows_start fm c :
  let fm2 := _deactivateStateKeyListeners
               (_deactivateStateEventListeners
                  (snd (getTransitionEffect (transitionEffectName c)
                          (emit_events [EvNextFrame] fm)))) in
  shows [EvNextFrame] fm fm2
  /\ alike fm fm2
  /\ fst (getTransitionEffect (transitionEffectName c) (emit_events [EvNextFrame] fm))
     = effect_of fm c.
Proof.
  intros fm2. split; [|split].
  - subst fm2. eapply shows_nil_r; [eapply shows_nil_r|].
    + apply (shows_emit_events [EvNextFrame]).
    + apply shows_getTransitionEffect.
    + apply shows_deactivate.
  - subst fm2. eapply alike_trans; [apply (alike_emit_events [EvNextFrame])|].
    eapply alike_trans; [apply alike_getTransitionEffect|].
    eapply alike_trans; [apply alike_deactivate_events | apply alike_deactivate_keys].
  - destruct (getTransitionEffect_spec (emit_events [EvNextFrame] fm) c) as [-> _]. done.
Qed.

Lemma entry_unfold tr fm cfg name payload :
  entry tr fm cfg name payload
  = onEnter_entered cfg payload (survivors tr fm)
      ++ (if attaches cfg (survivors tr fm)
          then fx_enter_events (effect_of fm cfg) name (current fm)
                 (duration_or_default (transitionDuration cfg))
          else []).
Proof. unfold entry. by rewrite entry_events. Qed.

(** [switch(name)], [push(name)] and [pop()] when they are carried out. *)
Lemma switch_shows name payload fm cfg :
  states fm !! name = Some cfg ->
  is_state name fm && Nat.eqb (length (_stateStack fm)) 1 = false ->
  _stateStack (after (switch name payload fm)) = [name]
  /\ unfolds (transcript (TSwitch name payload) fm) fm (after (switch name payload fm)).
Proof.
  intros Hcfg Hguard. cbn [transcript]. rewrite Hcfg, entry_unfold. cbv zeta.
  set (d := duration_or_default (transitionDuration cfg)).
  set (present := survivors (TSwitch name payload) fm).
  unfold switch. rewrite Hguard, Hcfg.
  destruct (shows_start fm cfg) as (H2 & A2 & Htr).
  destruct (getTransitionEffect (transitionEffectName cfg) (emit_events [EvNextFrame] fm))
    as [transition fm1]. cbn [fst snd] in H2, A2, Htr. subst transition. fold d.
  set (fm2 := _deactivateStateKeyListeners (_deactivateStateEventListeners fm1)) in *.
  change (current (emit_events [EvNextFrame] fm)) with (current fm).
  pose proof (shows_fx_exit (effect_of fm cfg) (current fm) name d fm2) as H3.
  pose proof (alike_trans _ _ _ A2 (alike_fx_exit (effect_of fm cfg) (current fm) name d fm2))
    as A3.
  set (fm3 := fx_exit (effect_of fm cfg) (current fm) name d fm2) in *.
  pose proof (shows_trans _ _ _ _ _ H2 H3) as H23.
  pose proof H23 as [[Hs3 He3 Hm3 Hk3 Hw3] _].
  destruct (unfolds_exit_all name (_stateStack fm3) fm3 eq_refl) as [Hempty H4].
  pose proof (exit_all_alike (length (_stateStack fm3)) name fm fm3 A3) as A4.
  set (fm4 := exit_all (length (_stateStack fm3)) name fm3) in *.
  rewrite Hempty. cbn [app].
  set (fm5 := with_stack [name] fm4).
  assert (Hpresent : layer_names fm5 = present).
  { unfold present, survivors. rewrite <- Hk3. by apply alike_names in A4. }
  assert (H5 : unfolds ([EvNextFrame]
                          ++ fx_exit_events (effect_of fm cfg) (current fm) name d
                          ++ flat_map (exit_hook_events fm name) (rev (_stateStack fm)))
                 fm fm5).
  { assert (Hexits : flat_map (exit_hook_events fm3 name) (rev (_stateStack fm3))
                     = flat_map (exit_hook_events fm name) (rev (_stateStack fm))).
    { rewrite Hk3. apply flat_map_ext. intros. by apply exit_hook_events_states. }
    rewrite Hexits in H4.
    pose proof (unfolds_trans _ _ _ _ _ (shows_unfolds _ _ _ H23) H4) as H.
    pose proof (unfolds_trans _ _ _ _ _ H (unfolds_with_stack [name] fm4)) as H'.
    rewrite app_nil_r, <- app_assoc in H'. exact H'. }
  pose proof H5 as (Hs5 & He5 & Hm5 & Hw5 & Ht5).
  assert (Hcfg5 : states fm5 !! name = Some cfg) by (by rewrite Hs5).
  pose proof (shows_enter_new_state name (current fm) cfg (effect_of fm cfg) d payload fm5
                eq_refl Hcfg5) as H6.
  rewrite Hpresent in H6.
  set (o := enter_new_state name (current fm) cfg (effect_of fm cfg) d payload fm5) in *.
  split.
  { destruct H6 as [[_ _ _ Hk6 _] _]. by rewrite Hk6. }
  rewrite (notifications_same _ _ fm fm5 Hw5) in H6.
  pose proof (unfolds_trans _ _ _ _ _ H5 (shows_unfolds _ _ _ H6)) as H.
  by rewrite <- !app_assoc in H.
Qed.

Lemma push_shows name payload fm cfg :
  states fm !! name = Some cfg ->
  is_state name fm = false ->
  _stateStack (after (push name payload fm)) = _stateStack fm ++ [name]
  /\ unfolds (transcript (TPush name payload) fm) fm (after (push name payload fm)).
Proof.
  intros Hcfg Hguard. cbn [transcript]. rewrite Hcfg, entry_unfold. cbv zeta.
  set (d := duration_or_default (transitionDuration cfg)).
  change (survivors (TPush name payload) fm) with (layer_names fm).
  unfold push. rewrite Hguard, Hcfg.
  destruct (shows_start fm cfg) as (H2 & A2 & Htr).
  destruct (getTransitionEffect (transitionEffectName cfg) (emit_events [EvNextFrame] fm))
    as [transition fm1]. cbn [fst snd] in H2, A2, Htr. subst transition. fold d.
  set (fm2 := _deactivateStateKeyListeners (_deactivateStateEventListeners fm1)) in *.
  change (current (emit_events [EvNextFrame] fm)) with (current fm).
  pose proof (shows_fx_exit (effect_of fm cfg) (current fm) name d fm2) as H3.
  pose proof (alike_trans _ _ _ A2 (alike_fx_exit (effect_of fm cfg) (current fm) name d fm2))
    as A3.
  set (fm3 := fx_exit (effect_of fm cfg) (current fm) name d fm2) in *.
  pose proof (shows_trans _ _ _ _ _ H2 H3) as H23.
  pose proof H23 as [[Hs3 He3 Hm3 Hk3 Hw3] Ht3].
  set (fm4 := with_stack (_stateStack fm3 ++ [name]) fm3).
  assert (H4 : unfolds ([EvNextFrame]
                          ++ fx_exit_events (effect_of fm cfg) (current fm) name d) fm fm4).
  { pose proof (unfolds_trans _ _ _ _ _ (shows_unfolds _ _ _ H23)
                  (unfolds_with_stack (_stateStack fm3 ++ [name]) fm3)) as H.
    by rewrite app_nil_r in H. }
  assert (Hcfg4 : states fm4 !! name = Some cfg) by (cbn; by rewrite Hs3).
  assert (Hcur4 : current fm4 = Some name) by (unfold current; cbn; apply last_snoc).
  assert (Hpresent : layer_names fm4 = layer_names fm) by (by apply alike_names in A3).
  pose proof (shows_enter_new_state name (current fm) cfg (effect_of fm cfg) d payload fm4
                Hcur4 Hcfg4) as H6.
  rewrite Hpresent in H6.
  set (o := enter_new_state name (current fm) cfg (effect_of fm cfg) d payload fm4) in *.
  split.
  { destruct H6 as [[_ _ _ Hk6 _] _]. rewrite Hk6. cbn. by rewrite Hk3. }
  rewrite (notifications_same _ _ fm fm4) in H6 by (cbn; congruence).
  pose proof (unfolds_trans _ _ _ _ _ H4 (shows_unfolds _ _ _ H6)) as H.
  by rewrite <- !app_assoc in H.
Qed.

Lemma pop_shows fm below resumed popped cfgP cfgR :
  _stateStack fm = below ++ [resumed; popped] ->
  states fm !! popped = Some cfgP ->
  states fm !! resumed = Some cfgR ->
  exists fm',
    pop fm = Resolved fm'
    /\ _stateStack fm' = below ++ [resumed]
    /\ unfolds (transcript TPop fm) fm fm'.
Proof.
  intros Hst HcfgP HcfgR.
  assert (Hcur : current fm = Some popped).
  { unfold current. rewrite Hst. change [resumed; popped] with ([resumed] ++ [popped]).
    rewrite app_assoc. apply last_snoc. }
  assert (Hres : last (removelast (_stateStack fm)) = Some resumed).
  { rewrite Hst. change [resumed; popped] with ([resumed] ++ [popped]).
    rewrite app_assoc, removelast_last. apply last_snoc. }
  cbn [transcript]. rewrite Hcur, Hres, HcfgP. cbv zeta.
  set (d := duration_or_default (transitionDuration cfgP)).
  unfold pop.
  assert (Hlen : Nat.leb (length (_stateStack fm)) 1 = false).
  { rewrite Hst, length_app. simpl. apply Nat.leb_gt. lia. }
  rewrite Hlen.
  change (current (emit_events [EvNextFrame] fm)) with (current fm).
  change (_stateStack (emit_events [EvNextFrame] fm)) with (_stateStack fm).
  rewrite Hcur, Hres.
  change (states (emit_events [EvNextFrame] fm) !! popped) with (states fm !! popped).
  rewrite HcfgP.
  destruct (shows_start fm cfgP) as (H2 & _ & Htr).
  destruct (getTransitionEffect (transitionEffectName cfgP) (emit_events [EvNextFrame] fm))
    as [transition fm1]. cbn [fst snd] in H2, Htr. subst transition. fold d.
  set (fm2 := _deactivateStateKeyListeners (_deactivateStateEventListeners fm1)) in *.
  pose proof (shows_fx_exit (effect_of fm cfgP) (Some popped) resumed d fm2) as H3.
  set (fm3 := fx_exit (effect_of fm cfgP) (Some popped) resumed d fm2) in *.
  pose proof (shows_trans _ _ _ _ _ H2 H3) as H23.
  pose proof (shows_exitState popped resumed fm3) as H4.
  set (fm4 := _exitState popped resumed fm3) in *.
  assert (Hex : exit_hook_events fm3 resumed popped = await_onExit cfgP resumed).
  { unfold exit_hook_events. destruct H23 as [[Hs3 _ _ _ _] _]. by rewrite Hs3, HcfgP. }
  rewrite Hex in H4.
  pose proof (shows_trans _ _ _ _ _ H23 H4) as H24.
  pose proof H24 as [[Hs4 He4 Hm4 Hk4 Hw4] Ht4].
  set (fm5 := with_stack (removelast (_stateStack fm4)) fm4).
  assert (H5 : unfolds (([EvNextFrame]
                           ++ fx_exit_events (effect_of fm cfgP) (Some popped) resumed d)
                          ++ await_onExit cfgP resumed) fm fm5).
  { pose proof (unfolds_trans _ _ _ _ _ (shows_unfolds _ _ _ H24)
                  (unfolds_with_stack (removelast (_stateStack fm4)) fm4)) as H.
    by rewrite app_nil_r in H. }
  assert (Hst5 : _stateStack fm5 = below ++ [resumed]).
  { cbn. rewrite Hk4, Hst. change [resumed; popped] with ([resumed] ++ [popped]).
    by rewrite app_assoc, removelast_last. }
  assert (Hcur5 : current fm5 = Some resumed).
  { unfold current. rewrite Hst5. apply last_snoc. }
  rewrite Hcur5.
  pose proof (shows_emitSwitchEvent resumed (Some popped) fm5) as H6.
  set (fm6 := _emitSwitchEvent resumed (Some popped) fm5) in *.
  set (fm7 := _activateStateKeyListeners resumed
                (_activateStateEventListeners resumed fm6)).
  assert (H7 : shows (notifications resumed (Some popped) fm5) fm5 fm7).
  { eapply shows_nil_r; [exact H6|].
    eapply shows_nil_l; [apply shows_activate_events | apply shows_activate_keys]. }
  pose proof H7 as [[Hs7 He7 Hm7 Hk7 Hw7] Ht7].
  assert (Hcur7 : current fm7 = Some resumed)
    by (unfold current; rewrite Hk7, Hst5; apply last_snoc).
  assert (Hcfg7 : states fm7 !! resumed = Some cfgR).
  { rewrite Hs7. cbn. by rewrite Hs4. }
  destruct (shows_updateUiVisibility fm7 resumed cfgR Hcur7 Hcfg7) as (fm8 & -> & H8).
  eexists. split; [done|].
  pose proof (shows_fx_enter (effect_of fm cfgP) resumed (Some popped) d fm8) as H9.
  pose proof (shows_trans _ _ _ _ _ (shows_nil_r _ _ _ _ H7 H8) H9) as H79.
  split.
  { destruct H79 as [[_ _ _ Hk9 _] _]. by rewrite Hk9. }
  rewrite (notifications_same _ _ fm fm5) in H79 by (cbn; congruence).
  pose proof (unfolds_trans _ _ _ _ _ H5 (shows_unfolds _ _ _ H79)) as H.
  by rewrite <- !app_assoc in H.
Qed.

(** X14. What a [switch], [push] or [pop] that is carried out on a stack of
    registered states adds to the trace, log lines and cleanup tasks apart,
    in this order: the frame it waits for, the exit phase of the effect, the
    exit hooks ([switch]: of every stacked state, from the top down; [pop]:
    of the state removed), one call of every [onSwitch] listener with the
    new and the previous top state, the enter hook of the state entered
    ([pop] enters none), and the enter phase of the effect. The promise
    resolves when every listener of the state entered names a layer that is
    registered by the time its builder's hook attaches it, counting the
    layers still there after the exits and those the [ensureLayer] hooks
    create; otherwise it rejects after the enter hooks up to the one that
    throws, and the enter phase does not run. *)
Theorem transition_transcript :
  forall (tr : Transition) (fm : t),
    carried_out tr fm -> all_registered fm ->
    resolved (run tr fm) = resolves tr fm
    /\ observable (trace (after (run tr fm))) = observable (trace fm) ++ transcript tr fm
    /\ switchListeners (after (run tr fm)) = switchListeners fm.
Proof.
  intros tr fm Hcarried Hreg. destruct tr as [name payload|name payload|];
    cbn [run resolves].
  - destruct Hcarried as [[cfg Hcfg] Hguard].
    destruct (switch_shows name payload fm cfg Hcfg (switch_guard_false name fm Hguard))
      as (_ & (_ & _ & _ & Hw & Ht)).
    destruct (switch_spec name payload fm cfg Hcfg (switch_guard_false name fm Hguard))
      as (Hres & _).
    by rewrite Hcfg.
  - destruct Hcarried as [[cfg Hcfg] Hguard].
    destruct (push_shows name payload fm cfg Hcfg (is_state_false name fm Hguard))
      as (_ & (_ & _ & _ & Hw & Ht)).
    destruct (push_spec name payload fm cfg Hcfg (is_state_false name fm Hguard))
      as (Hres & _).
    by rewrite Hcfg.
  - cbn [carried_out] in Hcarried.
    destruct (deep_stack (_stateStack fm) Hcarried) as (below & resumed & popped & Hst).
    assert (HregP : is_Some (states fm !! popped)).
    { unfold all_registered in Hreg. rewrite Hst in Hreg.
      apply Forall_app in Hreg as [_ Hreg].
      apply Forall_cons in Hreg as [_ Hreg]. by apply Forall_cons in Hreg as [Hreg _]. }
    assert (HregR : is_Some (states fm !! resumed)).
    { unfold all_registered in Hreg. rewrite Hst in Hreg.
      apply Forall_app in Hreg as [_ Hreg]. by apply Forall_cons in Hreg as [Hreg _]. }
    destruct HregP as [cfgP HcfgP]. destruct HregR as [cfgR HcfgR].
    destruct (pop_shows fm below resumed popped cfgP cfgR Hst HcfgP HcfgR)
      as (fm' & Hrun & _ & (_ & _ & _ & Hw & Ht)).
    by rewrite Hrun.
Qed.

(** [pop()] from the settings menu, with a listener for state changes; and
    [push('stray')] from the lobby, for a state that listens on a layer
    nothing creates. *)
Lemma transition_transcript_witness :
  (resolved (pop watched_settings) = true
   /\ observable (trace (after (pop watched_settings)))
      = observable (trace watched_settings)
          ++ [EvNextFrame;
              EvFxExit 0 (Some "settings-menu") "pause-menu" 150;
              EvExitHook "base-menu" "pause-menu";
              EvExitHook "settings-menu" "pause-menu";
              EvSwitchListener 200 "pause-menu" (Some "settings-menu");
              EvFxEnter 0 "pause-menu" (Some "settings-menu") 150])
  /\ (resolved (push "stray" None Example.before_stray) = false
      /\ observable (trace (after (push "stray" None Example.before_stray)))
         = observable (trace Example.before_stray)
             ++ [EvNextFrame; EvEnterHook "stray" None]).
Proof.
  split.
  - assert (Hst : _stateStack watched_settings = ["game"; "pause-menu"; "settings-menu"])
      by (vm_compute; reflexivity).
    assert (Hcarried : carried_out TPop watched_settings).
    { cbn [carried_out]. rewrite Hst. simpl. lia. }
    assert (Hreg : all_registered watched_settings).
    { unfold all_registered. rewrite Hst.
      repeat (apply Forall_cons; split; [eexists; vm_compute; reflexivity|]).
      exact (List.Forall_nil _). }
    destruct (transition_transcript TPop watched_settings Hcarried Hreg)
      as (Hres & Htrace & _).
    split; [exact Hres|]. cbn [run] in Htrace.
    rewrite Htrace. apply (f_equal (app (observable (trace watched_settings)))).
    vm_compute. reflexivity.
  - assert (Hst : _stateStack Example.before_stray = ["lobby"])
      by (vm_compute; reflexivity).
    assert (Hcarried : carried_out (TPush "stray" None) Example.before_stray).
    { cbn [carried_out]. split; [eexists; vm_compute; reflexivity|].
      unfold current. rewrite Hst. discriminate. }
    assert (Hreg : all_registered Example.before_stray).
    { unfold all_registered. rewrite Hst.
      repeat (apply Forall_cons; split; [eexists; vm_compute; reflexivity|]).
      exact (List.Forall_nil _). }
    destruct (transition_transcript (TPush "stray" None) Example.before_stray Hcarried Hreg)
      as (Hres & Htrace & _).
    cbn [run] in Hres, Htrace. split.
    + rewrite Hres. vm_compute. reflexivity.
    + rewrite Htrace. apply (f_equal (app (observable (trace Example.before_stray)))).
      vm_compute. reflexivity.
Defined.



End TranscriptCoverage.

(** ** Prefabs from entry to exit *)

Section PrefabCoverage.
Import FocusState.

Lemma finish_bind s : forall k, finish (bind s k) = finish (k (finish s)).
Proof. induction s as [e|e r IH]; intros k; simpl; [done|]. apply IH. Qed.

Lemma finish_await s rest : finish (await s rest) = finish (rest (finish s)).
Proof. unfold await. by rewrite finish_bind. Qed.

Lemma finish_suspend_n n e : finish (suspend_n n e) = e.
Proof. revert e. induction n as [|n IH]; intros e; simpl; [done|]. apply IH. Qed.

Lemma finish_enter_loop nm hooks payload after :
  forall e,
    finish (enter_loop nm hooks payload after e)
    = finish (after (fold_left (fun acc h => finish (enter_hook nm h payload acc)) hooks e)).
Proof.
  induction hooks as [|h tl IH]; intros e; cbn [enter_loop fold_left]; [done|].
  rewrite finish_await. apply IH.
Qed.

Lemma finish_exit_loop hooks next :
  forall e, finish (exit_loop hooks next e)
            = fold_left (fun acc h => exit_hook h next acc) hooks e.
Proof.
  induction hooks as [|h tl IH]; intros e; cbn [exit_loop fold_left finish]; [done|].
  apply IH.
Qed.

Lemma omap_cons {A B} (f : A -> option B) (x : A) (l : list A) :
  omap f (x :: l) = match f x with Some y => y :: omap f l | None => omap f l end.
Proof. reflexivity. Qed.

Lemma omap_same {A B} (f g : A -> option B) (l : list A) :
  (forall x, f x = g x) -> omap f l = omap g l.
Proof. intros H. induction l as [|x r IH]; [done|]. by rewrite !omap_cons, H, IH. Qed.

Lemma finish_settle turns :
  forall calls rest e,
    finish (settle turns calls rest e)
    = finish (rest (map result (fst (settle_alone turns calls e)))
                (snd (settle_alone turns calls e))).
Proof.
  induction turns as [|n IH]; intros calls rest e; cbn [settle finish settle_alone];
    destruct (forallb settled calls); try done.
  destruct (advance_all calls e) as [calls1 e1]. apply IH.
Qed.

Lemma same_engine_refl e : same_engine e e.
Proof. by split. Qed.

Lemma same_engine_trans a b c : same_engine a b -> same_engine b c -> same_engine a c.
Proof. intros [] []. split; congruence. Qed.

Lemma same_but_trace_refl e : same_but_trace e e.
Proof. by repeat split. Qed.

Lemma same_but_trace_trans a b c :
  same_but_trace a b -> same_but_trace b c -> same_but_trace a c.
Proof.
  intros (? & ? & ? & ? & ?) (? & ? & ? & ? & ?).
  repeat split; try congruence; by eapply same_engine_trans.
Qed.

Lemma same_but_trace_log category title e : same_but_trace e (log category title e).
Proof. by repeat split. Qed.

Lemma made_of_same e e' p : same_engine e e' -> made_of e' p = made_of e p.
Proof. intros [_ He]. unfold made_of. by rewrite He. Qed.

Lemma instantiable_same e e' n : same_engine e e' -> instantiable e' n = instantiable e n.
Proof.
  intros H. pose proof H as [Hl He]. unfold instantiable. rewrite Hl.
  destruct (prefabLibrary e); [done|]. destruct (resolve _ n); try done.
  by apply made_of_same.
Qed.

Lemma resolved_same e e' names : same_engine e e' -> resolved e' names = resolved e names.
Proof.
  intros H. unfold resolved. apply omap_same. intros n. by apply instantiable_same.
Qed.

(** [find], once its loop is left: it logs at most, and what it returns is
    instantiated when the name is instantiable. *)
Lemma find_result_spec n e :
  same_but_trace e (snd (find_result n e))
  /\ (prefabLibrary e <> [] -> made_of e (fst (find_result n e)) = instantiable e n)
  /\ (prefabLibrary e = [] -> fst (find_result n e) = None).
Proof.
  unfold find_result, instantiable.
  destruct (prefabLibrary e) as [|k keys]; cbn [fst snd].
  - split; [apply same_but_trace_log|]. by split.
  - destruct (resolve (k :: keys) n); cbn [fst snd].
    + split; [apply same_but_trace_refl|]. by split.
    + split; [apply same_but_trace_log|]. by split.
    + split; [apply same_but_trace_log|]. by split.
Qed.

(** The calls up to their first [await]: they wait for the prefab list when
    it is empty, and have the answer of [find] when it is not. *)
Lemma start_all_spec names :
  forall e,
    same_but_trace e (snd (start_all names e))
    /\ (prefabLibrary e = [] -> Forall idle (fst (start_all names e)))
    /\ (prefabLibrary e <> [] ->
        exists ps, fst (start_all names e) = map Found ps
                   /\ omap (made_of e) ps = resolved e names).
Proof.
  induction names as [|n tl IH]; intros e; cbn [start_all].
  - split; [apply same_but_trace_refl|]. split; [by constructor|].
    intros _. by exists [].
  - unfold start, find_loop, retries.
    destruct (find_result_spec n e) as (Hf & Hmade & Hnone).
    destruct (prefabLibrary e) as [|k keys] eqn:El.
    + destruct (IH e) as (Hs & Hidle & _).
      destruct (start_all tl e) as [calls e2]. cbn [fst snd] in *.
      split; [done|]. split; [|done].
      intros _. constructor; [done|]. by apply Hidle.
    + destruct (find_result n e) as [p e1]. cbn [fst snd] in *.
      destruct (IH e1) as (Hs & _ & Hfound).
      destruct (start_all tl e1) as [calls e2]. cbn [fst snd] in *.
      split; [by eapply same_but_trace_trans|]. split; [done|].
      intros _. destruct Hf as (_ & _ & _ & _ & Heng).
      destruct Hfound as (ps & -> & Hps).
      { destruct Heng as [-> _]. by rewrite El. }
      exists (p :: ps). split; [done|]. unfold resolved. rewrite !omap_cons.
      rewrite (Hmade ltac:(done)).
      assert (Hps' : omap (made_of e) ps = omap (instantiable e) tl).
      { change (omap (instantiable e) tl) with (resolved e tl).
        rewrite <- (resolved_same e e1 tl Heng), <- Hps.
        apply omap_same. intros q. symmetry. by apply made_of_same. }
      by rewrite Hps'.
Qed.

Lemma instances_of_cons i calls :
  instances_of (i :: calls)
  = match i with
    | Answered _ (Some x) | Settled (Some x) => x :: instances_of calls
    | _ => instances_of calls
    end.
Proof.
  unfold instances_of. rewrite omap_cons. by destruct i as [?|?|? [?|]|[?|]].
Qed.

(** The turn after [find] has returned: the engine is asked for every path,
    in order, and the objects it makes join the scene. *)
Lemma advance_found ps :
  forall e,
    let r := advance_all (map Found ps) e in
    let made := omap (made_of e) ps in
    Forall answered (fst r)
    /\ instances_of (fst r) = seq (instanceSeq e) (length made)
    /\ scene (snd r) = scene e ++ combine (seq (instanceSeq e) (length made)) made
    /\ instanceSeq (snd r) = instanceSeq e + length made
    /\ _entryVersion (snd r) = _entryVersion e
    /\ instantiatedPrefabs (snd r) = instantiatedPrefabs e
    /\ same_engine e (snd r).
Proof.
  induction ps as [|p tl IH]; intros e; cbn [map advance_all].
  - cbn. rewrite app_nil_r. repeat split; try done; try constructor; try lia.
  - assert (Hstep : forall i e1,
               same_engine e e1 ->
               answered i ->
               _entryVersion e1 = _entryVersion e ->
               instantiatedPrefabs e1 = instantiatedPrefabs e ->
               let r := advance_all (map Found tl) e1 in
               let made := omap (made_of e) tl in
               Forall answered (i :: fst r)
               /\ instances_of (fst r) = seq (instanceSeq e1) (length made)
               /\ scene (snd r) = scene e1 ++ combine (seq (instanceSeq e1) (length made)) made
               /\ instanceSeq (snd r) = instanceSeq e1 + length made
               /\ _entryVersion (snd r) = _entryVersion e
               /\ instantiatedPrefabs (snd r) = instantiatedPrefabs e
               /\ same_engine e (snd r)).
    { intros i e1 He1 Hi Hv Hp. cbv zeta.
      destruct (IH e1) as (Ha & Hi' & Hs & Hq & Hv' & Hp' & He').
      assert (Hm : omap (made_of e1) tl = omap (made_of e) tl).
      { apply omap_same. intros q. by apply made_of_same. }
      rewrite Hm in *.
      split; [by constructor|]. split; [done|]. split; [done|]. split; [done|].
      split; [congruence|]. split; [congruence|]. by eapply same_engine_trans. }
    pose proof instances_of_cons as Hcons.
    cbv zeta. cbn [advance]. rewrite omap_cons.
    destruct p as [found|].
    + destruct (String.eqb found "") eqn:Eempty.
      * assert (Hm : made_of e (Some found) = None) by (unfold made_of; by rewrite Eempty).
        rewrite Hm.
        destruct (Hstep (Settled None) e (same_engine_refl e) I eq_refl eq_refl)
          as (Ha & Hi & Hs & Hq & Hv & Hp & He).
        destruct (advance_all (map Found tl) e) as [calls e2]. cbn [fst snd] in *.
        by rewrite Hcons.
      * destruct (engine e (without_extension found)) eqn:Eans.
        -- assert (Hm : made_of e (Some found) = Some (without_extension found))
             by (unfold made_of; by rewrite Eempty, Eans).
           rewrite Hm.
           set (e1 := emit_event _ (with_scene _ _ e)).
           destruct (Hstep (Answered (without_extension found) (Some (instanceSeq e))) e1)
             as (Ha & Hi & Hs & Hq & Hv & Hp & He); try done.
           destruct (advance_all (map Found tl) e1) as [calls e2]. cbn [fst snd] in *.
           change (instanceSeq e1) with (S (instanceSeq e)) in *.
           change (scene e1) with (scene e ++ [(instanceSeq e, without_extension found)]) in Hs.
           split; [done|]. split.
           { rewrite Hcons. cbn. by rewrite Hi. }
           split.
           { rewrite Hs. cbn. by rewrite <- app_assoc. }
           split; [cbn; lia | done].
        -- assert (Hm : made_of e (Some found) = None)
             by (unfold made_of; by rewrite Eempty, Eans).
           rewrite Hm.
           destruct (Hstep (Answered (without_extension found) None) e
                       (same_engine_refl e) I eq_refl eq_refl)
             as (Ha & Hi & Hs & Hq & Hv & Hp & He).
           destruct (advance_all (map Found tl) e) as [calls e2]. cbn [fst snd] in *.
           by rewrite Hcons.
        -- assert (Hm : made_of e (Some found) = None)
             by (unfold made_of; by rewrite Eempty, Eans).
           rewrite Hm.
           set (e1 := log _ _ e).
           destruct (Hstep (Settled None) e1) as (Ha & Hi & Hs & Hq & Hv & Hp & He);
             try done.
           destruct (advance_all (map Found tl) e1) as [calls e2]. cbn [fst snd] in *.
           by rewrite Hcons.
    + change (made_of e None) with (@None string).
      destruct (Hstep (Settled None) e (same_engine_refl e) I eq_refl eq_refl)
        as (Ha & Hi & Hs & Hq & Hv & Hp & He).
      destruct (advance_all (map Found tl) e) as [calls e2]. cbn [fst snd] in *.
      by rewrite Hcons.
Qed.

(** The turn after the engine has answered: every promise settles. *)
Lemma advance_answered calls :
  Forall answered calls ->
  forall e,
    let r := advance_all calls e in
    forallb settled (fst r) = true
    /\ instances_of (fst r) = instances_of calls
    /\ same_but_trace e (snd r).
Proof.
  induction 1 as [|i tl Hi Htl IH]; intros e; cbn [advance_all].
  - split; [done|]. split; [done | apply same_but_trace_refl].
  - destruct i as [n k|p|path [instance|]|instance]; try done; cbn [advance].
    + destruct (IH e) as (Hs & Hr & He).
      destruct (advance_all tl e) as [calls e2]. cbn [fst snd] in *.
      split; [done|]. split; [|done]. by rewrite !instances_of_cons, Hr.
    + set (e1 := log _ _ e). destruct (IH e1) as (Hs & Hr & He).
      destruct (advance_all tl e1) as [calls e2]. cbn [fst snd] in *.
      split; [done|]. split; [by rewrite !instances_of_cons|].
      eapply same_but_trace_trans; [apply same_but_trace_log | exact He].
    + destruct (IH e) as (Hs & Hr & He).
      destruct (advance_all tl e) as [calls e2]. cbn [fst snd] in *.
      split; [done|]. split; [|done]. by rewrite !instances_of_cons, Hr.
Qed.

Lemma settled_results calls :
  forallb settled calls = true -> omap id (map result calls) = instances_of calls.
Proof.
  induction calls as [|i tl IH]; [done|]. cbn [forallb]. intros [Hi Htl]%andb_prop.
  destruct i as [n k|p|path instance|instance]; try done.
  rewrite instances_of_cons. cbn [map result]. rewrite omap_cons, IH by done.
  by destruct instance.
Qed.

(** Calls that have the answer of [find], left to run alone. *)
Lemma settle_found ps e :
  let r := settle_alone (max_turns (map Found ps)) (map Found ps) e in
  let made := omap (made_of e) ps in
  omap id (map result (fst r)) = seq (instanceSeq e) (length made)
  /\ scene (snd r) = scene e ++ combine (seq (instanceSeq e) (length made)) made
  /\ instanceSeq (snd r) = instanceSeq e + length made
  /\ _entryVersion (snd r) = _entryVersion e
  /\ instantiatedPrefabs (snd r) = instantiatedPrefabs e
  /\ same_engine e (snd r).
Proof.
  cbv zeta. destruct ps as [|p tl].
  { cbn. rewrite app_nil_r. repeat split; try done; try lia. }
  assert (Hturns : max_turns (map Found (p :: tl)) = 2).
  { unfold max_turns. cbn [map list_max fold_right turns_left].
    induction tl as [|q r IH]; [done|]. cbn [map fold_right turns_left] in *. lia. }
  rewrite Hturns. cbn [settle_alone map forallb settled andb].
  destruct (advance_found (p :: tl) e) as (Ha & Hi & Hs & Hq & Hv & Hp & He).
  cbn [map] in *.
  destruct (advance_all (Found p :: map Found tl) e) as [calls1 e1]. cbn [fst snd] in *.
  destruct (forallb settled calls1) eqn:Eall; cbn [fst snd].
  - rewrite settled_results by done. done.
  - destruct (advance_answered calls1 Ha e1) as (Hall & Hr & Hsame).
    destruct (advance_all calls1 e1) as [calls2 e2]. cbn [fst snd settle_alone] in *.
    assert (Hfin : (if forallb settled calls2 then (calls2, e2) else (calls2, e2))
                   = (calls2, e2)) by (by destruct (forallb settled calls2)).
    rewrite Hfin. cbn [fst snd].
    rewrite settled_results by done. rewrite Hr, Hi.
    destruct Hsame as (Hv2 & Hp2 & Hs2 & Hq2 & He2).
    split; [done|]. split; [congruence|]. split; [congruence|]. split; [congruence|].
    split; [congruence|]. by eapply same_engine_trans.
Qed.

(** Calls that wait for a prefab list which stays empty. *)
Lemma advance_idle calls :
  Forall idle calls ->
  forall e,
    prefabLibrary e = [] ->
    Forall idle (fst (advance_all calls e)) /\ same_but_trace e (snd (advance_all calls e)).
Proof.
  induction 1 as [|i tl Hi Htl IH]; intros e Hempty; cbn [advance_all].
  - split; [constructor | apply same_but_trace_refl].
  - assert (Hnext : forall i1 e1,
               idle i1 -> same_but_trace e e1 ->
               Forall idle (i1 :: fst (advance_all tl e1))
               /\ same_but_trace e (snd (advance_all tl e1))).
    { intros i1 e1 Hi1 He1. destruct (IH e1) as [Hx Hy].
      - destruct He1 as (_ & _ & _ & _ & -> & _). done.
      - split; [by constructor | by eapply same_but_trace_trans]. }
    destruct i as [n k|[p|]|path instance|[instance|]]; try done; cbn [advance].
    + unfold find_loop. rewrite Hempty.
      destruct k as [|k].
      * destruct (find_result_spec n e) as (Hf & _ & Hnone).
        specialize (Hnone Hempty).
        destruct (find_result n e) as [p e1]. cbn [fst snd] in *. subst p.
        destruct (Hnext (Found None) e1 I Hf) as [Hx Hy].
        by destruct (advance_all tl e1).
      * destruct (Hnext (Waiting n k) e I (same_but_trace_refl e)) as [Hx Hy].
        by destruct (advance_all tl e).
    + destruct (Hnext (Settled None) e I (same_but_trace_refl e)) as [Hx Hy].
      by destruct (advance_all tl e).
    + destruct (Hnext (Settled None) e I (same_but_trace_refl e)) as [Hx Hy].
      by destruct (advance_all tl e).
Qed.

Lemma settle_idle turns :
  forall calls e,
    Forall idle calls -> prefabLibrary e = [] ->
    omap id (map result (fst (settle_alone turns calls e))) = []
    /\ same_but_trace e (snd (settle_alone turns calls e)).
Proof.
  assert (Hres : forall calls, Forall idle calls -> omap id (map result calls) = []).
  { induction 1 as [|i tl Hi Htl IH]; [done|].
    destruct i as [n k|[p|]|path instance|[instance|]]; try done; cbn; exact IH. }
  induction turns as [|n IH]; intros calls e Hidle Hempty; cbn [settle_alone].
  - destruct (forallb settled calls); cbn [fst snd];
      (split; [by apply Hres | apply same_but_trace_refl]).
  - destruct (forallb settled calls); cbn [fst snd];
      [split; [by apply Hres | apply same_but_trace_refl]|].
    destruct (advance_idle calls Hidle e Hempty) as [Hi He].
    destruct (advance_all calls e) as [calls1 e1]. cbn [fst snd] in *.
    destruct (IH calls1 e1 Hi) as [Hr Hs].
    { destruct He as (_ & _ & _ & _ & -> & _). done. }
    split; [done | by eapply same_but_trace_trans].
Qed.

(** The calls of [instantiateMultiple], left to run alone: they make one
    instance for every name that is instantiable, in the order of the
    names. *)
Lemma settle_from_start names e :
  let r0 := start_all names e in
  let r := settle_alone (max_turns (fst r0)) (fst r0) (snd r0) in
  let found := resolved e names in
  omap id (map result (fst r)) = seq (instanceSeq e) (length found)
  /\ scene (snd r) = scene e ++ combine (seq (instanceSeq e) (length found)) found
  /\ instanceSeq (snd r) = instanceSeq e + length found
  /\ _entryVersion (snd r) = _entryVersion e
  /\ instantiatedPrefabs (snd r) = instantiatedPrefabs e
  /\ same_engine e (snd r).
Proof.
  cbv zeta. destruct (start_all_spec names e) as (Hs & Hidle & Hfound).
  destruct (start_all names e) as [calls e1]. cbn [fst snd] in *.
  pose proof Hs as (Hv1 & Hp1 & Hs1 & Hq1 & He1).
  destruct (prefabLibrary e) as [|k keys] eqn:El.
  - assert (Hnone : resolved e names = []).
    { unfold resolved, instantiable. rewrite El. clear.
      induction names as [|n tl IH]; [done|]. cbn. exact IH. }
    rewrite Hnone. cbn [length seq combine]. rewrite app_nil_r, Nat.add_0_r.
    destruct (settle_idle (max_turns calls) calls e1 (Hidle eq_refl)) as [Hr Hsame].
    { destruct He1 as [-> _]. done. }
    destruct Hsame as (Hv2 & Hp2 & Hs2 & Hq2 & He2).
    split; [done|]. split; [congruence|]. split; [congruence|]. split; [congruence|].
    split; [congruence|]. by eapply same_engine_trans.
  - destruct (Hfound ltac:(done)) as (ps & -> & Hps).
    destruct (settle_found ps e1) as (Hr & Hsc & Hq & Hv & Hp & He).
    assert (Hm : omap (made_of e1) ps = resolved e names).
    { rewrite <- Hps. clear -He1. induction ps as [|q r IHr]; [done|]. cbn.
      by rewrite (made_of_same e e1 q He1), IHr. }
    rewrite Hm in *. rewrite Hq1, Hs1 in *.
    split; [done|]. split; [done|]. split; [done|]. split; [congruence|].
    split; [congruence|]. by eapply same_engine_trans.
Qed.

(** [instantiateMultiple], left to run alone. *)
Lemma instantiateMultiple_spec names rest e :
  let found := resolved e names in
  exists e',
    finish (instantiateMultiple names rest e)
    = finish (rest (seq (instanceSeq e) (length found)) e')
    /\ scene e' = scene e ++ combine (seq (instanceSeq e) (length found)) found
    /\ instanceSeq e' = instanceSeq e + length found
    /\ _entryVersion e' = _entryVersion e
    /\ instantiatedPrefabs e' = instantiatedPrefabs e
    /\ same_engine e e'.
Proof.
  cbv zeta. unfold instantiateMultiple.
  destruct (settle_from_start names e) as (Hr & Hs & Hq & Hv & Hp & He).
  destruct (start_all names e) as [calls e1]. cbn [fst snd] in *.
  rewrite finish_settle.
  destruct (settle_alone (max_turns calls) calls e1) as [calls2 e2]. cbn [fst snd] in *.
  exists e2. by rewrite Hr.
Qed.

Lemma advance_all_length calls :
  forall e, length (fst (advance_all calls e)) = length calls.
Proof.
  induction calls as [|i tl IH]; intros e; cbn [advance_all]; [done|].
  destruct (advance i e) as [i1 e1]. specialize (IH e1).
  destruct (advance_all tl e1) as [calls1 e2]. cbn [fst length] in *. by rewrite IH.
Qed.

Lemma settle_alone_length turns :
  forall calls e, length (fst (settle_alone turns calls e)) = length calls.
Proof.
  induction turns as [|n IH]; intros calls e; cbn [settle_alone];
    destruct (forallb settled calls); try done.
  pose proof (advance_all_length calls e) as H.
  destruct (advance_all calls e) as [calls1 e1]. cbn [fst] in H. by rewrite IH.
Qed.

(** [instantiate], left to run alone. *)
Lemma instantiate_spec n rest e :
  exists e',
    finish (instantiate n rest e)
    = finish (rest (match instantiable e n with
                    | Some _ => Some (instanceSeq e)
                    | None => None
                    end) e')
    /\ scene e'
       = scene e ++ match instantiable e n with
                    | Some p => [(instanceSeq e, p)]
                    | None => []
                    end
    /\ instanceSeq e'
       = instanceSeq e + match instantiable e n with Some _ => 1 | None => 0 end
    /\ _entryVersion e' = _entryVersion e
    /\ instantiatedPrefabs e' = instantiatedPrefabs e
    /\ same_engine e e'.
Proof.
  unfold instantiate.
  destruct (settle_from_start [n] e) as (Hr & Hs & Hq & Hv & Hp & He).
  cbn [start_all] in *.
  destruct (start n e) as [i e1]. cbn [fst snd] in *.
  assert (Hturns : max_turns [i] = turns_left i).
  { unfold max_turns. cbn. lia. }
  rewrite Hturns in *. rewrite finish_settle.
  pose proof (settle_alone_length (turns_left i) [i] e1) as Hlen.
  destruct (settle_alone (turns_left i) [i] e1) as [calls2 e2]. cbn [fst snd] in *.
  destruct calls2 as [|c [|c' tl]]; try done. cbn [map] in *.
  exists e2. unfold resolved in *. rewrite omap_cons in *.
  cbn [map] in Hr. rewrite omap_cons in Hr.
  destruct (instantiable e n) as [p|]; cbn in *.
  - destruct (result c) as [x|]; cbn in Hr; [|done]. injection Hr as ->. done.
  - destruct (result c) as [x|]; cbn in Hr; [done|]. done.
Qed.
(** What one enter hook does when nothing runs in between. *)
Lemma enter_hook_alone nm h payload e :
  let e' := finish (enter_hook nm h payload e) in
  let found := resolved e (enter_prefabs [h]) in
  _entryVersion e' = _entryVersion e
  /\ same_engine e e'
  /\ scene e' = scene e ++ combine (seq (instanceSeq e) (length found)) found
  /\ instanceSeq e' = instanceSeq e + length found
  /\ (forall slot, ~ In slot (enter_slots [h]) -> get_slot slot e' = get_slot slot e)
  /\ (forall slot, In slot (enter_slots [h]) ->
        get_slot slot e' = seq (instanceSeq e) (length found)).
Proof.
  destruct h as [hook awaits|slot names|layer]; cbn [enter_hook enter_prefabs enter_slots
    flat_map app].
  - rewrite finish_suspend_n. simpl. rewrite app_nil_r. repeat split; try done; try lia.
  - rewrite app_nil_r.
    destruct (instantiateMultiple_spec names
                (fun instances e2 =>
                   if negb (Nat.eqb (_entryVersion e) (_entryVersion e2))
                   then
                     Fin (destroy_all instances
                            (log "prefab"
                               ("Instantiation cancelled for state '" +:+ nm
                                  +:+ "' due to rapid state change. Cleaning up.") e2))
                   else Fin (set_slot slot (get_slot slot e2 ++ instances) e2))
                (set_slot slot [] e))
      as (e2 & Hfin & Hs & Hq & Hv & Hp & He).
    rewrite Hfin. clear Hfin.
    change (_entryVersion (set_slot slot [] e)) with (_entryVersion e) in Hv.
    rewrite Hv, Nat.eqb_refl. cbn [negb finish].
    rewrite (resolved_same e (set_slot slot [] e) names (same_engine_refl e)) in *.
    change (instanceSeq (set_slot slot [] e)) with (instanceSeq e) in *.
    change (scene (set_slot slot [] e)) with (scene e) in *.
    assert (Hslot : get_slot slot e2 = []).
    { unfold get_slot. rewrite Hp. unfold set_slot; simpl. by rewrite lookup_insert_eq. }
    rewrite Hslot. cbn [app].
    split; [done|]. split; [exact He|]. split; [done|]. split; [done|]. split.
    + intros s' Hs'. unfold get_slot, set_slot; simpl.
      rewrite lookup_insert_ne by (intros ->; apply Hs'; by left).
      rewrite Hp. unfold set_slot; simpl.
      by rewrite lookup_insert_ne by (intros ->; apply Hs'; by left).
    + intros s' [<-|[]]. unfold get_slot, set_slot; simpl. by rewrite lookup_insert_eq.
  - cbn [finish]. simpl. rewrite app_nil_r. repeat split; try done; try lia.
Qed.

Lemma combine_app_same {A B} (a b : list A) (c d : list B) :
  length a = length c -> combine (a ++ b) (c ++ d) = combine a c ++ combine b d.
Proof.
  revert c. induction a as [|x a IH]; intros [|y c] Hlen; simpl in *; try done.
  f_equal. apply IH. lia.
Qed.

Lemma resolved_app e a b : resolved e (a ++ b) = resolved e a ++ resolved e b.
Proof.
  unfold resolved. induction a as [|x a IH]; [done|]. cbn [app].
  rewrite !omap_cons, IH. by destruct (instantiable e x).
Qed.

Lemma enter_hooks_alone nm payload hooks :
  forall e,
    NoDup (enter_slots hooks) ->
    let e' := fold_left (fun acc h => finish (enter_hook nm h payload acc)) hooks e in
    let found := resolved e (enter_prefabs hooks) in
    _entryVersion e' = _entryVersion e
    /\ same_engine e e'
    /\ scene e' = scene e ++ combine (seq (instanceSeq e) (length found)) found
    /\ instanceSeq e' = instanceSeq e + length found
    /\ (forall slot, ~ In slot (enter_slots hooks) -> get_slot slot e' = get_slot slot e)
    /\ concat (map (fun slot => get_slot slot e') (enter_slots hooks))
       = seq (instanceSeq e) (length found).
Proof.
  induction hooks as [|h tl IH]; intros e Hnd; cbn [fold_left].
  - simpl. rewrite app_nil_r. repeat split; try done; try lia.
  - change (h :: tl) with ([h] ++ tl) in *.
    unfold enter_slots, enter_prefabs in *. rewrite !flat_map_app in *.
    fold (enter_slots [h]) (enter_slots tl) (enter_prefabs [h]) (enter_prefabs tl) in *.
    apply NoDup_app in Hnd as (Hnd1 & Hdisj & Hnd2).
    destruct (enter_hook_alone nm h payload e) as (Hv1 & Hl1 & Hs1 & Hq1 & Hk1 & Hg1).
    set (e1 := finish (enter_hook nm h payload e)) in *.
    destruct (IH e1 Hnd2) as (Hv & Hl & Hs & Hq & Hk & Hc).
    set (e' := fold_left _ tl e1) in *.
    rewrite resolved_app, length_app.
    assert (Hres : resolved e1 (enter_prefabs tl) = resolved e (enter_prefabs tl))
      by (by apply resolved_same).
    rewrite Hres in *.
    set (f1 := resolved e (enter_prefabs [h])) in *.
    set (f2 := resolved e (enter_prefabs tl)) in *.
    split; [congruence|]. split; [by eapply same_engine_trans|]. split.
    { rewrite Hs, Hs1, Hq1, <- app_assoc. f_equal.
      rewrite seq_app, combine_app_same by (by rewrite length_seq). done. }
    split; [lia|]. split.
    { intros slot Hnot. rewrite in_app_iff in Hnot.
      rewrite Hk by tauto. apply Hk1. tauto. }
    rewrite map_app, concat_app, Hc, Hq1, seq_app. f_equal.
    clear -Hk Hg1 Hdisj.
    assert (H : forall slot, In slot (enter_slots [h]) ->
                  get_slot slot e' = seq (instanceSeq e) (length f1)).
    { intros slot Hin. rewrite Hk; [by apply Hg1|].
      intros Hin'. apply (Hdisj slot); by apply list_elem_of_In. }
    destruct h as [hook awaits|slot names|layer]; simpl; try done.
    rewrite app_nil_r. apply H. simpl. by left.
Qed.

Lemma destroy_all_spec ids :
  forall e,
    let e' := destroy_all ids e in
    scene e' = List.filter (fun o => negb (existsb (Nat.eqb (fst o)) ids)) (scene e)
    /\ instantiatedPrefabs e' = instantiatedPrefabs e
    /\ instanceSeq e' = instanceSeq e
    /\ _entryVersion e' = _entryVersion e.
Proof.
  unfold destroy_all. induction ids as [|i tl IH]; intros e; cbn [fold_left].
  - simpl. split; [|done]. induction (scene e) as [|o r IHr]; simpl; [done|]. by f_equal.
  - destruct (IH (destroy i e)) as (Hs & Hp & Hq & Hv).
    split; [|done]. rewrite Hs. unfold destroy; simpl.
    induction (scene e) as [|o r IHr]; simpl; [done|].
    rewrite (Nat.eqb_sym (fst o) i).
    destruct (Nat.eqb i (fst o)); simpl; [done|]. by rewrite IHr.
Qed.

Lemma filter_twice (a b : list nat) (l : list (nat * string)) :
  List.filter (fun o => negb (existsb (Nat.eqb (fst o)) b))
    (List.filter (fun o => negb (existsb (Nat.eqb (fst o)) a)) l)
  = List.filter (fun o => negb (existsb (Nat.eqb (fst o)) (a ++ b))) l.
Proof.
  induction l as [|o r IH]; cbn [List.filter]; [done|].
  rewrite existsb_app.
  destruct (existsb (Nat.eqb (fst o)) a); cbn [negb orb List.filter]; [exact IH|].
  destruct (existsb (Nat.eqb (fst o)) b); cbn [negb]; [exact IH|]. by f_equal.
Qed.

Lemma filter_none_of (ids : list nat) (l : list (nat * string)) :
  (forall o, In o l -> ~ In (fst o) ids) ->
  List.filter (fun o => negb (existsb (Nat.eqb (fst o)) ids)) l = l.
Proof.
  induction l as [|o r IH]; intros H; cbn [List.filter]; [done|].
  assert (Hno : existsb (Nat.eqb (fst o)) ids = false).
  { apply not_true_is_false. intros E. apply existsb_exists in E as (x & Hx & Heq).
    apply Nat.eqb_eq in Heq. subst x. apply (H o); [by left | done]. }
  rewrite Hno. cbn [negb]. f_equal. apply IH. intros o' Ho'. apply H. by right.
Qed.

Lemma filter_all_of (ids : list nat) (l : list (nat * string)) :
  (forall o, In o l -> In (fst o) ids) ->
  List.filter (fun o => negb (existsb (Nat.eqb (fst o)) ids)) l = [].
Proof.
  induction l as [|o r IH]; intros H; cbn [List.filter]; [done|].
  assert (Hyes : existsb (Nat.eqb (fst o)) ids = true).
  { apply existsb_exists. exists (fst o). split; [apply H; by left | apply Nat.eqb_refl]. }
  rewrite Hyes. cbn [negb]. apply IH. intros o' Ho'. apply H. by right.
Qed.

Lemma exit_hooks_alone next hooks :
  forall e,
    NoDup (exit_slots hooks) ->
    let e' := fold_left (fun acc h => exit_hook h next acc) hooks e in
    let ids := concat (map (fun slot => get_slot slot e) (exit_slots hooks)) in
    scene e' = List.filter (fun o => negb (existsb (Nat.eqb (fst o)) ids)) (scene e)
    /\ _entryVersion e' = _entryVersion e
    /\ (forall slot, In slot (exit_slots hooks) -> get_slot slot e' = [])
    /\ (forall slot, ~ In slot (exit_slots hooks) -> get_slot slot e' = get_slot slot e).
Proof.
  induction hooks as [|h tl IH]; intros e Hnd; cbn [fold_left].
  - simpl. split; [|done]. induction (scene e) as [|o r IHr]; simpl; [done|]. by f_equal.
  - destruct h as [hook|slot]; cbn [exit_slots flat_map app exit_hook] in *.
    + fold (exit_slots tl) in *. destruct (IH (emit_event (EvUserExit hook next) e) Hnd)
        as (Hs & Hv & Hin & Hout).
      done.
    + fold (exit_slots tl) in *. apply NoDup_cons in Hnd as [Hnotin Hnd].
      destruct (destroy_all_spec (get_slot slot e) e) as (Hs0 & Hp0 & Hq0 & Hv0).
      set (e1 := set_slot slot [] (destroy_all (get_slot slot e) e)).
      destruct (IH e1 Hnd) as (Hs & Hv & Hin & Hout).
      assert (Hother : forall s', s' <> slot -> get_slot s' e1 = get_slot s' e).
      { intros s' Hne. unfold e1. unfold get_slot at 1. unfold set_slot, with_slots.
        cbn [instantiatedPrefabs]. rewrite lookup_insert_ne by done. by rewrite Hp0. }
      assert (Hmap : map (fun s' => get_slot s' e1) (exit_slots tl)
                     = map (fun s' => get_slot s' e) (exit_slots tl)).
      { apply map_ext_in. intros s' Hs'. apply Hother. intros ->.
        apply Hnotin. by apply list_elem_of_In. }
      rewrite Hmap in Hs.
      split; [|split; [|split]].
      * rewrite Hs. change (scene e1) with (scene (destroy_all (get_slot slot e) e)).
        rewrite Hs0. cbn [map concat].
        apply filter_twice.
      * rewrite Hv. done.
      * intros s' [<-|Hs']; [|by apply Hin].
        rewrite Hout by (intros H; apply Hnotin; by apply list_elem_of_In).
        unfold e1. unfold get_slot at 1. unfold set_slot, with_slots.
        cbn [instantiatedPrefabs]. by rewrite lookup_insert_eq.
      * intros s' Hs'. rewrite Hout by (intros H; apply Hs'; by right).
        apply Hother. intros ->. apply Hs'. by left.
Qed.

(** The builder keeps its [withPrefabs] hooks paired. *)
Lemma configure_paired nm calls :
  let s := configure nm calls in
  exit_slots (_onExitHooks s) = enter_slots (_onEnterHooks s)
  /\ NoDup (enter_slots (_onEnterHooks s))
  /\ Forall (fun slot => slot < length (_onEnterHooks s)) (enter_slots (_onEnterHooks s))
  /\ _managedPrefabs s = enter_prefabs (_onEnterHooks s).
Proof.
  unfold configure. induction calls as [|c tl IH] using rev_ind.
  - simpl. repeat split; constructor.
  - rewrite fold_left_app. cbn [fold_left].
    set (s := fold_left builder_call tl (create nm)) in *.
    cbv zeta in IH. destruct IH as (Hpair & Hnd & Hlt & Hmp).
    assert (Hsnoc : forall h, enter_slots [h] = [] -> enter_prefabs [h] = [] ->
              exit_slots (_onExitHooks s) = enter_slots (_onEnterHooks s ++ [h])
              /\ NoDup (enter_slots (_onEnterHooks s ++ [h]))
              /\ Forall (fun slot => slot < length (_onEnterHooks s ++ [h]))
                   (enter_slots (_onEnterHooks s ++ [h]))
              /\ _managedPrefabs s = enter_prefabs (_onEnterHooks s ++ [h])).
    { intros h Hh Hp. unfold enter_slots, enter_prefabs in *.
      rewrite !flat_map_app, Hh, Hp, !app_nil_r, length_app.
      repeat split; try done. eapply Forall_impl; [exact Hlt|]. simpl. intros. lia. }
    destruct c; cbn [builder_call]; try done.
    + apply (Hsnoc (UserEnter hook awaits)); done.
    + cbn [add_onExit with_hooks _onExitHooks _onEnterHooks _managedPrefabs].
      unfold exit_slots in *. rewrite flat_map_app. simpl. rewrite app_nil_r.
      done.
    + cbn [withPrefabs with_hooks _onExitHooks _onEnterHooks _managedPrefabs].
      unfold exit_slots, enter_slots, enter_prefabs in *. rewrite !flat_map_app.
      simpl. rewrite !app_nil_r, length_app. simpl.
      split; [by rewrite Hpair|]. split; [|split; [|by rewrite Hmp]].
      * apply NoDup_app. split; [done|]. split; [|apply NoDup_singleton].
        intros x Hx Hx'. apply list_elem_of_singleton in Hx'. subst x.
        rewrite Forall_forall in Hlt. apply Hlt in Hx. lia.
      * apply Forall_app. split.
        -- eapply Forall_impl; [exact Hlt|]. simpl. intros. lia.
        -- apply Forall_singleton. lia.
    + apply (Hsnoc (EnsureLayerEnter _)); done.
Qed.

(** X16. A builder made by any calls ([withPrefabsBatched] and
    [nukeSceneOnEnter] apart), entered with nothing running in between and
    then left: the entry adds to the scene one instance of every managed
    prefab that resolves, in the order of the [withPrefabs] calls; the exit
    destroys them all, leaves the scene as it was before the entry, empties
    the lists of instances and advances the entry version by one. *)
Theorem prefabs_live_from_entry_to_exit :
  forall (nm : string) (calls : list BuilderCall) (payload : Payload) (next : string)
         (e : Env),
    scene_fresh e ->
    let s := configure nm calls in
    let found := resolved e (_managedPrefabs s) in
    let e1 := finish (onEnter_body s payload e) in
    let e2 := finish (onExit_body s next e1) in
    scene e1 = scene e ++ combine (seq (instanceSeq e) (length found)) found
    /\ scene e2 = scene e
    /\ (forall slot, In slot (enter_slots (_onEnterHooks s)) -> get_slot slot e2 = [])
    /\ _entryVersion e2 = S (_entryVersion e).
Proof.
  intros nm calls payload next e Hfresh s found e1 e2.
  destruct (configure_paired nm calls) as (Hpair & Hnd & _ & Hmp). fold s in Hpair, Hnd, Hmp.
  destruct (enter_hooks_alone (name s) payload (_onEnterHooks s) e Hnd)
    as (Hv & Hl & Hs & Hq & Hk & Hc).
  set (eh := fold_left _ (_onEnterHooks s) e) in *.
  assert (He1 : scene e1 = scene eh /\ _entryVersion e1 = _entryVersion eh
                /\ forall slot, get_slot slot e1 = get_slot slot eh).
  { subst e1. unfold onEnter_body. rewrite finish_enter_loop. fold eh.
    rewrite Hv, Nat.eqb_refl. cbn [negb finish]. unfold attach_listeners.
    assert (Hfold : forall {A} (f : A -> Event) (xs : list A) (e0 : Env),
               let r := fold_left (fun acc x => emit_event (f x) acc) xs e0 in
               scene r = scene e0 /\ _entryVersion r = _entryVersion e0
               /\ instantiatedPrefabs r = instantiatedPrefabs e0).
    { intros A f xs. induction xs as [|x r IHr]; intros e0; simpl; [done|].
      destruct (IHr (emit_event (f x) e0)) as (H1 & H2 & H3). done. }
    destruct (Hfold _ (fun d => EvAttachDelegated (d_layerName d) (d_eventType d)
                                  (d_selector d) (d_callback d))
                (_delegatedListeners s) eh) as (A1 & A2 & A3).
    destruct (Hfold _ (fun c => EvAttachContainer (c_layerName c) (c_eventType c)
                                  (c_callback c))
                (_containerListeners s)
                (fold_left
                   (fun acc d =>
                      emit_event
                        (EvAttachDelegated (d_layerName d) (d_eventType d)
                           (d_selector d) (d_callback d)) acc)
                   (_delegatedListeners s) eh)) as (B1 & B2 & B3).
    cbv zeta in B1, B2, B3, A1, A2, A3.
    split; [congruence|]. split; [congruence|].
    intros slot. unfold get_slot. by rewrite B3, A3. }
  destruct He1 as (Hs1 & Hv1 & Hg1).
  subst found. rewrite Hmp.
  set (found := resolved e (enter_prefabs (_onEnterHooks s))) in *.
  split; [by rewrite Hs1|].
  subst e2. unfold onExit_body. rewrite finish_exit_loop.
  assert (Hnd' : NoDup (exit_slots (_onExitHooks s))) by (by rewrite Hpair).
  destruct (exit_hooks_alone next (_onExitHooks s)
              (with_version (S (_entryVersion e1)) e1) Hnd') as (Hs2 & Hv2 & Hin2 & _).
  cbv zeta in Hs2. rewrite Hpair in Hs2, Hin2.
  split; [|split; [exact Hin2|]].
  - rewrite Hs2. change (scene (with_version _ e1)) with (scene e1).
    assert (Hids : concat (map (fun slot => get_slot slot (with_version (S (_entryVersion e1)) e1))
                             (enter_slots (_onEnterHooks s)))
                   = seq (instanceSeq e) (length found)).
    { rewrite <- Hc. f_equal. apply map_ext. intros slot. apply (Hg1 slot). }
    rewrite Hids, Hs1, Hs, List.filter_app.
    rewrite filter_none_of, filter_all_of; [by rewrite app_nil_r | |].
    + intros [i n] Hin. apply in_combine_l in Hin. exact Hin.
    + intros o Ho Hin. unfold scene_fresh in Hfresh. rewrite Forall_forall in Hfresh.
      apply list_elem_of_In, Hfresh in Ho. apply in_seq in Hin. lia.
  - rewrite Hv2. cbn. by rewrite Hv1, Hv.
Qed.

(** The arena of the example, entered and left. *)
Lemma prefabs_live_from_entry_to_exit_witness :
  scene (finish (onEnter_body
                   (configure "arena"
                      [BOnEnter 1 2; BWithPrefabs ["Enemy"; "Ghost"; "Crate"]; BOnExit 3])
                   None (initial_env ["Enemy"; "Crate"])))
  = [(0, "Enemy"); (1, "Crate")]
  /\ scene (finish (onExit_body
                      (configure "arena"
                         [BOnEnter 1 2; BWithPrefabs ["Enemy"; "Ghost"; "Crate"]; BOnExit 3])
                      "lobby"
                      (finish (onEnter_body
                                 (configure "arena"
                                    [BOnEnter 1 2;
                                     BWithPrefabs ["Enemy"; "Ghost"; "Crate"]; BOnExit 3])
                                 None (initial_env ["Enemy"; "Crate"])))))
     = [].
Proof.
  destruct (prefabs_live_from_entry_to_exit "arena"
              [BOnEnter 1 2; BWithPrefabs ["Enemy"; "Ghost"; "Crate"]; BOnExit 3]
              None "lobby" (initial_env ["Enemy"; "Crate"]) (List.Forall_nil _))
    as (Hin & Hout & _).
  split; [rewrite Hin; vm_compute; reflexivity | exact Hout].
Defined.

End PrefabCoverage.

(** ** What a state leaves behind *)

Section ExitCoverage.
Import FocusManager.

Lemma blank_clearListeners l h : blank l -> blank (fst (UILayer.clearListeners l h)).
Proof. intros (H1 & H2 & H3 & H4 & H5). unfold UILayer.clearListeners. by repeat split. Qed.

Lemma blank_detach nm l : blank l -> blank (UILayerManager.detach_child nm l).
Proof.
  intros (H1 & H2 & H3 & H4 & H5). unfold UILayerManager.detach_child.
  repeat split; try done. simpl. by rewrite H2.
Qed.

Lemma blank_update nm q f m :
  (forall l, blank l -> blank (f l)) ->
  blank_or_gone nm m -> blank_or_gone nm (UILayerManager.update q f m).
Proof.
  intros Hf H l. unfold UILayerManager.update.
  destruct (UILayerManager.layers m !! q) as [ql|] eqn:E; [|apply H].
  cbn [UILayerManager.layers]. destruct (decide (nm = q)) as [->|Hne].
  - rewrite lookup_insert_eq. intros [= <-]. apply Hf, H. done.
  - rewrite lookup_insert_ne by done. apply H.
Qed.

Lemma blank_destroy_self nm x layer m :
  blank_or_gone nm m -> blank_or_gone nm (UILayerManager.destroy_self x layer m).
Proof.
  intros H. unfold UILayerManager.destroy_self.
  set (layer1 := match UILayerManager.layers m !! x with Some l => l | None => layer end).
  destruct (UILayer.clearListeners layer1 (UILayerManager.host m)) as [layer2 h2] eqn:Ec.
  set (m2 := {| UILayerManager.layers := <[x:=layer2]> (UILayerManager.layers m);
                UILayerManager.host := h2 |}).
  assert (H3 : forall m3, (nm <> x -> blank_or_gone nm m3) ->
            blank_or_gone nm {| UILayerManager.layers := delete x (UILayerManager.layers m3);
                                UILayerManager.host := UILayerManager.host m3 |}).
  { intros m3 Hm3 l. cbn [UILayerManager.layers]. destruct (decide (nm = x)) as [->|Hne].
    - by rewrite lookup_delete_eq.
    - rewrite lookup_delete_ne by done. by apply Hm3. }
  assert (H2 : nm <> x -> blank_or_gone nm m2).
  { intros Hne l. unfold m2. cbn [UILayerManager.layers].
    rewrite lookup_insert_ne by done. apply H. }
  destruct (UILayer.parent layer2) as [p|]; apply H3; [|done].
  intros Hne. apply blank_update; [apply blank_detach | by apply H2].
Qed.

Lemma blank_fold {A} nm (f : UILayerManager.t -> A -> UILayerManager.t) xs :
  (forall acc x, blank_or_gone nm acc -> blank_or_gone nm (f acc x)) ->
  forall m, blank_or_gone nm m -> blank_or_gone nm (fold_left f xs m).
Proof.
  intros Hf. induction xs as [|x tl IH]; intros m H; simpl; [done|]. by apply IH, Hf.
Qed.

Lemma blank_destroy_go nm fuel :
  forall x m, blank_or_gone nm m ->
    blank_or_gone nm (fst (UILayerManager.destroy_go fuel x m)).
Proof.
  induction fuel as [|f IH]; intros x m H; cbn [UILayerManager.destroy_go].
  - destruct (UILayerManager.layers m !! x) as [layer|]; [|done].
    by apply blank_destroy_self.
  - destruct (UILayerManager.layers m !! x) as [layer|]; [|done].
    cbn [fst]. apply blank_destroy_self. apply blank_fold; [|done].
    intros acc c Hacc. by apply IH.
Qed.

(** [reset()] on the layer [q]: the layer [nm] stays blank if it was, and is
    without content and listeners if it is [q]. *)
Lemma reset_layers nm q m :
  (blank_or_gone nm m -> blank_or_gone nm (UILayerManager.reset q m))
  /\ (nm = q -> forall l, UILayerManager.layers (UILayerManager.reset q m) !! nm = Some l ->
        UILayer.childNodes l = [] /\ UILayer.delegatedListeners l = []
        /\ UILayer.masterHandlers l = [] /\ UILayer.cleanupTasks l = []).
Proof.
  unfold UILayerManager.reset.
  destruct (UILayerManager.layers m !! q) as [layer|] eqn:E.
  2:{ split; [done|]. intros -> l Hl. congruence. }
  set (m1 := fold_left _ (UILayer.children layer) m).
  assert (H1 : blank_or_gone nm m -> blank_or_gone nm m1).
  { intros H. apply blank_fold; [|done]. intros acc c Hacc.
    unfold UILayerManager.destroy. by apply blank_destroy_go. }
  destruct (UILayerManager.layers m1 !! q) as [layer1|] eqn:E1.
  2:{ split; [done|]. intros -> l Hl. congruence. }
  destruct (UILayer.clearListeners (UILayer.with_childNodes [] layer1)
              (UILayerManager.host m1)) as [layer2 h2] eqn:Ec.
  assert (H2 : layer2 = fst (UILayer.clearListeners (UILayer.with_childNodes [] layer1)
                               (UILayerManager.host m1))) by (by rewrite Ec).
  split.
  - intros H l. cbn [UILayerManager.layers]. destruct (decide (nm = q)) as [->|Hne].
    + rewrite lookup_insert_eq. intros [= <-]. rewrite H2.
      apply blank_clearListeners. destruct (H1 H layer1 E1) as (B1 & B2 & B3 & B4 & B5).
      by repeat split.
    + rewrite lookup_insert_ne by done. by apply H1.
  - intros -> l. cbn [UILayerManager.layers]. rewrite lookup_insert_eq. intros [= <-].
    rewrite H2. unfold UILayer.clearListeners. by repeat split.
Qed.

Lemma blank_manager_clearListeners nm q m :
  blank_or_gone nm m -> blank_or_gone nm (UILayerManager.clearListeners q m).
Proof.
  intros H. unfold UILayerManager.clearListeners.
  destruct (UILayerManager.layers m !! q) as [layer|] eqn:E; [|done].
  destruct (UILayer.clearListeners layer (UILayerManager.host m)) as [layer1 h1] eqn:Ec.
  intros l. cbn [UILayerManager.layers]. destruct (decide (nm = q)) as [->|Hne].
  - rewrite lookup_insert_eq. intros [= <-].
    replace layer1 with (fst (UILayer.clearListeners layer (UILayerManager.host m)))
      by (by rewrite Ec).
    by apply blank_clearListeners, H.
  - rewrite lookup_insert_ne by done. apply H.
Qed.

Lemma blank_hide l : blank l -> blank (UILayer.hide l).
Proof. intros (H1 & H2 & H3 & H4 & H5). by repeat split. Qed.

Lemma reset_and_hide_layers nm q fm :
  (blank_or_gone nm (uiLayerManager fm) ->
   blank_or_gone nm (uiLayerManager (reset_and_hide q fm)))
  /\ (nm = q -> blank_or_gone nm (uiLayerManager (reset_and_hide q fm))).
Proof.
  unfold reset_and_hide.
  destruct (UILayerManager.get q (uiLayerManager fm)) as [ql|] eqn:E.
  - cbn [uiLayerManager with_ui].
    destruct (reset_layers nm q (uiLayerManager fm)) as [Hkeep Hnew].
    split.
    + intros H. apply blank_update; [apply blank_hide | by apply Hkeep].
    + intros ->. intros l. unfold UILayerManager.update.
      destruct (UILayerManager.layers (UILayerManager.reset q (uiLayerManager fm)) !! q)
        as [rl|] eqn:Er.
      * cbn [UILayerManager.layers]. rewrite lookup_insert_eq. intros [= <-].
        destruct (Hnew eq_refl rl eq_refl) as (B2 & B3 & B4 & B5). by repeat split.
      * intros Hl. congruence.
  - split; [done|]. intros -> l Hl. cbn in Hl. unfold UILayerManager.get in E. congruence.
Qed.

(** X17. Leaving a state: every layer of its [ui.visible] list that is not in
    [ui.preserveOnExit] and is still registered afterwards is hidden, with no
    content, no delegated pair, no master handler and no cleanup task,
    whatever the other layers of the two lists are and in whatever order
    they are reset. *)
Theorem exit_resets_the_visible_layers :
  forall (fm : t) (stateNameToExit nextStateName : string) (cfg : FocusStateConfig)
         (layerName : string) (l : UILayer.t),
    states fm !! stateNameToExit = Some cfg ->
    In layerName (or_nil (ui_field visible cfg)) ->
    ~ In layerName (or_nil (ui_field preserveOnExit cfg)) ->
    layer_of layerName (_exitState stateNameToExit nextStateName fm) = Some l ->
    blank l.
Proof.
  intros fm stateNameToExit nextStateName cfg layerName l Hcfg Hvis Hpres Hl.
  unfold _exitState in Hl. rewrite Hcfg in Hl.
  set (fm1 := emit_events (await_onExit cfg nextStateName) fm) in *.
  set (step := fun acc nm =>
                 if str_mem nm (or_nil (ui_field preserveOnExit cfg)) then acc
                 else reset_and_hide nm acc) in *.
  assert (H2 : forall xs acc,
             blank_or_gone layerName (uiLayerManager acc) \/ In layerName xs ->
             blank_or_gone layerName (uiLayerManager (fold_left step xs acc))).
  { induction xs as [|x tl IH]; intros acc Hor; cbn [fold_left].
    - destruct Hor as [H|[]]. exact H.
    - apply IH. unfold step at 1.
      destruct (str_mem x (or_nil (ui_field preserveOnExit cfg))) eqn:Ex.
      + destruct Hor as [H|[->|Hin]]; [by left | | by right].
        apply str_mem_In in Ex. done.
      + destruct (reset_and_hide_layers layerName x acc) as [Hkeep Hnew].
        destruct Hor as [H|[->|Hin]]; [left; by apply Hkeep | left; by apply Hnew | by right]. }
  specialize (H2 (or_nil (ui_field visible cfg)) fm1 (or_intror Hvis)).
  set (fm2 := fold_left step (or_nil (ui_field visible cfg)) fm1) in *.
  assert (H3 : forall xs acc,
             blank_or_gone layerName (uiLayerManager acc) ->
             blank_or_gone layerName
               (uiLayerManager
                  (fold_left
                     (fun acc nm =>
                        with_ui (UILayerManager.clearListeners nm (uiLayerManager acc)) acc)
                     xs acc))).
  { induction xs as [|x tl IH]; intros acc H; cbn [fold_left]; [done|].
    apply IH. cbn [uiLayerManager with_ui]. by apply blank_manager_clearListeners. }
  exact (H3 (or_nil (ui_field cleanupOnExit cfg)) fm2 H2 l Hl).
Qed.

(** The settings menu is left for the pause menu. *)
Lemma exit_resets_the_visible_layers_witness :
  exists l,
    layer_of "settings-layer" (_exitState "settings-menu" "pause-menu" Example.in_settings)
    = Some l
    /\ blank l.
Proof.
  destruct (layer_of "settings-layer"
              (_exitState "settings-menu" "pause-menu" Example.in_settings))
    as [l|] eqn:E; [|vm_compute in E; discriminate].
  exists l. split; [reflexivity|].
  eapply (exit_resets_the_visible_layers Example.in_settings "settings-menu" "pause-menu"
            _ "settings-layer" l); [vm_compute; reflexivity | | | exact E].
  - vm_compute. right. left. reflexivity.
  - vm_compute. intros [H|[]]. discriminate.
Defined.

End ExitCoverage.

Section HygieneCoverage.
Import FocusManager.

Lemma has_colon_app_r a x : has_colon x = true -> has_colon (a +:+ x) = true.
Proof. intros H. induction a as [|c a IH]; simpl; [done|]. rewrite IH. apply orb_true_r. Qed.

Lemma last_segment_app a x : has_colon x = true -> last_segment (a +:+ x) = last_segment x.
Proof.
  intros H. induction a as [|c a IH]; simpl; [done|]. by rewrite has_colon_app_r.
Qed.

Lemma pretty_N_go_no_colon x : forall s, has_colon s = false -> has_colon (pretty_N_go x s) = false.
Proof.
  induction (N.lt_wf_0 x) as [x _ IH]; intros s Hs.
  destruct (decide (x = 0)%N) as [->|Hne].
  - by rewrite pretty_N_go_0.
  - rewrite pretty_N_go_step by lia. apply IH.
    + apply N.div_lt; lia.
    + simpl. rewrite Hs, orb_false_r.
      assert (Hlt : (x `mod` 10 < 10)%N) by (apply N.mod_lt; lia).
      destruct (x `mod` 10)%N as [|p]; [done|].
      do 4 (destruct p as [p|p|]; try done).
Qed.

Lemma pretty_nat_no_colon (n : nat) : has_colon (pretty n) = false.
Proof.
  unfold pretty, pretty_nat, pretty, pretty_N.
  destruct (decide (N.of_nat n = 0%N)); [done|]. by apply pretty_N_go_no_colon.
Qed.

Lemma last_segment_key a b (n : nat) :
  last_segment (a +:+ "::" +:+ b +:+ "::" +:+ pretty n) = pretty n.
Proof.
  rewrite last_segment_app by (simpl; done).
  change ("::" +:+ b +:+ "::" +:+ pretty n)
    with (String colon (String colon (b +:+ String colon (String colon (pretty n))))).
  cbn [last_segment has_colon]. rewrite (has_colon_app_r b) by done.
  rewrite orb_true_r. rewrite last_segment_app by done.
  cbn [last_segment has_colon]. by rewrite pretty_nat_no_colon.
Qed.

Lemma key_index a b b' (i j : nat) :
  a +:+ "::" +:+ b +:+ "::" +:+ pretty i = a +:+ "::" +:+ b' +:+ "::" +:+ pretty j -> i = j.
Proof.
  intros E. apply (f_equal last_segment) in E. rewrite !last_segment_key in E.
  by apply (inj pretty) in E.
Qed.


Lemma alist_set_new {V} k (v : V) m :
  (forall e, In e m -> fst e <> k) -> alist_set k v m = m ++ [(k, v)].
Proof.
  induction m as [|[k' v'] tl IH]; intros Hm; simpl; [done|].
  destruct (String.eqb_spec k k') as [->|Hne].
  - exfalso. by apply (Hm (k', v')); [left|].
  - rewrite IH; [done|]. intros e He. apply Hm. by right.
Qed.

Lemma indexed_snoc {A} (ls : list A) (l : A) :
  indexed (ls ++ [l]) = indexed ls ++ [(length ls, l)].
Proof.
  unfold indexed. rewrite length_app. simpl. rewrite seq_app. simpl.
  rewrite combine_app_same by (by rewrite length_seq). done.
Qed.

Lemma indexed_bound {A} (ls : list A) il : In il (indexed ls) -> fst il < length ls.
Proof.
  destruct il as [i l]. intros Hin. apply in_combine_l in Hin. apply in_seq in Hin.
  simpl. lia.
Qed.

Lemma activate_fold st ls :
  forall fm, activeEventListeners fm = [] ->
    let fm' := fold_left (activate_event_listener st) (indexed ls) fm in
    activeEventListeners fm' = scoped_entries st (closureSeq fm) ls
    /\ closureSeq fm' = closureSeq fm + length ls
    /\ _events fm'
       = fold_left (fun bus e => FocusEventBus.on (fst (snd e)) (snd (snd e)) bus)
           (scoped_entries st (closureSeq fm) ls) (_events fm)
    /\ states fm' = states fm /\ _stateStack fm' = _stateStack fm.
Proof.
  intros fm Hact. induction ls as [|l ls IH] using rev_ind.
  - simpl. rewrite Hact. repeat split; try done; try lia.
  - cbn zeta in *. unfold scoped_entries. rewrite indexed_snoc, fold_left_app, map_app.
    cbn [fold_left map]. destruct IH as (IH1 & IH2 & IH3 & IH4 & IH5).
    set (fm' := fold_left (activate_event_listener st) (indexed ls) fm) in *.
    unfold activate_event_listener.
    cbn [activeEventListeners closureSeq _events states _stateStack with_bus].
    rewrite IH1, IH2, IH3, IH4, IH5, length_app, fold_left_app. cbn [length fold_left].
    split; [|repeat split; try done; lia].
    rewrite alist_set_new; [done|].
    intros e He. unfold scoped_entries in He. apply in_map_iff in He.
    destruct He as (il & <- & Hil). apply indexed_bound in Hil.
    cbn [fst scoped_entry]. intros E. apply key_index in E. lia.
Qed.

Lemma for_event_cons ev e es :
  for_event ev (e :: es)
  = (if String.eqb ev (fst (snd e)) then [snd (snd e)] else []) ++ for_event ev es.
Proof. unfold for_event. simpl. by destruct (String.eqb ev (fst (snd e))). Qed.

Lemma on_fold ev es :
  forall bus : gmap string (list BusHandler),
    default [] (fold_left (fun bus e => FocusEventBus.on (fst (snd e)) (snd (snd e)) bus)
                  es bus !! ev)
    = default [] (bus !! ev) ++ for_event ev es.
Proof.
  induction es as [|e tl IH]; intros bus; cbn [fold_left].
  - unfold for_event. simpl. by rewrite app_nil_r.
  - rewrite IH, on_lookup, for_event_cons, <- app_assoc. done.
Qed.

Lemma off_fold ev es :
  forall bus : gmap string (list BusHandler),
    default [] (fold_left
                  (fun bus e => FocusEventBus.off same_handler (fst (snd e)) (snd (snd e)) bus)
                  es bus !! ev)
    = fold_left (fun hs h => FocusEventBus.remove_first same_handler h hs)
        (for_event ev es) (default [] (bus !! ev)).
Proof.
  induction es as [|e tl IH]; intros bus; cbn [fold_left]; [done|].
  rewrite IH, off_lookup, for_event_cons.
  destruct (String.eqb_spec ev (fst (snd e))) as [->|Hne]; done.
Qed.

Lemma remove_all_appended (l hs : list BusHandler) :
  (forall h, In h hs ->
     same_handler h h = true /\ existsb (fun x => same_handler x h) l = false) ->
  fold_left (fun acc h => FocusEventBus.remove_first same_handler h acc) hs (l ++ hs) = l.
Proof.
  induction hs as [|h tl IH]; intros Hhs; cbn [fold_left].
  - by rewrite app_nil_r.
  - destruct (Hhs h (or_introl eq_refl)) as [Hrefl Habs].
    rewrite remove_first_snoc by done. apply IH. intros h' Hh'. apply Hhs. by right.
Qed.

Lemma for_event_scoped ev st n ls h :
  In h (for_event ev (scoped_entries st n ls)) ->
  exists c, h = ScopedHandler c /\ n <= sc_id c.
Proof.
  unfold for_event, scoped_entries. intros Hin.
  apply in_map_iff in Hin. destruct Hin as (e & <- & He).
  apply filter_In in He. destruct He as [He _].
  apply in_map_iff in He. destruct He as (il & <- & _).
  eexists. split; [reflexivity|]. simpl. lia.
Qed.

Lemma older_absent (l : list BusHandler) n c :
  (forall c', In (ScopedHandler c') l -> sc_id c' < n) -> n <= sc_id c ->
  existsb (fun x => same_handler x (ScopedHandler c)) l = false.
Proof.
  intros Hl Hc. induction l as [|x tl IH]; simpl; [done|].
  rewrite IH by (intros c' Hc'; apply Hl; by right). rewrite orb_false_r.
  destruct x as [c'|f]; simpl; [|done].
  apply Nat.eqb_neq. specialize (Hl c' (or_introl eq_refl)). lia.
Qed.

(** X18. [_activateStateEventListeners] on a manager with no active listener
    adds, for every event, the scoped callbacks of the state's listeners for
    that event after the handlers the bus holds, in the order of the
    listeners, and records one entry for each listener (no key is used
    twice); [_deactivateStateEventListeners] then leaves for every event the
    handlers the bus held before, in their order, and no active listener. *)
Theorem state_listeners_leave_with_the_state :
  forall (fm : t) (stateName : string),
    activeEventListeners fm = [] -> fresh_closures fm ->
    let fm1 := _activateStateEventListeners stateName fm in
    let fm2 := _deactivateStateEventListeners fm1 in
    (forall ev, handlers_for ev fm1
                = handlers_for ev fm
                    ++ for_event ev (scoped_entries stateName (closureSeq fm)
                                       (state_listeners stateName fm)))
    /\ length (activeEventListeners fm1) = length (state_listeners stateName fm)
    /\ (forall ev, handlers_for ev fm2 = handlers_for ev fm)
    /\ activeEventListeners fm2 = []
    /\ fresh_closures fm2.
Proof.
  intros fm stateName Hact Hfresh fm1 fm2.
  assert (Hd : _deactivateStateEventListeners fm = fm).
  { unfold _deactivateStateEventListeners. by rewrite Hact. }
  assert (H1 : activeEventListeners fm1
               = scoped_entries stateName (closureSeq fm) (state_listeners stateName fm)
               /\ closureSeq fm1
                  = closureSeq fm + length (state_listeners stateName fm)
               /\ _events fm1
                  = fold_left (fun bus e => FocusEventBus.on (fst (snd e)) (snd (snd e)) bus)
                      (scoped_entries stateName (closureSeq fm)
                         (state_listeners stateName fm)) (_events fm)).
  { unfold fm1, _activateStateEventListeners, state_listeners. rewrite Hd.
    destruct (states fm !! stateName) as [cfg|]; [|simpl; rewrite Hact; split; [done|split; [lia|done]]].
    destruct (eventListeners cfg) as [ls|]; [|simpl; rewrite Hact; split; [done|split; [lia|done]]].
    cbn [or_nil].
    destruct (activate_fold stateName ls
                (log "lifecycle"
                   ("Activating " +:+ pretty (length ls) +:+ " listeners for state '"
                      +:+ stateName +:+ "'.") fm) Hact) as (A1 & A2 & A3 & _).
    done. }
  destruct H1 as (A1 & A2 & A3).
  assert (Hev1 : forall ev, handlers_for ev fm1
                = handlers_for ev fm
                    ++ for_event ev (scoped_entries stateName (closureSeq fm)
                                       (state_listeners stateName fm))).
  { intros ev. unfold handlers_for. rewrite A3. apply on_fold. }
  assert (Hoff : forall ev,
             fold_left (fun acc h => FocusEventBus.remove_first same_handler h acc)
               (for_event ev (activeEventListeners fm1)) (handlers_for ev fm1)
             = handlers_for ev fm).
  { intros ev. rewrite Hev1, A1. apply remove_all_appended. intros h Hh.
    apply for_event_scoped in Hh. destruct Hh as (c & -> & Hc). split.
    - simpl. apply Nat.eqb_refl.
    - apply older_absent with (n := closureSeq fm); [|done].
      intros c' Hc'. by apply (Hfresh ev). }
  assert (H2 : (forall ev, handlers_for ev fm2 = handlers_for ev fm)
               /\ activeEventListeners fm2 = [] /\ closureSeq fm2 = closureSeq fm1).
  { unfold fm2, _deactivateStateEventListeners.
    destruct (activeEventListeners fm1) as [|a active] eqn:Ea.
    - split; [|done]. intros ev. exact (Hoff ev).
    - split; [|done]. intros ev. unfold handlers_for.
      cbn [_events with_bus]. rewrite off_fold. apply Hoff. }
  destruct H2 as (B1 & B2 & B3).
  split; [exact Hev1|]. split.
  { rewrite A1. unfold scoped_entries, indexed.
    rewrite length_map, length_combine, length_seq. lia. }
  split; [exact B1|]. split; [exact B2|].
  intros ev c Hc. rewrite B1 in Hc. apply Hfresh in Hc. lia.
Qed.

(** The listeners of the game state, beside a handler of the user. *)
Lemma state_listeners_leave_with_the_state_witness :
  handlers_for "game:pause" (_activateStateEventListeners "game" watched_bus)
  = [UserHandler (Example.fn 900);
     ScopedHandler {| sc_id := 0; sc_state := "game";
                      sc_listener := {| eventName := "game:pause";
                                        eventCallback := Example.fn 102 |} |}]
  /\ handlers_for "game:pause"
       (_deactivateStateEventListeners (_activateStateEventListeners "game" watched_bus))
     = [UserHandler (Example.fn 900)].
Proof.
  assert (Hact : activeEventListeners watched_bus = []) by reflexivity.
  assert (Hfresh : fresh_closures watched_bus).
  { intros ev c Hin. unfold handlers_for, watched_bus in Hin. cbn [_events with_bus] in Hin.
    rewrite on_lookup in Hin.
    replace (_events Example.registered) with (∅ : gmap string (list BusHandler)) in Hin
      by (vm_compute; reflexivity).
    rewrite lookup_empty in Hin. simpl in Hin.
    destruct (String.eqb ev "game:pause"); simpl in Hin; [|done].
    destruct Hin as [Hin|[]]. discriminate. }
  destruct (state_listeners_leave_with_the_state watched_bus "game" Hact Hfresh)
    as (_ & _ & Hafter & _).
  split; [vm_compute; reflexivity|].
  rewrite Hafter. vm_compute. reflexivity.
Defined.

End HygieneCoverage.

Section KeyCoverage.
Import FocusManager.

Lemma last_segment_index x (n : nat) : last_segment (x +:+ "::" +:+ pretty n) = pretty n.
Proof.
  rewrite last_segment_app by done.
  change ("::" +:+ pretty n) with (String colon (String colon (pretty n))).
  cbn [last_segment has_colon]. rewrite pretty_nat_no_colon. done.
Qed.

Lemma append_assoc a b c : (a +:+ b) +:+ c = a +:+ b +:+ c.
Proof.
  induction a as [|x a IH]; [done|].
  change (String x ((a +:+ b) +:+ c) = String x (a +:+ b +:+ c)). by rewrite IH.
Qed.

Lemma key_listener_index a b c b' c' (i j : nat) :
  a +:+ "::" +:+ b +:+ "::" +:+ c +:+ "::" +:+ pretty i
  = a +:+ "::" +:+ b' +:+ "::" +:+ c' +:+ "::" +:+ pretty j -> i = j.
Proof.
  assert (Hshape : forall b c T,
             a +:+ "::" +:+ b +:+ "::" +:+ c +:+ T
             = (a +:+ "::" +:+ b +:+ "::" +:+ c) +:+ T).
  { intros. by rewrite !append_assoc. }
  rewrite !Hshape. intros E. apply (f_equal last_segment) in E.
  rewrite !last_segment_index in E. by apply (inj pretty) in E.
Qed.

Lemma activate_key_fold st ls :
  forall fm, activeKeyListeners fm = [] ->
    let fm' := fold_left (activate_key_listener st) (indexed ls) fm in
    activeKeyListeners fm' = key_entries st (closureSeq fm) ls
    /\ closureSeq fm' = closureSeq fm + length ls
    /\ documentListeners fm'
       = documentListeners fm ++ map snd (key_entries st (closureSeq fm) ls).
Proof.
  intros fm Hact. induction ls as [|l ls IH] using rev_ind.
  - simpl. rewrite Hact, app_nil_r. repeat split; try done; try lia.
  - cbn zeta in *. unfold key_entries. rewrite indexed_snoc, fold_left_app, !map_app.
    cbn [fold_left map]. destruct IH as (IH1 & IH2 & IH3).
    set (fm' := fold_left (activate_key_listener st) (indexed ls) fm) in *.
    unfold activate_key_listener.
    cbn [activeKeyListeners closureSeq documentListeners with_keys].
    rewrite IH1, IH2, IH3, length_app, <- app_assoc. cbn [length].
    split; [|repeat split; try done; lia].
    rewrite alist_set_new; [done|].
    intros e He. unfold key_entries in He. apply in_map_iff in He.
    destruct He as (il & <- & Hil). apply indexed_bound in Hil.
    cbn [fst key_entry]. intros E. apply key_listener_index in E. lia.
Qed.

Lemma remove_key_handler_snoc ty h doc tl :
  (forall e, In e doc -> kh_id (snd e) <> kh_id h) ->
  remove_key_handler ty h (doc ++ (ty, h) :: tl) = doc ++ tl.
Proof.
  induction doc as [|x r IH]; intros Hdoc; simpl.
  - by rewrite String.eqb_refl, Nat.eqb_refl.
  - replace (Nat.eqb (kh_id (snd x)) (kh_id h)) with false
      by (symmetry; apply Nat.eqb_neq, Hdoc; by left).
    rewrite andb_false_r, IH; [done|]. intros e He. apply Hdoc. by right.
Qed.

Lemma remove_all_key_handlers doc (es : list (string * (string * KeyHandler))) :
  (forall e x, In e es -> In x doc -> kh_id (snd x) <> kh_id (snd (snd e))) ->
  fold_left (fun acc info => remove_key_handler (fst (snd info)) (snd (snd info)) acc)
    es (doc ++ map snd es) = doc.
Proof.
  induction es as [|e tl IH]; intros Hes; cbn [fold_left map].
  - by rewrite app_nil_r.
  - destruct e as [k [ty h]]. cbn [fst snd].
    rewrite remove_key_handler_snoc.
    + apply IH. intros e x He Hx. apply Hes; [by right|done].
    + intros x Hx. by apply (Hes (k, (ty, h)) x); [left|].
Qed.

(** X19. [_activateStateKeyListeners] on a manager with no active key
    listener adds one handler to [document] for every key listener of the
    state, after the listeners [document] holds;
    [_deactivateStateKeyListeners] then removes exactly these, whatever the
    event types and keys of the listeners are. *)
Theorem key_listeners_leave_with_the_state :
  forall (fm : t) (stateName : string),
    activeKeyListeners fm = [] -> fresh_key_closures fm ->
    let fm1 := _activateStateKeyListeners stateName fm in
    let fm2 := _deactivateStateKeyListeners fm1 in
    documentListeners fm1
    = documentListeners fm
        ++ map snd (key_entries stateName (closureSeq fm) (state_key_listeners stateName fm))
    /\ documentListeners fm2 = documentListeners fm
    /\ activeKeyListeners fm2 = []
    /\ fresh_key_closures fm2.
Proof.
  intros fm stateName Hact Hfresh fm1 fm2.
  assert (Hd : _deactivateStateKeyListeners fm = fm).
  { unfold _deactivateStateKeyListeners. by rewrite Hact. }
  assert (H1 : activeKeyListeners fm1
               = key_entries stateName (closureSeq fm) (state_key_listeners stateName fm)
               /\ closureSeq fm1
                  = closureSeq fm + length (state_key_listeners stateName fm)
               /\ documentListeners fm1
                  = documentListeners fm
                      ++ map snd (key_entries stateName (closureSeq fm)
                                    (state_key_listeners stateName fm))).
  { unfold fm1, _activateStateKeyListeners, state_key_listeners. rewrite Hd.
    destruct (states fm !! stateName) as [cfg|];
      [|simpl; rewrite Hact, app_nil_r; split; [done|split; [lia|done]]].
    destruct (keyListeners cfg) as [ls|];
      [|simpl; rewrite Hact, app_nil_r; split; [done|split; [lia|done]]].
    cbn [or_nil].
    exact (activate_key_fold stateName ls
             (log "lifecycle"
                ("Activating " +:+ pretty (length ls) +:+ " key listeners for state '"
                   +:+ stateName +:+ "'.") fm) Hact). }
  destruct H1 as (A1 & A2 & A3).
  assert (Hoff : fold_left
                   (fun acc info => remove_key_handler (fst (snd info)) (snd (snd info)) acc)
                   (activeKeyListeners fm1) (documentListeners fm1)
                 = documentListeners fm).
  { rewrite A1, A3. apply remove_all_key_handlers. intros e x He Hx.
    unfold key_entries in He. apply in_map_iff in He. destruct He as (il & <- & _).
    apply Hfresh in Hx. simpl. lia. }
  assert (H2 : documentListeners fm2 = documentListeners fm
               /\ activeKeyListeners fm2 = [] /\ closureSeq fm2 = closureSeq fm1).
  { unfold fm2, _deactivateStateKeyListeners.
    destruct (activeKeyListeners fm1) as [|a active] eqn:Ea.
    - split; [|done]. exact Hoff.
    - split; [|done]. exact Hoff. }
  destruct H2 as (B1 & B2 & B3).
  split; [exact A3|]. split; [exact B1|]. split; [exact B2|].
  intros e He. rewrite B1 in He. apply Hfresh in He. lia.
Qed.

(** The Escape key of the game state. *)
Lemma key_listeners_leave_with_the_state_witness :
  documentListeners (_activateStateKeyListeners "game" Example.registered)
  = [("keydown",
      {| kh_id := 0; kh_state := "game";
         kh_listener := {| keyEventType := "keydown"; key := "Escape";
                           keyCallback := Example.fn 104 |} |})]
  /\ documentListeners
       (_deactivateStateKeyListeners (_activateStateKeyListeners "game" Example.registered))
     = [].
Proof.
  assert (Hact : activeKeyListeners Example.registered = []) by (vm_compute; reflexivity).
  assert (Hdoc : documentListeners Example.registered = []) by (vm_compute; reflexivity).
  assert (Hfresh : fresh_key_closures Example.registered).
  { intros e He. rewrite Hdoc in He. destruct He. }
  destruct (key_listeners_leave_with_the_state Example.registered "game" Hact Hfresh)
    as (_ & Hafter & _).
  split; [vm_compute; reflexivity|].
  rewrite Hafter. exact Hdoc.
Defined.

End KeyCoverage.

(** ** The tree of layers *)

Section ForestCoverage.
Import UILayerManager.

Lemma climbs_snoc m k x p z :
  climbs m k x p -> parent_of p m = Some z -> climbs m (S k) x z.
Proof.
  induction 1 as [x|k x q p Hq Hc IH]; intros Hp.
  - eapply climbs_up; [exact Hp|constructor].
  - eapply climbs_up; [exact Hq|]. by apply IH.
Qed.

Lemma climbs_rank m (rank : string -> nat) k x z :
  (forall c p, parent_of c m = Some p -> rank p < rank c) ->
  climbs m k x z -> rank z + k <= rank x.
Proof.
  intros Hr. induction 1 as [x|k x p z Hp Hc IH]; [lia|].
  specialize (Hr _ _ Hp). lia.
Qed.

Lemma no_cycle m c p : forest m -> parent_of c m = Some p -> ~ below m p c.
Proof.
  intros [_ _ _ [rank Hr]] Hp [k Hk].
  pose proof (climbs_rank m rank k p c Hr Hk). specialize (Hr _ _ Hp). lia.
Qed.

Lemma siblings_apart m nm c d :
  forest m -> parent_of c m = Some nm -> parent_of d m = Some nm -> c <> d ->
  ~ below m c d.
Proof.
  intros Hf Hc Hd Hne [k Hk]. inversion Hk as [x|k' x p z Hp Hrest]; subst; [done|].
  rewrite Hc in Hp. injection Hp as <-.
  apply (no_cycle m d nm Hf Hd). by exists k'.
Qed.

Lemma parent_registered m c p : forest m -> parent_of c m = Some p -> is_Some (layers m !! p).
Proof.
  intros Hf Hp. apply (forest_parent m Hf) in Hp. unfold children_of in Hp.
  destruct (layers m !! p); [done|destruct Hp].
Qed.

Lemma child_registered m c p : parent_of c m = Some p -> is_Some (layers m !! c).
Proof. unfold parent_of. by destruct (layers m !! c). Qed.

(** A proper descendant is below a child. *)
Lemma below_child m x nm :
  forest m -> below m x nm -> x <> nm ->
  exists c, In c (children_of nm m) /\ below m x c.
Proof.
  intros Hf [k Hk] Hne. induction Hk as [x|k x p z Hp Hc IH]; [done|].
  destruct (decide (p = z)) as [->|Hpz].
  - exists x. split; [by apply (forest_parent m Hf)|]. exists 0. constructor.
  - destruct (IH Hpz) as (c & Hin & [k' Hk']). exists c. split; [done|].
    exists (S k'). by eapply climbs_up.
Qed.

(** The chain from a layer up to an ancestor is no longer than the registry
    is large. *)
Lemma climbs_chain m (rank : string -> nat) k x z :
  (forall c p, parent_of c m = Some p -> rank p < rank c) ->
  climbs m k x z ->
  exists xs : list string,
    length xs = k /\ NoDup xs
    /\ (forall y, In y xs -> is_Some (layers m !! y) /\ rank z < rank y /\ rank y <= rank x).
Proof.
  intros Hr. induction 1 as [x|k x p z Hp Hc IH].
  - exists []. split; [done|]. split; [constructor|]. intros y [].
  - destruct IH as (xs & Hlen & Hnd & Hxs). exists (x :: xs).
    pose proof (Hr _ _ Hp) as Hlt.
    pose proof (climbs_rank m rank k p z Hr Hc) as Hle.
    split; [simpl; by rewrite Hlen|]. split.
    + apply NoDup_cons. split; [|done]. intros Hin. apply list_elem_of_In in Hin.
      destruct (Hxs x Hin) as (_ & _ & Hx). lia.
    + intros y [<-|Hin].
      * split; [by eapply child_registered|]. lia.
      * destruct (Hxs y Hin) as (Hy1 & Hy2 & Hy3). split; [done|]. lia.
Qed.

Lemma forest_shallow m nm : forest m -> shallow m (size (layers m)) nm.
Proof.
  intros Hf x k Hk. destruct (forest_rank m Hf) as [rank Hr].
  destruct (climbs_chain m rank k x nm Hr Hk) as (xs & Hlen & Hnd & Hxs).
  rewrite <- Hlen.
  assert (Hsub : (list_to_set xs : gset string) ⊆ dom (layers m)).
  { intros y Hy. apply elem_of_list_to_set in Hy. apply elem_of_dom.
    apply Hxs. by apply list_elem_of_In. }
  apply subseteq_size in Hsub. rewrite size_dom in Hsub.
  rewrite size_list_to_set in Hsub by done. exact Hsub.
Qed.


Lemma remove_first_In x c xs : In c (remove_first x xs) -> In c xs.
Proof.
  induction xs as [|y tl IH]; simpl; [done|].
  destruct (String.eqb y x); [by right|]. intros [->|H]; [by left|right; by apply IH].
Qed.

Lemma remove_first_NoDup x xs : NoDup xs -> NoDup (remove_first x xs).
Proof.
  induction 1 as [|y tl Hy Hnd IH]; simpl; [constructor|].
  destruct (String.eqb y x); [done|]. constructor; [|done].
  intros Hin. apply Hy. apply list_elem_of_In. apply list_elem_of_In in Hin.
  by eapply remove_first_In.
Qed.

Lemma remove_first_spec x c xs :
  NoDup xs -> In c (remove_first x xs) <-> In c xs /\ c <> x.
Proof.
  induction 1 as [|y tl Hy Hnd IH]; simpl; [tauto|].
  destruct (String.eqb_spec y x) as [->|Hne].
  - split.
    + intros Hin. split; [by right|]. intros ->. apply Hy. by apply list_elem_of_In.
    + intros [[->|Hin] Hc]; done.
  - simpl. rewrite IH. split.
    + intros [->|[Hin Hc]]; [by split; [left|]|by split; [right|]].
    + intros [[->|Hin] Hc]; [by left|by right].
Qed.

Lemma clearListeners_tree l h :
  UILayer.parent (fst (UILayer.clearListeners l h)) = UILayer.parent l
  /\ UILayer.children (fst (UILayer.clearListeners l h)) = UILayer.children l.
Proof. done. Qed.

(** What is registered after [destroy_self]. *)
Lemma destroy_self_layers nm layer m1 l1 x :
  layers m1 !! nm = Some l1 ->
  layers (destroy_self nm layer m1) !! x
  = if decide (x = nm) then None
    else (fun lx => if decide (UILayer.parent l1 = Some x) then detach_child nm lx else lx)
           <$> layers m1 !! x.
Proof.
  intros Hl. unfold destroy_self. rewrite Hl.
  destruct (UILayer.clearListeners l1 (host m1)) as [layer2 h2] eqn:Ec.
  assert (Hp : UILayer.parent layer2 = UILayer.parent l1).
  { replace layer2 with (fst (UILayer.clearListeners l1 (host m1))) by (by rewrite Ec).
    apply clearListeners_tree. }
  rewrite Hp. destruct (decide (x = nm)) as [->|Hne].
  - destruct (UILayer.parent l1); cbn [layers]; by rewrite lookup_delete_eq.
  - destruct (UILayer.parent l1) as [p|]; cbn [layers].
    + rewrite lookup_delete_ne by done. unfold update. cbn [layers].
      destruct (decide (p = nm)) as [->|Hpn].
      * rewrite lookup_insert_eq. cbn [layers]. rewrite !lookup_insert_ne by done.
        destruct (layers m1 !! x); simpl; [|done].
        destruct (decide (Some nm = Some x)) as [[= ->]|]; done.
      * rewrite lookup_insert_ne by done.
        destruct (layers m1 !! p) as [lp|] eqn:E; cbn [layers].
        -- destruct (decide (x = p)) as [->|Hxp].
           ++ rewrite lookup_insert_eq, E. simpl. by rewrite decide_True.
           ++ rewrite !lookup_insert_ne by done.
              destruct (layers m1 !! x); simpl; [|done].
              rewrite decide_False; [done|]. intros [= ->]. done.
        -- rewrite lookup_insert_ne by done.
           destruct (layers m1 !! x) eqn:Ex; simpl; [|done].
           rewrite decide_False; [done|]. intros [= ->]. congruence.
    + rewrite lookup_delete_ne, lookup_insert_ne by done.
      by destruct (layers m1 !! x).
Qed.

Lemma pruned_layer nm m m' x lx' :
  pruned nm m m' -> layers m' !! x = Some lx' ->
  ~ below m x nm
  /\ exists lx, layers m !! x = Some lx
       /\ UILayer.parent lx' = UILayer.parent lx
       /\ UILayer.children lx'
          = if decide (parent_of nm m = Some x)
            then remove_first nm (UILayer.children lx) else UILayer.children lx.
Proof.
  intros [P1 P2] Hx.
  assert (Hnb : ~ below m x nm).
  { intros Hb. rewrite (P1 x Hb) in Hx. done. }
  split; [done|]. rewrite (P2 x Hnb) in Hx.
  destruct (layers m !! x) as [lx|]; [|done]. exists lx. split; [done|].
  simpl in Hx. injection Hx as <-.
  destruct (decide (parent_of nm m = Some x)); done.
Qed.

Lemma pruned_parent nm m m' c p :
  pruned nm m m' -> parent_of c m' = Some p -> parent_of c m = Some p /\ ~ below m c nm.
Proof.
  intros Hpr Hp. unfold parent_of in Hp.
  destruct (layers m' !! c) as [lc'|] eqn:E; [|done].
  destruct (pruned_layer nm m m' c lc' Hpr E) as (Hnb & lc & Hlc & Hpar & _).
  split; [|done]. unfold parent_of. rewrite Hlc. congruence.
Qed.

Lemma pruned_children nm m m' p c :
  forest m -> pruned nm m m' -> In c (children_of p m') ->
  In c (children_of p m) /\ c <> nm /\ ~ below m p nm.
Proof.
  intros Hf Hpr Hin. unfold children_of in Hin.
  destruct (layers m' !! p) as [lp'|] eqn:E; [|destruct Hin].
  destruct (pruned_layer nm m m' p lp' Hpr E) as (Hnb & lp & Hlp & _ & Hch).
  rewrite Hch in Hin. pose proof (forest_nodup m Hf p) as Hnd.
  unfold children_of in *. rewrite Hlp in *.
  destruct (decide (parent_of nm m = Some p)) as [Hpn|Hpn].
  - apply remove_first_spec in Hin; [|done]. tauto.
  - split; [done|]. split; [|done]. intros ->. apply Hpn.
    apply (forest_child m Hf). unfold children_of. by rewrite Hlp.
Qed.

Lemma pruned_forest nm m m' : forest m -> pruned nm m m' -> forest m'.
Proof.
  intros Hf Hpr. pose proof Hpr as [P1 P2]. split.
  - intros p c Hin.
    destruct (pruned_children nm m m' p c Hf Hpr Hin) as (Hin0 & Hc & Hnbp).
    pose proof (forest_child m Hf p c Hin0) as Hpar.
    assert (Hnbc : ~ below m c nm).
    { intros [k Hk]. inversion Hk as [y|k' y q z Hq Hrest]; subst; [done|].
      rewrite Hpar in Hq. injection Hq as <-. apply Hnbp. by exists k'. }
    unfold parent_of. rewrite (P2 c Hnbc).
    unfold parent_of in Hpar. destruct (layers m !! c) as [lc|]; [|done]. simpl.
    destruct (decide (_ = Some c)); exact Hpar.
  - intros c p Hp.
    destruct (pruned_parent nm m m' c p Hpr Hp) as [Hp0 Hnbc].
    pose proof (forest_parent m Hf c p Hp0) as Hin.
    assert (Hnbp : ~ below m p nm).
    { intros [k Hk]. apply Hnbc. exists (S k). by eapply climbs_up. }
    unfold children_of. rewrite (P2 p Hnbp).
    unfold children_of in Hin. destruct (layers m !! p) as [lp|] eqn:Elp; [|destruct Hin].
    simpl. destruct (decide (parent_of nm m = Some p)); [|done].
    cbn. apply remove_first_spec.
    + pose proof (forest_nodup m Hf p) as Hnd. unfold children_of in Hnd.
      by rewrite Elp in Hnd.
    + split; [done|]. intros ->. apply Hnbc. exists 0. constructor.
  - intros p. unfold children_of.
    destruct (layers m' !! p) as [lp'|] eqn:E; [|constructor].
    destruct (pruned_layer nm m m' p lp' Hpr E) as (_ & lp & Hlp & _ & Hch).
    rewrite Hch. pose proof (forest_nodup m Hf p) as Hnd. unfold children_of in Hnd.
    rewrite Hlp in Hnd. destruct (decide _); [by apply remove_first_NoDup|done].
  - destruct (forest_rank m Hf) as [rank Hr]. exists rank. intros c p Hp.
    apply Hr. by apply (pruned_parent nm m m' c p Hpr).
Qed.


Lemma pruned_none nm m m' x : pruned nm m m' -> layers m !! x = None -> layers m' !! x = None.
Proof.
  intros Hpr Hx. destruct (layers m' !! x) as [lx'|] eqn:E; [|done].
  destruct (pruned_layer nm m m' x lx' Hpr E) as (_ & lx & Hlx & _). congruence.
Qed.

Lemma detach_all_parent cs l :
  UILayer.parent (fold_left (fun a c => detach_child c a) cs l) = UILayer.parent l.
Proof. revert l. induction cs as [|c tl IH]; intros l; simpl; [done|]. by rewrite IH. Qed.

Lemma detach_all_keeps cs : forall l,
  UILayer.shown (fold_left (fun a c => detach_child c a) cs l) = UILayer.shown l
  /\ UILayer.zIndex (fold_left (fun a c => detach_child c a) cs l) = UILayer.zIndex l.
Proof.
  induction cs as [|c tl IH]; intros l; simpl; [done|].
  destruct (IH (detach_child c l)) as [-> ->]. done.
Qed.

Lemma detach_all_children cs : forall l,
  UILayer.children (fold_left (fun a c => detach_child c a) cs l)
  = fold_left (fun xs c => remove_first c xs) cs (UILayer.children l).
Proof. induction cs as [|c tl IH]; intros l; simpl; [done|]. by rewrite IH. Qed.

Lemma remove_all_listed cs : fold_left (fun xs c => remove_first c xs) cs cs = [].
Proof.
  induction cs as [|c tl IH]; simpl; [done|]. by rewrite String.eqb_refl.
Qed.

(** A chain of the original registry is still there, or its start is gone. *)
Lemma climbs_survives m acc k x c :
  forest acc ->
  (forall y, is_Some (layers acc !! y) -> parent_of y acc = parent_of y m) ->
  climbs m k x c -> climbs acc k x c \/ layers acc !! x = None.
Proof.
  intros Hf Hsame. induction 1 as [x|k x p z Hp Hc IH]; [left; constructor|].
  destruct (layers acc !! x) as [lx|] eqn:E; [|by right].
  assert (Hp' : parent_of x acc = Some p) by (rewrite Hsame; [done|by rewrite E]).
  destruct IH as [IH|IH]; [left; by eapply climbs_up|].
  destruct (parent_registered acc x p Hf Hp') as [lp Hlp]. congruence.
Qed.

Lemma climbs_original m acc k x c :
  (forall y p, parent_of y acc = Some p -> parent_of y m = Some p) ->
  climbs acc k x c -> climbs m k x c.
Proof.
  intros Hsame. induction 1 as [x|k x p z Hp Hc IH]; [constructor|].
  eapply climbs_up; [by apply Hsame|done].
Qed.

Section DestroyStep.
Variable step : t -> string -> t.
Variable bound : nat.
Hypothesis step_prunes : forall c acc lc,
  forest acc -> layers acc !! c = Some lc ->
  (forall x k, climbs acc k x c -> S k <= bound) ->
  pruned c acc (step acc c).

(** The loop of [destroy] and of [reset] over the children, after the
    children [done]. *)
Lemma destroy_children_step nm m l (Hf : forest m) (Hl : layers m !! nm = Some l)
    (Hsh : shallow m bound nm) :
  forall todo done acc,
    UILayer.children l = done ++ todo ->
    forest acc ->
    (forall x, (exists d, In d done /\ below m x d) -> layers acc !! x = None) ->
    (forall x, ~ (exists d, In d done /\ below m x d) -> x <> nm ->
               layers acc !! x = layers m !! x) ->
    layers acc !! nm = Some (fold_left (fun a c => detach_child c a) done l) ->
    let acc' := fold_left step todo acc in
    forest acc'
    /\ (forall x, (exists d, In d (UILayer.children l) /\ below m x d) ->
                  layers acc' !! x = None)
    /\ (forall x, ~ (exists d, In d (UILayer.children l) /\ below m x d) -> x <> nm ->
                  layers acc' !! x = layers m !! x)
    /\ layers acc' !! nm
       = Some (fold_left (fun a c => detach_child c a) (UILayer.children l) l).
Proof.
  induction todo as [|c todo IHtodo]; intros done acc Hcs Hfa J1 J2 J3.
  - rewrite app_nil_r in Hcs. subst done. simpl. done.
  - cbn [fold_left]. cbn zeta.
    assert (Hnd : NoDup (UILayer.children l)).
    { pose proof (forest_nodup m Hf nm) as H. unfold children_of in H. by rewrite Hl in H. }
    assert (Hchild : forall d, In d (UILayer.children l) -> parent_of d m = Some nm).
    { intros d Hd. apply (forest_child m Hf). unfold children_of. by rewrite Hl. }
    assert (Hc : parent_of c m = Some nm).
    { apply Hchild. rewrite Hcs. apply in_or_app. right. by left. }
    assert (Hcn : c <> nm).
    { intros ->. apply (no_cycle m nm nm Hf Hc). exists 0. constructor. }
    assert (Hcd : ~ In c done).
    { rewrite Hcs in Hnd. apply NoDup_app in Hnd as (_ & Hdis & _).
      intros Hin. apply list_elem_of_In in Hin. apply (Hdis c Hin). by left. }
    assert (Hcfree : ~ (exists d, In d done /\ below m c d)).
    { intros (d & Hd & Hb). apply (siblings_apart m nm c d Hf Hc); [|congruence|done].
      apply Hchild. rewrite Hcs. apply in_or_app. by left. }
    assert (Hcacc : layers acc !! c = layers m !! c) by (by apply J2).
    destruct (child_registered m c nm Hc) as [lc Hlc].
    assert (Hsame : forall y, is_Some (layers acc !! y) -> parent_of y acc = parent_of y m).
    { intros y Hy. destruct (decide (y = nm)) as [->|Hyn].
      - unfold parent_of. rewrite J3, Hl. apply detach_all_parent.
      - unfold parent_of. rewrite J2; [done| |done].
        intros Hex. rewrite (J1 y Hex) in Hy. by destruct Hy. }
    assert (Hsame' : forall y p, parent_of y acc = Some p -> parent_of y m = Some p).
    { intros y p Hp. rewrite <- Hsame; [done|]. by eapply child_registered. }
    assert (Hcp : parent_of c acc = Some nm).
    { unfold parent_of. rewrite Hcacc. exact Hc. }
    assert (Hshc : forall x k, climbs acc k x c -> S k <= bound).
    { intros x k Hk. apply (climbs_original m) in Hk; [|done].
      exact (Hsh x (S k) (climbs_snoc m k x c nm Hk Hc)). }
    assert (Hpr : pruned c acc (step acc c)).
    { apply (step_prunes c acc lc); [done|by rewrite Hcacc|done]. }
    set (acc1 := step acc c) in *.
    pose proof Hpr as [P1 P2].
    apply (IHtodo (done ++ [c]) acc1).
    + by rewrite <- app_assoc.
    + by eapply pruned_forest.
    + intros x (d & Hd & Hb). apply in_app_or in Hd as [Hd|[<-|[]]].
      * eapply pruned_none; [done|]. apply J1. by exists d.
      * destruct Hb as [k Hk].
        destruct (climbs_survives m acc k x c Hfa Hsame Hk) as [Hk'|Hnone].
        -- apply P1. by exists k.
        -- by eapply pruned_none.
    + intros x Hfree Hxn.
      assert (Hnb : ~ below acc x c).
      { intros [k Hk]. apply Hfree. exists c. split; [apply in_or_app; right; by left|].
        exists k. by apply (climbs_original m acc). }
      rewrite (P2 x Hnb), Hcp.
      destruct (decide (Some nm = Some x)) as [[= <-]|_]; [done|].
      rewrite J2; [by destruct (layers m !! x)| |done].
      intros (d & Hd & Hb). apply Hfree. exists d. split; [apply in_or_app; by left|done].
    + assert (Hnb : ~ below acc nm c).
      { intros [k Hk]. apply (no_cycle m c nm Hf Hc). exists k.
        by apply (climbs_original m acc). }
      rewrite (P2 nm Hnb), Hcp, J3. destruct (decide (Some nm = Some nm)); [|done]. simpl.
      by rewrite fold_left_app.
Qed.

End DestroyStep.

(** The end of [destroy], on a registry whose descendants of [nm] are gone. *)
Lemma destroy_self_pruned nm m l m1 l1 :
  layers m !! nm = Some l ->
  (forall x, x <> nm -> below m x nm -> layers m1 !! x = None) ->
  (forall x, ~ below m x nm -> layers m1 !! x = layers m !! x) ->
  layers m1 !! nm = Some l1 -> UILayer.parent l1 = UILayer.parent l ->
  pruned nm m (destroy_self nm l m1).
Proof.
  intros Hl A1 A2 Hl1 Hp. split.
  - intros x Hb. rewrite (destroy_self_layers nm l m1 l1 x Hl1).
    destruct (decide (x = nm)); [done|]. by rewrite A1.
  - intros x Hnb. rewrite (destroy_self_layers nm l m1 l1 x Hl1).
    rewrite decide_False by (intros ->; apply Hnb; exists 0; constructor).
    rewrite A2 by done. unfold parent_of. rewrite Hl, Hp. done.
Qed.

Lemma destroy_go_pruned fuel :
  forall nm m l,
    forest m -> layers m !! nm = Some l -> shallow m fuel nm ->
    pruned nm m (fst (destroy_go fuel nm m)).
Proof.
  induction fuel as [|f IH]; intros nm m l Hf Hl Hsh.
  - cbn [destroy_go]. rewrite Hl. cbn [fst].
    assert (Hcs : children_of nm m = []).
    { destruct (children_of nm m) as [|c tl] eqn:E; [done|].
      assert (Hc : parent_of c m = Some nm).
      { apply (forest_child m Hf). rewrite E. by left. }
      pose proof (Hsh c 1 (climbs_up m 0 c nm nm Hc (climbs_here m nm))). lia. }
    apply (destroy_self_pruned nm m l m l); try done.
    intros x Hxn Hb. destruct (below_child m x nm Hf Hb Hxn) as (c & Hin & _).
    rewrite Hcs in Hin. destruct Hin.
  - cbn [destroy_go]. rewrite Hl. cbn [fst].
    destruct (destroy_children_step (fun acc child => fst (destroy_go f child acc)) (S f)
                (fun c acc lc Hfa Hlc Hb =>
                   IH c acc lc Hfa Hlc (fun x k Hk => le_S_n _ _ (Hb x k Hk)))
                nm m l Hf Hl Hsh (UILayer.children l) [] m)
      as (_ & J1 & J2 & J3); try done.
    { intros x (d & [] & _). }
    eapply (destroy_self_pruned nm m l); [done| | |exact J3|apply detach_all_parent].
    + intros x Hxn Hb. apply J1. destruct (below_child m x nm Hf Hb Hxn) as (c & Hin & Hbc).
      exists c. split; [|done]. unfold children_of in Hin. by rewrite Hl in Hin.
    + intros x Hnb. apply J2.
      * intros (d & Hd & [k Hk]). apply Hnb. exists (S k).
        eapply climbs_snoc; [done|]. apply (forest_child m Hf).
        unfold children_of. by rewrite Hl.
      * intros ->. apply Hnb. exists 0. constructor.
Qed.



Lemma forest_same_tree m m' :
  (forall x, parent_of x m' = parent_of x m) ->
  (forall x, children_of x m' = children_of x m) ->
  forest m -> forest m'.
Proof.
  intros Hp Hc [T1 T2 T3 [rank T4]]. split.
  - intros p c. rewrite Hc, Hp. apply T1.
  - intros c p. rewrite Hc, Hp. apply T2.
  - intros p. rewrite Hc. apply T3.
  - exists rank. intros c p. rewrite Hp. apply T4.
Qed.

Lemma forest_replace nm l l' m h :
  layers m !! nm = Some l ->
  UILayer.parent l' = UILayer.parent l -> UILayer.children l' = UILayer.children l ->
  forest m -> forest {| layers := <[nm := l']> (layers m); host := h |}.
Proof.
  intros Hl Hp Hc. apply forest_same_tree; intros x; unfold parent_of, children_of;
    cbn [layers]; (destruct (decide (x = nm)) as [->|Hne];
      [rewrite lookup_insert_eq, Hl; done | by rewrite lookup_insert_ne]).
Qed.

Lemma forest_empty : forest empty.
Proof.
  split; try done.
  - intros p. constructor.
  - exists (fun _ => 0). intros c p Hp. done.
Qed.

Lemma call_tree c l h :
  UILayer.parent (fst (UILayer.call c (l, h))) = UILayer.parent l
  /\ UILayer.children (fst (UILayer.call c (l, h))) = UILayer.children l.
Proof.
  destruct c; cbn [UILayer.call]; try done.
  - unfold UILayer.on. by destruct (alist_has ty (UILayer.masterHandlers l)).
  - unfold UILayer.off. destruct (existsb _ _); [done|].
    by destruct (alist_get ty (UILayer.masterHandlers l)).
  - unfold UILayer.onContainer. by destruct (UILayer.rogueDOMContainer h).
Qed.

Lemma forest_call_on nm c m : forest m -> forest (call_on nm c m).
Proof.
  intros Hf. unfold call_on. destruct (layers m !! nm) as [l|] eqn:E; [|done].
  pose proof (call_tree c l (host m)) as [Hp Hc].
  destruct (UILayer.call c (l, host m)) as [l' h']. by eapply forest_replace.
Qed.

Lemma forest_create nm zIndex parent m m' :
  forest m -> create nm zIndex (named parent) m = Some m' -> forest m'.
Proof.
  intros Hf Hcr. unfold create in Hcr. unfold has in Hcr.
  destruct (layers m !! nm) as [?|] eqn:Hnm; [done|].
  destruct (resolveParent (named parent) m) as [parentLayer m1] eqn:Hres.
  assert (Hm1 : layers m1 = layers m
                /\ match parentLayer with
                   | Some p => is_Some (layers m !! p)
                   | None => True
                   end).
  { unfold resolveParent, named in Hres. destruct parent as [p|]; simpl in Hres.
    - destruct (String.eqb p ""); [by injection Hres as <- <-|].
      unfold get in Hres. destruct (layers m !! p) eqn:Ep; injection Hres as <- <-; [|done].
      split; [done|]. by rewrite Ep.
    - by injection Hres as <- <-. }
  destruct Hm1 as [Hm1 Hpar]. rewrite Hm1 in Hcr.
  set (z := match zIndex with Some z => z | None => 0%Z end) in *.
  assert (Hnone : forall c, parent_of c m <> Some nm).
  { intros c Hc. destruct (parent_registered m c nm Hf Hc). congruence. }
  assert (Hp' : forall x, parent_of x m' = if decide (x = nm) then parentLayer else parent_of x m).
  { intros x. unfold parent_of. destruct parentLayer as [p|]; injection Hcr as <-.
    - unfold update. cbn [layers]. destruct Hpar as [lp Hlp].
      assert (Hpn : p <> nm) by congruence.
      rewrite lookup_insert_ne, Hlp by done. cbn [layers].
      destruct (decide (x = nm)) as [->|Hxn].
      + rewrite lookup_insert_ne, lookup_insert_eq by done. done.
      + destruct (decide (x = p)) as [->|Hxp].
        * rewrite lookup_insert_eq, Hlp. done.
        * by rewrite !lookup_insert_ne.
    - cbn [layers]. destruct (decide (x = nm)) as [->|Hxn].
      + by rewrite lookup_insert_eq.
      + by rewrite lookup_insert_ne. }
  assert (Hc' : forall x, children_of x m'
                = if decide (x = nm) then []
                  else if decide (parentLayer = Some x) then children_of x m ++ [nm]
                  else children_of x m).
  { intros x. unfold children_of. destruct parentLayer as [p|]; injection Hcr as <-.
    - unfold update. cbn [layers]. destruct Hpar as [lp Hlp].
      assert (Hpn : p <> nm) by congruence.
      rewrite lookup_insert_ne, Hlp by done. cbn [layers].
      destruct (decide (x = nm)) as [->|Hxn].
      + rewrite lookup_insert_ne, lookup_insert_eq by done. done.
      + destruct (decide (x = p)) as [->|Hxp].
        * rewrite lookup_insert_eq, Hlp. by rewrite decide_True.
        * rewrite !lookup_insert_ne by done. rewrite decide_False; [done|congruence].
    - cbn [layers]. destruct (decide (x = nm)) as [->|Hxn].
      + by rewrite lookup_insert_eq.
      + rewrite lookup_insert_ne by done. by rewrite decide_False. }
  assert (Hreg : forall p c, In c (children_of p m) -> c <> nm).
  { intros p c Hin ->. apply (forest_child m Hf) in Hin.
    destruct (child_registered m nm p Hin). congruence. }
  split.
  - intros p c. rewrite Hc', Hp'. destruct (decide (p = nm)) as [->|Hpn]; [done|].
    destruct (decide (parentLayer = Some p)) as [->|Hpp].
    + intros Hin. apply in_app_or in Hin as [Hin|[<-|[]]].
      * rewrite decide_False by (by eapply Hreg). by apply (forest_child m Hf).
      * by rewrite decide_True.
    + intros Hin. rewrite decide_False by (by eapply Hreg). by apply (forest_child m Hf).
  - intros c p. rewrite Hc', Hp'. destruct (decide (c = nm)) as [->|Hcn].
    + intros ->. destruct Hpar as [lp Hlp].
      rewrite decide_False by congruence. rewrite decide_True by done.
      apply in_or_app. right. by left.
    + intros Hp. rewrite decide_False by (intros ->; by apply (Hnone c)).
      pose proof (forest_parent m Hf c p Hp) as Hin.
      destruct (decide (parentLayer = Some p)); [apply in_or_app; by left|done].
  - intros p. rewrite Hc'. destruct (decide (p = nm)); [constructor|].
    destruct (decide (parentLayer = Some p)); [|apply (forest_nodup m Hf)].
    apply NoDup_app. split; [apply (forest_nodup m Hf)|]. split; [|apply NoDup_singleton].
    intros x Hx Hx'. apply list_elem_of_In in Hx. apply list_elem_of_In in Hx'.
    destruct Hx' as [<-|[]]. by apply (Hreg p nm).
  - destruct (forest_rank m Hf) as [rank Hr].
    exists (fun x => if decide (x = nm)
                     then match parentLayer with Some p => S (rank p) | None => 0 end
                     else rank x).
    intros c p. rewrite Hp'. destruct (decide (c = nm)) as [->|Hcn].
    + intros ->. destruct Hpar as [lp Hlp]. rewrite decide_False by congruence. lia.
    + intros Hp. rewrite decide_False by (intros ->; by apply (Hnone c)). by apply Hr.
Qed.

Lemma destroy_pruned nm m l :
  forest m -> layers m !! nm = Some l -> pruned nm m (fst (destroy nm m)).
Proof. intros Hf Hl. apply (destroy_go_pruned _ nm m l Hf Hl). by apply forest_shallow. Qed.

Lemma forest_destroy nm m : forest m -> forest (fst (destroy nm m)).
Proof.
  intros Hf. destruct (layers m !! nm) as [l|] eqn:E.
  - eapply pruned_forest; [done|]. by eapply destroy_pruned.
  - unfold destroy. destruct (size (layers m)); cbn [destroy_go]; by rewrite E.
Qed.

(** [reset()] on a registered layer of a forest. *)
Lemma reset_spec nm m l :
  forest m -> layers m !! nm = Some l ->
  forest (reset nm m)
  /\ (forall x, x <> nm -> below m x nm -> layers (reset nm m) !! x = None)
  /\ (forall x, ~ below m x nm -> layers (reset nm m) !! x = layers m !! x)
  /\ exists l',
       layers (reset nm m) !! nm = Some l'
       /\ UILayer.parent l' = UILayer.parent l /\ UILayer.children l' = []
       /\ UILayer.childNodes l' = [] /\ UILayer.delegatedListeners l' = []
       /\ UILayer.masterHandlers l' = [] /\ UILayer.cleanupTasks l' = []
       /\ UILayer.shown l' = UILayer.shown l /\ UILayer.zIndex l' = UILayer.zIndex l.
Proof.
  intros Hf Hl. unfold reset. rewrite Hl.
  destruct (destroy_children_step (fun acc child => fst (destroy child acc))
              (size (layers m))
              (fun c acc lc Hfa Hlc _ => destroy_pruned c acc lc Hfa Hlc)
              nm m l Hf Hl (forest_shallow m nm Hf) (UILayer.children l) [] m)
    as (Hf1 & J1 & J2 & J3); try done.
  { intros x (d & [] & _). }
  set (m1 := fold_left _ (UILayer.children l) m) in *. rewrite J3.
  set (l1 := fold_left (fun a c => detach_child c a) (UILayer.children l) l) in *.
  assert (Hch : UILayer.children l1 = []).
  { unfold l1. rewrite detach_all_children. apply remove_all_listed. }
  assert (Hkeep : UILayer.shown l1 = UILayer.shown l /\ UILayer.zIndex l1 = UILayer.zIndex l).
  { apply detach_all_keeps. }
  destruct (UILayer.clearListeners (UILayer.with_childNodes [] l1) (host m1))
    as [l2 h2] eqn:Ec.
  assert (Hl2 : l2 = fst (UILayer.clearListeners (UILayer.with_childNodes [] l1) (host m1)))
    by (by rewrite Ec).
  split; [|split; [|split]].
  - eapply forest_replace; [exact J3| | |exact Hf1]; by rewrite Hl2.
  - intros x Hxn Hb. cbn [layers]. rewrite lookup_insert_ne by done. apply J1.
    destruct (below_child m x nm Hf Hb Hxn) as (c & Hin & Hbc).
    exists c. split; [|done]. unfold children_of in Hin. by rewrite Hl in Hin.
  - intros x Hnb. cbn [layers].
    assert (Hxn : x <> nm) by (intros ->; apply Hnb; exists 0; constructor).
    rewrite lookup_insert_ne by done. apply J2; [|done].
    intros (d & Hd & [k Hk]). apply Hnb. exists (S k).
    eapply climbs_snoc; [done|]. apply (forest_child m Hf).
    unfold children_of. by rewrite Hl.
  - exists l2. cbn [layers]. rewrite lookup_insert_eq. split; [done|].
    rewrite Hl2. unfold UILayer.clearListeners. cbn.
    destruct Hkeep as [Hs Hz]. rewrite Hch, Hs, Hz. unfold l1.
    rewrite detach_all_parent. done.
Qed.

Lemma forest_reset nm m : forest m -> forest (reset nm m).
Proof.
  intros Hf. destruct (layers m !! nm) as [l|] eqn:E.
  - by apply (reset_spec nm m l).
  - unfold reset. by rewrite E.
Qed.

Lemma forest_run_op m op : forest m -> forest (run_op m op).
Proof.
  intros Hf. destruct op as [nm z p|nm|nm|nm c]; cbn [run_op].
  - destruct (create nm z (named p) m) as [m'|] eqn:E; [by eapply forest_create|done].
  - by apply forest_destroy.
  - by apply forest_reset.
  - by apply forest_call_on.
Qed.

Lemma forest_run_ops ops : forall m, forest m -> forest (run_ops ops m).
Proof.
  induction ops as [|op tl IH]; intros m Hf; [done|]. apply IH. by apply forest_run_op.
Qed.


Lemma forest_reached ops : forest (run_ops ops empty).
Proof. apply forest_run_ops, forest_empty. Qed.

(** X20. Whatever layers were created, destroyed, reset and used before:
    every child a layer lists is registered and names the layer as its
    parent, every layer that names a parent is registered and listed by it,
    exactly once, following [parent] never comes back to the same layer,
    and a chain of parents is no longer than the registry is large, which
    bounds the depth of the recursion of [destroy]. *)
Theorem registry_stays_a_forest :
  forall (ops : list LayerOp),
    let m := run_ops ops empty in
    (forall p c, In c (children_of p m) ->
                 parent_of c m = Some p /\ is_Some (layers m !! c))
    /\ (forall c p, parent_of c m = Some p ->
                    In c (children_of p m) /\ is_Some (layers m !! p))
    /\ (forall p, NoDup (children_of p m))
    /\ (forall x k, ~ climbs m (S k) x x)
    /\ (forall x z k, climbs m k x z -> k <= size (layers m)).
Proof.
  intros ops m. pose proof (forest_reached ops) as Hf. fold m in Hf.
  split; [|split; [|split; [|split]]].
  - intros p c Hin. pose proof (forest_child m Hf p c Hin) as Hp.
    split; [done|]. by eapply child_registered.
  - intros c p Hp. split; [by apply (forest_parent m Hf)|]. by eapply parent_registered.
  - apply (forest_nodup m Hf).
  - intros x k Hk. destruct (forest_rank m Hf) as [rank Hr].
    pose proof (climbs_rank m rank (S k) x x Hr Hk). lia.
  - intros x z k Hk. by apply (forest_shallow m z Hf x k).
Qed.





End ForestCoverage.

(** ** Prefabs instantiated one by one *)

Section BatchedCoverage.
Import FocusState.

Lemma resolved_one e n :
  resolved e [n] = match instantiable e n with Some p => [p] | None => [] end.
Proof. unfold resolved. rewrite omap_cons. by destruct (instantiable e n). Qed.

Lemma resolved_cons e n tl : resolved e (n :: tl) = resolved e [n] ++ resolved e tl.
Proof. apply (resolved_app e [n] tl). Qed.

(** The loop, left to run to its end. *)
Lemma batched_loop_alone stateName slot delayMs v names :
  forall e L,
    _entryVersion e = v -> instantiatedPrefabs e !! slot = Some L ->
    let e' := finish (batched_loop stateName slot delayMs v names e) in
    let found := resolved e names in
    _entryVersion e' = v
    /\ same_engine e e'
    /\ scene e' = scene e ++ combine (seq (instanceSeq e) (length found)) found
    /\ instanceSeq e' = instanceSeq e + length found
    /\ instantiatedPrefabs e'
       = <[slot := L ++ seq (instanceSeq e) (length found)]> (instantiatedPrefabs e).
Proof.
  induction names as [|n tl IH]; intros e L Hv HL; cbv zeta.
  - cbn. rewrite !app_nil_r, Nat.add_0_r. rewrite insert_id by done.
    repeat split; done.
  - cbn [batched_loop]. rewrite Hv, Nat.eqb_refl. cbn [negb].
    match goal with
    | |- context [finish (instantiate n ?K e)] =>
        destruct (instantiate_spec n K e) as (e2 & Hfin & Hs2 & Hq2 & Hv2 & Hp2 & He2)
    end.
    rewrite Hfin. clear Hfin. cbv zeta.
    set (r := match instantiable e n with Some _ => Some (instanceSeq e) | None => None end)
      in *.
    set (e3 := match r with
               | Some i => set_slot slot (get_slot slot e2 ++ [i]) e2
               | None => e2
               end).
    assert (Hfin : finish (if Nat.ltb 0 delayMs
                           then Susp e3 (batched_loop stateName slot delayMs v tl)
                           else batched_loop stateName slot delayMs v tl e3)
                   = finish (batched_loop stateName slot delayMs v tl e3)).
    { by destruct (Nat.ltb 0 delayMs). }
    rewrite Hfin. clear Hfin.
    assert (Hg : get_slot slot e2 = L) by (unfold get_slot; by rewrite Hp2, HL).
    rewrite resolved_cons, resolved_one, length_app.
    assert (Hres : forall e3', same_engine e2 e3' -> resolved e3' tl = resolved e tl).
    { intros e3' H. apply resolved_same. by eapply same_engine_trans. }
    subst r e3. destruct (instantiable e n) as [p|]; cbn [length app] in *.
    + set (e3 := set_slot slot (get_slot slot e2 ++ [instanceSeq e]) e2).
      destruct (IH e3 (L ++ [instanceSeq e])) as (Hv' & He' & Hs' & Hq' & Hp').
      { cbn. congruence. }
      { unfold e3, set_slot; cbn. rewrite lookup_insert_eq. by rewrite Hg. }
      rewrite (Hres e3 (same_engine_refl e2)) in *.
      change (scene e3) with (scene e2) in Hs'.
      change (instanceSeq e3) with (instanceSeq e2) in *.
      rewrite Hq2, Nat.add_1_r in *.
      split; [done|]. split; [by eapply same_engine_trans|]. split.
      { rewrite Hs', Hs2, <- app_assoc. done. }
      split; [lia|].
      rewrite Hp'. unfold e3, set_slot; cbn. rewrite insert_insert_eq, Hp2.
      by rewrite <- app_assoc.
    + destruct (IH e2 L) as (Hv' & He' & Hs' & Hq' & Hp'); [by rewrite Hv2 | by rewrite Hp2 |].
      rewrite (Hres e2 (same_engine_refl e2)) in *.
      rewrite Nat.add_0_r in Hq2. rewrite app_nil_r in Hs2.
      rewrite Hq2, Hs2, Hp2 in *. cbn [Nat.add].
      split; [done|]. split; [by eapply same_engine_trans|]. done.
Qed.

(** X23. The enter hook of [withPrefabsBatched], with nothing running in
    between, leaves the scene, the list of instances of the call, the entry
    version and the engine as the enter hook of [withPrefabs] for the same
    names does, whatever the delay is: one instance for every name that is
    instantiable, in the order of the names. Nothing is said of the two
    traces, which differ: [withPrefabs] starts every call before any of them
    goes on, so the lines [find] logs come before the first instantiation. *)
Theorem batched_entry_matches_withPrefabs :
  forall (stateName : string) (slot delayMs : nat) (prefabNames : list string)
         (payload : Payload) (e : Env),
    let b := finish (batched_enter stateName slot delayMs prefabNames e) in
    let w := finish (enter_hook stateName (PrefabsEnter slot prefabNames) payload e) in
    let found := resolved e prefabNames in
    scene b = scene e ++ combine (seq (instanceSeq e) (length found)) found
    /\ scene b = scene w
    /\ instantiatedPrefabs b = instantiatedPrefabs w
    /\ get_slot slot b = seq (instanceSeq e) (length found)
    /\ instanceSeq b = instanceSeq w
    /\ _entryVersion b = _entryVersion w
    /\ same_engine b w.
Proof.
  intros stateName slot delayMs prefabNames payload e. cbv zeta.
  unfold batched_enter.
  destruct (batched_loop_alone stateName slot delayMs (_entryVersion e) prefabNames
              (set_slot slot [] e) []) as (Bv & Be & Bs & Bq & Bp).
  { done. }
  { unfold set_slot; cbn. by rewrite lookup_insert_eq. }
  set (b := finish (batched_loop stateName slot delayMs (_entryVersion e) prefabNames
                      (set_slot slot [] e))) in *.
  cbn [enter_hook].
  destruct (instantiateMultiple_spec prefabNames
              (fun instances e2 =>
                 if negb (Nat.eqb (_entryVersion e) (_entryVersion e2))
                 then
                   Fin (destroy_all instances
                          (log "prefab"
                             ("Instantiation cancelled for state '" +:+ stateName
                                +:+ "' due to rapid state change. Cleaning up.") e2))
                 else Fin (set_slot slot (get_slot slot e2 ++ instances) e2))
              (set_slot slot [] e))
    as (e2 & Hfin & Ws & Wq & Wv & Wp & We).
  rewrite Hfin. clear Hfin.
  change (_entryVersion (set_slot slot [] e)) with (_entryVersion e) in Wv.
  rewrite Wv, Nat.eqb_refl. cbn [negb finish].
  rewrite (resolved_same e (set_slot slot [] e) prefabNames (same_engine_refl e)) in *.
  change (instanceSeq (set_slot slot [] e)) with (instanceSeq e) in *.
  change (scene (set_slot slot [] e)) with (scene e) in *.
  cbn [app] in Bp.
  assert (Hg : get_slot slot e2 = []).
  { unfold get_slot. rewrite Wp. unfold set_slot; cbn. by rewrite lookup_insert_eq. }
  rewrite Hg. cbn [app].
  set (ids := seq (instanceSeq e) (length (resolved e prefabNames))) in *.
  set (w := set_slot slot ids e2).
  assert (Wscene : scene w = scene e2) by done.
  assert (Wseq : instanceSeq w = instanceSeq e2) by done.
  assert (Wver : _entryVersion w = _entryVersion e2) by done.
  assert (Wlib : prefabLibrary w = prefabLibrary e2) by done.
  assert (Weng : engine w = engine e2) by done.
  assert (Wmap : instantiatedPrefabs w = <[slot := ids]> (instantiatedPrefabs e2)) by done.
  split; [exact Bs|]. split; [by rewrite Bs, Wscene, Ws|]. split.
  { rewrite Bp, Wmap, Wp. unfold set_slot; cbn. by rewrite insert_insert_eq. }
  split.
  { unfold get_slot. rewrite Bp. by rewrite lookup_insert_eq. }
  split; [by rewrite Bq, Wseq, Wq|]. split; [by rewrite Bv, Wver, Wv|].
  destruct Be as [Bl Bg]. destruct We as [Wl Wg]. split; congruence.
Qed.

(** What one call of [instantiate] logs when it makes no instance: the
    prefab list is still empty after the five rounds of [find]; the name is
    the file name of two paths; the name is no path and no file name; the
    engine answers with no object; the engine throws. A name that differs
    from one file name by case only is instantiated. *)
Lemma instantiate_failures_are_logged :
  let alone library answers nameOrPath :=
    finish (instantiate nameOrPath (fun _ e => Fin e)
              (with_engine answers (initial_env library))) in
  trace (alone [] (fun _ => Instantiated) "Enemy")
  = [EvLog "error"
       ("Prefab list is empty. Could not find " +:+ dquote +:+ "Enemy" +:+ dquote +:+ ".")]
  /\ trace (alone ["a/Enemy"; "b/enemy"] (fun _ => Instantiated) "Enemy")
     = [EvLog "error"
          ("Ambiguous prefab name " +:+ dquote +:+ "Enemy" +:+ dquote
             +:+ ". Found multiple matches.")]
  /\ trace (alone ["Enemy"] (fun _ => Instantiated) "Ghost")
     = [EvLog "error"
          ("Could not resolve prefab name or path: " +:+ dquote +:+ "Ghost" +:+ dquote)]
  /\ trace (alone ["Enemy"] (fun _ => Null) "Enemy")
     = [EvLog "error" "RE.Prefab.instantiate failed for path: Enemy"]
  /\ trace (alone ["Enemy"] (fun _ => Thrown) "Enemy")
     = [EvLog "error"
          ("Error during instantiation of prefab " +:+ dquote +:+ "Enemy" +:+ dquote)]
  /\ scene (alone ["units/Enemy"] (fun _ => Instantiated) "enemy") = [(0, "units/Enemy")]
  /\ await_count (instantiate "Enemy" (fun _ e => Fin e) (initial_env [])) = 7
  /\ await_count (instantiate "Enemy" (fun _ e => Fin e) (initial_env ["Enemy"])) = 3.
Proof. vm_compute. repeat split; reflexivity. Qed.

(** The two hooks for a name that does not resolve and one that does: the
    same scene, and the two lines of the trace in the other order. *)
Lemma batched_entry_trace_order :
  let e := initial_env ["Enemy"] in
  trace (finish (batched_enter "arena" 0 0 ["Ghost"; "Enemy"] e))
  = [EvLog "error" ("Could not resolve prefab name or path: " +:+ dquote +:+ "Ghost" +:+ dquote);
     EvInstantiate 0 "Enemy"]
  /\ trace (finish (enter_hook "arena" (PrefabsEnter 0 ["Enemy"; "Ghost"]) None e))
     = [EvLog "error" ("Could not resolve prefab name or path: " +:+ dquote +:+ "Ghost" +:+ dquote);
        EvInstantiate 0 "Enemy"]
  /\ trace (finish (batched_enter "arena" 0 0 ["Enemy"; "Ghost"] e))
     = [EvInstantiate 0 "Enemy";
        EvLog "error" ("Could not resolve prefab name or path: " +:+ dquote +:+ "Ghost" +:+ dquote)].
Proof. vm_compute. repeat split; reflexivity. Qed.

Lemma settle_unfold turns calls rest e :
  settle turns calls rest e
  = Susp e
      (fun e1 =>
         if forallb settled calls then rest (map result calls) e1
         else
           match turns with
           | 0 => rest (map result calls) e1
           | S n =>
               let '(calls1, e2) := advance_all calls e1 in
               settle n calls1 rest e2
           end).
Proof. by destruct turns. Qed.

Lemma meanwhile_settle other turns calls rest e :
  finish (meanwhile other (settle turns calls rest e))
  = finish (settle turns calls rest (other e)).
Proof. by rewrite !settle_unfold. Qed.

(** The caller of [settle] is resumed at the same point whatever follows. *)
Lemma resume_settle turns :
  forall calls k k' e,
    resume_n (await_count (settle turns calls k e)) (settle turns calls k' e)
    = resume_n
        (await_count
           (k (map result (fst (settle_alone turns calls e)))
              (snd (settle_alone turns calls e))))
        (k' (map result (fst (settle_alone turns calls e)))
           (snd (settle_alone turns calls e))).
Proof.
  induction turns as [|n IH]; intros calls k k' e;
    cbn [settle await_count resume_n resume settle_alone];
    destruct (forallb settled calls); try done.
  destruct (advance_all calls e) as [calls1 e1]. apply IH.
Qed.

(** A call that was started in [e] and goes on alone from [ex], where the
    prefab list and the engine are the same. *)
Lemma settle_started n e ex :
  same_engine e ex ->
  let i := fst (start n e) in
  let r := settle_alone (turns_left i) [i] ex in
  let made := instantiable e n in
  map result (fst r) = [match made with Some _ => Some (instanceSeq ex) | None => None end]
  /\ scene (snd r)
     = scene ex ++ match made with Some p => [(instanceSeq ex, p)] | None => [] end
  /\ instanceSeq (snd r) = instanceSeq ex + match made with Some _ => 1 | None => 0 end
  /\ _entryVersion (snd r) = _entryVersion ex
  /\ instantiatedPrefabs (snd r) = instantiatedPrefabs ex
  /\ same_engine ex (snd r).
Proof.
  intros Hsame. cbv zeta.
  pose proof (settle_alone_length (turns_left (fst (start n e))) [fst (start n e)] ex) as Hlen.
  destruct (find_result_spec n e) as (Hf & Hmade & Hnone).
  unfold start, find_loop, retries in *.
  destruct (prefabLibrary e) as [|k keys] eqn:El.
  - cbn [fst] in *.
    assert (Hno : instantiable e n = None) by (unfold instantiable; by rewrite El).
    rewrite Hno.
    destruct (settle_idle (turns_left (Waiting n 4)) [Waiting n 4] ex) as [Hr Hs].
    { by repeat constructor. }
    { destruct Hsame as [-> _]. done. }
    destruct (settle_alone (turns_left (Waiting n 4)) [Waiting n 4] ex) as [calls e'].
    cbn [fst snd] in *. destruct calls as [|c [|c' tl]]; try done.
    cbn [map] in *. rewrite omap_cons in Hr.
    destruct Hs as (Hv & Hp & Hs & Hq & He).
    rewrite app_nil_r, Nat.add_0_r.
    destruct (result c) as [x|]; cbn in Hr; [done|]. done.
  - destruct (find_result n e) as [p e1]. cbn [fst snd] in *.
    specialize (Hmade ltac:(done)).
    destruct (settle_found [p] ex) as (Hr & Hs & Hq & Hv & Hp & He).
    change (max_turns (map Found [p])) with (turns_left (Found p)) in *.
    cbn [map] in Hr, Hs, Hq, Hv, Hp, He.
    destruct (settle_alone (turns_left (Found p)) [Found p] ex) as [calls e'].
    cbn [fst snd] in *. destruct calls as [|c [|c' tl]]; try done.
    cbn [map] in *. rewrite !omap_cons in *.
    rewrite (made_of_same e ex p Hsame), Hmade in *.
    destruct (instantiable e n) as [q|]; cbn in *.
    + destruct (result c) as [x|]; cbn in Hr; [|done]. injection Hr as ->. done.
    + rewrite app_nil_r, Nat.add_0_r in *.
      destruct (result c) as [x|]; cbn in Hr; [done|]. done.
Qed.

(** The loop after the [await]s of its first names, with nothing running in
    between. *)
Lemma resume_batched_loop stateName slot delayMs v before rest :
  forall e,
    _entryVersion e = v ->
    resume_n (await_count (batched_loop stateName slot delayMs v before e))
      (batched_loop stateName slot delayMs v (before ++ rest) e)
    = batched_loop stateName slot delayMs v rest
        (finish (batched_loop stateName slot delayMs v before e)).
Proof.
  induction before as [|n tl IH]; intros e Hv; [done|].
  cbn [app batched_loop]. rewrite Hv, Nat.eqb_refl. cbn [negb].
  unfold instantiate.
  destruct (find_result_spec n e) as (Hf & _ & _).
  destruct (settle_started n e (snd (start n e))) as (Hr & _ & _ & Hv2 & _ & _).
  { unfold start, find_loop, retries.
    destruct (prefabLibrary e); [apply same_engine_refl|].
    destruct (find_result n e). by destruct Hf as (_ & _ & _ & _ & ?). }
  assert (Hv1 : _entryVersion (snd (start n e)) = v).
  { unfold start, find_loop, retries.
    destruct (prefabLibrary e); [done|].
    destruct (find_result n e). destruct Hf as (Hx & _). cbn in *. congruence. }
  destruct (start n e) as [i e1]. cbn [fst snd] in *.
  rewrite resume_settle, finish_settle.
  destruct (settle_alone (turns_left i) [i] e1) as [calls e2]. cbn [fst snd] in *.
  rewrite Hr.
  set (e3 := match match instantiable e n with
                   | Some _ => Some (instanceSeq e1)
                   | None => None
                   end with
             | Some i0 => set_slot slot (get_slot slot e2 ++ [i0]) e2
             | None => e2
             end).
  assert (Hv3 : _entryVersion e3 = v).
  { unfold e3. destruct (instantiable e n); cbn; congruence. }
  destruct (Nat.ltb 0 delayMs); cbn [await_count resume_n resume finish]; by apply IH.
Qed.

Lemma destroy_all_same_engine ids : forall e, same_engine e (destroy_all ids e).
Proof.
  unfold destroy_all. induction ids as [|i tl IH]; intros e; cbn [fold_left].
  - apply same_engine_refl.
  - eapply same_engine_trans; [|apply IH]. by split.
Qed.

Lemma batched_exit_spec slot next e :
  let e' := batched_exit slot next e in
  _entryVersion e' = S (_entryVersion e)
  /\ same_engine e e'
  /\ instanceSeq e' = instanceSeq e
  /\ get_slot slot e' = []
  /\ scene e'
     = List.filter (fun o => negb (existsb (Nat.eqb (fst o)) (get_slot slot e))) (scene e).
Proof.
  cbv zeta. unfold batched_exit. cbn [exit_hook].
  set (e1 := with_version (S (_entryVersion e)) e).
  destruct (destroy_all_spec (get_slot slot e1) e1) as (Hs & Hp & Hq & Hv).
  pose proof (destroy_all_same_engine (get_slot slot e1) e1) as [Hl Hg].
  change (get_slot slot e1) with (get_slot slot e) in *.
  split; [exact Hv|]. split; [by split|].
  split; [exact Hq|]. split.
  { unfold get_slot, set_slot; cbn. by rewrite lookup_insert_eq. }
  exact Hs.
Qed.

Lemma fresh_not_listed (e : Env) (first n : nat) :
  scene_fresh e -> instanceSeq e <= first ->
  forall o, In o (scene e) -> ~ In (fst o) (seq first n).
Proof.
  intros Hfresh Hle o Ho Hin. apply in_seq in Hin.
  unfold scene_fresh in Hfresh. rewrite List.Forall_forall in Hfresh.
  specialize (Hfresh o Ho). lia.
Qed.

Lemma combine_listed (ids : list nat) (names : list string) :
  forall o, In o (combine ids names) -> In (fst o) ids.
Proof. intros [i n] Hin. by apply in_combine_l in Hin. Qed.

(** X24. The state is left (its version advanced, the exit hook of the call
    run) while the enter hook of [withPrefabsBatched] awaits the
    instantiation of one of its prefabs, the ones before it being
    instantiated. The loop checks the version at the start of an iteration
    only: when another name follows, the instance made after the exit is
    destroyed and the scene is as it was before the entry; when the name is
    the last one, its instance stays in the scene and in the list of the
    call, until the state is left again. *)
Theorem batched_exit_during_entry :
  forall (stateName : string) (slot delayMs : nat) (before : list string) (name : string)
         (after : list string) (next : string) (e : Env),
    scene_fresh e ->
    let s := resume_n (batched_awaits stateName slot delayMs before e)
               (batched_enter stateName slot delayMs (before ++ name :: after) e) in
    let e' := finish (meanwhile (batched_exit slot next) s) in
    let kept := match after with [] => resolved e [name] | _ :: _ => [] end in
    let first := instanceSeq e + length (resolved e before) in
    is_suspended s = true
    /\ _entryVersion e' = S (_entryVersion e)
    /\ scene e' = scene e ++ combine (seq first (length kept)) kept
    /\ get_slot slot e' = seq first (length kept).
Proof.
  intros stateName slot delayMs before name after next e Hfresh.
  cbv zeta. unfold batched_awaits, batched_enter.
  set (e0 := set_slot slot [] e).
  assert (H0 : instantiatedPrefabs e0 !! slot = Some []).
  { unfold e0, set_slot; cbn. by rewrite lookup_insert_eq. }
  change (_entryVersion e) with (_entryVersion e0).
  rewrite resume_batched_loop by done.
  destruct (batched_loop_alone stateName slot delayMs (_entryVersion e0) before e0 []
              eq_refl H0) as (Hv & He & Hs & Hq & Hp).
  set (ek := finish (batched_loop stateName slot delayMs (_entryVersion e0) before e0)) in *.
  rewrite (resolved_same e e0 before (same_engine_refl e)) in *.
  change (scene e0) with (scene e) in *.
  change (instanceSeq e0) with (instanceSeq e) in *.
  cbn [app] in Hp.
  set (found := resolved e before) in *.
  set (first := instanceSeq e + length found) in *.
  assert (Hek : same_engine e ek) by exact He.
  cbn [batched_loop]. rewrite Hv, Nat.eqb_refl. cbn [negb]. unfold instantiate.
  (* the call of [instantiate] up to its first [await] *)
  assert (Hstart : same_but_trace ek (snd (start name ek))).
  { unfold start, find_loop, retries.
    destruct (find_result_spec name ek) as (Hf & _ & _).
    destruct (prefabLibrary ek); [apply same_but_trace_refl|].
    by destruct (find_result name ek). }
  pose proof (fun ex H => settle_started name ek ex H) as Hsettle. cbv zeta in Hsettle.
  destruct (start name ek) as [i e1]. cbn [fst snd] in *.
  destruct Hstart as (Sv & Sp & Ss & Sq & Se).
  split; [by rewrite settle_unfold|].
  rewrite meanwhile_settle, finish_settle.
  (* the exit *)
  destruct (batched_exit_spec slot next e1) as (Xv & Xe & Xq & Xg & Xs).
  set (ex := batched_exit slot next e1) in *.
  assert (G1 : get_slot slot e1 = seq (instanceSeq e) (length found)).
  { unfold get_slot. rewrite Sp, Hp. by rewrite lookup_insert_eq. }
  assert (Xscene : scene ex = scene e).
  { rewrite Xs, Ss, Hs, G1, List.filter_app.
    rewrite filter_none_of by (by apply fresh_not_listed).
    rewrite filter_all_of by apply combine_listed. apply app_nil_r. }
  assert (Xseq : instanceSeq ex = first) by (rewrite Xq, Sq; exact Hq).
  assert (Xver : _entryVersion ex = S (_entryVersion e0)) by congruence.
  (* the call goes on *)
  destruct (Hsettle ex) as (Rr & Rs & Rq & Rv & Rp & Re).
  { by eapply same_engine_trans. }
  rewrite (instantiable_same e ek name Hek) in *.
  destruct (settle_alone (turns_left i) [i] ex) as [calls e2]. cbn [fst snd] in *.
  rewrite Rr. clear Rr Hsettle.
  assert (G2 : get_slot slot e2 = []) by (unfold get_slot in *; by rewrite Rp).
  rewrite G2. cbn [app].
  rewrite resolved_one.
  set (e3 := match match instantiable e name with
                   | Some _ => Some (instanceSeq ex)
                   | None => None
                   end with
             | Some i0 => set_slot slot [i0] e2
             | None => e2
             end).
  assert (Hfin : finish (if Nat.ltb 0 delayMs
                         then Susp e3 (batched_loop stateName slot delayMs (_entryVersion e0) after)
                         else batched_loop stateName slot delayMs (_entryVersion e0) after e3)
                 = finish (batched_loop stateName slot delayMs (_entryVersion e0) after e3)).
  { by destruct (Nat.ltb 0 delayMs). }
  rewrite Hfin. clear Hfin.
  assert (V3 : _entryVersion e3 = S (_entryVersion e0)).
  { rewrite <- Xver, <- Rv. unfold e3. by destruct (instantiable e name). }
  assert (S3 : scene e3 = scene e ++ match instantiable e name with
                                     | Some p => [(first, p)]
                                     | None => []
                                     end).
  { unfold e3. rewrite <- Xscene, <- Xseq. revert Rs.
    destruct (instantiable e name); intros Rs; rewrite <- Rs; done. }
  assert (G3 : get_slot slot e3 = match instantiable e name with
                                  | Some p => [first]
                                  | None => []
                                  end).
  { unfold e3. rewrite <- Xseq. destruct (instantiable e name); [|exact G2].
    unfold get_slot, set_slot. cbn [instantiatedPrefabs with_slots].
    by rewrite lookup_insert_eq. }
  destruct after as [|a tl].
  - cbn [batched_loop finish]. change (_entryVersion e0) with (_entryVersion e) in V3.
    split; [exact V3|]. rewrite S3, G3.
    destruct (instantiable e name); cbn [length seq combine]; by split.
  - cbn [batched_loop]. rewrite V3.
    replace (Nat.eqb (_entryVersion e0) (S (_entryVersion e0))) with false
      by (symmetry; apply Nat.eqb_neq; lia).
    cbn [negb finish length seq combine]. rewrite app_nil_r.
    set (e4 := log _ _ e3).
    assert (G4 : get_slot slot e4 = get_slot slot e3) by done.
    rewrite G4, G3.
    destruct (destroy_all_spec (match instantiable e name with
                                | Some _ => [first]
                                | None => []
                                end) e4) as (Ds & Dp & Dq & Dv).
    set (e5 := destroy_all _ e4) in *.
    split; [change (_entryVersion e5 = S (_entryVersion e0)); by rewrite Dv|].
    split.
    + change (scene e5 = scene e). rewrite Ds. change (scene e4) with (scene e3).
      rewrite S3, List.filter_app.
      assert (Hold : forall ids, (forall x, In x ids -> x = first) ->
                List.filter (fun o => negb (existsb (Nat.eqb (fst o)) ids)) (scene e)
                = scene e).
      { intros ids Hids. apply filter_none_of. intros o Ho Hin.
        apply Hids in Hin. unfold scene_fresh in Hfresh.
        rewrite List.Forall_forall in Hfresh. specialize (Hfresh o Ho).
        unfold first in Hin. lia. }
      destruct (instantiable e name) as [p|].
      * rewrite Hold by (intros x [<-|[]]; done).
        cbn. rewrite Nat.eqb_refl. cbn. apply app_nil_r.
      * rewrite Hold by (intros x []). cbn. apply app_nil_r.
    + unfold get_slot, set_slot; cbn. by rewrite lookup_insert_eq.
Qed.

(** The exit during the second of two prefabs, the hook being resumed after
    the three [await]s of the first, and during the first. *)
Lemma batched_exit_during_entry_witness :
  scene (finish (meanwhile (batched_exit 0 "lobby")
                   (resume_n 3 (batched_enter "arena" 0 0 ["Enemy"; "Tree"]
                                  (initial_env ["Enemy"; "Tree"])))))
  = [(1, "Tree")]
  /\ scene (finish (meanwhile (batched_exit 0 "lobby")
                      (resume_n 0 (batched_enter "arena" 0 0 ["Enemy"; "Tree"]
                                     (initial_env ["Enemy"; "Tree"])))))
     = [].
Proof.
  assert (Hfresh : scene_fresh (initial_env ["Enemy"; "Tree"])) by constructor.
  destruct (batched_exit_during_entry "arena" 0 0 ["Enemy"] "Tree" [] "lobby"
              (initial_env ["Enemy"; "Tree"]) Hfresh) as (_ & _ & Hlast & _).
  destruct (batched_exit_during_entry "arena" 0 0 [] "Enemy" ["Tree"] "lobby"
              (initial_env ["Enemy"; "Tree"]) Hfresh) as (_ & _ & Hfirst & _).
  split; [exact Hlast|exact Hfirst].
Defined.

End BatchedCoverage.

(** ** Transitions that are not carried out *)

Section RefusalCoverage.
Import FocusManager.

Lemma untouched_refl fm : untouched fm fm.
Proof. by split. Qed.

Lemma untouched_log category title fm : untouched fm (log category title fm).
Proof. by split. Qed.

Lemma current_is_state name fm : current fm = Some name <-> is_state name fm = true.
Proof.
  unfold is_state. destruct (current fm) as [c|]; [|done].
  rewrite String.eqb_eq. split; [by intros [= ->]|by intros ->].
Qed.

(** X25. A [switch], [push] or [pop] that is not carried out (the state is
    not registered, or is the current one already, or the stack has at most
    one state) returns at once: it waits for no frame, runs no effect and no
    hook, calls no listener, and leaves the stack, the layers, the bus and
    every listener as they were; the trace grows by the one log line of the
    refusal, or by nothing when the state is the current one. *)
Theorem refused_transition_changes_nothing :
  forall (tr : Transition) (fm : t),
    ~ carried_out tr fm ->
    exists fm',
      run tr fm = Resolved fm'
      /\ untouched fm fm'
      /\ trace fm' = trace fm ++ refusal tr fm.
Proof.
  intros [name payload|name payload|] fm Hnot; cbn [run refusal carried_out] in *.
  - unfold switch.
    destruct (is_state name fm && Nat.eqb (length (_stateStack fm)) 1) eqn:Eg.
    + exists fm. split; [done|]. split; [apply untouched_refl|by rewrite app_nil_r].
    + destruct (states fm !! name) as [cfg|] eqn:Ecfg.
      * exfalso. apply Hnot. split; [done|]. intros [Hc Hl].
        apply current_is_state in Hc. rewrite Hc, Hl in Eg. done.
      * eexists. split; [done|]. split; [apply untouched_log|done].
  - unfold push. destruct (is_state name fm) eqn:Eg.
    + exists fm. split; [done|]. split; [apply untouched_refl|by rewrite app_nil_r].
    + destruct (states fm !! name) as [cfg|] eqn:Ecfg.
      * exfalso. apply Hnot. split; [done|]. intros Hc.
        apply current_is_state in Hc. congruence.
      * eexists. split; [done|]. split; [apply untouched_log|done].
  - unfold pop. destruct (Nat.leb (length (_stateStack fm)) 1) eqn:Eg.
    + eexists. split; [done|]. split; [apply untouched_log|done].
    + apply Nat.leb_gt in Eg. exfalso. apply Hnot. lia.
Qed.

(** A state that is not registered, the current state again, and the last
    state of the stack. *)
Lemma refused_transition_changes_nothing_witness :
  (exists fm',
      switch "credits" None Example.in_settings = Resolved fm'
      /\ _stateStack fm' = _stateStack Example.in_settings
      /\ trace fm'
         = trace Example.in_settings
             ++ [EvLog "error" "Attempted to switch to unregistered state 'credits'."])
  /\ (exists fm',
         push "settings-menu" None Example.in_settings = Resolved fm'
         /\ _stateStack fm' = _stateStack Example.in_settings
         /\ trace fm' = trace Example.in_settings ++ []).
Proof.
  assert (Hcur : current Example.in_settings = Some "settings-menu")
    by (vm_compute; reflexivity).
  assert (Hnone : states Example.in_settings !! "credits" = None)
    by (vm_compute; reflexivity).
  split.
  - destruct (refused_transition_changes_nothing (TSwitch "credits" None) Example.in_settings)
      as (fm' & Hrun & Hsame & Htrace).
    { intros [[cfg Hcfg] _]. congruence. }
    exists fm'. split; [exact Hrun|]. split; [apply Hsame|].
    rewrite Htrace. apply (f_equal (app (trace Example.in_settings))).
    unfold refusal, is_state. rewrite Hcur. reflexivity.
  - destruct (refused_transition_changes_nothing (TPush "settings-menu" None)
                Example.in_settings) as (fm' & Hrun & Hsame & Htrace).
    { intros [_ Hne]. by apply Hne. }
    exists fm'. split; [exact Hrun|]. split; [apply Hsame|].
    rewrite Htrace. apply (f_equal (app (trace Example.in_settings))).
    unfold refusal, is_state. rewrite Hcur. reflexivity.
Defined.

End RefusalCoverage.
